(* ===== verification/_CoqProject ===== *)
-Q . S2P
Prelude.v
PriorityQueue.v
PyString.v
PyFloat.v
Types.v
Database.v
Role.v
RoleAdmin.v
RoleQuota.v
RseSelector.v
RseSelectorFacts.v
Regex.v
RseExpression.v
RseExpressionSyntax.v
RseExpressionParser.v
RseExpressionFacts.v
Permission.v
PermissionFacts.v
PermissionSafety.v
Topology.v
TopologyFacts.v
TopologySearch.v
TopologyHops.v
Protocols.v
ProtocolsFacts.v
StateError.v
Counting.v
LockTables.v
RuleGrouping.v
RuleEngine.v
Requests.v
ReplicaWrites.v
RuleInvariant.v
RuleEvents.v
RuleLosses.v
RuleRepair.v
Hierarchy.v
RuleCreation.v
RuleChanges.v
Accounts.v
RuleApply.v
RuleDemo.v
TransferPaths.v
TransferPathsFacts.v
Heartbeats.v
HeartbeatsFacts.v
RequestListing.v
RequestFacts.v
RequestListingFacts.v
Deletion.v
Undertaker.v
Conveyor.v
DeletionFacts.v
UndertakerInvariant.v
ConveyorFacts.v
RuleDetach.v
RuleAttach.v
RuleCreationFacts.v
RuleChangesFacts.v
AccountsFacts.v
RuleSteps.v
RequestSteps.v
FinisherFacts.v
RuleErrors.v
RuleCopies.v
HierarchyFacts.v
HierarchyKept.v
UndertakerFacts.v
