(* ===== verification/Prelude.v ===== *)
(** * Rucio: a verification library for the data-management core

    Rucio manages files over distributed storage.  Users state rules ("three copies of this
    dataset on T2&country=DE"); the core turns them into locks, replicas and transfers, and a
    policy decides who may do what.  This library models the decision-making part of the core,
    [src/lib/rucio/core] with what it uses of [common] and [db/sqla], as executable functions,
    and proves what each part promises.

    ** Conventions

    - An operation that may raise returns a [result] ([Ok] or [Err] with an [exn]); a call to
      the database reads a [Session] ([Database.v]) and one that writes gives the session after
      its commit, a failing call leaving the session of the caller (the rollback).
    - Accounts and scopes are [InternalType]s, dictionaries are [gmap]s where order does not
      matter and lists where it does, integers are [Z] or [nat] where the code only counts
      (Python's are unbounded) and floats are IEEE binary64 ([PyFloat.v]).
    - What the code reads from outside is a class: [RSEExpressions] (what the policy, the
      selector and the roles expect of [parse_expression]), [Random] (the draws of the
      selector), [Collation] (the order of host names in a database), [Backend] (the dates Python and
      the database understand, and which violated constraint is reported), [PriorityMap] (what the
      search expects of a priority queue).  Theorems are about every instance;
      [parsed_expressions] and [heap_priority_map] are the program's own.

    ** Parts

    - [PriorityQueue.v]: class [PriorityQueue] of [common/utils.py], a binary heap with a
      dictionary of positions.  The record has the three attributes, each method is a function
      ([pq_setitem], [pq_pop]...).  The loops run with the size of the heap as fuel, and
      well-formedness is shown never to need more.  The heap refines a finite map with
      extract-minimum ([pq_refines_map]) and is an instance of [PriorityMap].
    - [PyString.v], [PyFloat.v], [Regex.v]: the operations of [str], [float] and [re] the code
      uses.  [Regex.v] is a backtracking matcher; every repetition of its subject consumes a
      character, so the length of the text is the fuel of a star.
    - [Types.v], [Database.v]: names, enumerations and bit masks of [common/types.py],
      [common/utils.py], [db/sqla/constants.py]; the tables the other parts query
      ([db/sqla/models.py]) and the small queries of [core/scope.py], [core/account.py],
      [core/identity.py], [core/did.py], [core/replica.py], [core/lock.py].
    - [Role.v], [RoleAdmin.v], [RoleQuota.v]: [core/role.py].  [Role.v] has the checks:
      patterns ([did_pattern_semantics]), [has_permission] ([has_permission_granted]), the
      cached checkers ([did_filter_exact]).  [RoleAdmin.v] has the writes, as steps on the role
      tables: integrity ([role_tables_integrity]), locked roles ([locked_role_protected]),
      granting and revoking, cleaning.  [RoleQuota.v] has the limits of roles
      ([rse_quota_left_best]).
    - [Permission.v]: [core/permission/generic.py], the whole policy: the dispatch table
      [perm] and one function per [perm_*] and [_rbac_*] function.  Arguments are a dictionary
      of dynamically typed values, so that a missing key or a wrong type raises as in Python.
      [PermissionFacts.v]: roles only add rights, listings show what the policy lets one read,
      roles are inert without RBAC.  [PermissionSafety.v]: what no role may grant.
    - [RseExpression.v]: [core/rse_expression_parser.py]: the syntax check with its regular
      expressions, the parser, the evaluation, the filters and the cache, whose entries are found for 600 seconds ([get_rse_attribute] reads
      the table, not a cache of its own).  The parser's fuel is
      the length of the expression plus one.  [RseExpressionSyntax.v] and
      [RseExpressionParser.v]: check and parser accept the grammar and give its element
      ([expression_grammar]); [RseExpressionFacts.v]: evaluation is the denotation
      ([evaluate_denotation]), and every call of a sequence answers as the tables say, or said not long
      ago ([parse_expression_exact]).
    - [RseSelector.v]: [core/rse_selector.py] with the limits of [core/account_limit.py].
      [RseSelectorFacts.v]: a selection succeeds exactly when it can and is right
      ([select_rse_exact]); quotas are respected ([selector_respects_limits]).
    - [Topology.v]: [core/topology.py]: the graph of RSEs and distances, multihop, the
      backwards Dijkstra search, itineraries.  A search settles a node per round, so that the
      number of nodes plus two is enough fuel ([search_fuel]).  [TopologyFacts.v] has the
      search over any [PriorityMap], [TopologySearch.v] the invariant of a topology and the
      itineraries, [TopologyHops.v] the promises of the loading, of [search_shortest_paths]
      and of [get_hops].

    - [StateError.v], [Counting.v]: the monad [ST] of code that changes a state and may raise
      (an exception that is caught leaves the changes before it), its weakest conditions and
      invariants; numbers of the elements of a list that satisfy a condition.
    - [LockTables.v]: the rows of rules, locks, replicas, requests and data identifiers
      ([db/sqla/models.py]) in one [World].  Locks and replicas are objects that the code shares
      between dictionaries and changes in place: they live at addresses of lists.
    - [RuleGrouping.v]: [core/rule_grouping.py]: the locks, replicas and transfers of a rule, for
      files alone, in datasets or all together, and the repair of stuck locks.
      [RuleCopies.v]: every file gets its copies ([rule_gets_its_copies]).
    - [RuleEngine.v], [RuleRepair.v], [RuleAttach.v]: [core/rule.py] and [core/lock.py] with what
      they use of [core/did.py], [core/replica.py] and [core/request.py]: transfers that succeed or
      fail, replicas that are lost or bad, deletion of rules, notifications; repair, and rules that
      follow the content of their data identifiers.  Texts of exceptions are a parameter.
    - [RuleCreation.v]: [apply_rule] of [core/rule_grouping.py], which takes the files of datasets in
      portions, and [add_rule], [inject_rule], [approve_rule], [deny_rule] of [core/rule.py].  The ids
      the database makes, its hash of a file name and the algorithm that approves rules
      ([default_auto_approve] is the program's own) are parameters.
    - [RuleChanges.v]: [update_rule] with all its options, [reduce_rule] and [move_rule] of [core/rule.py].
    - [Accounts.v]: limits, usage, states and attributes of accounts ([core/account_limit.py],
      [core/account.py]), the counters of accounts and RSEs ([core/account_counter.py],
      [core/rse_counter.py]) and the workers that bring them up to date, a counter at a time ([daemons/abacus]).
      [AccountsFacts.v]: nothing is lost or counted twice ([counters_lose_nothing]), and usage goes with
      the rule ([owner_takes_usage]).
    - [RuleInvariant.v] has the invariant [engine_ok] on what is essential of the state, [RuleEvents.v],
      [RuleLosses.v], [RuleApply.v], [RuleDetach.v], [RuleAttach.v], [RuleCreationFacts.v],
      [RuleChangesFacts.v] that the handlers keep it (of updates, those that do not set the state of
      locks by hand), and [RuleSteps.v] the state machine of all of them ([rules_reflect_locks],
      [tombstones_have_no_locks], [replicating_rule_completes], [delete_rule_releases]).  Its events leave out
      three things that are modelled but can break the invariant: repairs
      ([given_up_repair_leaves_tombstone]), the evaluation of new files when limits cut it short
      ([cut_short_rule_miscounts]), and a rule that is set to STUCK by hand while locks replicate.
      [RuleErrors.v]: what rules keep as errors fits its column ([errors_fit]).  [RuleDemo.v] is an
      engine for the witnesses.
    - [Deletion.v]: the reaper's part of [core/replica.py]: marking replicas ([list_and_mark_unlocked_replicas])
      and deleting them ([delete_replicas]) with the clean-up of collections, archives and data
      identifiers, which takes the number of attachments, and of rows of archives, as fuel.
      [DeletionFacts.v]: what is marked ([reaper_marks_unneeded_replicas]), that the clean-up ends and
      makes no orphans ([deletion_makes_no_orphans]); both are steps of [RuleSteps.v]
      ([locked_replicas_are_kept]).
    - [Undertaker.v]: [delete_dids] and [list_expired_dids] of [core/did.py], and a round of the undertaker
      ([daemons/undertaker/undertaker.py]).  [UndertakerInvariant.v]: it is a step of [RuleSteps.v];
      [UndertakerFacts.v]: what exactly is deleted ([delete_dids_exact]), and that a round ends and keeps the
      hierarchy ([undertaker_keeps_invariants]).
    - [Hierarchy.v]: [core/did.py]: adding data identifiers, attaching files to datasets,
      collections to containers and constituents to archives, opening and closing.  The walks over
      the hierarchy (in [RuleEngine.v] and [RuleRepair.v]) go as deep as there are attachments
      ([content_depth]).  [HierarchyFacts.v]: in a tree this is enough and finds everything;
      [HierarchyKept.v]: every operation keeps the tree ([hierarchy_kept], [hierarchy_walks_exact],
      [hierarchy_walks_end]).
    - [Requests.v]: [core/request.py]: the states of requests, attempts, hops, priorities and the
      throttler.  [RequestFacts.v]: the throttler keeps to a volume and to the order of requests
      ([throttler_respects_volume], [fifo_releases_oldest]), and hops give paths ([paths_of_hops]; a
      walk without circles visits a hop once, so that their number is enough fuel).
    - [Protocols.v]: [rse/rsemanager.py]: the protocols of an RSE for an operation, and the pair of
      protocols for a transfer, with the draws of the shuffles as a parameter.  [ProtocolsFacts.v]: the
      pair is the best one ([matching_scheme_best]).
    - [TransferPaths.v]: [core/transfer.py]: the definitions of transfers with the builder that caches
      them, the strategies that filter and rank sources, and [build_transfer_paths].
      [TransferPathsFacts.v]: every request of the submitter that is no STAGEIN one gets its best paths, or the reason
      why there are none ([requests_get_best_paths]).
    - [Heartbeats.v]: [core/heartbeat.py], the handler of a daemon in [daemons/common.py] and the sharing of
      rows in [db/sqla]: the table of heartbeats, and the numbers of workers.  [RequestListing.v]:
      [core/request.py]: the query that hands requests with their sources to the daemons, and the one that takes
      the next requests.  The hash of names is a parameter.  [HeartbeatsFacts.v], [RequestListingFacts.v]:
      the oldest requests are handed out, with their sources ([listing_hands_out_oldest]), each to one
      worker, whatever the limit ([every_request_has_one_worker]).
    - [ReplicaWrites.v]: [core/replica.py]: new replicas and the states of replicas, which settle locks.
    - [Conveyor.v]: what the conveyor's daemons write, from [core/transfer.py] (preparing, submitting,
      polling), [daemons/conveyor/common.py] (transfer tools and hops; every tool takes a hop, so that
      their number is enough fuel) and [daemons/conveyor/finisher.py]; [perform] is one [operation] of it.
      [ConveyorFacts.v]: every operation keeps the invariant of the engine, so that it is a step of
      [RuleSteps.v].  [RequestSteps.v]: what every operation keeps of requests
      ([sources_and_hops_have_requests], [attempts_are_bounded]).  [FinisherFacts.v]: the finisher
      completes rules ([done_transfers_complete_rules]).

    The policy calls the checks of roles and the expression parser; the selector calls the
    quotas of roles and the parser; the topology calls the priority queue; rules are applied with
    the selector to the files the hierarchy gives, and detaching flags them for a new evaluation;
    rules queue requests, their paths are built with the topology, the protocols and the expression
    parser, and the conveyor tells rules, through their locks, what became of them.

    ** What the theorems show

    - Access control: monotony in the roles, equivalence of cached and direct decisions, what
      is never granted, integrity of the role tables under every sequence of writes.
    - Expressions: syntax check, parser and evaluation agree with a grammar and its meaning.
    - Selection: exactness, quotas and distinctness, whatever is drawn.
    - Topology: the search ends with shortest itineraries; errors say there is none.
    - Containers: the heap is a priority map; every exception is accounted for.
    - Rules: after any of the events of [RuleSteps.step], counters and states are those of the locks, and
      protected data is not up for deletion and not deleted;
      rules complete when their transfers do (while notifications do not raise), files get their copies, deletion takes all locks.
    - Transfers: requests get the best paths and protocols there are, no source or hop outlives its request, attempts are bounded, the throttler keeps to
      its limits, and transfers that are done complete the rules that wait for them.
    - Data identifiers: the hierarchy is well typed and without cycles; walks end and are exact.

    Each part also has its theorems on errors, and on what the code does where it diverges from
    its documentation ([global_limits_never_delegated], [negative_weight_raises],
    [restored_distance_ignored], [other_filters_block], [aware_expiry_raises],
    [detach_skips_approval], [cut_short_rule_miscounts], [given_up_repair_leaves_tombstone], [none_grouping_exceeds],
    [archive_ends_attachments], [deletion_detaches_full_datasets], [rejected_source_is_used],
    [listed_again_behind_utc]).

    ** What is not modelled

    The interfaces (REST, gateway, clients, command line, web), the loops of the daemons and the transfer
    tools are not: they are loops around the core or talk to other services.  Of the core, the
    creation of accounts, identities and scopes, and subscriptions are left out; so are the URLs of transfers, the listings and the
    synchronisations of [core/role.py], the expiring cache of the
    topology, and the multi-VO variant of the policy.  Of the modelled files, log messages are left
    out, rules are made as in an instance without the ends of life of ATLAS, files are
    attached without registering replicas on the way, suspicious files are not declared, and
    concurrency only appears as the order of calls: the row locks of the database are not modelled. *)

From stdpp Require Export base gmap strings list sorting.
From Stdlib Require Export ZArith Lia.

(** ** Python exceptions

    Every operation that may raise returns a [result].  The exceptions are the
    ones the modelled code raises or lets through; [OutOfFuel] is not a Python
    exception: it is what a loop modelled with fuel gives when the fuel runs
    out, and the theorems show that it never does. *)
Inductive exn :=
  | KeyError
  | IndexError
  | TypeError
  | AttributeError
  | ValueError
  | StopIteration
  | SystemError
  | OutOfFuel
  | InvalidRSEExpression (reason : string)
  | RSEWriteBlocked
  | RSEProtocolNotSupported
  | RSEOperationNotSupported
  | RSEProtocolDomainNotSupported
  | NoDistance
  | InvalidRuleWeight
  | InsufficientTargetRSEs
  | InsufficientAccountLimit
  | RSEOverQuota
  | InputValidationError
  | DataIdentifierNotFound
  | AccountNotFound
  | RuleNotFound
  | ReplicaNotFound
  | RSENotFound
  | RoleNotFound
  | RoleReserved
  | RoleLocked
  | RoleInUse
  | RoleAssignmentDisabled
  | RoleAssignmentNotFound
  | RolePermissionNotFound
  | Duplicate
  | UnsupportedOperation
  | CounterNotFound
  | NoResultFound
  | InvalidRequestError
  | InvalidReplicationRule
  | IntegrityError
  | ScopeNotFound
  | DataIdentifierAlreadyExists
  | FileConsistencyMismatch
  | FileAlreadyExists
  | DuplicateContent
  | RucioException
  | InvalidValueForKey
  | StagingAreaRuleRequiresLifetime
  | ManualRuleApprovalBlocked
  | InvalidSourceReplicaExpression
  | DuplicateRule
  | ReplicationRuleCreationTemporaryFailed
  | RuleReplaceFailed
  | FileNotFoundError
  | MultipleResultsFound
  | ArgumentError
  | ResourceTemporaryUnavailable
  | RequestNotFound
  | InvalidObject.

#[export] Instance exn_eq_dec : EqDecision exn.
Proof. solve_decision. Defined.

Inductive result (A : Type) :=
  | Ok (a : A)
  | Err (e : exn).
Arguments Ok {A} _.
Arguments Err {A} _.

Definition bindR {A B} (r : result A) (f : A -> result B) : result B :=
  match r with Ok a => f a | Err e => Err e end.

Definition mapR {A B} (f : A -> B) (r : result A) : result B :=
  match r with Ok a => Ok (f a) | Err e => Err e end.

Declare Scope py_scope.
Delimit Scope py_scope with py.
Open Scope py_scope.

(** [let* x := e in k]: run [e]; an exception of [e] is the exception of the whole. *)
Notation "'let*' x ':=' e 'in' k" := (bindR e (fun x => k))
  (at level 10, x name, e at level 200, k at level 200,
   format "'[v' 'let*'  x  ':='  e  'in' '/' k ']'") : py_scope.
Notation "'let*' ' p ':=' e 'in' k" := (bindR e (fun x => match x with p => k end))
  (at level 10, p strict pattern, e at level 200, k at level 200) : py_scope.

#[export] Instance result_eq_dec {A} `{EqDecision A} : EqDecision (result A).
Proof. solve_decision. Defined.

Definition is_ok {A} (r : result A) : bool :=
  match r with Ok _ => true | Err _ => false end.

(** [d[k]] and [l[i]]: the value, or the exception the lookup raises. *)
Definition or_raise {A} (e : exn) (o : option A) : result A :=
  match o with Some a => Ok a | None => Err e end.

Lemma or_raise_Ok {A} e (o : option A) a : or_raise e o = Ok a <-> o = Some a.
Proof. destruct o; simpl; split; intros; simplify_eq; done. Qed.

Lemma bind_Ok {A B} (r : result A) (f : A -> result B) b :
  bindR r f = Ok b <-> exists a, r = Ok a /\ f a = Ok b.
Proof.
  destruct r as [a|e]; simpl; split.
  - eauto.
  - intros (a' & ? & ?). by simplify_eq.
  - done.
  - intros (a' & ? & ?). done.
Qed.

Lemma map_Ok {A B} (r : result A) (f : A -> B) b :
  mapR f r = Ok b <-> exists a, r = Ok a /\ f a = b.
Proof.
  destruct r as [a|e]; simpl; split.
  - intros [= <-]. eauto.
  - by intros (a' & [= <-] & <-).
  - done.
  - by intros (a' & ? & ?).
Qed.

(** Loops of Python over a list whose body may raise. *)
Fixpoint foldM {A S} (f : S -> A -> result S) (s : S) (l : list A) : result S :=
  match l with
  | [] => Ok s
  | a :: l => let* s' := f s a in foldM f s' l
  end.

Lemma foldM_app {A S} (f : S -> A -> result S) s l1 l2 :
  foldM f s (l1 ++ l2) = bindR (foldM f s l1) (fun s' => foldM f s' l2).
Proof.
  revert s; induction l1 as [|a l1 IH]; intros s; simpl; [done|].
  destruct (f s a); simpl; [apply IH|done].
Qed.

(** An invariant of the body is an invariant of the loop. *)
Lemma foldM_inv {A S} (P : S -> Prop) (f : S -> A -> result S) l s s' :
  (forall (s : S) (a : A) (s' : S), a ∈ l -> P s -> f s a = Ok s' -> P s') ->
  P s -> foldM f s l = Ok s' -> P s'.
Proof.
  revert s; induction l as [|a l IH]; intros s Hf HP; simpl.
  - by intros [= <-].
  - intros (s1 & H1 & H2)%bind_Ok.
    apply (IH s1); [set_solver..|done].
Qed.

(** A body that never raises gives a loop that never raises. *)
Lemma foldM_ok {A S} (P : S -> Prop) (f : S -> A -> result S) l s :
  (forall (s : S) (a : A), a ∈ l -> P s -> exists s', f s a = Ok s' /\ P s') ->
  P s -> exists s', foldM f s l = Ok s' /\ P s'.
Proof.
  revert s; induction l as [|a l IH]; intros s Hf HP; simpl; [eauto|].
  destruct (Hf s a) as (s1 & -> & H1); [set_solver|done|]. simpl.
  apply IH; [set_solver|done].
Qed.

(** [[f(x) for x in l]] when [f] may raise *)
Fixpoint traverse {A B} (f : A -> result B) (l : list A) : result (list B) :=
  match l with
  | [] => Ok []
  | a :: l => let* b := f a in let* bs := traverse f l in Ok (b :: bs)
  end.

Lemma traverse_Ok {A B} (f : A -> result B) l bs : traverse f l = Ok bs <-> Forall2 (fun a b => f a = Ok b) l bs.
Proof.
  revert bs. induction l as [|a l IH]; intros bs; simpl; split.
  - intros [= <-]. constructor.
  - by intros ->%Forall2_nil_inv_l.
  - intros (b & Hb & (bs' & Hl & [= <-])%bind_Ok)%bind_Ok. constructor; [done|by apply IH].
  - intros (b & bs' & Hb & Hl & ->)%Forall2_cons_inv_l. apply IH in Hl. by rewrite Hb, Hl.
Qed.

(** [{f(x): g(x) for x in l}] *)
Definition dict_of {A V} (f : A -> string) (g : A -> V) (l : list A) : gmap string V :=
  foldl (fun m x => <[f x := g x]> m) ∅ l.

Lemma dict_of_app {A V} (f : A -> string) (g : A -> V) l x : dict_of f g (l ++ [x]) = <[f x := g x]> (dict_of f g l).
Proof. unfold dict_of. by rewrite foldl_app. Qed.

Lemma dict_of_Some {A V} (f : A -> string) (g : A -> V) l k v :
  dict_of f g l !! k = Some v -> exists x, x ∈ l /\ f x = k /\ g x = v.
Proof.
  induction l as [|x l IH] using rev_ind; [done|]. rewrite dict_of_app, lookup_insert.
  setoid_rewrite elem_of_app. setoid_rewrite list_elem_of_singleton. case_decide; [|naive_solver].
  intros [= <-]. exists x. split_and!; [by right|done|done].
Qed.

Lemma dict_of_elem {A V} (f : A -> string) (g : A -> V) (l : list A) k : k ∈ f <$> l <-> is_Some (dict_of f g l !! k).
Proof.
  split.
  - induction l as [|x l IH] using rev_ind; [by intros ?%not_elem_of_nil|].
    rewrite fmap_app, elem_of_app, dict_of_app, lookup_insert. case_decide as Hx; [by eexists|].
    intros [Hi|Hi]; [by apply IH|]. apply list_elem_of_singleton in Hi. congruence.
  - intros [v Hv]. apply dict_of_Some in Hv as (x & Hx & <- & _). by apply list_elem_of_fmap_2.
Qed.

(** Short-circuiting [or], [and], [all] and [any] over conditions that may raise. *)
Definition orM (a : result bool) (b : unit -> result bool) : result bool :=
  let* x := a in if x then Ok true else b tt.
Definition andM (a : result bool) (b : unit -> result bool) : result bool :=
  let* x := a in if x then b tt else Ok false.
Definition notM (a : result bool) : result bool := mapR negb a.

Fixpoint allM {A} (f : A -> result bool) (l : list A) : result bool :=
  match l with
  | [] => Ok true
  | a :: l => andM (f a) (fun _ => allM f l)
  end.
Fixpoint anyM {A} (f : A -> result bool) (l : list A) : result bool :=
  match l with
  | [] => Ok false
  | a :: l => orM (f a) (fun _ => anyM f l)
  end.

Notation "a 'orelse' b" := (orM a (fun _ => b)) (at level 55, right associativity) : py_scope.
Notation "a 'andalso' b" := (andM a (fun _ => b)) (at level 54, right associativity) : py_scope.

(** [e >>=* k]: the same sequencing, for a long [e]. *)
Notation "e >>=* k" := (bindR e k) (at level 60, right associativity) : py_scope.

Lemma orM_true a b : (a orelse b) = Ok true <-> a = Ok true \/ (a = Ok false /\ b = Ok true).
Proof. destruct a as [[]|]; simpl; naive_solver. Qed.

Lemma andM_true a b : (a andalso b) = Ok true <-> a = Ok true /\ b = Ok true.
Proof. destruct a as [[]|]; simpl; naive_solver. Qed.

Lemma notM_true a : notM a = Ok true <-> a = Ok false.
Proof. destruct a as [[]|]; simpl; naive_solver. Qed.

Lemma allM_true {A} (f : A -> result bool) l : allM f l = Ok true <-> forall x, x ∈ l -> f x = Ok true.
Proof.
  induction l as [|a l IH]; simpl; [split; [intros _ x ?; set_solver|done]|].
  rewrite andM_true, IH. split.
  - intros [Ha Hl] x [->|Hx]%elem_of_cons; auto.
  - intros Hl. split; [apply Hl; by left|]. intros x Hx. apply Hl. by right.
Qed.

(** ** Lists *)

#[export] Instance filter_Permutation {A} (f : A -> bool) : Proper (Permutation ==> Permutation) (List.filter f).
Proof.
  induction 1 as [|x l l' _ IH|x y l|l l' l'' _ IH1 _ IH2]; simpl; [done|by destruct (f x); rewrite ?IH| |by etrans].
  destruct (f x), (f y); try done. constructor.
Qed.

Lemma elem_of_filter_bool {A} (f : A -> bool) x l : x ∈ List.filter f l <-> x ∈ l /\ f x = true.
Proof. by rewrite list_elem_of_In, filter_In, <-list_elem_of_In. Qed.

Lemma existsb_elem {A} (f : A -> bool) l : existsb f l = true <-> exists x, x ∈ l /\ f x = true.
Proof. rewrite existsb_exists. by setoid_rewrite list_elem_of_In. Qed.

Lemma filter_all {A} (f : A -> bool) l : (forall x, x ∈ l -> f x = true) -> List.filter f l = l.
Proof.
  induction l as [|x l IH]; intros Hl; simpl; [done|]. rewrite (Hl x) by left.
  f_equal. apply IH. intros y Hy. apply Hl. by right.
Qed.

Lemma elem_of_concat_map {A B} (f : A -> list B) l x : x ∈ concat (f <$> l) <-> exists a, a ∈ l /\ x ∈ f a.
Proof.
  induction l as [|a l IH]; simpl.
  - rewrite elem_of_nil. split; [done|]. by intros (a & ?%elem_of_nil & _).
  - rewrite elem_of_app, IH. set_solver.
Qed.

(** [sorted]: elements that compare equal keep their order. *)
Section stable_sort.
Context {A} (R : A -> A -> Prop) `{!RelDecision R}.

Fixpoint sort_in (x : A) (l : list A) : list A :=
  match l with
  | [] => [x]
  | y :: l => if decide (R x y) then x :: y :: l else y :: sort_in x l
  end.
Definition stable_sort (l : list A) : list A := foldr sort_in [] l.

Lemma sort_in_Permutation x l : sort_in x l ≡ₚ x :: l.
Proof. induction l as [|y l IH]; simpl; [done|]. case_decide; [done|]. rewrite IH. constructor. Qed.
Lemma stable_sort_Permutation l : stable_sort l ≡ₚ l.
Proof. induction l as [|x l IH]; simpl; [done|]. by rewrite sort_in_Permutation, IH. Qed.
End stable_sort.

(** By a total and transitive relation, sorting sorts. *)
Lemma sort_in_sorted {A} (R : A -> A -> Prop) `{!RelDecision R} x l :
  (forall a b, ~ R a b -> R b a) -> (forall a b c, R a b -> R b c -> R a c) -> StronglySorted R l -> StronglySorted R (sort_in R x l).
Proof.
  intros Htot Htr. induction l as [|y l IH]; simpl; intros Hl; [by repeat constructor|].
  apply StronglySorted_inv in Hl as [Hl Hy]. case_decide as Hxy.
  - constructor; [by constructor|]. constructor; [done|]. eapply Forall_impl; [exact Hy|]. intros z Hz. by eapply Htr.
  - constructor; [by apply IH|]. apply Forall_forall. intros z Hz. rewrite sort_in_Permutation in Hz.
    apply elem_of_cons in Hz as [->|Hz]; [by apply Htot|]. by eapply Forall_forall in Hy.
Qed.
Lemma stable_sort_sorted {A} (R : A -> A -> Prop) `{!RelDecision R} l :
  (forall a b, ~ R a b -> R b a) -> (forall a b c, R a b -> R b c -> R a c) -> StronglySorted R (stable_sort R l).
Proof. intros Htot Htr. induction l as [|x l IH]; simpl; [constructor|]. by apply sort_in_sorted. Qed.
Lemma head_stable_sort {A} (R : A -> A -> Prop) `{!RelDecision R} l x :
  (forall a b, ~ R a b -> R b a) -> (forall a b c, R a b -> R b c -> R a c) -> (forall a, R a a) ->
  head (stable_sort R l) = Some x -> x ∈ l /\ forall y, y ∈ l -> R x y.
Proof.
  intros Htot Htr Hrefl Hx. pose proof (stable_sort_sorted R l Htot Htr) as Hs. pose proof (stable_sort_Permutation R l) as Hp.
  destruct (stable_sort R l) as [|x' l'] eqn:He; [done|]. injection Hx as ->. split; [rewrite <-Hp; by left|].
  intros y Hy. rewrite <-Hp in Hy. apply StronglySorted_inv in Hs as [_ Hs]. apply elem_of_cons in Hy as [->|Hy]; [done|].
  by eapply Forall_forall in Hs.
Qed.

(** ** Automation *)

(** What a computation of booleans that may raise says of its parts, and what a
    list comprehension says of its elements. *)
Create HintDb py.
#[export] Hint Rewrite @bind_Ok @map_Ok @or_raise_Ok @traverse_Ok @orM_true @andM_true @notM_true @allM_true
  @elem_of_filter_bool @list_elem_of_fmap @list_elem_of_omap @elem_of_app : py.
#[export] Hint Resolve list_elem_of_fmap_2 : py.

Ltac py_logic := autorewrite with py in *; naive_solver.

(** Take apart a computation known to have succeeded. *)
Ltac inv_ok :=
  repeat match goal with
  | H : Ok _ = Ok _ |- _ => injection H as H; try subst
  | H : Err _ = Ok _ |- _ => discriminate H
  | H : bindR _ _ = Ok _ |- _ => apply bind_Ok in H as (? & ? & ?)
  | H : or_raise _ _ = Ok _ |- _ => apply or_raise_Ok in H
  | H : mapR _ _ = Ok _ |- _ => apply map_Ok in H as (? & ? & ?)
  end.

(** Run the monadic plumbing of a goal, leaving the arithmetic alone. *)
Ltac run := cbn [bindR mapR or_raise fst snd negb].

(** Case split on every boolean or decidable test of the goal or of a hypothesis. *)
Ltac split_ifs :=
  repeat (case_match || case_decide || case_bool_decide); simplify_eq/=.

(** The head constant of an application, to unfold whatever function a goal is about. *)
Ltac head_of t := match t with ?f _ => head_of f | _ => t end.
