(* ===== verification/PriorityQueue.v ===== *)
(** * The heap-based priority queue of [lib/rucio/common/utils.py] *)

From S2P Require Import Prelude.

Section PQ.
Context `{Countable K}.

(** [ContainerSlot]: where the item is in the heap, and its priority. *)
Record ContainerSlot := Slot { pos : nat; prio : Z }.

Record PriorityQueue := PQ { heap : list K; container : gmap K ContainerSlot }.

Definition pq_empty : PriorityQueue := PQ [] ∅.

Definition pq_len (q : PriorityQueue) : nat := length (heap q).

Definition pq_contains (q : PriorityQueue) (item : K) : bool :=
  bool_decide (is_Some (container q !! item)).

Definition heap_at (q : PriorityQueue) (i : nat) : result K :=
  or_raise IndexError (heap q !! i).

Definition slot_of (q : PriorityQueue) (k : K) : result ContainerSlot :=
  or_raise KeyError (container q !! k).

Definition pq_getitem (q : PriorityQueue) (item : K) : result Z :=
  mapR prio (slot_of q item).

Definition pq_top (q : PriorityQueue) : result K := heap_at q 0.

(** [self.container[k].pos = p] and [self.container[k].prio = v]. *)
Definition set_pos (q : PriorityQueue) (k : K) (p : nat) : PriorityQueue :=
  PQ (heap q) (alter (fun s => Slot p (prio s)) k (container q)).

Definition set_prio (q : PriorityQueue) (k : K) (v : Z) : PriorityQueue :=
  PQ (heap q) (alter (fun s => Slot (pos s) v) k (container q)).

(** [self.heap[i], self.heap[j] = self.heap[j], self.heap[i]]. *)
Definition swap_heap (h : list K) (i j : nat) (ki kj : K) : list K :=
  <[j := ki]> (<[i := kj]> h).

(** The loop of [_priority_decreased]: move the item at [p] up while its parent
    has a larger priority. *)
Fixpoint decreased_loop (fuel : nat) (q : PriorityQueue) (p : nat) (heap_changed : bool)
    : result (PriorityQueue * bool) :=
  match fuel with
  | O => Err OutOfFuel
  | S fuel =>
    if bool_decide (p = 0) then Ok (q, heap_changed)
    else
      let pos_parent := (p - 1) / 2 in
      let* k := heap_at q p in let* s := slot_of q k in
      let* kp := heap_at q pos_parent in let* sp := slot_of q kp in
      if bool_decide (prio s < prio sp)%Z then
        let q1 := PQ (swap_heap (heap q) p pos_parent k kp) (container q) in
        (* tmp_item is the old parent, now at p; parent is the old item *)
        let q2 := set_pos (set_pos q1 kp (pos s)) k (pos sp) in
        decreased_loop fuel q2 pos_parent true
      else Ok (q, heap_changed)
  end.

Definition priority_decreased (q : PriorityQueue) (item : K) : result (PriorityQueue * bool) :=
  let* s := slot_of q item in decreased_loop (S (pos s)) q (pos s) false.

(** The position of the smallest among the item at [p] and its two children. *)
Definition pos_min (q : PriorityQueue) (heap_len p : nat) : result nat :=
  let pos_child1 := 2 * p + 1 in
  let pos_child2 := 2 * p + 2 in
  let* m := (if bool_decide (pos_child1 < heap_len) then
         let* k1 := heap_at q pos_child1 in let* s1 := slot_of q k1 in
         let* k := heap_at q p in let* s := slot_of q k in
         Ok (if bool_decide (prio s1 < prio s)%Z then pos_child1 else p)
       else Ok p) in
  if bool_decide (pos_child2 < heap_len) then
    let* k2 := heap_at q pos_child2 in let* s2 := slot_of q k2 in
    let* k := heap_at q m in let* s := slot_of q k in
    Ok (if bool_decide (prio s2 < prio s)%Z then pos_child2 else m)
  else Ok m.

(** The loop of [_priority_increased]: move the item at [p] down while one of its
    children has a smaller priority; its own [pos] is only written at the end. *)
Fixpoint increased_loop (fuel : nat) (q : PriorityQueue) (heap_len p : nat) (heap_changed : bool)
    : result (PriorityQueue * bool) :=
  match fuel with
  | O => Err OutOfFuel
  | S fuel =>
    let* m := pos_min q heap_len p in
    let* k := heap_at q p in
    if bool_decide (m = p) then Ok (set_pos q k p, heap_changed)
    else
      let* km := heap_at q m in
      let q1 := PQ (swap_heap (heap q) m p km k) (container q) in
      (* tmp_item is the child that moved up to p *)
      increased_loop fuel (set_pos q1 km p) heap_len m true
  end.

Definition priority_increased (q : PriorityQueue) (item : K) : result (PriorityQueue * bool) :=
  let heap_len := length (heap q) in
  let* s := slot_of q item in increased_loop (S heap_len) q heap_len (pos s) false.

(** [__setitem__]: insert the key, or change its priority. *)
Definition pq_setitem (q : PriorityQueue) (key : K) (value : Z) : result PriorityQueue :=
  match container q !! key with
  | Some s =>
      let existing_prio := prio s in
      let q1 := set_prio q key value in
      if bool_decide (value < existing_prio)%Z then mapR fst (priority_decreased q1 key)
      else if bool_decide (existing_prio < value)%Z then mapR fst (priority_increased q1 key)
      else Ok q1
  | None =>
      let h := heap q ++ [key] in
      let q1 := PQ h (<[key := Slot (length h - 1) value]> (container q)) in
      mapR fst (priority_decreased q1 key)
  end.

(** [pop]: remove and return the item with the smallest priority. *)
Definition pq_pop (q : PriorityQueue) : result (K * PriorityQueue) :=
  let* item := heap_at q 0 in
  let* _ := slot_of q item in
  let* tmp_item := or_raise IndexError (last (heap q)) in
  let h := removelast (heap q) in
  let c := delete item (container q) in
  match h with
  | [] => Ok (item, PQ h c)
  | _ :: _ =>
      let q1 := PQ (<[0 := tmp_item]> h) c in
      let* _ := slot_of q1 tmp_item in
      let* r := priority_increased (set_pos q1 tmp_item 0) tmp_item in
      Ok (item, fst r)
  end.


(** ** Abstract contract

    A queue stands for the finite map from items to priorities. *)
Definition prios (q : PriorityQueue) : gmap K Z := prio <$> container q.

(** The priority found at a position of the heap. *)
Definition hval (q : PriorityQueue) (i : nat) : option Z :=
  heap q !! i ≫= fun k => prios q !! k.

End PQ.
Arguments PriorityQueue K {_ _}.
Arguments PQ {K _ _} _ _.
Arguments heap {K _ _} _.
Arguments container {K _ _} _.
Arguments pq_empty {K _ _}.

(** ** Heap order as a property of the values at the positions *)
Section order.
Implicit Types (v : nat -> option Z) (i p : nat).

Definition parent (i : nat) : nat := (i - 1) / 2.

Lemma parent_lt i : 0 < i -> parent i < i.
Proof. unfold parent. intros. apply Nat.Div0.div_lt_upper_bound; lia. Qed.

Lemma parent_children i p :
  0 < i -> parent i = p <-> i = 2 * p + 1 \/ i = 2 * p + 2.
Proof.
  unfold parent. intros Hi. split.
  - intros <-. pose proof (Nat.div_mod_eq (i - 1) 2).
    pose proof (Nat.mod_upper_bound (i - 1) 2). lia.
  - intros [-> | ->].
    + replace (2 * p + 1 - 1) with (p * 2) by lia. apply Nat.div_mul; lia.
    + replace (2 * p + 2 - 1) with (1 + p * 2) by lia.
      rewrite Nat.div_add by lia. done.
Qed.

Definition ord_at v i : Prop :=
  forall x y, v (parent i) = Some x -> v i = Some y -> (x <= y)%Z.

Definition ordered v : Prop := forall i, 0 < i -> ord_at v i.

(** The parent of [p] is not above the children of [p]. *)
Definition grand_ok v p : Prop :=
  0 < p -> forall c x y, 0 < c -> parent c = p ->
  v (parent p) = Some x -> v c = Some y -> (x <= y)%Z.

Definition up_inv v p : Prop := (forall i, 0 < i -> i <> p -> ord_at v i) /\ grand_ok v p.
Definition down_inv v p : Prop := (forall i, 0 < i -> parent i <> p -> ord_at v i) /\ grand_ok v p.

(** Exchange of two values. *)
Definition swapped v (i j k : nat) : option Z :=
  if decide (k = i) then v j else if decide (k = j) then v i else v k.

Lemma up_step v p x y :
  0 < p -> v p = Some x -> v (parent p) = Some y -> (x < y)%Z ->
  up_inv v p -> up_inv (swapped v p (parent p)) (parent p).
Proof.
  intros Hp Hx Hy Hlt [Hord Hgr]. pose proof (parent_lt p Hp).
  split.
  - intros i Hi Hne a b. unfold swapped.
    destruct (decide (i = p)) as [->|Hip].
    + repeat case_decide; try lia. rewrite Hx, Hy. intros; simplify_eq. lia.
    + destruct (decide (parent i = p)) as [Hpi|]; repeat case_decide; try lia; intros Ha Hb.
      * apply (Hgr Hp i); congruence.
      * simplify_eq. pose proof (Hord i Hi Hip y b).
        replace (parent i) with (parent p) in * by congruence.
        assert (y <= b)%Z; [auto|lia].
      * by apply (Hord i).
  - intros Hu c a b Hc Hpc. unfold swapped. pose proof (parent_lt _ Hu).
    pose proof (parent_lt _ Hc).
    repeat case_decide; try lia; intros Ha Hb.
    + apply (Hord (parent p)); [lia..| |]; congruence.
    + assert (a <= y)%Z by (apply (Hord (parent p)); [lia..| |]; congruence).
      assert (y <= b)%Z; [|lia].
      apply (Hord c); [lia..| |]; congruence.
Qed.

Lemma down_step v p m x y :
  0 < m -> parent m = p -> v m = Some x -> v p = Some y -> (x < y)%Z ->
  (forall c z, 0 < c -> parent c = p -> v c = Some z -> (x <= z)%Z) ->
  down_inv v p -> down_inv (swapped v m p) m.
Proof.
  intros Hm Hpm Hx Hy Hlt Hmin [Hord Hgr]. pose proof (parent_lt m Hm).
  split.
  - intros i Hi Hne a b. unfold swapped. pose proof (parent_lt i Hi).
    destruct (decide (i = m)) as [->|Him].
    + repeat case_decide; try lia. intros; simplify_eq. lia.
    + destruct (decide (parent i = p)) as [Hpi|]; repeat case_decide; try lia; intros Ha Hb.
      * simplify_eq. by apply (Hmin i).
      * subst i. apply (Hgr Hi m); congruence.
      * by apply (Hord i).
  - intros _ c a b Hc Hpc. unfold swapped. pose proof (parent_lt _ Hc).
    repeat case_decide; try lia; intros Ha Hb.
    apply (Hord c); [lia..| |]; congruence.
Qed.

Lemma up_done v p :
  up_inv v p -> (0 < p -> ord_at v p) -> ordered v.
Proof. intros [Hord _] Hp i Hi. destruct (decide (i = p)) as [->|]; auto. Qed.

Lemma down_done v p y :
  down_inv v p -> v p = Some y ->
  (forall c z, 0 < c -> parent c = p -> v c = Some z -> (y <= z)%Z) -> ordered v.
Proof.
  intros [Hord _] Hy Hmin i Hi. destruct (decide (parent i = p)); [|auto].
  intros a b ??. assert (a = y) as -> by congruence. by apply (Hmin i).
Qed.

(** The root of an ordered heap is its minimum. *)
Lemma ordered_root v i x y :
  (forall j, is_Some (v (S j)) -> is_Some (v j)) ->
  ordered v -> v 0 = Some x -> v i = Some y -> (x <= y)%Z.
Proof.
  intros Hdown Hord Hx. revert y.
  induction i as [i IH] using lt_wf_ind. intros y Hy.
  destruct (decide (i = 0)) as [->|Hi]; [simplify_eq; lia|].
  assert (Hp : parent i < i) by (apply parent_lt; lia).
  assert (forall d j, is_Some (v (d + j)) -> is_Some (v j)) as Hd.
  { intros d; induction d; simpl; eauto. }
  destruct (Hd (i - parent i) (parent i)) as [z Hz].
  { replace (i - parent i + parent i) with i by lia. eauto. }
  transitivity z; [by apply (IH (parent i))|]. apply (Hord i); [lia|done..].
Qed.

End order.

(** ** The queue invariant and what each operation does *)
Section PQ_proofs.
Context `{Countable K}.
Implicit Types (q : PriorityQueue K) (k : K) (i p n : nat).

(** The heap lists the items of the container, each once. *)
Definition keys_ok q : Prop :=
  NoDup (heap q) /\ forall k, k ∈ heap q <-> is_Some (container q !! k).

(** Every slot but the one of the item at [p] knows its position. *)
Definition pos_ok_but q p : Prop :=
  forall i k, heap q !! i = Some k -> i <> p -> exists s, container q !! k = Some s /\ pos s = i.

Definition pos_ok q : Prop :=
  forall i k, heap q !! i = Some k -> exists s, container q !! k = Some s /\ pos s = i.

(** The invariant of the queue: keys, positions and heap order. *)
Record pq_wf q : Prop := {
  wf_keys : keys_ok q;
  wf_pos : pos_ok q;
  wf_order : ordered (hval q);
}.

Lemma prios_lookup q k : prios q !! k = prio <$> (container q !! k).
Proof. unfold prios. apply lookup_fmap. Qed.

Lemma hval_Some q i k s :
  heap q !! i = Some k -> container q !! k = Some s -> hval q i = Some (prio s).
Proof. intros Hk Hs. unfold hval. rewrite Hk. simpl. by rewrite prios_lookup, Hs. Qed.

Lemma hval_inv q i x :
  hval q i = Some x -> exists k s, heap q !! i = Some k /\ container q !! k = Some s /\ prio s = x.
Proof.
  unfold hval. destruct (heap q !! i) as [k|] eqn:Hk; simpl; [|done].
  rewrite prios_lookup. destruct (container q !! k) as [s|] eqn:Hs; simpl; [|done].
  intros [= <-]. eauto.
Qed.

Lemma keys_ok_slot q i k :
  keys_ok q -> heap q !! i = Some k -> exists s, container q !! k = Some s.
Proof. intros [_ Hk] Hi. apply Hk. by eapply list_elem_of_lookup_2. Qed.

Lemma set_pos_prios q k p : prios (set_pos q k p) = prios q.
Proof.
  apply map_eq. intros j. rewrite !prios_lookup. simpl.
  destruct (decide (j = k)) as [->|].
  - rewrite lookup_alter_eq. by destruct (container q !! k).
  - by rewrite lookup_alter_ne by congruence.
Qed.

Lemma set_pos_keys q k p : keys_ok q -> keys_ok (set_pos q k p).
Proof.
  intros [Hnd Hk]. split; [done|]. intros j. simpl. rewrite Hk, lookup_alter.
  case_decide; [|done]. subst. rewrite fmap_is_Some. done.
Qed.

Lemma set_pos_hval q k p i : hval (set_pos q k p) i = hval q i.
Proof. unfold hval. by rewrite set_pos_prios. Qed.

(** Exchanging two entries of the heap. *)
Lemma swap_heap_lookup (h : list K) i j ki kj n :
  i <> j -> h !! i = Some ki -> h !! j = Some kj ->
  swap_heap h i j ki kj !! n = if decide (n = i) then Some kj else if decide (n = j) then Some ki else h !! n.
Proof.
  intros Hij Hi Hj. unfold swap_heap.
  pose proof (lookup_lt_Some _ _ _ Hi). pose proof (lookup_lt_Some _ _ _ Hj).
  repeat case_decide; subst.
  - rewrite list_lookup_insert_ne by done. by apply list_lookup_insert_eq.
  - apply list_lookup_insert_eq. by rewrite length_insert.
  - by rewrite !list_lookup_insert_ne by done.
Qed.

Lemma swap_heap_length (h : list K) i j ki kj : length (swap_heap h i j ki kj) = length h.
Proof. unfold swap_heap. by rewrite !length_insert. Qed.

Lemma swap_heap_perm (h : list K) i j ki kj :
  h !! i = Some ki -> h !! j = Some kj -> i <> j -> swap_heap h i j ki kj ≡ₚ h.
Proof.
  intros Hi Hj Hij.
  apply Permutation_inj. split; [apply swap_heap_length|].
  exists (fun n => if decide (n = i) then j else if decide (n = j) then i else n). split.
  - intros a b. repeat case_decide; lia.
  - intros n. rewrite (swap_heap_lookup h i j ki kj n Hij Hi Hj).
    repeat case_decide; subst; auto; try congruence.
Qed.

Lemma swap_keys q i j ki kj c :
  heap q !! i = Some ki -> heap q !! j = Some kj -> i <> j ->
  keys_ok q -> (forall k, is_Some (c !! k) <-> is_Some (container q !! k)) ->
  keys_ok (PQ (swap_heap (heap q) i j ki kj) c).
Proof.
  intros Hi Hj Hij [Hnd Hk] Hc.
  pose proof (swap_heap_perm _ _ _ _ _ Hi Hj Hij) as Hperm.
  split; simpl.
  - by rewrite Hperm.
  - intros k. by rewrite Hperm, Hk, Hc.
Qed.

Lemma swap_hval q i j ki kj n :
  heap q !! i = Some ki -> heap q !! j = Some kj -> i <> j ->
  hval (PQ (swap_heap (heap q) i j ki kj) (container q)) n = swapped (hval q) i j n.
Proof.
  intros Hi Hj Hij. unfold hval, swapped. simpl.
  rewrite (swap_heap_lookup _ _ _ _ _ _ Hij Hi Hj).
  unfold prios. simpl. repeat case_decide; simpl; by rewrite ?Hi, ?Hj.
Qed.

Lemma up_inv_ext (v v' : nat -> option Z) p :
  (forall n, v' n = v n) -> up_inv v p -> up_inv v' p.
Proof.
  intros He [H1 H2]. split.
  - intros i ?? x y. rewrite !He. by apply H1.
  - intros ? c x y. rewrite !He. by apply H2.
Qed.

Lemma down_inv_ext (v v' : nat -> option Z) p :
  (forall n, v' n = v n) -> down_inv v p -> down_inv v' p.
Proof.
  intros He [H1 H2]. split.
  - intros i ?? x y. rewrite !He. by apply H1.
  - intros ? c x y. rewrite !He. by apply H2.
Qed.

Lemma NoDup_pos (h : list K) i j k : NoDup h -> h !! i = Some k -> h !! j = Some k -> i = j.
Proof. intros. by eapply NoDup_lookup. Qed.


(** Looking the slots up in a queue whose keys are in order never raises. *)
Lemma heap_slot q i :
  keys_ok q -> i < length (heap q) ->
  exists k s, heap q !! i = Some k /\ container q !! k = Some s /\ hval q i = Some (prio s).
Proof.
  intros Hk Hi. destruct (lookup_lt_is_Some_2 _ _ Hi) as [k Hki].
  destruct (keys_ok_slot q i k Hk Hki) as [s Hs]. exists k, s. eauto using hval_Some.
Qed.

Lemma up_swap_pos q p k kp s sp :
  0 < p -> keys_ok q -> pos_ok q ->
  heap q !! p = Some k -> heap q !! parent p = Some kp ->
  container q !! k = Some s -> container q !! kp = Some sp ->
  pos_ok (set_pos (set_pos (PQ (swap_heap (heap q) p (parent p) k kp) (container q))
                     kp (pos s)) k (pos sp)).
Proof.
  intros Hp [Hnd _] Hpos Hk Hkp Hs Hsp. pose proof (parent_lt p Hp) as Hlt.
  assert (k <> kp) as Hne by (intros ->; pose proof (NoDup_pos _ _ _ _ Hnd Hk Hkp); lia).
  destruct (Hpos _ _ Hk) as (s' & Hs' & Hps), (Hpos _ _ Hkp) as (sp' & Hsp' & Hpsp).
  simplify_eq. intros i j. simpl.
  rewrite (swap_heap_lookup _ _ _ _ _ i) by (done || lia).
  repeat case_decide; intros Hj; simplify_eq.
  - rewrite lookup_alter_ne, lookup_alter_eq, Hsp by done. simpl. eauto.
  - rewrite lookup_alter_eq, lookup_alter_ne, Hs by done. simpl. eauto.
  - destruct (Hpos _ _ Hj) as (sj & Hsj & Hpj).
    rewrite !lookup_alter_ne by (intros ->; simplify_eq; done). eauto.
Qed.

Lemma decreased_loop_spec fuel q p b :
  p < fuel -> p < length (heap q) -> keys_ok q -> pos_ok q -> up_inv (hval q) p ->
  exists q' b', decreased_loop fuel q p b = Ok (q', b') /\ pq_wf q' /\ prios q' = prios q.
Proof.
  revert q p b. induction fuel as [|fuel IH]; intros q p b Hf Hlen Hk Hpos Hup; [lia|].
  cbn [decreased_loop]. case_bool_decide as Hp.
  { exists q, b. split; [done|]. split; [|done].
    split; [done..|]. apply (up_done _ p Hup). lia. }
  assert (0 < p) as Hp0 by lia. pose proof (parent_lt p Hp0) as Hlt.
  change ((p - 1) / 2) with (parent p). cbv zeta.
  destruct (heap_slot q p Hk Hlen) as (k & s & Hki & Hs & Hv).
  destruct (heap_slot q (parent p) Hk) as (kp & sp & Hkp & Hsp & Hvp); [lia|].
  unfold heap_at, slot_of. rewrite Hki; run. rewrite Hs; run. rewrite Hkp; run. rewrite Hsp; run.
  case_bool_decide as Hcmp.
  - match goal with |- context [decreased_loop fuel ?q2 _ _] =>
      destruct (IH q2 (parent p) true) as (q' & b' & He & Hwf & Hpr) end.
    + lia.
    + simpl. rewrite swap_heap_length. lia.
    + do 2 apply set_pos_keys. apply swap_keys; auto; lia.
    + by apply (up_swap_pos q p).
    + eapply (up_inv_ext (swapped (hval q) p (parent p))).
      { intros n. rewrite !set_pos_hval. apply swap_hval; auto; lia. }
      by apply (up_step _ _ (prio s) (prio sp)).
    + exists q', b'. split; [done|]. split; [done|]. by rewrite Hpr, !set_pos_prios.
  - exists q, b. split; [done|]. split; [|done]. split; [done..|].
    apply (up_done _ p Hup). intros _ x y ??. simplify_eq. lia.
Qed.

(** Which position [pos_min] picks. *)
Lemma pos_min_spec q p y :
  keys_ok q -> p < length (heap q) -> hval q p = Some y ->
  exists m x, pos_min q (length (heap q)) p = Ok m /\ m < length (heap q) /\
    hval q m = Some x /\
    (m = p \/ (0 < m /\ parent m = p /\ (x < y)%Z)) /\
    (forall c z, 0 < c -> parent c = p -> hval q c = Some z -> (x <= z)%Z).
Proof.
  intros Hk Hp Hy. unfold pos_min.
  set (n := length (heap q)) in *.
  assert (Hch : forall c z, 0 < c -> parent c = p -> hval q c = Some z ->
            c < n /\ (c = 2 * p + 1 \/ c = 2 * p + 2)).
  { intros c z Hc Hpc Hz. split; [|by apply parent_children].
    destruct (hval_inv _ _ _ Hz) as (? & ? & ? & _). by eapply lookup_lt_Some. }
  destruct (heap_slot q p Hk Hp) as (k & s & Hki & Hs & Hv).
  assert (prio s = y) as <- by congruence.
  assert (Hpar1 : parent (2 * p + 1) = p) by (apply parent_children; lia).
  assert (Hpar2 : parent (2 * p + 2) = p) by (apply parent_children; lia).
  set (first := (if bool_decide (2 * p + 1 < n) then _ else _ : result nat)).
  assert (exists m x, first = Ok m /\ m < n /\ hval q m = Some x /\ (x <= prio s)%Z /\
            (m = p \/ (m = 2 * p + 1 /\ (x < prio s)%Z)) /\
            (forall z, hval q (2 * p + 1) = Some z -> (x <= z)%Z)) as (m & x & -> & Hm & Hx & Hle & Hcase & Hmin1).
  { unfold first. case_bool_decide as H1.
    - destruct (heap_slot q (2 * p + 1) Hk H1) as (k1 & s1 & Hk1 & Hs1 & Hv1).
      unfold heap_at, slot_of. rewrite Hk1; run. rewrite Hs1; run. rewrite Hki; run. rewrite Hs; run.
      case_bool_decide as Hlt.
      + exists (2 * p + 1), (prio s1). repeat split; auto; [lia|]. intros; simplify_eq; lia.
      + exists p, (prio s). repeat split; auto; [lia|]. intros; simplify_eq; lia.
    - exists p, (prio s). repeat split; auto; [lia|].
      intros z Hz. destruct (Hch (2 * p + 1) z) as [? _]; [lia|done..]. }
  run. case_bool_decide as H2.
  - destruct (heap_slot q (2 * p + 2) Hk H2) as (k2 & s2 & Hk2 & Hs2 & Hv2).
    destruct (heap_slot q m Hk Hm) as (km & sm & Hkm & Hsm & Hvm).
    unfold heap_at, slot_of. rewrite Hk2; run. rewrite Hs2; run. rewrite Hkm; run. rewrite Hsm; run.
    assert (prio sm = x) as -> by congruence.
    case_bool_decide as Hlt.
    + exists (2 * p + 2), (prio s2). repeat split; auto.
      { right. repeat split; auto; lia. }
      intros c z Hc Hpc Hz. destruct (Hch c z Hc Hpc Hz) as [_ [-> | ->]].
      * pose proof (Hmin1 _ Hz). lia.
      * simplify_eq. lia.
    + exists m, x. repeat split; auto.
      { destruct Hcase as [->|[-> ?]]; [by left|right]. repeat split; auto; lia. }
      intros c z Hc Hpc Hz. destruct (Hch c z Hc Hpc Hz) as [_ [-> | ->]]; [auto|].
      simplify_eq. lia.
  - exists m, x. repeat split; auto.
    { destruct Hcase as [->|[-> ?]]; [by left|right]. repeat split; auto; lia. }
    intros c z Hc Hpc Hz. destruct (Hch c z Hc Hpc Hz) as [? [-> | ->]]; [auto|lia].
Qed.

Lemma down_swap_pos q p m k km :
  m <> p -> keys_ok q -> pos_ok_but q p ->
  heap q !! p = Some k -> heap q !! m = Some km ->
  pos_ok_but (set_pos (PQ (swap_heap (heap q) m p km k) (container q)) km p) m.
Proof.
  intros Hne Hkeys Hpos Hk Hkm.
  destruct (keys_ok_slot _ _ _ Hkeys Hkm) as [sm Hsm].
  destruct (Hpos _ _ Hkm Hne) as (sm' & Hsm' & Hpm). simplify_eq.
  intros i j. simpl. rewrite (swap_heap_lookup _ _ _ _ _ i) by done.
  repeat case_decide; intros Hj Him; simplify_eq.
  - rewrite lookup_alter_eq, Hsm. simpl. eauto.
  - destruct (Hpos _ _ Hj ltac:(done)) as (sj & Hsj & Hpj).
    rewrite lookup_alter_ne by (intros ->; simplify_eq; done). eauto.
Qed.

Lemma set_pos_done q p k :
  keys_ok q -> pos_ok_but q p -> heap q !! p = Some k -> pos_ok (set_pos q k p).
Proof.
  intros Hkeys Hpos Hk i j Hj. simpl in *.
  destruct (keys_ok_slot _ _ _ Hkeys Hk) as [s Hs].
  destruct (decide (j = k)) as [->|Hjk].
  - rewrite lookup_alter_eq, Hs. simpl. destruct Hkeys as [Hnd _].
    pose proof (NoDup_pos _ _ _ _ Hnd Hj Hk). subst. eauto.
  - rewrite lookup_alter_ne by done. apply (Hpos i j Hj). intros ->. congruence.
Qed.

Lemma increased_loop_spec fuel q p b :
  length (heap q) - p < fuel -> p < length (heap q) ->
  keys_ok q -> pos_ok_but q p -> down_inv (hval q) p ->
  exists q' b', increased_loop fuel q (length (heap q)) p b = Ok (q', b') /\
    pq_wf q' /\ prios q' = prios q.
Proof.
  revert q p b. induction fuel as [|fuel IH]; intros q p b Hf Hlen Hk Hpos Hdn; [lia|].
  simpl. destruct (heap_slot q p Hk Hlen) as (k & s & Hki & Hs & Hv).
  destruct (pos_min_spec q p (prio s) Hk Hlen Hv) as (m & x & -> & Hm & Hx & Hcase & Hmin).
  unfold heap_at. simpl. rewrite Hki; run.
  case_bool_decide as Hmp.
  - subst m. exists (set_pos q k p), b. split; [done|]. split; [|apply set_pos_prios].
    split; [by apply set_pos_keys|by apply set_pos_done|].
    apply (down_done _ p x); [|by rewrite set_pos_hval|].
    + eapply down_inv_ext; [|done]. intros. apply set_pos_hval.
    + intros c z. rewrite set_pos_hval. apply Hmin.
  - destruct Hcase as [|(Hm0 & Hpm & Hlt)]; [done|].
    pose proof (parent_lt m Hm0).
    destruct (lookup_lt_is_Some_2 _ _ Hm) as [km Hkm]. rewrite Hkm; run.
    match goal with |- context [increased_loop fuel ?q2 _ _ _] => set (q2' := q2) end.
    assert (length (heap q2') = length (heap q)) as Hlen2 by apply swap_heap_length.
    rewrite <- Hlen2.
    destruct (IH q2' m true) as (q' & b' & He & Hwf & Hpr).
    + lia.
    + lia.
    + apply set_pos_keys, swap_keys; auto; lia.
    + by apply down_swap_pos.
    + eapply (down_inv_ext (swapped (hval q) m p)).
      { intros n. unfold q2'. rewrite set_pos_hval. apply swap_hval; auto; lia. }
      by apply (down_step _ _ _ x (prio s)).
    + exists q', b'. split; [done|]. split; [done|].
      rewrite Hpr. unfold q2'. by rewrite set_pos_prios.
Qed.


(** ** The operations keep the invariant and implement a map of priorities *)

Lemma pq_empty_wf : pq_wf (pq_empty : PriorityQueue K).
Proof.
  split.
  - split; simpl; [apply NoDup_nil_2|]. intros k. rewrite lookup_empty.
    split; [set_solver|by intros [? ?]].
  - by intros i k.
  - by intros i Hi x y.
Qed.

Lemma set_prio_keys q k v : keys_ok q -> keys_ok (set_prio q k v).
Proof.
  intros [Hnd Hk]. split; [done|]. intros j. simpl. rewrite Hk, lookup_alter.
  case_decide; [|done]. subst. rewrite fmap_is_Some. done.
Qed.

Lemma set_prio_pos q k v : pos_ok q -> pos_ok (set_prio q k v).
Proof.
  intros Hpos i j Hj. destruct (Hpos i j Hj) as (s & Hs & Hp). simpl.
  destruct (decide (k = j)) as [->|].
  - rewrite lookup_alter_eq, Hs. by eexists.
  - rewrite lookup_alter_ne by done. by eexists.
Qed.

Lemma set_prio_prios q k v :
  is_Some (container q !! k) -> prios (set_prio q k v) = <[k := v]> (prios q).
Proof.
  intros [s Hs]. apply map_eq. intros j. rewrite lookup_insert, !prios_lookup. simpl.
  rewrite lookup_alter. case_decide; [|done]. subst. by rewrite Hs.
Qed.

Lemma set_prio_hval q p k v i :
  keys_ok q -> heap q !! p = Some k ->
  hval (set_prio q k v) i = if decide (i = p) then Some v else hval q i.
Proof.
  intros Hk Hp. destruct (keys_ok_slot _ _ _ Hk Hp) as [s Hs].
  unfold hval. rewrite set_prio_prios by eauto. simpl. destruct Hk as [Hnd _].
  case_decide as Hip.
  - subst. rewrite Hp. simpl. by rewrite lookup_insert_eq.
  - destruct (heap q !! i) as [j|] eqn:Hj; simpl; [|done].
    rewrite lookup_insert_ne; [done|]. intros ->. pose proof (NoDup_pos _ _ _ _ Hnd Hj Hp). done.
Qed.

(** A smaller priority at [p] leaves an order to restore upwards, a larger one downwards. *)
Lemma ordered_lower (v v' : nat -> option Z) p x y :
  ordered v -> v p = Some y -> (x <= y)%Z ->
  (forall i, v' i = if decide (i = p) then Some x else v i) -> up_inv v' p.
Proof.
  intros Hord Hy Hxy He. split.
  - intros i Hi Hne a b. rewrite !He. repeat case_decide; try done; intros ??; simplify_eq.
    + assert (y <= b)%Z; [by eapply Hord|lia].
    + by eapply Hord.
  - intros Hp c a b Hc Hpc. rewrite !He. pose proof (parent_lt p Hp). pose proof (parent_lt c Hc).
    repeat case_decide; try lia; intros ??.
    transitivity y; [by apply (Hord p)|]. apply (Hord c); congruence.
Qed.

Lemma ordered_raise (v v' : nat -> option Z) p x y :
  ordered v -> v p = Some y -> (y <= x)%Z ->
  (forall i, v' i = if decide (i = p) then Some x else v i) -> down_inv v' p.
Proof.
  intros Hord Hy Hxy He. split.
  - intros i Hi Hne a b. rewrite !He. repeat case_decide; try done; intros ??; simplify_eq.
    + assert (a <= y)%Z; [by eapply (Hord p)|lia].
    + by eapply Hord.
  - intros Hp c a b Hc Hpc. rewrite !He. pose proof (parent_lt p Hp). pose proof (parent_lt c Hc).
    repeat case_decide; try lia; intros ??.
    transitivity y; [by apply (Hord p)|]. apply (Hord c); congruence.
Qed.

Lemma pq_find q k :
  pq_wf q -> is_Some (container q !! k) ->
  exists s, container q !! k = Some s /\ heap q !! pos s = Some k /\ hval q (pos s) = Some (prio s).
Proof.
  intros [[Hnd Hk] Hpos _] Hin. apply Hk in Hin. apply list_elem_of_lookup in Hin as [i Hi].
  destruct (Hpos i k Hi) as (s & Hs & <-). exists s. eauto using hval_Some.
Qed.

(** Changing the priority of an item that is in the queue. *)
Lemma pq_setitem_existing q k v :
  pq_wf q -> is_Some (container q !! k) ->
  exists q', pq_setitem q k v = Ok q' /\ pq_wf q' /\ prios q' = <[k := v]> (prios q).
Proof.
  intros Hwf Hin. destruct (pq_find q k Hwf Hin) as (s & Hs & Hi & Hv).
  destruct Hwf as [Hkeys Hpos Hord].
  pose proof (set_prio_prios q k v Hin) as Hpr.
  pose proof (fun i => set_prio_hval q (pos s) k v i Hkeys Hi) as Hval.
  assert (Hslot : container (set_prio q k v) !! k = Some (Slot (pos s) v)).
  { simpl. by rewrite lookup_alter_eq, Hs. }
  assert (Hlen : pos s < length (heap q)) by (by eapply lookup_lt_Some).
  unfold pq_setitem. rewrite Hs. cbv zeta.
  repeat case_bool_decide.
  - unfold priority_decreased, slot_of. rewrite Hslot. run. cbn [pos].
    destruct (decreased_loop_spec (S (pos s)) (set_prio q k v) (pos s) false)
      as (q' & b & -> & Hwf' & Hp'); auto using set_prio_keys, set_prio_pos.
    { eapply ordered_lower; [done..| |]; [|exact Hval]. lia. }
    exists q'. by rewrite Hp'.
  - unfold priority_increased, slot_of. rewrite Hslot. run. cbn [pos].
    destruct (increased_loop_spec (S (length (heap (set_prio q k v)))) (set_prio q k v) (pos s) false)
      as (q' & b & -> & Hwf' & Hp'); auto using set_prio_keys.
    { simpl. lia. }
    { intros i j Hj _. by apply (set_prio_pos q k v Hpos). }
    { eapply ordered_raise; [done..| |]; [|exact Hval]. lia. }
    exists q'. by rewrite Hp'.
  - exists (set_prio q k v). split; [done|]. split; [|done].
    assert (v = prio s) as -> by lia.
    split; auto using set_prio_keys, set_prio_pos.
    intros i Hi0 x y.
    assert (forall n, hval (set_prio q k (prio s)) n = hval q n) as He.
    { intros n. rewrite Hval. case_decide; congruence. }
    rewrite !He. by apply Hord.
Qed.

(** Adding an item. *)
Lemma pq_setitem_new q k v :
  pq_wf q -> container q !! k = None ->
  exists q', pq_setitem q k v = Ok q' /\ pq_wf q' /\ prios q' = <[k := v]> (prios q).
Proof.
  intros [[Hnd Hkeys] Hpos Hord] Hnone. unfold pq_setitem. rewrite Hnone. cbv zeta.
  rewrite length_app. cbn [length]. replace (length (heap q) + 1 - 1) with (length (heap q)) by lia.
  set (q1 := PQ (heap q ++ [k]) (<[k := Slot (length (heap q)) v]> (container q))).
  assert (Hnin : k ∉ heap q) by (rewrite Hkeys, Hnone; by intros [? ?]).
  assert (Hval : forall i, i < length (heap q) -> hval q1 i = hval q i).
  { intros i Hi. unfold hval, q1. simpl. rewrite lookup_app_l by done.
    destruct (lookup_lt_is_Some_2 _ _ Hi) as [j Hj]. rewrite Hj. simpl.
    unfold prios. simpl. rewrite !lookup_fmap, lookup_insert_ne; [done|].
    intros ->. apply Hnin. by eapply list_elem_of_lookup_2. }
  assert (Hnone1 : forall i, length (heap q) < i -> hval q1 i = None).
  { intros i Hi. unfold hval, q1. simpl. by rewrite lookup_ge_None_2 by (rewrite length_app; simpl; lia). }
  unfold priority_decreased, slot_of. change (container q1 !! k) with (<[k := Slot (length (heap q)) v]> (container q) !! k).
  rewrite lookup_insert_eq. run. cbn [pos].
  destruct (decreased_loop_spec (S (length (heap q))) q1 (length (heap q)) false) as (q' & b & -> & Hwf' & Hp').
  - lia.
  - simpl. rewrite length_app. simpl. lia.
  - split; simpl.
    + apply NoDup_app. split; [done|]. split; [|apply NoDup_singleton].
      by intros j Hj ->%list_elem_of_singleton.
    + intros j. rewrite elem_of_app, list_elem_of_singleton, lookup_insert_is_Some, Hkeys.
      destruct (decide (k = j)); split; intros [?|?]; auto; tauto || congruence.
  - intros i j. simpl. intros [Hj|[Hi Hj]]%lookup_app_Some.
    + destruct (Hpos i j Hj) as (s & Hs & Hp). exists s. rewrite lookup_insert_ne; [done|]. congruence.
    + apply list_lookup_singleton_Some in Hj as [? <-].
      rewrite lookup_insert_eq. eexists; split; [done|]. simpl. lia.
  - split.
    + intros i Hi Hne x y. pose proof (parent_lt i Hi).
      destruct (decide (i < length (heap q))).
      * rewrite !Hval by lia. by apply Hord.
      * by rewrite (Hnone1 i) by lia.
    + intros _ c x y Hc Hpc _. pose proof (parent_lt c Hc). by rewrite Hnone1 by lia.
  - exists q'. split; [done|]. split; [done|]. rewrite Hp'. unfold prios. simpl. by rewrite fmap_insert.
Qed.

Lemma hval_down q j : keys_ok q -> is_Some (hval q (S j)) -> is_Some (hval q j).
Proof.
  intros Hk [x Hx]. destruct (hval_inv _ _ _ Hx) as (k & _ & Hi & _).
  apply lookup_lt_Some in Hi.
  destruct (heap_slot q j Hk) as (? & s & _ & _ & ->); [lia|eauto].
Qed.

(** The item at the root has the smallest priority. *)
Lemma root_min q k s :
  pq_wf q -> heap q !! 0 = Some k -> container q !! k = Some s ->
  forall k' x, prios q !! k' = Some x -> (prio s <= x)%Z.
Proof.
  intros Hwf Hk Hs k' x Hx. rewrite prios_lookup in Hx.
  destruct (container q !! k') as [s'|] eqn:Hs'; simplify_eq/=.
  destruct (pq_find q k' Hwf) as (s2 & Hs2 & Hi2 & Hv2); [eauto|].
  assert (s2 = s') as -> by congruence. destruct Hwf as [Hkeys _ Hord].
  apply (ordered_root (hval q) (pos s')); auto using hval_down. by eapply hval_Some.
Qed.


(** The queue after the root has been replaced by the last entry, before the heap
    order is restored. *)
Lemma pop_replace q k t mid :
  pq_wf q -> heap q = k :: mid ++ [t] ->
  let q1 := set_pos (PQ (t :: mid) (delete k (container q))) t 0 in
  keys_ok q1 /\ pos_ok_but q1 0 /\ down_inv (hval q1) 0 /\ prios q1 = delete k (prios q) /\
  exists s, container q1 !! t = Some s /\ pos s = 0.
Proof.
  intros [[Hnd Hkeys] Hpos Hord] Hheap q1. rewrite Hheap in Hnd, Hkeys.
  apply NoDup_cons in Hnd as [Hk Hnd]. apply NoDup_app in Hnd as (Hmid & Hdisj & _).
  assert (Hkt : k <> t) by set_solver.
  assert (Htm : t ∉ mid) by set_solver.
  assert (Hkeys0 : keys_ok (PQ (t :: mid) (delete k (container q)))).
  { split; simpl.
    - by apply NoDup_cons.
    - intros j. rewrite lookup_delete_is_Some, <-Hkeys. set_solver. }
  assert (Hpr : prios q1 = delete k (prios q)).
  { unfold q1. rewrite set_pos_prios. unfold prios. simpl. by rewrite fmap_delete. }
  assert (Hat : forall i, 0 < i -> i <= length mid -> (t :: mid) !! i = heap q !! i).
  { intros i ??. rewrite Hheap. destruct i as [|i]; [lia|]. simpl. by rewrite lookup_app_l by lia. }
  assert (Hat' : forall i j, 0 < i -> (t :: mid) !! i = Some j -> j <> k /\ j <> t /\ heap q !! i = Some j).
  { intros i j Hi Hj. pose proof (lookup_lt_Some _ _ _ Hj) as Hlt. simpl in Hlt.
    rewrite <-Hat by lia. destruct i as [|i]; [lia|]. simpl in *.
    apply list_elem_of_lookup_2 in Hj as Hin. split_and!; [set_solver..|done]. }
  assert (Hval : forall i, 0 < i -> i <= length mid -> hval q1 i = hval q i).
  { intros i Hi Hle. unfold hval. rewrite Hpr. simpl.
    destruct ((t :: mid) !! i) as [j|] eqn:Hj; rewrite (Hat i Hi Hle) in Hj; rewrite Hj; simpl; [|done].
    rewrite <-Hat in Hj by done. destruct (Hat' i j Hi Hj) as (? & _). by rewrite lookup_delete_ne. }
  split; [by apply set_pos_keys|]. split_and!; [..|done|].
  - intros i j Hj Hi. simpl in Hj. destruct (Hat' i j ltac:(lia) Hj) as (? & ? & Hh).
    destruct (Hpos i j Hh) as (s & ? & ?). exists s. simpl.
    by rewrite lookup_alter_ne, lookup_delete_ne.
  - split; [|intros ?; lia]. intros i Hi Hne x y Hx Hy.
    destruct (hval_inv _ _ _ Hy) as (j & _ & Hj & _). apply lookup_lt_Some in Hj. simpl in Hj.
    pose proof (parent_lt i Hi). rewrite Hval in Hx, Hy by lia. by apply (Hord i).
  - destruct (proj1 (Hkeys t)) as [s Hs]; [set_solver|].
    exists (Slot 0 (prio s)). simpl. by rewrite lookup_alter_eq, lookup_delete_ne, Hs.
Qed.

Lemma pq_pop_ok q :
  pq_wf q -> heap q <> [] ->
  exists k q' x, pq_pop q = Ok (k, q') /\ pq_wf q' /\ prios q' = delete k (prios q) /\
    prios q !! k = Some x /\ forall k' y, prios q !! k' = Some y -> (x <= y)%Z.
Proof.
  intros Hwf Hne. destruct (heap q) as [|k rest] eqn:Hheap; [done|].
  destruct (keys_ok_slot q 0 k (wf_keys _ Hwf)) as [s Hs]; [by rewrite Hheap|].
  assert (Hmin := root_min q k s Hwf ltac:(by rewrite Hheap) Hs).
  assert (Hpop : pq_pop q =
    let* tmp_item := or_raise IndexError (last (k :: rest)) in
    match removelast (k :: rest) with
    | [] => Ok (k, PQ [] (delete k (container q)))
    | _ :: mid =>
        let q1 := PQ (tmp_item :: mid) (delete k (container q)) in
        let* _ := slot_of q1 tmp_item in
        let* r := priority_increased (set_pos q1 tmp_item 0) tmp_item in
        Ok (k, fst r)
    end).
  { unfold pq_pop, heap_at, slot_of at 1. rewrite Hheap. simpl lookup. run. rewrite Hs. run.
    destruct (last _); run; [|done]. by destruct (removelast _). }
  rewrite Hpop. clear Hpop.
  destruct rest as [|t mid _] using rev_ind.
  - exists k, (PQ [] (delete k (container q))), (prio s). split; [done|].
    destruct Hwf as [[Hnd Hkeys] _ _]. rewrite Hheap in Hkeys. split_and!.
    + split.
      * split; simpl; [apply NoDup_nil_2|]. intros j. rewrite lookup_delete_is_Some, <-Hkeys. set_solver.
      * by intros i j.
      * by intros i _ x y Hx.
    + unfold prios. simpl. by rewrite fmap_delete.
    + by rewrite prios_lookup, Hs.
    + done.
  - destruct (pop_replace q k t mid Hwf Hheap) as (Hk1 & Hp1 & Hd1 & Hpr1 & (st & Hst & Hpst)).
    rewrite app_comm_cons, last_snoc, removelast_last. run.
    cbv zeta. unfold slot_of at 1.
    destruct (proj1 (lookup_alter_is_Some (fun s => Slot 0 (prio s)) (delete k (container q)) t t)) as [st' Hst'].
    { by eexists. }
    simpl container. rewrite Hst'. run.
    unfold priority_increased, slot_of. rewrite Hst. run. rewrite Hpst.
    destruct (increased_loop_spec (S (length (t :: mid)))
                (set_pos (PQ (t :: mid) (delete k (container q))) t 0) 0 false)
      as (q' & b & He & Hwf' & Hpr'); auto; simpl; try lia.
    simpl in He. rewrite He. run.
    exists k, q', (prio s). split_and!; [done..| |by rewrite prios_lookup, Hs|done].
    by rewrite Hpr', Hpr1.
Qed.

End PQ_proofs.

(** ** Interface

    What a client of the queue relies on: a priority queue stands for a finite map
    from items to priorities, assignment updates the map, and [pop] takes an item
    of minimal priority out of it. *)
Class PriorityMap (K Q : Type) `{Countable K} := {
  pm_empty : Q;
  pm_set : Q -> K -> Z -> result Q;
  pm_pop : Q -> result (K * Q);
  pm_truthy : Q -> bool;
  pm_map : Q -> gmap K Z;
  pm_wf : Q -> Prop;
  pm_empty_ok : pm_wf pm_empty /\ pm_map pm_empty = ∅;
  pm_set_ok q k v : pm_wf q ->
    exists q', pm_set q k v = Ok q' /\ pm_wf q' /\ pm_map q' = <[k := v]> (pm_map q);
  pm_truthy_ok q : pm_wf q -> pm_truthy q = true <-> pm_map q <> ∅;
  pm_pop_ok q : pm_wf q -> pm_map q <> ∅ ->
    exists k q' x, pm_pop q = Ok (k, q') /\ pm_wf q' /\ pm_map q' = delete k (pm_map q) /\
      pm_map q !! k = Some x /\ forall k' y, pm_map q !! k' = Some y -> (x <= y)%Z;
}.

Section PQ_interface.
Context `{Countable K}.
Implicit Types (q : PriorityQueue K) (k : K).

Lemma pq_setitem_ok q k v :
  pq_wf q -> exists q', pq_setitem q k v = Ok q' /\ pq_wf q' /\ prios q' = <[k := v]> (prios q).
Proof.
  intros Hwf. destruct (container q !! k) eqn:Hk.
  - apply pq_setitem_existing; [done|by eexists].
  - by apply pq_setitem_new.
Qed.

Lemma heap_nil_prios q : pq_wf q -> heap q = [] <-> prios q = ∅.
Proof.
  intros [[_ Hk] _ _]. split.
  - intros Hh. apply map_eq. intros k. rewrite prios_lookup, lookup_empty.
    destruct (container q !! k) eqn:Hc; [|done].
    assert (k ∈ heap q) as Hin by (apply Hk; eauto). rewrite Hh in Hin. by apply not_elem_of_nil in Hin.
  - intros Hp. destruct (heap q) as [|k h] eqn:Hh; [done|].
    destruct (proj1 (Hk k)) as [s Hs]; [apply elem_of_cons; by left|].
    pose proof (prios_lookup q k) as Hq. by rewrite Hp, lookup_empty, Hs in Hq.
Qed.

(** [while priority_q]: the truth value of an object with [__len__]. *)
Definition pq_truthy q : bool := bool_decide (pq_len q <> 0).

Lemma pq_truthy_ok q : pq_wf q -> pq_truthy q = true <-> prios q <> ∅.
Proof.
  intros Hwf. unfold pq_truthy, pq_len. rewrite bool_decide_eq_true, length_zero_iff_nil.
  by rewrite (heap_nil_prios q Hwf).
Qed.

#[export] Instance heap_priority_map : PriorityMap K (PriorityQueue K).
Proof.
  refine {| pm_empty := pq_empty; pm_set := pq_setitem; pm_pop := pq_pop;
            pm_truthy := pq_truthy; pm_map := prios; pm_wf := pq_wf |}.
  - split; [apply pq_empty_wf|]. unfold prios. apply fmap_empty.
  - intros q k v. apply pq_setitem_ok.
  - intros q. apply pq_truthy_ok.
  - intros q Hwf Hne. apply pq_pop_ok; [done|]. by rewrite heap_nil_prios.
Defined.

(** ** Specification and refinement *)

Inductive pq_op := OSet (k : K) (v : Z) | OPop.

(** One operation of the program, with the item it returns. *)
Definition exec_op q (o : pq_op) : result (PriorityQueue K * option K) :=
  match o with
  | OSet k v => let* q' := pq_setitem q k v in Ok (q', None)
  | OPop => let* r := pq_pop q in Ok (snd r, Some (fst r))
  end.

Fixpoint exec_ops q (ops : list pq_op) : result (PriorityQueue K * list (option K)) :=
  match ops with
  | [] => Ok (q, [])
  | o :: ops =>
      let* r := exec_op q o in
      let* rs := exec_ops (fst r) ops in
      Ok (fst rs, snd r :: snd rs)
  end.

(** The abstract machine: a finite map. *)
Inductive spec_op : gmap K Z -> pq_op -> gmap K Z -> option K -> Prop :=
  | spec_set m k v : spec_op m (OSet k v) (<[k := v]> m) None
  | spec_pop m k x : m !! k = Some x -> (forall k' y, m !! k' = Some y -> (x <= y)%Z) ->
      spec_op m OPop (delete k m) (Some k).

Inductive spec_ops : gmap K Z -> list pq_op -> gmap K Z -> list (option K) -> Prop :=
  | spec_ops_nil m : spec_ops m [] m []
  | spec_ops_cons m o m1 out ops m2 outs :
      spec_op m o m1 out -> spec_ops m1 ops m2 outs -> spec_ops m (o :: ops) m2 (out :: outs).

Lemma exec_op_ok q o :
  pq_wf q ->
  (exists q' out, exec_op q o = Ok (q', out) /\ pq_wf q' /\ spec_op (prios q) o (prios q') out) \/
  (exec_op q o = Err IndexError /\ o = OPop /\ prios q = ∅).
Proof.
  intros Hwf. destruct o as [k v|]; simpl.
  - left. destruct (pq_setitem_ok q k v Hwf) as (q' & -> & Hwf' & Hp).
    exists q', None. split; [done|]. split; [done|]. rewrite Hp. constructor.
  - destruct (heap q) eqn:Hh.
    + right. unfold pq_pop, heap_at. rewrite Hh. split; [done|]. split; [done|]. by apply heap_nil_prios.
    + left. destruct (pq_pop_ok q Hwf) as (k' & q' & x & -> & Hwf' & Hp & Hx & Hmin); [by rewrite Hh|].
      exists q', (Some k'). split; [done|]. split; [done|]. simpl. rewrite Hp. by econstructor.
Qed.

(** C19: Refinement of the priority queue: any sequence of assignments and pops run on a
    well-formed heap queue keeps the queue well formed (keys, back-pointers and heap
    order) and does what a finite map with extract-minimum does; the run never runs out
    of loop fuel and never raises [KeyError]: the only exception is the [IndexError] of a
    [pop] on an empty queue. *)
Theorem pq_refines_map q ops :
  pq_wf q ->
  (exists q' outs, exec_ops q ops = Ok (q', outs) /\ pq_wf q' /\
     spec_ops (prios q) ops (prios q') outs) \/
  (exec_ops q ops = Err IndexError /\
   exists ops1 ops2 m outs, ops = ops1 ++ OPop :: ops2 /\ spec_ops (prios q) ops1 m outs /\ m = ∅).
Proof.
  revert q. induction ops as [|o ops IH]; intros q Hwf.
  { left. exists q, []. split_and!; [done..|constructor]. }
  simpl. destruct (exec_op_ok q o Hwf) as [(q1 & out & -> & Hwf1 & Hs)|(-> & -> & Hm)]; run.
  - destruct (IH q1 Hwf1) as [(q2 & outs & -> & Hwf2 & Hss)|(-> & ops1 & ops2 & m & outs & -> & Hss & Hm)]; run.
    + left. exists q2, (out :: outs). split_and!; [done..|]. by econstructor.
    + right. split; [done|]. exists (o :: ops1), ops2, m, (out :: outs).
      split_and!; [done|by econstructor|done].
  - right. split; [done|]. exists [], ops, (prios q), []. split_and!; [done|constructor|done].
Qed.

(** [pop] on a non-empty well-formed queue returns an item of minimal priority,
    removes exactly that item and leaves every other priority as it was. *)
Theorem pq_pop_minimum q :
  pq_wf q -> heap q <> [] ->
  exists k q' x, pq_pop q = Ok (k, q') /\ pq_wf q' /\ prios q !! k = Some x /\
    (forall k' y, prios q !! k' = Some y -> (x <= y)%Z) /\
    prios q' !! k = None /\ (forall k', k' <> k -> prios q' !! k' = prios q !! k').
Proof.
  intros Hwf Hne. destruct (pq_pop_ok q Hwf Hne) as (k & q' & x & -> & Hwf' & Hp & Hx & Hmin).
  exists k, q', x. split_and!; try done; rewrite Hp.
  - apply lookup_delete_eq.
  - intros k' Hk'. by apply lookup_delete_ne.
Qed.

End PQ_interface.

(** A queue built by assignments, with an update of a priority. *)
Definition pq_example : result (PriorityQueue string) :=
  let* q := pq_setitem pq_empty "a"%string 7 in
  let* q := pq_setitem q "b"%string 3 in
  let* q := pq_setitem q "c"%string 5 in
  pq_setitem q "a"%string 1.

Definition pq_demo : PriorityQueue string :=
  match pq_example with Ok q => q | Err _ => pq_empty end.

Lemma pq_demo_wf : pq_wf pq_demo.
Proof.
  unfold pq_demo, pq_example.
  destruct (pq_setitem_ok pq_empty "a"%string 7 pq_empty_wf) as (q1 & -> & H1 & _). run.
  destruct (pq_setitem_ok q1 "b"%string 3 H1) as (q2 & -> & H2 & _). run.
  destruct (pq_setitem_ok q2 "c"%string 5 H2) as (q3 & -> & H3 & _). run.
  destruct (pq_setitem_ok q3 "a"%string 1 H3) as (q4 & -> & H4 & _). done.
Qed.

Lemma pq_refines_map_witness :
  exec_ops pq_demo [OPop; OPop] = Ok (PQ ["c"%string] {["c"%string := Slot 0 5]}, [Some "a"%string; Some "b"%string]) /\
  ((exists q' outs, exec_ops pq_demo [OPop; OPop] = Ok (q', outs) /\ pq_wf q' /\
     spec_ops (prios pq_demo) [OPop; OPop] (prios q') outs) \/
   (exec_ops pq_demo [OPop; OPop] = Err IndexError /\
    exists ops1 ops2 m outs, [OPop; OPop] = ops1 ++ OPop :: ops2 /\
      spec_ops (prios pq_demo) ops1 m outs /\ m = ∅)).
Proof. split; [vm_compute; reflexivity|]. apply pq_refines_map, pq_demo_wf. Defined.

Lemma pq_pop_minimum_witness :
  exists k q' x, pq_pop pq_demo = Ok (k, q') /\ pq_wf q' /\ prios pq_demo !! k = Some x /\
    (forall k' y, prios pq_demo !! k' = Some y -> (x <= y)%Z) /\
    prios q' !! k = None /\ (forall k', k' <> k -> prios q' !! k' = prios pq_demo !! k').
Proof. apply pq_pop_minimum; [apply pq_demo_wf|vm_compute; discriminate]. Defined.
