(* ===== verification/PyString.v ===== *)
(** * Python strings

    The string operations of the modelled code on strings of one-byte characters:
    [startswith], [endswith], [partition], [split(sep, 1)], [strip], [count], [in],
    [lower-level] indexing [s[:-1]] and [s[n:]]. *)

From S2P Require Import Prelude.
From Stdlib Require Export Ascii.

Abbreviation str_len := String.length.

#[global] Arguments String.append : simpl nomatch.

(** [s.startswith(p)] *)
Fixpoint starts_with (p s : string) : bool :=
  match p, s with
  | EmptyString, _ => true
  | String a p, String b s => bool_decide (a = b) && starts_with p s
  | String _ _, EmptyString => false
  end.

(** [c in s] for a character *)
Fixpoint str_contains (c : ascii) (s : string) : bool :=
  match s with
  | EmptyString => false
  | String a s => bool_decide (a = c) || str_contains c s
  end.

(** [s.count(c)] for a character *)
Fixpoint str_count (c : ascii) (s : string) : nat :=
  match s with
  | EmptyString => 0
  | String a s => (if bool_decide (a = c) then 1 else 0) + str_count c s
  end.

(** [s.partition(c)]: what precedes the first [c], whether there is one, what follows. *)
Fixpoint str_partition (c : ascii) (s : string) : string * bool * string :=
  match s with
  | EmptyString => (EmptyString, false, EmptyString)
  | String a s' =>
      if bool_decide (a = c) then (EmptyString, true, s')
      else let '(x, found, y) := str_partition c s' in (String a x, found, y)
  end.

(** [s.endswith(c)] for a character, and [s[:-1]] *)
Fixpoint ends_with_char (c : ascii) (s : string) : bool :=
  match s with
  | EmptyString => false
  | String a EmptyString => bool_decide (a = c)
  | String _ s => ends_with_char c s
  end.

Fixpoint drop_last (s : string) : string :=
  match s with
  | EmptyString => EmptyString
  | String _ EmptyString => EmptyString
  | String a s => String a (drop_last s)
  end.

(** [s.endswith(p)] *)
Fixpoint ends_with (p s : string) : bool :=
  bool_decide (p = s) ||
  match s with
  | EmptyString => false
  | String _ s => ends_with p s
  end.

(** [needle in s] *)
Fixpoint str_infix (needle s : string) : bool :=
  starts_with needle s || match s with EmptyString => false | String _ s => str_infix needle s end.

(** [s[n:]] *)
Fixpoint str_drop (n : nat) (s : string) : string :=
  match n, s with
  | O, _ => s
  | S n, EmptyString => EmptyString
  | S n, String _ s => str_drop n s
  end.

(** The white space [str.strip()] removes, among the one-byte characters. *)
Definition is_space (a : ascii) : bool :=
  let n := nat_of_ascii a in
  bool_decide (9 <= n <= 13) || bool_decide (28 <= n <= 32) || bool_decide (n = 133) || bool_decide (n = 160).

Fixpoint str_lstrip (s : string) : string :=
  match s with
  | EmptyString => EmptyString
  | String a s' => if is_space a then str_lstrip s' else s
  end.

Fixpoint str_rstrip (s : string) : string :=
  match s with
  | EmptyString => EmptyString
  | String a s' =>
      let r := str_rstrip s' in
      match r with
      | EmptyString => if is_space a then EmptyString else String a EmptyString
      | _ => String a r
      end
  end.

Definition str_strip (s : string) : string := str_rstrip (str_lstrip s).

(** [s.split()] is not needed; [s or None] on a string: *)
Definition or_none (s : string) : option string :=
  match s with EmptyString => None | _ => Some s end.

(** ** Facts *)

Lemma app_nil_r_str (s : string) : s +:+ EmptyString = s.
Proof. induction s; simpl; congruence. Qed.

Lemma app_assoc_str (s t u : string) : (s +:+ t) +:+ u = s +:+ (t +:+ u).
Proof. induction s; simpl; congruence. Qed.

Lemma starts_with_spec p s : starts_with p s = true <-> exists r, s = p +:+ r.
Proof.
  revert s. induction p as [|a p IH]; intros s; simpl.
  - split; [by exists s|done].
  - destruct s as [|b s]; [split; [done|]; by intros [? [=]]|].
    rewrite andb_true_iff, bool_decide_eq_true, IH. split.
    + intros [-> [r ->]]. by exists r.
    + intros [r [= -> ->]]. split; [done|]. by exists r.
Qed.

Lemma starts_with_app p q s : starts_with (p +:+ q) s = true -> starts_with p s = true.
Proof. rewrite !starts_with_spec. intros [r ->]. exists (q +:+ r). apply app_assoc_str. Qed.

Lemma starts_with_nil s : starts_with EmptyString s = true.
Proof. by apply starts_with_spec; exists s. Qed.

Lemma starts_with_refl s : starts_with s s = true.
Proof. apply starts_with_spec. exists EmptyString. by rewrite app_nil_r_str. Qed.

Lemma str_contains_app c s t : str_contains c (s +:+ t) = str_contains c s || str_contains c t.
Proof. induction s; simpl; [done|]. by rewrite IHs, orb_assoc. Qed.

Lemma str_partition_true c s x y :
  str_partition c s = (x, true, y) <-> s = x +:+ String c y /\ str_contains c x = false.
Proof.
  revert x. induction s as [|a s IH]; intros x; simpl.
  - split; [done|]. by destruct x; intros [? _].
  - case_bool_decide as Ha.
    + subst. split.
      * by intros [= <- <-].
      * intros [Hs Hc]. destruct x as [|b x]; simplify_eq/=; [done|].
        by rewrite bool_decide_true in Hc.
    + destruct (str_partition c s) as [[x' f] y'] eqn:Hp. split.
      * intros [= <- -> ->]. destruct (proj1 (IH x') eq_refl) as [-> Hc]. simpl.
        by rewrite bool_decide_false.
      * intros [Hs Hc]. destruct x as [|b x]; simplify_eq/=.
        apply orb_false_iff in Hc as [_ Hc].
        assert ((x', f, y') = (x, true, y)) as [= -> -> ->] by (apply IH; done). done.
Qed.

Lemma str_partition_false c s :
  str_contains c s = false -> str_partition c s = (s, false, EmptyString).
Proof.
  induction s as [|a s IH]; simpl; [done|]. intros [Ha Hs]%orb_false_iff.
  apply bool_decide_eq_false in Ha. rewrite bool_decide_false, IH by done. done.
Qed.

Lemma str_partition_found c s x y f :
  str_partition c s = (x, f, y) -> f = str_contains c s /\ str_contains c x = false.
Proof.
  revert x f y. induction s as [|a s IH]; intros x f y; simpl; [by intros [= <- <- <-]|].
  case_bool_decide as Ha; [by intros [= <- <- <-]|].
  destruct (str_partition c s) as [[x' f'] y'] eqn:Hp. intros [= <- <- <-].
  destruct (IH _ _ _ eq_refl) as [-> Hx]. simpl. by rewrite bool_decide_false.
Qed.

Lemma str_count_contains c s : str_contains c s = true <-> 1 <= str_count c s.
Proof.
  induction s as [|a s IH]; simpl; [split; [done|lia]|].
  case_bool_decide; simpl; [split; [lia|done]|]. done.
Qed.

Lemma ends_with_char_snoc c s : ends_with_char c s = true <-> exists t, s = t +:+ String c EmptyString.
Proof.
  induction s as [|a s IH]; simpl; [split; [done|]; by intros [[|? ?] ?]|].
  destruct s as [|b s].
  - rewrite bool_decide_eq_true. split; [intros ->; by exists EmptyString|].
    intros [[|? [|? ?]] ?]; simplify_eq/=; done.
  - rewrite IH. split; intros [t Ht].
    + exists (String a t). simpl. by rewrite Ht.
    + destruct t as [|x t]; simplify_eq/=. by exists t.
Qed.

Lemma drop_last_snoc c t : drop_last (t +:+ String c EmptyString) = t.
Proof.
  induction t as [|a t IH]; simpl; [done|]. rewrite IH.
  destruct (t +:+ String c EmptyString) eqn:E; [by destruct t|done].
Qed.

(** [s.strip()] is idempotent, and does nothing on a stripped string. *)
Definition stripped (s : string) : bool := bool_decide (str_strip s = s).

Lemma lstrip_no_space s a t : str_lstrip s = String a t -> is_space a = false.
Proof. induction s as [|b s IH]; simpl; [done|]. destruct (is_space b) eqn:Hb; [done|]. by intros [= <- <-]. Qed.

Lemma rstrip_cons a s : is_space a = false -> str_rstrip (String a s) = String a (str_rstrip s).
Proof. intros Ha. simpl. destruct (str_rstrip s); [by rewrite Ha|done]. Qed.

Lemma str_len_lstrip s : str_len (str_lstrip s) <= str_len s.
Proof. induction s as [|a s IH]; simpl; [done|]. destruct (is_space a); simpl; lia. Qed.

Lemma str_len_rstrip s : str_len (str_rstrip s) <= str_len s.
Proof. induction s as [|a s IH]; simpl; [done|]. destruct (str_rstrip s); [destruct (is_space a)|]; simpl in *; lia. Qed.

Lemma rstrip_idem s : str_rstrip (str_rstrip s) = str_rstrip s.
Proof.
  induction s as [|a s IH]; [done|]. simpl.
  destruct (str_rstrip s) as [|b r] eqn:Hr.
  - destruct (is_space a) eqn:Ha; simpl; [done|]. by rewrite Ha.
  - simpl in *. by rewrite IH.
Qed.

Lemma str_strip_idem s : str_strip (str_strip s) = str_strip s.
Proof.
  unfold str_strip. destruct (str_lstrip s) as [|a t] eqn:Hl; [done|].
  pose proof (lstrip_no_space _ _ _ Hl) as Ha. rewrite rstrip_cons by done.
  simpl. rewrite Ha. rewrite rstrip_cons by done. by rewrite rstrip_idem.
Qed.

Lemma rstrip_snoc s c : is_space c = false -> str_rstrip (s +:+ String c EmptyString) = s +:+ String c EmptyString.
Proof.
  intros Hc. induction s as [|a s IH]; simpl; [by rewrite Hc|]. rewrite IH.
  by destruct s.
Qed.

Lemma rstrip_nonspace_cons a s : str_rstrip (String a s) = String a s -> str_rstrip s = s.
Proof.
  simpl. destruct (str_rstrip s) as [|b r] eqn:Hr.
  - destruct (is_space a); [done|]. by intros [= <-].
  - by intros [= <-].
Qed.

(** What follows a stripped, non-empty string stays in place up to a last character that is not a space. *)
Lemma str_strip_snoc s t c :
  s <> EmptyString -> str_strip s = s -> is_space c = false ->
  str_strip (s +:+ t +:+ String c EmptyString) = s +:+ t +:+ String c EmptyString.
Proof.
  intros Hne Hs Hc. unfold str_strip in *. destruct s as [|a s]; [done|].
  assert (is_space a = false) as Ha.
  { destruct (is_space a) eqn:Ha; [|done]. exfalso. simpl in Hs. rewrite Ha in Hs.
    assert (str_len (str_rstrip (str_lstrip s)) = S (str_len s)) as Hl by by rewrite Hs.
    pose proof (str_len_rstrip (str_lstrip s)). pose proof (str_len_lstrip s). lia. }
  change (String a s +:+ t +:+ String c EmptyString) with (String a (s +:+ t +:+ String c EmptyString)).
  cbn [str_lstrip]. rewrite Ha, rstrip_cons by done. f_equal. rewrite <-app_assoc_str. by apply rstrip_snoc.
Qed.

(** [int(s)] *)
Definition digit_value (a : Ascii.ascii) : option Z :=
  let n := Z.of_nat (Ascii.nat_of_ascii a) in
  if bool_decide (48 <= n <= 57)%Z then Some (n - 48)%Z else None.
Fixpoint py_digits (acc : Z) (s : string) : option Z :=
  match s with
  | EmptyString => Some acc
  | String a s => match digit_value a with Some d => py_digits (10 * acc + d)%Z s | None => None end
  end.
Definition py_int (s : string) : option Z :=
  match str_strip s with
  | String "-" (String _ _ as s) => Z.opp <$> py_digits 0 s
  | String "+" (String _ _ as s) => py_digits 0 s
  | EmptyString => None
  | s => py_digits 0 s
  end.
