(* ===== verification/PyFloat.v ===== *)
(** * Floating-point numbers

    Python's [float] is the IEEE 754 binary64 format: the specification floats of the Standard
    Library at 53 bits of precision, with the literals [float(s)] accepts. *)

From S2P Require Import Prelude PyString.
From Stdlib Require Import Floats.SpecFloat.

Abbreviation float := spec_float.
Definition prec : Z := 53.
Definition emax : Z := 1024.

Definition fzero : float := S754_zero false.
Definition fadd : float -> float -> float := SFadd prec emax.
(** [a <= b], which is false on a NaN *)
Definition fle : float -> float -> bool := SFleb.
Definition flt : float -> float -> bool := SFltb.
Definition of_Z (z : Z) : float := binary_normalize prec emax z 0 false.

Definition fdiv : float -> float -> float := SFdiv prec emax.
Definition fmul : float -> float -> float := SFmul prec emax.

(** [int(a)]; infinities and NaN raise. *)
Definition ftrunc (a : float) : option Z :=
  match a with
  | S754_zero _ => Some 0%Z
  | S754_finite s m e =>
      let n := if bool_decide (0 <= e)%Z then (Z.pos m * 2 ^ e)%Z else (Z.pos m / 2 ^ (- e))%Z in
      Some (if s then - n else n)%Z
  | _ => None
  end.

(** ** Literals *)

(** The float nearest to [m * 10 ^ e]. *)
Definition of_decimal (m : Z) (e : Z) : float :=
  match m with
  | Zpos p =>
      if bool_decide (0 <= e)%Z then binary_normalize prec emax (Z.pos p * 10 ^ e) 0 false
      else match (10 ^ (- e))%Z with
           | Zpos q => SFdiv prec emax (S754_finite false p 0) (S754_finite false q 0)
           | _ => S754_nan
           end
  | _ => fzero
  end.

Definition is_digit (a : ascii) : option Z :=
  let n := Z.of_nat (nat_of_ascii a) in
  if bool_decide (48 <= n <= 57)%Z then Some (n - 48)%Z else None.

(** Digits, single underscores allowed between them: the value read after [acc], the number of
    digits, and the rest; [after] tells whether a digit comes just before. *)
Fixpoint digits (acc n : Z) (after : bool) (s : string) : Z * Z * string :=
  match s with
  | String a rest =>
      match is_digit a with
      | Some d => digits (10 * acc + d) (n + 1) true rest
      | None =>
          match a, rest with
          | "_"%char, String b _ => if after && bool_decide (is_Some (is_digit b)) then digits acc n false rest
                                    else (acc, n, s)
          | _, _ => (acc, n, s)
          end
      end
  | EmptyString => (acc, n, s)
  end.

(** [s.lower()] *)
Definition lower (a : ascii) : ascii :=
  let n := nat_of_ascii a in
  if bool_decide (65 <= n <= 90)%nat then ascii_of_nat (n + 32) else a.
Fixpoint str_lower (s : string) : string :=
  match s with EmptyString => EmptyString | String a s => String (lower a) (str_lower s) end.

(** The exponent and the end of a literal *)
Definition exponent (s : string) : option Z :=
  match s with
  | EmptyString => Some 0%Z
  | String e rest =>
      if bool_decide (e = "e"%char \/ e = "E"%char) then
        let '(neg, rest) := match rest with
                            | String "-" r => (true, r)
                            | String "+" r => (false, r)
                            | r => (false, r)
                            end in
        let '(x, n, rest) := digits 0 0 false rest in
        match rest with
        | EmptyString => if bool_decide (n = 0)%Z then None else Some (if neg then - x else x)%Z
        | _ => None
        end
      else None
  end.

Definition unsigned_float (s : string) : option float :=
  let low := str_lower s in
  if bool_decide (low = "inf"%string \/ low = "infinity"%string) then Some (S754_infinity false)
  else if bool_decide (low = "nan"%string) then Some S754_nan
  else
    let '(m, n, rest) := digits 0 0 false s in
    let '(m, n', k, rest) := match rest with
                             | String "." rest =>
                                 match digits m 0 false rest with (m, k, rest) => (m, (n + k)%Z, k, rest) end
                             | _ => (m, n, 0%Z, rest)
                             end in
    if bool_decide (n' = 0)%Z then None else (fun e => of_decimal m (e - k)) <$> exponent rest.

(** [float(s)]: [None] for [ValueError] *)
Definition py_float (s : string) : option float :=
  match str_strip s with
  | String "-" r => SFopp <$> unsigned_float r
  | String "+" r => unsigned_float r
  | r => unsigned_float r
  end.

Example float_tenth : py_float "0.1" = Some (S754_finite false 7205759403792794 (-56)).
Proof. by vm_compute. Qed.
Example float_exponent : py_float " -1_0.5E-1" = Some (S754_finite true 4728779608739021 (-52)).
Proof. by vm_compute. Qed.
Example float_none : py_float "1__0" = None /\ py_float "." = None /\ py_float "1e" = None /\ py_float "true" = None.
Proof. by vm_compute. Qed.

(** ** Sums of weights *)

(** Not negative, and a number *)
Definition nonneg (f : float) : bool := fle fzero f.

Lemma nonneg_cases f :
  nonneg f = true <-> exists s, f = S754_zero s \/ f = S754_infinity false \/ exists m e, f = S754_finite false m e.
Proof.
  split.
  - destruct f as [s|[]| |[] m e]; try done; intros _.
    + exists s. by left.
    + exists false. by right; left.
    + exists false. right. right. by eexists _, _.
  - intros (s & [->|[->|(m & e & ->)]]); by try destruct s.
Qed.

Lemma shr_1_nonneg r : (0 <= shr_m r)%Z -> (0 <= shr_m (shr_1 r))%Z.
Proof. destruct r as [[|[p|p|]|p] ? ?]; simpl; lia. Qed.

Lemma shr_nonneg r e n : (0 <= shr_m r)%Z -> (0 <= shr_m (shr r e n).1)%Z.
Proof.
  intros Hr. unfold shr. destruct n as [|p|p]; simpl; [done| |done].
  revert r Hr. induction p as [p IH|p IH|]; intros r Hr; simpl.
  - apply IH, IH. by apply shr_1_nonneg.
  - by apply IH, IH.
  - by apply shr_1_nonneg.
Qed.

Lemma shr_fexp_nonneg m e l : (0 <= m)%Z -> (0 <= shr_m (shr_fexp prec emax m e l).1)%Z.
Proof. intros Hm. apply shr_nonneg. by destruct l as [|[]]. Qed.

Lemma round_nearest_even_nonneg m l : (0 <= m)%Z -> (0 <= round_nearest_even m l)%Z.
Proof. intros Hm. destruct l as [|[]]; simpl; try destruct (Z.even m); lia. Qed.

Lemma round_nonneg m e : (0 <= m)%Z -> nonneg (binary_round_aux prec emax false m e loc_Exact) = true.
Proof.
  intros Hm. unfold binary_round_aux.
  pose proof (shr_fexp_nonneg m e loc_Exact Hm) as H1. destruct (shr_fexp prec emax m e loc_Exact) as [r e1]. simpl in H1.
  pose proof (round_nearest_even_nonneg _ (loc_of_shr_record r) H1) as H2.
  pose proof (shr_fexp_nonneg _ e1 loc_Exact H2) as H3.
  destruct (shr_fexp prec emax (round_nearest_even (shr_m r) (loc_of_shr_record r)) e1 loc_Exact) as [r2 e2]. simpl in H3.
  destruct (shr_m r2) as [|p|p]; [done| |lia]. by destruct (e2 <=? emax - prec)%Z.
Qed.

Lemma nonneg_add a b : nonneg a = true -> nonneg b = true -> nonneg (fadd a b) = true.
Proof.
  intros (sa & [->|[->|(ma & ea & ->)]])%nonneg_cases (sb & [->|[->|(mb & eb & ->)]])%nonneg_cases; try done;
    unfold fadd, SFadd; try (by destruct sa, sb).
  change (nonneg (binary_round prec emax false
    ((shl_align ma ea (Z.min ea eb)).1 + (shl_align mb eb (Z.min ea eb)).1) (Z.min ea eb)) = true).
  unfold binary_round. destruct (shl_align _ _ _) as [p e]. by apply round_nonneg.
Qed.

Lemma nonneg_sum l a : nonneg a = true -> Forall (fun f => nonneg f = true) l -> nonneg (foldl fadd a l) = true.
Proof.
  revert a. induction l as [|f l IH]; intros a Ha Hl; simpl; [done|].
  apply Forall_cons in Hl as [Hf Hl]. apply IH; [by apply nonneg_add|done].
Qed.
