(* ===== verification/Types.v ===== *)
(** * Shared data types

    The internal representation of accounts and scopes ([lib/rucio/common/types.py]),
    the availability bit field of an RSE ([lib/rucio/common/utils.py]), the enumerations of
    [lib/rucio/db/sqla/constants.py] the other files use, and numbers with infinity. *)

From S2P Require Import Prelude PyString.

(** ** Accounts and scopes *)

Definition DEFAULT_VO : string := "def".
Definition at_sign : Ascii.ascii := "@"%char.

(** [calc_external]: the VO and the external name of an internal representation,
    cut at the first ['@']. *)
Definition calc_external (internal : string) : string * string :=
  match str_partition at_sign internal with
  | (x, true, y) => (y, x)
  | (x, false, _) => (DEFAULT_VO, x)
  end.

(** [calc_internal] *)
Definition calc_internal (external vo : string) : string :=
  if bool_decide (vo = DEFAULT_VO) then external
  else external +:+ String at_sign vo.

(** [InternalType]: an account or a scope; [None] stands for Python's [None]. *)
Record InternalType := Internal {
  external : option string;
  internal : option string;
  vo : string;
}.

#[export] Instance InternalType_eq_dec : EqDecision InternalType.
Proof. solve_decision. Defined.

(** The constructor, from the external name or from the internal one. *)
Definition mk_internal (value : option string) (v : string) (from_external : bool) : InternalType :=
  match value with
  | None => Internal None None v
  | Some s =>
      if from_external then Internal (Some s) (Some (calc_internal s v)) v
      else let '(v', e) := calc_external s in Internal (Some e) (Some s) v'
  end.

Definition InternalAccount (account : string) (v : string) : InternalType :=
  mk_internal (Some account) v true.
Definition InternalScope (scope : string) (v : string) : InternalType :=
  mk_internal (Some scope) v true.

(** [__eq__]: two internal values are equal when their internal representations are. *)
Definition ieq (a b : InternalType) : bool := bool_decide (internal a = internal b).

(** [__str__]; [str(None)] is ["None"]. *)
Definition str_external (a : InternalType) : string := default "None"%string (external a).

(** The external name is the one the internal representation stands for: holds of what
    is read from the database, and of names without ['@']. *)
Definition canonical (a : InternalType) : Prop :=
  external a = (fun s => snd (calc_external s)) <$> internal a.

Lemma ieq_true a b : ieq a b = true <-> internal a = internal b.
Proof. apply bool_decide_eq_true. Qed.

Lemma ieq_refl a : ieq a a = true.
Proof. by apply ieq_true. Qed.

Lemma calc_external_internal e v :
  str_contains at_sign e = false -> calc_external (calc_internal e v) = (v, e).
Proof.
  intros He. unfold calc_external, calc_internal. case_bool_decide as Hv.
  - rewrite str_partition_false by done. by subst.
  - rewrite (proj2 (str_partition_true at_sign _ e v)); done.
Qed.

Lemma canonical_from_internal s v : canonical (mk_internal (Some s) v false).
Proof.
  unfold mk_internal, canonical. destruct (calc_external s) as [v' e] eqn:E. simpl. by rewrite E.
Qed.

Lemma canonical_from_external s v :
  str_contains at_sign s = false -> canonical (mk_internal (Some s) v true).
Proof. intros Hs. unfold canonical. simpl. by rewrite calc_external_internal. Qed.

Lemma canonical_external a b :
  canonical a -> canonical b -> internal a = internal b -> external a = external b.
Proof. unfold canonical. congruence. Qed.

(** Round trip between the external and the internal representation: for a name
    without ['@'], building an account or scope from its external name and VO and reading
    its internal representation back gives the same name and the same VO, so accounts
    with the same name in different VOs are different. *)
Theorem internal_roundtrip s v :
  str_contains at_sign s = false ->
  match internal (mk_internal (Some s) v true) with
  | Some i => mk_internal (Some i) DEFAULT_VO false = mk_internal (Some s) v true
  | None => False
  end /\
  (forall v', ieq (mk_internal (Some s) v true) (mk_internal (Some s) v' true) = true -> v = v').
Proof.
  intros Hs. split.
  - simpl. by rewrite calc_external_internal.
  - intros v' Heq. apply ieq_true in Heq. simpl in Heq. injection Heq as Heq.
    pose proof (calc_external_internal s v Hs) as H1.
    pose proof (calc_external_internal s v' Hs) as H2. congruence.
Qed.

Lemma internal_roundtrip_witness :
  internal (InternalAccount "root" "atl") = Some "root@atl"%string /\
  (match internal (mk_internal (Some "root"%string) "atl" true) with
   | Some i => mk_internal (Some i) DEFAULT_VO false = mk_internal (Some "root"%string) "atl" true
   | None => False
   end /\
   (forall v', ieq (mk_internal (Some "root"%string) "atl" true) (mk_internal (Some "root"%string) v' true) = true ->
      "atl"%string = v')).
Proof. split; [reflexivity|]. apply internal_roundtrip. reflexivity. Defined.

(** ** Availability *)

(** [Availability]: the read, write and delete flags; [None] is a missing value. *)
Record Availability := Avail { av_read : option bool; av_write : option bool; av_delete : option bool }.

#[export] Instance Availability_eq_dec : EqDecision Availability.
Proof. solve_decision. Defined.

(** [from_integer] *)
Definition from_integer (n : option Z) : Availability :=
  match n with
  | None => Avail None None None
  | Some n =>
      Avail (Some (bool_decide (Z.shiftr n 2 mod 2 = 1)%Z))
            (Some (bool_decide (Z.shiftr n 1 mod 2 = 1)%Z))
            (Some (bool_decide (Z.shiftr n 0 mod 2 = 1)%Z))
  end.

(** [(x or x is None) * bit] *)
Definition flag_value (x : option bool) (bit : Z) : Z :=
  match x with Some false => 0 | _ => bit end.

(** [integer] *)
Definition availability_integer (a : Availability) : Z :=
  flag_value (av_read a) 4 + flag_value (av_write a) 2 + flag_value (av_delete a) 1.

(** [__eq__] *)
Definition availability_eq (a b : Availability) : bool := bool_decide (a = b).

(** Missing flags count as [True]. *)
Definition fill (a : Availability) : Availability :=
  Avail (Some (default true (av_read a))) (Some (default true (av_write a))) (Some (default true (av_delete a))).

Lemma availability_integer_fill a : from_integer (Some (availability_integer a)) = fill a.
Proof. by destruct a as [[[]|] [[]|] [[]|]]. Qed.

(** The availability bit field: the integer always fits in three bits, decoding it
    gives the flags back with the missing ones read as [True], and encoding what any
    integer decodes to keeps exactly its three least significant bits. *)
Theorem availability_roundtrip a n :
  (0 <= availability_integer a < 8)%Z /\
  from_integer (Some (availability_integer a)) = fill a /\
  availability_integer (from_integer (Some n)) = (n mod 8)%Z.
Proof.
  split; [|split; [apply availability_integer_fill|]].
  - by destruct a as [[[]|] [[]|] [[]|]].
  - unfold availability_integer, from_integer. cbn [av_read av_write av_delete].
    rewrite !Z.shiftr_div_pow2 by lia.
    change (2 ^ 2)%Z with 4%Z. change (2 ^ 1)%Z with 2%Z. change (2 ^ 0)%Z with 1%Z.
    rewrite Z.div_1_r.
    assert (n mod 8 = 4 * ((n / 4) mod 2) + 2 * ((n / 2) mod 2) + n mod 2)%Z as ->
      by (Z.to_euclidean_division_equations; lia).
    pose proof (Z.mod_pos_bound (n / 4) 2). pose proof (Z.mod_pos_bound (n / 2) 2).
    pose proof (Z.mod_pos_bound n 2).
    repeat case_bool_decide; cbn [flag_value]; lia.
Qed.

(** ** Enumerations *)

Inductive DidOperationType := READ | WRITE | DELETE.
#[export] Instance DidOperationType_eq_dec : EqDecision DidOperationType.
Proof. solve_decision. Defined.
#[export] Instance DidOperationType_countable : Countable DidOperationType.
Proof.
  refine (inj_countable' (fun o => match o with READ => 0 | WRITE => 1 | DELETE => 2 end)
            (fun n => match n with 0 => READ | 1 => WRITE | _ => DELETE end) _).
  by intros [].
Defined.

(** [DidOperationType(value)] on the value of an operation *)
Definition did_operation_of_value (s : string) : result DidOperationType :=
  if bool_decide (s = "read"%string) then Ok READ
  else if bool_decide (s = "write"%string) then Ok WRITE
  else if bool_decide (s = "delete"%string) then Ok DELETE
  else Err ValueError.

Inductive RolePermissionType := PT_DID | PT_LIMIT.
#[export] Instance RolePermissionType_eq_dec : EqDecision RolePermissionType.
Proof. solve_decision. Defined.

Inductive ReplicaState :=
  | R_AVAILABLE | R_UNAVAILABLE | R_COPYING | R_BEING_DELETED | R_BAD | R_TEMPORARY_UNAVAILABLE.
#[export] Instance ReplicaState_eq_dec : EqDecision ReplicaState.
Proof. solve_decision. Defined.

(** [ReplicaState(value)] *)
Definition replica_state_of_value (s : string) : result ReplicaState :=
  if bool_decide (s = "A"%string) then Ok R_AVAILABLE
  else if bool_decide (s = "U"%string) then Ok R_UNAVAILABLE
  else if bool_decide (s = "C"%string) then Ok R_COPYING
  else if bool_decide (s = "B"%string) then Ok R_BEING_DELETED
  else if bool_decide (s = "D"%string) then Ok R_BAD
  else if bool_decide (s = "T"%string) then Ok R_TEMPORARY_UNAVAILABLE
  else Err ValueError.

(** ** Numbers with infinity: the [float('inf')] of the quotas *)

Inductive znum := Fin (z : Z) | Inf.
#[export] Instance znum_eq_dec : EqDecision znum.
Proof. solve_decision. Defined.

Definition zle (a b : znum) : bool :=
  match a, b with Fin a, Fin b => bool_decide (a <= b)%Z | _, Inf => true | Inf, Fin _ => false end.
Definition zlt (a b : znum) : bool :=
  match a, b with Fin a, Fin b => bool_decide (a < b)%Z | Fin _, Inf => true | Inf, _ => false end.
Definition zsub (a : znum) (n : Z) : znum :=
  match a with Fin a => Fin (a - n) | Inf => Inf end.
Definition zmin (a b : znum) : znum := if zle a b then a else b.

Lemma zle_refl a : zle a a = true.
Proof. destruct a; simpl; [|done]. apply bool_decide_eq_true. lia. Qed.

Lemma zle_trans a b c : zle a b = true -> zle b c = true -> zle a c = true.
Proof. destruct a, b, c; simpl; rewrite ?bool_decide_eq_true; try done; lia. Qed.

Lemma zlt_zle a b : zlt a b = negb (zle b a).
Proof. destruct a, b; simpl; try done; repeat case_bool_decide; try done; lia. Qed.

Lemma zle_total a b : zle a b = true \/ zle b a = true.
Proof. destruct a, b; simpl; rewrite ?bool_decide_eq_true; auto; lia. Qed.
