(* ===== verification/Database.v ===== *)
(** * The tables the access-control and quota code reads

    A [Session] is the content of the tables of [lib/rucio/db/sqla/models.py] that the
    modelled functions query, with the configuration flag and the current time of a
    request.  Accounts and scopes are stored by their internal representation, as their
    column types do.  A primary key is the key of a [gmap]; a table read in row order is
    a list. *)

From S2P Require Import Prelude PyString Types.

(** [Roles] *)
Record RoleRow := Role { description : option string; assignable : bool; locked : bool }.

(** [AccountRoleAssociation], keyed by account and role; dates are numbers of seconds *)
Record AccountRole := AccRole { activates_at : Z; expires_at : option Z }.

(** [RoleDidPermissionAssociation], keyed by role and DID pattern *)
Record DidPerm := Perm { can_read : bool; can_write : bool; can_delete : bool }.

(** The role tables. *)
Record RoleTables := Tables {
  roles : gmap string RoleRow;
  account_role_map : gmap (string * string) AccountRole;
  role_did_permission_map : gmap (string * string) DidPerm;
  role_local_limit_permission_map : gmap (string * string) Z;
  role_global_limit_permission_map : gmap (string * string) Z;
}.

(** The value of an account or RSE attribute ([BooleanString]). *)
Inductive AttrValue := AStr (s : string) | ABool (b : bool).
#[export] Instance AttrValue_eq_dec : EqDecision AttrValue.
Proof. solve_decision. Defined.
#[export] Instance AttrValue_countable : Countable AttrValue.
Proof.
  refine (inj_countable' (fun v => match v with AStr s => inl s | ABool b => inr b end)
            (fun x => match x with inl s => AStr s | inr b => ABool b end) _).
  by intros [].
Defined.

(** [int(value)] *)
Definition int_of_attribute (v : AttrValue) : option Z :=
  match v with AStr s => py_int s | ABool b => Some (if b then 1 else 0)%Z end.

(** [RSE] *)
Inductive RSEType := RT_DISK | RT_TAPE.
#[export] Instance RSEType_eq_dec : EqDecision RSEType.
Proof. solve_decision. Defined.
Record RSERow := RSE {
  rse_id : string;
  rse_name : string;
  rse_vo : string;
  rse_type : RSEType;
  rse_staging_area : bool;
  rse_availability_write : bool;
  rse_deleted : bool;
  rse_availability_delete : bool;
}.

(** [rse[key]] on the dictionary of an RSE row: its keys are the columns of the table. *)
Definition rse_getitem (r : RSERow) (key : string) : result string :=
  if bool_decide (key = "id"%string) then Ok (rse_id r)
  else if bool_decide (key = "rse"%string) then Ok (rse_name r)
  else if bool_decide (key = "vo"%string) then Ok (rse_vo r)
  else Err KeyError.

(** [ReplicationRule], the columns the policy reads *)
Record RuleKey := RuleRef { rule_account : string; rule_scope : string; rule_name : string }.

(** [ReplicaLock], the columns the policy reads *)
Record LockRef := LockOf { lock_scope : string; lock_name : string; lock_rse : string; lock_account : string }.

(** [IdentityType] *)
Inductive IdentityType := ID_X509 | ID_GSS | ID_USERPASS | ID_SSH | ID_SAML | ID_OIDC.
#[export] Instance IdentityType_eq_dec : EqDecision IdentityType.
Proof. solve_decision. Defined.

Record Session := {
  now : Z;                                     (* the current time *)
  rbac_enabled : bool;                         (* [rbac]/enabled of the configuration *)
  SCOPE_LENGTH : nat;                          (* get_schema_value *)
  NAME_LENGTH : nat;
  role_tables : RoleTables;
  accounts : gmap string bool;                 (* whether the account is active *)
  account_attrs : gmap (string * string) AttrValue;
  scopes : gmap string string;                 (* scope to its owner *)
  dids : gmap (string * string) string;        (* DID to its account *)
  rules : gmap string RuleKey;
  replicas : gmap (string * (string * string)) ReplicaState;  (* by RSE, then DID *)
  locks : list LockRef;
  identities : list (string * IdentityType * string);
  exceptions : list (string * string);         (* lifetime exceptions: id and scope *)
  rses : list RSERow;
  rse_attrs : gmap (string * string) AttrValue;
}.

Definition set_role_tables (s : Session) (t : RoleTables) : Session :=
  {| now := now s; rbac_enabled := rbac_enabled s; SCOPE_LENGTH := SCOPE_LENGTH s;
     NAME_LENGTH := NAME_LENGTH s; role_tables := t; accounts := accounts s;
     account_attrs := account_attrs s; scopes := scopes s; dids := dids s; rules := rules s;
     replicas := replicas s; locks := locks s; identities := identities s;
     exceptions := exceptions s; rses := rses s; rse_attrs := rse_attrs s |}.

Definition no_role_tables : RoleTables := Tables ∅ ∅ ∅ ∅ ∅.

(** An instance with nothing in it, for the examples. *)
Definition empty_session : Session :=
  {| now := 0; rbac_enabled := true; SCOPE_LENGTH := 25; NAME_LENGTH := 250;
     role_tables := no_role_tables; accounts := ∅; account_attrs := ∅; scopes := ∅; dids := ∅;
     rules := ∅; replicas := ∅; locks := []; identities := []; exceptions := []; rses := [];
     rse_attrs := ∅ |}.

(** Whether a stored account or scope is the given one ([models.X.account == account]). *)
Definition is_int (stored : string) (a : InternalType) : bool :=
  bool_decide (internal a = Some stored).

(** A row by a key made of internal values: no row for [None]. *)
Definition scope_key (scope : InternalType) (name : string) : option (string * string) :=
  s ← internal scope; Some (s, name).

(** ** Queries of other modules *)

(** [is_scope_owner] of [core/scope.py] *)
Definition is_scope_owner (s : Session) (scope account : InternalType) : bool :=
  match internal scope with
  | None => false
  | Some sc => match scopes s !! sc with Some o => is_int o account | None => false end
  end.

(** [has_account_attribute] of [core/account.py] *)
Definition has_account_attribute (s : Session) (account : InternalType) (key : string) : bool :=
  match internal account with
  | None => false
  | Some a => bool_decide (is_Some (account_attrs s !! (a, key)))
  end.

(** [list_account_attributes] of [core/account.py]: only for an active account. *)
Definition list_account_attributes (s : Session) (account : InternalType) : result (list (string * AttrValue)) :=
  match internal account with
  | Some a =>
      match accounts s !! a with
      | Some true =>
          Ok (omap (fun kv => if bool_decide (kv.1.1 = a) then Some (kv.1.2, kv.2) else None)
                (map_to_list (account_attrs s)))
      | _ => Err AccountNotFound
      end
  | None => Err AccountNotFound
  end.

(** The account of [get_did] of [core/did.py] *)
Definition get_did_account (s : Session) (scope : InternalType) (name : string) : result string :=
  or_raise DataIdentifierNotFound (k ← scope_key scope name; dids s !! k).

(** [get_rule] of [core/rule.py] *)
Definition get_rule (s : Session) (rule_id : string) : result RuleKey :=
  or_raise RuleNotFound (rules s !! rule_id).

(** The state of [get_replica] of [core/replica.py] *)
Definition get_replica_state (s : Session) (rse_id : string) (scope : InternalType) (name : string)
    : result ReplicaState :=
  or_raise ReplicaNotFound (k ← scope_key scope name; replicas s !! (rse_id, k)).

(** [get_replica_locks] of [core/lock.py]; without RSEs to restrict to, none is excluded. *)
Definition get_replica_locks (s : Session) (scope : InternalType) (name : string)
    (restrict_rses : option (list string)) : list LockRef :=
  List.filter (fun l => is_int (lock_scope l) scope && bool_decide (lock_name l = name) &&
                        match restrict_rses with
                        | Some ((_ :: _) as rs) => bool_decide (lock_rse l ∈ rs)
                        | _ => true
                        end) (locks s).

(** [exist_identity_account] of [core/identity.py] *)
Definition exist_identity_account (s : Session) (identity : string) (type : IdentityType)
    (account : InternalType) : bool :=
  existsb (fun r => bool_decide (r.1.1 = identity) && bool_decide (r.1.2 = type) && is_int r.2 account)
    (identities s).

(** [list_exceptions] of [core/lifetime_exception.py], without states to filter on; an
    empty or missing id does not restrict. *)
Definition list_exceptions (s : Session) (exception_id : option string) : list (string * string) :=
  match exception_id with
  | Some (String _ _ as i) => filter (fun e => e.1 = i) (exceptions s)
  | _ => exceptions s
  end.

(** [list_rse_attributes(rse_id).get(key)] of [core/rse.py] *)
Definition rse_attribute (s : Session) (rse_id key : string) : option AttrValue :=
  rse_attrs s !! (rse_id, key).

(** ** RSE expressions

    What the code relies on when it resolves an RSE expression: the result, if any, is a
    non-empty list of RSEs of the instance, of the VO it is restricted to, and does not depend
    on the roles.  The expression parser
    provides it. *)
Class RSEExpressions := {
  parse_expression : Session -> string -> option string -> result (list RSERow);
  parse_expression_nonempty s e v l : parse_expression s e v = Ok l -> l <> [];
  parse_expression_rses s e v l : parse_expression s e v = Ok l -> l ⊆ rses s;
  parse_expression_vo s e v l : parse_expression s e (Some v) = Ok l -> Forall (fun r => rse_vo r = v) l;
  parse_expression_roles s t e v : parse_expression (set_role_tables s t) e v = parse_expression s e v;
}.

(** A small language for the examples: an expression is ["*"], every RSE, or the name of one. *)
Definition named_rses (s : Session) (e : string) (v : option string) : list RSERow :=
  List.filter (fun r => (bool_decide (e = "*"%string) || bool_decide (rse_name r = e)) &&
                        match v with Some v => bool_decide (rse_vo r = v) | None => true end) (rses s).

Definition name_expressions : RSEExpressions.
Proof.
  refine {| parse_expression s e v :=
              match named_rses s e v with
              | [] => Err (InvalidRSEExpression "RSE Expression resulted in an empty set.")
              | l => Ok l
              end |}.
  - intros s e v l. destruct (named_rses s e v); [done|]. by intros [= <-].
  - intros s e v l Hl x Hx. assert (x ∈ named_rses s e v) as Hin by (destruct (named_rses s e v); by simplify_eq).
    apply list_elem_of_In, filter_In in Hin as [Hin _]. by apply list_elem_of_In.
  - intros s e v l Hl. assert (l = named_rses s e (Some v)) as -> by (destruct (named_rses s e (Some v)); by simplify_eq).
    apply Forall_forall. intros x Hx%list_elem_of_In. apply filter_In in Hx as [_ Hx].
    apply andb_true_iff in Hx as [_ Hx]. by apply bool_decide_eq_true in Hx.
  - done.
Defined.
