(* ===== verification/Role.v ===== *)
(** * Role-based access control: [lib/rucio/core/role.py]

    Roles, their assignment to accounts, the DID permissions granted on patterns, and the
    checks on them, direct and cached.  Every operation that writes takes a session and
    returns the session after the commit; an exception stands for the rollback, the
    session being then the one before the call. *)

From S2P Require Import Prelude PyString Types Database.

Definition DID_WILDCARD : Ascii.ascii := "*"%char.
Definition DID_SEPARATOR : Ascii.ascii := ":"%char.
Definition WILD : string := "*".
Definition ADMIN_ROLE : string := "admin".
Definition ROLE_QUOTA_NOCAP : Z := -1.

(** [RESERVED_ROLES], mapped to their description *)
Definition RESERVED_ROLES : list (string * string) := [(ADMIN_ROLE, "Rucio administrator."%string)].

Definition is_reserved_role (role : string) : bool := bool_decide (role ∈ RESERVED_ROLES.*1).

(** ** Role assignments *)

(** [_assignment_active]: activated already and not expired yet. *)
Definition assignment_active (s : Session) (a : AccountRole) : bool :=
  bool_decide (activates_at a <= now s)%Z &&
  match expires_at a with None => true | Some e => bool_decide (now s < e)%Z end.

Definition has_account_valid_role (s : Session) (account : InternalType) (role : string) : bool :=
  match internal account with
  | None => false
  | Some a => match account_role_map (role_tables s) !! (a, role) with
              | Some m => assignment_active s m
              | None => false
              end
  end.

Definition has_admin_role (s : Session) (account : InternalType) : bool :=
  has_account_valid_role s account ADMIN_ROLE.

(** ** DID patterns *)

Definition append_sep (a b : string) : string := a +:+ String DID_SEPARATOR b.

(** The wildcard test of one part: at most one ['*'], and only at the end. *)
Definition bad_wildcard (part : string) : bool :=
  bool_decide (1 < str_count DID_WILDCARD part) ||
  (str_contains DID_WILDCARD part && negb (ends_with_char DID_WILDCARD part)).

(** [_validate_did_pattern] *)
Definition validate_did_pattern (s : Session) (did_pattern : string) : result string :=
  let did_pattern := str_strip did_pattern in
  if bool_decide (did_pattern = EmptyString) then Err InputValidationError
  else
    let '(scope_pattern, separator, name_pattern) := str_partition DID_SEPARATOR did_pattern in
    let name_pattern := if separator then name_pattern else WILD in
    if bool_decide (scope_pattern = EmptyString) || bool_decide (name_pattern = EmptyString)
       || str_contains DID_SEPARATOR name_pattern then Err InputValidationError
    else if bad_wildcard scope_pattern || bad_wildcard name_pattern then Err InputValidationError
    else if str_contains DID_WILDCARD scope_pattern && negb (bool_decide (name_pattern = WILD))
    then Err InputValidationError
    else if bool_decide (SCOPE_LENGTH s < str_len scope_pattern)
            || bool_decide (NAME_LENGTH s < str_len name_pattern) then Err InputValidationError
    else Ok (append_sep scope_pattern name_pattern).

(** [_prefix_pattern_matches] *)
Definition prefix_pattern_matches (value pattern : string) : bool :=
  if ends_with_char DID_WILDCARD pattern then starts_with (drop_last pattern) value
  else bool_decide (value = pattern).

(** [_did_pattern_matches] *)
Definition did_pattern_matches (scope : InternalType) (name : option string) (did_pattern : string) : bool :=
  let external := str_external scope in
  let '(scope_pattern, _, name_pattern) := str_partition DID_SEPARATOR did_pattern in
  if bool_decide (name_pattern = WILD) then prefix_pattern_matches external scope_pattern
  else match name with
       | None => false
       | Some n => bool_decide (external = scope_pattern) && prefix_pattern_matches n name_pattern
       end.

(** The scope part of a stored pattern: [target.partition(':')[0]] *)
Definition scope_part (target : string) : string := (str_partition DID_SEPARATOR target).1.1.
(** The name part: [target.partition(':')[2]] *)
Definition name_part (target : string) : string := (str_partition DID_SEPARATOR target).2.

(** ** Permission requests and their handlers *)

(** [PermissionRequest] and its subclass [DidPermissionRequest]; [OtherRequest] is any
    other request object, with the permission type its class names, if any. *)
Inductive PermissionRequest :=
  | DidPermissionRequest (operation : DidOperationType) (scope : InternalType) (name : option string)
  | OtherRequest (permission_type : option RolePermissionType).

(** The boolean column of an operation. *)
Definition operation_column (op : DidOperationType) (p : DidPerm) : bool :=
  match op with READ => can_read p | WRITE => can_write p | DELETE => can_delete p end.

Definition set_operation_column (op : DidOperationType) (v : bool) (p : DidPerm) : DidPerm :=
  match op with
  | READ => Perm v (can_write p) (can_delete p)
  | WRITE => Perm (can_read p) v (can_delete p)
  | DELETE => Perm (can_read p) (can_write p) v
  end.

(** [granted_targets] of the DID handler: the patterns on which an active assignment of the
    account to a role grants the operation. *)
Definition granted_targets (s : Session) (account : InternalType) (op : DidOperationType) : list string :=
  omap (fun row : (string * string) * DidPerm =>
          let '((role, target), p) := row in
          if has_account_valid_role s account role && operation_column op p then Some target else None)
    (map_to_list (role_did_permission_map (role_tables s))).

(** [_request_handler] with [DidPermissionHandler] the only handler checked against
    requests: the operation and the DID of the request, or the exception. *)
Definition request_handler (r : PermissionRequest) : result (DidOperationType * InternalType * option string) :=
  match r with
  | DidPermissionRequest op scope name => Ok (op, scope, name)
  | OtherRequest _ => Err InputValidationError
  end.

(** [has_permission] *)
Definition has_permission (s : Session) (account : InternalType) (request : PermissionRequest) : result bool :=
  let* h := request_handler request in
  let '(op, scope, name) := h in
  Ok (existsb (did_pattern_matches scope name) (granted_targets s account op)).

(** [has_any_scope_prefix_access] *)
Definition has_any_scope_prefix_access (s : Session) (account scope : InternalType) (op : DidOperationType) : bool :=
  existsb (fun target => prefix_pattern_matches (str_external scope) (scope_part target))
    (granted_targets s account op).

(** ** The cached checkers *)

(** What tells two requests apart: dataclass equality, the scope by its internal value. *)
Definition request_key : Type := DidOperationType * option string * option string.

Definition key_of (op : DidOperationType) (scope : InternalType) (name : option string) : request_key :=
  (op, internal scope, name).

(** The closure of [_permission_checker]: the privileges looked up once, the targets per
    operation and the decisions per request. *)
Record Checker := MkChecker {
  privileged : bool;
  granted : gmap DidOperationType (list string);
  decisions : gmap request_key bool;
}.

Definition permission_checker (s : Session) (account : InternalType) : Checker :=
  MkChecker (bool_decide (external account = Some "root"%string) || has_admin_role s account) ∅ ∅.

(** [_decide] *)
Definition checker_decide (s : Session) (account : InternalType) (c : Checker)
    (op : DidOperationType) (scope : InternalType) (name : option string) : bool * Checker :=
  if privileged c then (true, c)
  else
    let g := match granted c !! op with
             | Some _ => granted c
             | None => <[op := granted_targets s account op]> (granted c)
             end in
    (existsb (did_pattern_matches scope name) (default [] (g !! op)),
     MkChecker (privileged c) g (decisions c)).

(** [_check] *)
Definition checker_check (s : Session) (account : InternalType) (c : Checker)
    (request : PermissionRequest) : result (bool * Checker) :=
  let* h := request_handler request in
  let '(op, scope, name) := h in
  match decisions c !! key_of op scope name with
  | Some b => Ok (b, c)
  | None =>
      let '(b, c') := checker_decide s account c op scope name in
      Ok (b, MkChecker (privileged c') (granted c') (<[key_of op scope name := b]> (decisions c')))
  end.

(** The closure of [scope_access_checker]: [skip_filtering], its permission checker, the
    scope parts of the patterns when any DID is enough, the owned scopes seen so far. *)
Record ScopeChecker := MkScopeChecker {
  sc_skip : bool;
  sc_op : DidOperationType;
  sc_check : Checker;
  sc_parts : list string;
  sc_owned : gmap (option string) bool;
}.

Definition scope_access_checker (s : Session) (account : InternalType) (op : DidOperationType)
    (skip_filtering any_did : bool) : ScopeChecker :=
  MkScopeChecker skip_filtering op (permission_checker s account)
    (if any_did then scope_part <$> granted_targets s account op else []) ∅.

(** Its [_can_access]; [None] is a scope that is [None] or not an internal scope. *)
Definition scope_can_access (s : Session) (account : InternalType) (c : ScopeChecker)
    (scope : option InternalType) : result (bool * ScopeChecker) :=
  if sc_skip c then Ok (true, c)
  else match scope with
  | None => Ok (false, c)
  | Some scope =>
      let* r := checker_check s account (sc_check c) (DidPermissionRequest (sc_op c) scope None) in
      let '(b, chk) := r in
      let c := MkScopeChecker (sc_skip c) (sc_op c) chk (sc_parts c) (sc_owned c) in
      if b then Ok (true, c)
      else
        let owned := match sc_owned c !! internal scope with
                     | Some _ => sc_owned c
                     | None => <[internal scope := is_scope_owner s scope account]> (sc_owned c)
                     end in
        let c := MkScopeChecker (sc_skip c) (sc_op c) (sc_check c) (sc_parts c) owned in
        if default false (owned !! internal scope) then Ok (true, c)
        else Ok (existsb (fun part => prefix_pattern_matches (str_external scope) part) (sc_parts c), c)
  end.

(** [_did_owner] *)
Definition did_owner (s : Session) (scope : InternalType) (name : string) : option string :=
  k ← scope_key scope name; dids s !! k.

(** The closure of [did_access_checker]. *)
Record DidChecker := MkDidChecker {
  dc_skip : bool;
  dc_whole : ScopeChecker;
  dc_reads : ScopeChecker;
  dc_patterns : list string;
  dc_scopes_read : gmap (option string) bool;
}.

Definition did_access_checker (s : Session) (account : InternalType) (op : DidOperationType)
    (skip_filtering : bool) : DidChecker :=
  MkDidChecker skip_filtering
    (scope_access_checker s account op false false)
    (scope_access_checker s account READ false true)
    (filter (fun target => name_part target <> WILD) (granted_targets s account op)) ∅.

(** Its [_can_access] *)
Definition did_can_access (s : Session) (account : InternalType) (c : DidChecker)
    (scope : option InternalType) (name : option string) : result (bool * DidChecker) :=
  if dc_skip c then Ok (true, c)
  else
    let* r := scope_can_access s account (dc_whole c) scope in
    let '(b, whole) := r in
    let c := MkDidChecker (dc_skip c) whole (dc_reads c) (dc_patterns c) (dc_scopes_read c) in
    if b then Ok (true, c)
    else match scope, name with
    | Some scope, Some name =>
        if existsb (did_pattern_matches scope (Some name)) (dc_patterns c) then Ok (true, c)
        else
          let* c :=
            match dc_scopes_read c !! internal scope with
            | Some _ => Ok c
            | None =>
                let* r := scope_can_access s account (dc_reads c) (Some scope) in
                let '(rd, reads) := r in
                Ok (MkDidChecker (dc_skip c) (dc_whole c) reads (dc_patterns c)
                      (<[internal scope := rd]> (dc_scopes_read c)))
            end in
          Ok (default false (dc_scopes_read c !! internal scope)
              && match did_owner s scope name with Some o => is_int o account | None => false end, c)
    | _, _ => Ok (false, c)
    end.

(** [filter_iterable_by_did_access] over items given by their scope and name: the items kept. *)
Fixpoint filter_by_did_access (s : Session) (account : InternalType) (c : DidChecker)
    (items : list (option InternalType * option string))
    : result (list (option InternalType * option string)) :=
  match items with
  | [] => Ok []
  | (scope, name) :: items =>
      let* r := did_can_access s account c scope name in
      let '(b, c) := r in
      let* rest := filter_by_did_access s account c items in
      Ok (if b then (scope, name) :: rest else rest)
  end.

(** [filter_iterable_by_scope_access] over items given by their scope. *)
Fixpoint filter_by_scope_access (s : Session) (account : InternalType) (c : ScopeChecker)
    (items : list (option InternalType)) : result (list (option InternalType)) :=
  match items with
  | [] => Ok []
  | scope :: items =>
      let* r := scope_can_access s account c scope in
      let '(b, c) := r in
      let* rest := filter_by_scope_access s account c items in
      Ok (if b then scope :: rest else rest)
  end.

(** What a policy package says about filters ([get_disabled_filters_for_all_accounts],
    [get_disabled_filters_for_all_roles], and the ['disable_filters'] of [get_roles]). *)
Record FilterPolicy := {
  disabled_for_all_accounts : gset string;
  disabled_for_all_roles : gset string;
  role_disable_filters : gmap string (list string);
}.

(** Whether the account actively holds a role of the given ones. *)
Definition holds_role (s : Session) (account : InternalType) (ok : string -> bool) : bool :=
  existsb (fun kv => is_int kv.1.1 account && ok kv.1.2 && assignment_active s kv.2)
    (map_to_list (account_role_map (role_tables s))).

(** [is_filter_disabled] *)
Definition is_filter_disabled (s : Session) (policy : FilterPolicy) (account : InternalType) (filter_name : string) : bool :=
  if negb (rbac_enabled s) then true
  else if bool_decide (filter_name ∈ disabled_for_all_accounts policy) then true
  else if bool_decide (filter_name ∈ disabled_for_all_roles policy) then
    holds_role s account (fun role => negb (is_reserved_role role))
  else
    let roles := List.filter (fun role => negb (is_reserved_role role))
                   (omap (fun rd : string * list string => if bool_decide (filter_name ∈ rd.2) then Some rd.1 else None)
                      (map_to_list (role_disable_filters policy))) in
    if bool_decide (roles = []) then false
    else holds_role s account (fun role => bool_decide (role ∈ roles)).

(** ** Facts *)

Lemma has_account_valid_role_spec s account role :
  has_account_valid_role s account role = true <->
  exists a m, internal account = Some a /\ account_role_map (role_tables s) !! (a, role) = Some m /\
    (activates_at m <= now s)%Z /\ (forall e, expires_at m = Some e -> (now s < e)%Z).
Proof.
  unfold has_account_valid_role, assignment_active. destruct (internal account) as [a|] eqn:Ha.
  - destruct (account_role_map (role_tables s) !! (a, role)) as [m|] eqn:Hm.
    + rewrite andb_true_iff, bool_decide_eq_true. split.
      * intros [H1 H2]. exists a, m. split_and!; auto. intros e He. rewrite He in H2.
        by apply bool_decide_eq_true in H2.
      * intros (a' & m' & [= <-] & Hm' & H1 & H2). rewrite Hm in Hm'. injection Hm' as <-. split; [done|].
        destruct (expires_at m) as [e|]; [|done]. by apply bool_decide_eq_true, H2.
    + split; [done|]. intros (a' & m' & [= <-] & ? & _). congruence.
  - split; [done|]. by intros (? & ? & ? & _).
Qed.

Lemma granted_targets_elem s account op t :
  t ∈ granted_targets s account op <->
  exists role p, role_did_permission_map (role_tables s) !! (role, t) = Some p /\
    has_account_valid_role s account role = true /\ operation_column op p = true.
Proof.
  unfold granted_targets. rewrite list_elem_of_omap. split.
  - intros ([[role t'] p] & Hin & Hf). apply elem_of_map_to_list in Hin. simpl in Hf.
    destruct (has_account_valid_role s account role) eqn:Hr, (operation_column op p) eqn:Ho; simplify_eq/=.
    eauto.
  - intros (role & p & Hm & Hr & Ho). exists ((role, t), p).
    split; [by apply elem_of_map_to_list|]. simpl. by rewrite Hr, Ho.
Qed.

Lemma existsb_true {A} (f : A -> bool) l : existsb f l = true <-> exists x, x ∈ l /\ f x = true.
Proof. rewrite existsb_exists. by setoid_rewrite <-list_elem_of_In. Qed.

Lemma existsb_ext {A} (f g : A -> bool) l : (forall x, f x = g x) -> existsb f l = existsb g l.
Proof. intros He. induction l as [|x l IH]; simpl; [done|]. by rewrite He, IH. Qed.

(** *** The checkers without their caches *)

Definition is_privileged (s : Session) (account : InternalType) : bool :=
  bool_decide (external account = Some "root"%string) || has_admin_role s account.

Definition direct_check s account op scope name : bool :=
  is_privileged s account || existsb (did_pattern_matches scope name) (granted_targets s account op).

Definition direct_scope s account op (any_did : bool) scope : bool :=
  direct_check s account op scope None || is_scope_owner s scope account
  || (any_did && has_any_scope_prefix_access s account scope op).

Definition direct_did s account op scope (name : option string) : bool :=
  direct_scope s account op false scope ||
  match name with
  | None => false
  | Some n =>
      existsb (did_pattern_matches scope (Some n)) (granted_targets s account op) ||
      (direct_scope s account READ true scope &&
       match did_owner s scope n with Some o => is_int o account | None => false end)
  end.

Section checkers.
Variables (s : Session) (account : InternalType).

Record checker_ok (c : Checker) : Prop := {
  ck_priv : privileged c = is_privileged s account;
  ck_granted : forall op l, granted c !! op = Some l -> l = granted_targets s account op;
  ck_decisions : forall op scope name b, canonical scope ->
    decisions c !! key_of op scope name = Some b -> b = direct_check s account op scope name;
}.

Record scope_ok (op : DidOperationType) (any_did : bool) (c : ScopeChecker) : Prop := {
  so_skip : sc_skip c = false;
  so_op : sc_op c = op;
  so_check : checker_ok (sc_check c);
  so_parts : sc_parts c = if any_did then scope_part <$> granted_targets s account op else [];
  so_owned : forall scope b, sc_owned c !! internal scope = Some b -> b = is_scope_owner s scope account;
}.

Record did_ok (op : DidOperationType) (c : DidChecker) : Prop := {
  do_skip : dc_skip c = false;
  do_whole : scope_ok op false (dc_whole c);
  do_reads : scope_ok READ true (dc_reads c);
  do_patterns : dc_patterns c = filter (fun t => name_part t <> WILD) (granted_targets s account op);
  do_read : forall scope b, canonical scope -> dc_scopes_read c !! internal scope = Some b ->
    b = direct_scope s account READ true scope;
}.

Lemma permission_checker_ok : checker_ok (permission_checker s account).
Proof. split; simpl; [done|..]; intros; by rewrite lookup_empty in *. Qed.

Lemma scope_access_checker_ok op any_did :
  scope_ok op any_did (scope_access_checker s account op false any_did).
Proof. split; simpl; [done..|apply permission_checker_ok|done|]. intros; by rewrite lookup_empty in *. Qed.

Lemma did_access_checker_ok op : did_ok op (did_access_checker s account op false).
Proof.
  split; simpl; [done|apply scope_access_checker_ok..|done|]. intros; by rewrite lookup_empty in *.
Qed.

(** Matching looks at the external name of the scope only. *)
Lemma did_pattern_matches_external scope scope' name t :
  external scope = external scope' -> did_pattern_matches scope name t = did_pattern_matches scope' name t.
Proof. intros He. unfold did_pattern_matches, str_external. by rewrite He. Qed.

Lemma direct_check_key op op' scope scope' name name' :
  canonical scope -> canonical scope' -> key_of op scope name = key_of op' scope' name' ->
  direct_check s account op scope name = direct_check s account op' scope' name'.
Proof.
  intros Hc Hc' [= -> Hi ->]. unfold direct_check. f_equal. apply existsb_ext. intros t.
  apply did_pattern_matches_external. by apply canonical_external.
Qed.

Lemma checker_check_ok c op scope name :
  checker_ok c -> canonical scope ->
  exists c', checker_check s account c (DidPermissionRequest op scope name) =
    Ok (direct_check s account op scope name, c') /\ checker_ok c'.
Proof.
  intros Hok Hcan. unfold checker_check. cbn [request_handler]. run.
  destruct (decisions c !! key_of op scope name) as [b|] eqn:Hd.
  { exists c. split; [|done]. by rewrite (ck_decisions c Hok op scope name b Hcan Hd). }
  unfold checker_decide.
  assert (Hins : forall p g b, p = is_privileged s account -> b = direct_check s account op scope name ->
    (forall op l, g !! op = Some l -> l = granted_targets s account op) ->
    checker_ok (MkChecker p g (<[key_of op scope name := b]> (decisions c)))).
  { intros p g b Hp Hb Hg. split; simpl; [done|done|]. intros op' scope' name' b' Hcan'.
    rewrite lookup_insert. case_decide as Hk.
    - intros [= <-]. rewrite Hb. by apply direct_check_key.
    - by apply (ck_decisions c Hok). }
  destruct (privileged c) eqn:Hp; rewrite (ck_priv c Hok) in Hp; simpl.
  - assert (true = direct_check s account op scope name) as Ht by (unfold direct_check; by rewrite Hp).
    rewrite <-Ht. eexists. split; [done|]. apply Hins; [apply Hok|done|apply Hok].
  - set (g := match granted c !! op with Some _ => granted c | None => _ end).
    assert (g !! op = Some (granted_targets s account op)) as Hgop.
    { unfold g. destruct (granted c !! op) as [l|] eqn:Hl; [|by rewrite lookup_insert_eq].
      by rewrite Hl, (ck_granted c Hok op l Hl). }
    assert (forall op l, g !! op = Some l -> l = granted_targets s account op) as Hg.
    { intros op' l. unfold g. destruct (granted c !! op) eqn:Hl; [apply Hok|].
      rewrite lookup_insert. case_decide as Ho; [by intros [= <-]; subst|apply Hok]. }
    rewrite Hgop. simpl.
    assert (existsb (did_pattern_matches scope name) (granted_targets s account op)
            = direct_check s account op scope name) as Ht by (unfold direct_check; by rewrite Hp).
    rewrite Ht. eexists. split; [done|]. by apply Hins.
Qed.

Lemma is_scope_owner_internal scope scope' :
  internal scope = internal scope' -> is_scope_owner s scope account = is_scope_owner s scope' account.
Proof. intros He. unfold is_scope_owner. by rewrite He. Qed.

Lemma has_any_parts op scope :
  has_any_scope_prefix_access s account scope op =
  existsb (fun part => prefix_pattern_matches (str_external scope) part)
    (scope_part <$> granted_targets s account op).
Proof.
  unfold has_any_scope_prefix_access. induction (granted_targets s account op) as [|t l IH]; simpl; [done|].
  by rewrite IH.
Qed.

Lemma scope_can_access_ok op any_did c scope :
  scope_ok op any_did c -> canonical scope ->
  exists c', scope_can_access s account c (Some scope) =
    Ok (direct_scope s account op any_did scope, c') /\ scope_ok op any_did c'.
Proof.
  intros Hok Hcan. unfold scope_can_access. rewrite (so_skip _ _ _ Hok), (so_op _ _ _ Hok).
  destruct (checker_check_ok (sc_check c) op scope None (so_check _ _ _ Hok) Hcan) as (chk & -> & Hchk).
  run. unfold direct_scope. destruct (direct_check s account op scope None); simpl.
  { eexists. split; [done|]. destruct Hok. by split. }
  set (owned := match sc_owned c !! internal scope with Some _ => sc_owned c | None => _ end).
  assert (owned !! internal scope = Some (is_scope_owner s scope account)) as Ho.
  { unfold owned. destruct (sc_owned c !! internal scope) as [b|] eqn:Hb; [|by rewrite lookup_insert_eq].
    by rewrite Hb, (so_owned _ _ _ Hok scope b Hb). }
  assert (forall scope' b, owned !! internal scope' = Some b -> b = is_scope_owner s scope' account) as Hown.
  { intros scope' b. unfold owned. destruct (sc_owned c !! internal scope) eqn:Hb; [apply Hok|].
    rewrite lookup_insert. case_decide as Hi; [intros [= <-]|apply Hok]. by apply is_scope_owner_internal. }
  rewrite Ho. simpl. destruct (is_scope_owner s scope account); simpl.
  { eexists. split; [done|]. destruct Hok. by split. }
  rewrite (so_parts _ _ _ Hok). eexists. split.
  - f_equal. f_equal. destruct any_did; simpl; [by rewrite has_any_parts|done].
  - destruct Hok. by split.
Qed.

Lemma direct_scope_internal op any_did scope scope' :
  canonical scope -> canonical scope' -> internal scope = internal scope' ->
  direct_scope s account op any_did scope = direct_scope s account op any_did scope'.
Proof.
  intros Hc Hc' Hi. unfold direct_scope.
  rewrite (direct_check_key op op scope scope' None None Hc Hc') by (unfold key_of; by rewrite Hi).
  rewrite (is_scope_owner_internal _ _ Hi). do 2 f_equal.
  unfold has_any_scope_prefix_access, str_external. by rewrite (canonical_external scope scope').
Qed.

(** Patterns whose name part is ['*'] cover whole scopes: the other ones decide a name
    once the whole scope has been refused. *)
Lemma name_patterns_enough op scope n :
  direct_check s account op scope None = false ->
  existsb (did_pattern_matches scope (Some n)) (filter (fun t => name_part t <> WILD) (granted_targets s account op)) =
  existsb (did_pattern_matches scope (Some n)) (granted_targets s account op).
Proof.
  intros Hd. apply orb_false_iff in Hd as [_ Hd]. apply eq_bool_prop_intro. split; intros H%Is_true_true; apply Is_true_true.
  - apply existsb_true in H as (t & [_ Ht]%list_elem_of_filter & Hm). apply existsb_true. eauto.
  - apply existsb_true in H as (t & Ht & Hm). apply existsb_true. exists t. split; [|done].
    apply list_elem_of_filter. split; [|done]. intros Hw.
    assert (existsb (did_pattern_matches scope None) (granted_targets s account op) = true); [|congruence].
    apply existsb_true. exists t. split; [done|]. revert Hm. unfold did_pattern_matches, name_part in *.
    destruct (str_partition DID_SEPARATOR t) as [[sp f] np]. simpl in Hw. subst np.
    by rewrite bool_decide_true.
Qed.

Lemma did_can_access_ok op c scope name :
  did_ok op c -> canonical scope ->
  exists c', did_can_access s account c (Some scope) name =
    Ok (direct_did s account op scope name, c') /\ did_ok op c'.
Proof.
  intros Hok Hcan. unfold did_can_access. rewrite (do_skip _ _ Hok).
  destruct (scope_can_access_ok op false (dc_whole c) scope (do_whole _ _ Hok) Hcan) as (whole & -> & Hwhole).
  run. unfold direct_did. destruct (direct_scope s account op false scope) eqn:Hds; simpl.
  { eexists. split; [done|]. destruct Hok. by split. }
  destruct name as [n|]; [|eexists; split; [done|]; destruct Hok; by split].
  rewrite (do_patterns _ _ Hok), name_patterns_enough.
  2:{ unfold direct_scope in Hds. by apply orb_false_iff in Hds as [[? _]%orb_false_iff _]. }
  destruct (existsb _ _); simpl.
  { eexists. split; [done|]. destruct Hok. by split. }
  destruct (dc_scopes_read c !! internal scope) as [b|] eqn:Hb; simpl.
  - rewrite Hb. simpl. rewrite (do_read _ _ Hok scope b Hcan Hb).
    eexists. split; [done|]. destruct Hok. by split.
  - destruct (scope_can_access_ok READ true (dc_reads c) scope (do_reads _ _ Hok) Hcan) as (reads & -> & Hreads).
    run. cbn [dc_scopes_read]. rewrite lookup_insert_eq. simpl. eexists. split; [done|].
    destruct Hok. split; simpl; auto. intros scope' b Hcan'.
    rewrite lookup_insert. case_decide as Hi; [intros [= <-]|by auto]. by apply direct_scope_internal.
Qed.

End checkers.

(** ** What a DID pattern means *)

(** The four forms of a pattern, as [_validate_did_pattern] documents them. *)
Inductive Pattern :=
  | Scopes (prefix : string)               (* 'data*:*' *)
  | WholeScope (scope : string)            (* 'data:*' *)
  | NamePrefix (scope prefix : string)     (* 'data:raw*' *)
  | OneDid (scope name : string).          (* 'data:raw1' *)

Definition pattern_parts (p : Pattern) : string * string :=
  match p with
  | Scopes pre => (pre +:+ WILD, WILD)
  | WholeScope sc => (sc, WILD)
  | NamePrefix sc pre => (sc, pre +:+ WILD)
  | OneDid sc n => (sc, n)
  end.

Definition show_pattern (p : Pattern) : string := append_sep (pattern_parts p).1 (pattern_parts p).2.

(** A piece of a pattern: neither the wildcard nor the separator occurs in it. *)
Definition plain (s : string) : Prop :=
  str_contains DID_WILDCARD s = false /\ str_contains DID_SEPARATOR s = false.

Definition pattern_wf (p : Pattern) : Prop :=
  match p with
  | Scopes pre => plain pre
  | WholeScope sc => plain sc /\ sc <> EmptyString
  | NamePrefix sc pre => plain sc /\ plain pre /\ sc <> EmptyString /\ pre <> EmptyString
  | OneDid sc n => plain sc /\ plain n /\ sc <> EmptyString /\ n <> EmptyString
  end.

(** The DIDs and scopes a pattern covers. *)
Definition covers (p : Pattern) (scope : string) (name : option string) : Prop :=
  match p with
  | Scopes pre => exists r, scope = pre +:+ r
  | WholeScope sc => scope = sc
  | NamePrefix sc pre => scope = sc /\ exists r, name = Some (pre +:+ r)
  | OneDid sc n => scope = sc /\ name = Some n
  end.

Lemma str_partition_sep a b :
  str_contains DID_SEPARATOR a = false -> str_partition DID_SEPARATOR (append_sep a b) = (a, true, b).
Proof. intros Ha. by apply str_partition_true. Qed.

Lemma plain_app a b : plain (a +:+ b) <-> plain a /\ plain b.
Proof. unfold plain. rewrite !str_contains_app, !orb_false_iff. tauto. Qed.

Lemma prefix_wild value pre :
  prefix_pattern_matches value (pre +:+ WILD) = true <-> exists r, value = pre +:+ r.
Proof.
  unfold prefix_pattern_matches. replace (ends_with_char DID_WILDCARD (pre +:+ WILD)) with true.
  - change WILD with (String DID_WILDCARD EmptyString). rewrite drop_last_snoc. apply starts_with_spec.
  - symmetry. apply ends_with_char_snoc. by exists pre.
Qed.

Lemma prefix_plain value p :
  str_contains DID_WILDCARD p = false -> prefix_pattern_matches value p = true <-> value = p.
Proof.
  intros Hp. unfold prefix_pattern_matches. destruct (ends_with_char DID_WILDCARD p) eqn:He.
  - apply ends_with_char_snoc in He as [t ->]. rewrite str_contains_app in Hp.
    simpl in Hp. by rewrite orb_true_r in Hp.
  - apply bool_decide_eq_true.
Qed.

Lemma plain_not_wild s : plain s -> s <> WILD.
Proof. by intros [Hs _] ->. Qed.

Lemma snoc_wild_not_wild pre : pre <> EmptyString -> pre +:+ WILD <> WILD.
Proof. by destruct pre as [|a [|b pre]]. Qed.

Lemma pattern_parts_sep p :
  pattern_wf p -> str_partition DID_SEPARATOR (show_pattern p) = ((pattern_parts p).1, true, (pattern_parts p).2).
Proof.
  intros Hwf. apply str_partition_sep. destruct p as [pre|sc|sc pre|sc n]; simpl in *.
  - rewrite str_contains_app. by destruct Hwf as [_ ->].
  - apply Hwf.
  - apply Hwf.
  - apply Hwf.
Qed.

(** Matching against a printed pattern is covering. *)
Lemma matches_covers p scope name :
  pattern_wf p ->
  did_pattern_matches scope name (show_pattern p) = true <-> covers p (str_external scope) name.
Proof.
  intros Hwf. unfold did_pattern_matches. rewrite pattern_parts_sep by done. revert Hwf.
  destruct p as [pre|sc|sc pre|sc n]; simpl; [intros Hp|intros [Hp He]|intros (Hp & Hq & He & Hf)..].
  - apply prefix_wild.
  - apply prefix_plain, Hp.
  - rewrite (bool_decide_false (pre +:+ WILD = WILD)) by (apply snoc_wild_not_wild, Hf).
    destruct name as [n|].
    + rewrite andb_true_iff, bool_decide_eq_true, prefix_wild. naive_solver.
    + split; [done|]. by intros (_ & r & ?).
  - rewrite (bool_decide_false (n = WILD)) by (apply plain_not_wild, Hq).
    destruct name as [m|].
    + rewrite andb_true_iff, bool_decide_eq_true, prefix_plain by apply Hq. naive_solver.
    + split; [done|]. by intros (_ & ?).
Qed.

(** The lengths a schema allows. *)
Definition pattern_fits (s : Session) (t : string) : Prop :=
  str_len (scope_part t) <= SCOPE_LENGTH s /\ str_len (name_part t) <= NAME_LENGTH s.

Lemma str_count_app c a b : str_count c (a +:+ b) = str_count c a + str_count c b.
Proof. induction a as [|x a IH]; simpl; [done|]. rewrite IH. by case_bool_decide. Qed.

Lemma str_count_zero c a : str_contains c a = false <-> str_count c a = 0.
Proof.
  rewrite <-not_true_iff_false, str_count_contains. lia.
Qed.

(** At most one wildcard, at the end. *)
Lemma bad_wildcard_false part :
  bad_wildcard part = false <->
  str_contains DID_WILDCARD part = false \/
  exists pre, part = pre +:+ WILD /\ str_contains DID_WILDCARD pre = false.
Proof.
  unfold bad_wildcard. rewrite orb_false_iff, bool_decide_eq_false. split.
  - intros [Hc Hw]. destruct (str_contains DID_WILDCARD part) eqn:Hin; [|by left]. right. simpl in Hw.
    apply negb_false_iff, ends_with_char_snoc in Hw as [pre ->]. exists pre. split; [done|].
    apply str_count_zero. rewrite str_count_app in Hc. simpl in Hc. lia.
  - intros [Hp|(pre & -> & Hp)].
    + rewrite Hp. split; [|done]. apply str_count_zero in Hp. lia.
    + split; [rewrite str_count_app; apply str_count_zero in Hp; rewrite Hp; simpl; lia|].
      replace (ends_with_char DID_WILDCARD (pre +:+ WILD)) with true; [by rewrite andb_false_r|].
      symmetry. apply ends_with_char_snoc. by exists pre.
Qed.

(** The tests of [_validate_did_pattern] on the two parts accept exactly the four forms. *)
Definition parts_ok (sp np : string) : Prop :=
  sp <> EmptyString /\ np <> EmptyString /\ str_contains DID_SEPARATOR np = false /\
  bad_wildcard sp = false /\ bad_wildcard np = false /\
  (str_contains DID_WILDCARD sp = true -> np = WILD).

Lemma parts_ok_pattern sp np :
  str_contains DID_SEPARATOR sp = false ->
  parts_ok sp np <-> exists p, pattern_wf p /\ append_sep sp np = show_pattern p.
Proof.
  intros Hsep. split.
  - intros (Hs & Hn & Hnsep & [Hw|(pre & -> & Hw)]%bad_wildcard_false & Hnw & Himp).
    + apply bad_wildcard_false in Hnw as [Hnw|(pre & -> & Hnw)].
      * exists (OneDid sp np). by unfold plain.
      * rewrite str_contains_app in Hnsep. apply orb_false_iff in Hnsep as [Hnsep _].
        destruct (decide (pre = EmptyString)) as [->|Hpre].
        -- exists (WholeScope sp). by unfold plain.
        -- exists (NamePrefix sp pre). by unfold plain.
    + rewrite Himp by (rewrite str_contains_app; apply orb_true_r).
      rewrite str_contains_app in Hsep. apply orb_false_iff in Hsep as [Hsep _].
      exists (Scopes pre). by unfold plain.
  - intros (p & Hwf & Heq). apply (f_equal (str_partition DID_SEPARATOR)) in Heq.
    rewrite str_partition_sep, pattern_parts_sep in Heq by done. unfold parts_ok. injection Heq as -> ->.
    destruct p as [pre|sc|sc pre|sc n]; simpl in Hwf |- *; rewrite ?bad_wildcard_false, ?str_contains_app.
    + destruct Hwf as [H1 H2]. rewrite H1. split_and!; try done; [by destruct pre|eauto|right; by exists EmptyString].
    + destruct Hwf as [[H1 H2] H3]. rewrite H1. split_and!; try done; [by left|right; by exists EmptyString].
    + destruct Hwf as ([H1 H2] & [H3 H4] & H5 & H6). rewrite H1, H4. split_and!; try done; [by destruct pre|by left|eauto].
    + destruct Hwf as ([H1 H2] & [H3 H4] & H5 & H6). rewrite H1. split_and!; try done; by left.
Qed.

(** [_validate_did_pattern] accepts exactly the patterns of the four forms that fit the
    schema, up to surrounding whitespace and a missing name part. *)
Lemma validate_did_pattern_Ok s raw t :
  validate_did_pattern s raw = Ok t <->
  exists p, pattern_wf p /\ t = show_pattern p /\ pattern_fits s t /\
    (str_strip raw = t \/
     str_contains DID_SEPARATOR (str_strip raw) = false /\ t = append_sep (str_strip raw) WILD).
Proof.
  unfold validate_did_pattern, pattern_fits, scope_part, name_part.
  assert (forall sp np, str_contains DID_SEPARATOR sp = false ->
    (if bool_decide (sp = EmptyString) || bool_decide (np = EmptyString) || str_contains DID_SEPARATOR np
     then Err InputValidationError
     else if bad_wildcard sp || bad_wildcard np then Err InputValidationError
     else if str_contains DID_WILDCARD sp && negb (bool_decide (np = WILD)) then Err InputValidationError
     else if bool_decide (SCOPE_LENGTH s < str_len sp) || bool_decide (NAME_LENGTH s < str_len np)
     then Err InputValidationError else Ok (append_sep sp np)) = Ok t <->
    parts_ok sp np /\ str_len sp <= SCOPE_LENGTH s /\ str_len np <= NAME_LENGTH s /\ t = append_sep sp np) as Hparts.
  { intros sp np Hsep. unfold parts_ok. split.
    - repeat case_bool_decide; simpl; try done.
      all: repeat case_match; intros [= <-]; try done;
        repeat match goal with H : _ || _ = false |- _ => apply orb_false_iff in H as [? ?] end;
        split_and!; try done; try lia; intros Hw; rewrite Hw in *; by simplify_eq/=.
    - intros ((H1 & H2 & H3 & H4 & H5 & H6) & H7 & H8 & ->).
      rewrite !(bool_decide_false (_ = _)), H3, H4, H5 by done. simpl.
      rewrite !(bool_decide_false (_ < _)) by lia. simpl.
      destruct (str_contains DID_WILDCARD sp); simpl; [|done]. by rewrite H6. }
  destruct (str_partition DID_SEPARATOR (str_strip raw)) as [[sp f] np] eqn:Hpart.
  destruct (str_partition_found _ _ _ _ _ Hpart) as [Hf Hsp].
  case_bool_decide as Hempty.
  { split; [done|]. intros (p & Hwf & -> & _ & [Hr|[_ Hr]]).
    - rewrite Hempty in Hr. unfold show_pattern, append_sep in Hr. by destruct (pattern_parts p).1.
    - rewrite Hempty in Hr. assert (parts_ok EmptyString WILD) as (? & _); [|done].
      apply parts_ok_pattern; [done|]. by exists p. }
  rewrite Hparts by done. rewrite parts_ok_pattern by done.
  destruct f.
  - apply str_partition_true in Hpart as [Heq _]. rewrite <-Hf. split.
    + intros ((p & Hwf & Hp) & H1 & H2 & ->). exists p.
      rewrite str_partition_sep by done. split_and!; auto.
    + intros (p & Hwf & Ht & Hfit & [Hr|[? _]]); [|done].
      assert (t = append_sep sp np) as -> by by rewrite <-Hr, Heq.
      rewrite str_partition_sep in Hfit by done. split_and!; [eauto|apply Hfit..|done].
  - symmetry in Hf. rewrite (str_partition_false _ _ Hf) in Hpart. injection Hpart as <- <-. split.
    + intros ((p & Hwf & Hp) & H1 & H2 & ->). exists p.
      rewrite str_partition_sep by done. split_and!; auto.
    + intros (p & Hwf & Ht & Hfit & [Hr|[_ Hr]]).
      * rewrite Hr, Ht in Hf. unfold show_pattern, append_sep in Hf.
        rewrite str_contains_app in Hf. simpl in Hf. by rewrite orb_true_r in Hf.
      * rewrite Hr, str_partition_sep in Hfit by done.
        split_and!; [exists p; split; [done|congruence]|apply Hfit..|done].
Qed.

(** A stored pattern is stripped. *)
Lemma validate_did_pattern_stripped s raw t : validate_did_pattern s raw = Ok t -> str_strip t = t.
Proof.
  intros (p & Hwf & Ht & Hfit & [<-|[_ Hr]])%validate_did_pattern_Ok; [apply str_strip_idem|].
  rewrite Hr. apply (str_strip_snoc _ ":"%string DID_WILDCARD); [|apply str_strip_idem|done].
  intros He. rewrite He in Hr. assert (parts_ok EmptyString WILD) as (? & _); [|done].
  apply parts_ok_pattern; [done|]. exists p. by rewrite <-Ht.
Qed.

(** *** The accepted patterns *)

(** C36: a pattern [_validate_did_pattern] accepts is one of the four documented forms, matches
    exactly the DIDs and whole scopes that form covers, and is accepted again as it is stored. *)
Theorem did_pattern_semantics s raw t :
  validate_did_pattern s raw = Ok t ->
  (exists p, pattern_wf p /\ t = show_pattern p /\
     forall scope name, did_pattern_matches scope name t = true <-> covers p (str_external scope) name) /\
  validate_did_pattern s t = Ok t.
Proof.
  intros Hv. pose proof Hv as (p & Hwf & Ht & Hfit & Hraw)%validate_did_pattern_Ok. split.
  - exists p. split_and!; [done|done|]. intros scope name. rewrite Ht. by apply matches_covers.
  - apply validate_did_pattern_Ok. exists p. split_and!; [done|done|done|]. left.
    by eapply validate_did_pattern_stripped.
Qed.

Lemma did_pattern_semantics_witness :
  validate_did_pattern empty_session " data* " = Ok "data*:*"%string /\
  validate_did_pattern empty_session "data*:*" = Ok "data*:*"%string.
Proof.
  split; [by vm_compute|].
  apply (did_pattern_semantics empty_session " data* " "data*:*"). by vm_compute.
Defined.

(** *** What the roles grant *)

(** [has_permission] grants a request exactly when a role the account holds, through an
    assignment already activated and not expired, has the operation on a pattern matching it. *)
Theorem has_permission_granted s account op scope name :
  has_permission s account (DidPermissionRequest op scope name) = Ok true <->
  exists a role target m p,
    internal account = Some a /\
    account_role_map (role_tables s) !! (a, role) = Some m /\
    (activates_at m <= now s)%Z /\ (forall e, expires_at m = Some e -> (now s < e)%Z) /\
    role_did_permission_map (role_tables s) !! (role, target) = Some p /\
    operation_column op p = true /\ did_pattern_matches scope name target = true.
Proof.
  unfold has_permission. cbn [request_handler]. run. split.
  - intros [= Hx]. apply existsb_true in Hx as (t & Ht & Hm).
    apply granted_targets_elem in Ht as (role & p & Hp & Hr & Ho).
    apply has_account_valid_role_spec in Hr as (a & m & ? & ? & ? & ?).
    exists a, role, t, m, p. by split_and!.
  - intros (a & role & t & m & p & Ha & Hm & H1 & H2 & Hp & Ho & Hmt). f_equal.
    apply existsb_true. exists t. split; [|done]. apply granted_targets_elem. exists role, p.
    split_and!; [done| |done]. apply has_account_valid_role_spec. exists a, m. by split_and!.
Qed.

(** ** The cached checkers decide like direct checks *)

Definition direct_did_item s account op (item : option InternalType * option string) : bool :=
  match item.1 with None => false | Some scope => direct_did s account op scope item.2 end.

Definition direct_scope_item s account op any_did (item : option InternalType) : bool :=
  match item with None => false | Some scope => direct_scope s account op any_did scope end.

Definition item_canonical (item : option InternalType) : Prop :=
  match item with None => True | Some scope => canonical scope end.

Lemma did_can_access_item s account op c (item : option InternalType * option string) :
  did_ok s account op c -> item_canonical item.1 ->
  exists c', did_can_access s account c item.1 item.2 = Ok (direct_did_item s account op item, c') /\
    did_ok s account op c'.
Proof.
  intros Hok Hcan. destruct item as [[scope|] name]; [by apply did_can_access_ok|].
  simpl. unfold did_can_access, scope_can_access. rewrite (do_skip _ _ _ _ Hok).
  rewrite (so_skip _ _ _ _ _ (do_whole _ _ _ _ Hok)). run. eexists. split; [done|]. destruct Hok. by split.
Qed.

Lemma scope_can_access_item s account op any_did c item :
  scope_ok s account op any_did c -> item_canonical item ->
  exists c', scope_can_access s account c item = Ok (direct_scope_item s account op any_did item, c') /\
    scope_ok s account op any_did c'.
Proof.
  intros Hok Hcan. destruct item as [scope|]; [by apply scope_can_access_ok|].
  unfold scope_can_access. rewrite (so_skip _ _ _ _ _ Hok). by eexists.
Qed.

Lemma filter_by_did_access_ok s account op c items :
  did_ok s account op c -> Forall (fun i => item_canonical i.1) items ->
  filter_by_did_access s account c items = Ok (List.filter (direct_did_item s account op) items).
Proof.
  intros Hok Hall. revert c Hok. induction Hall as [|[scope name] items Hc Hall IH]; intros c Hok; simpl; [done|].
  destruct (did_can_access_item s account op c (scope, name) Hok Hc) as (c' & He & Hok'). simpl in He.
  rewrite He. run. rewrite IH by done. run. by destruct (direct_did_item s account op (scope, name)).
Qed.

(** The listing filter, with its caches of patterns, decisions, owned and readable scopes
    carried from item to item, keeps exactly the DIDs on which the decision taken afresh
    (privilege, whole scope, name patterns, readable scope of an owned DID) is positive. *)
Theorem did_filter_exact s account op items :
  Forall (fun i => item_canonical i.1) items ->
  filter_by_did_access s account (did_access_checker s account op false) items =
  Ok (List.filter (direct_did_item s account op) items).
Proof. intros Hall. apply filter_by_did_access_ok; [apply did_access_checker_ok|done]. Qed.

(** An account with a role that reads the scopes starting with [data] and the raw names of
    [mc], and that owns a dataset of a scope it may read names of. *)
Definition demo_role_session : Session :=
  {| now := 100; rbac_enabled := true; SCOPE_LENGTH := 25; NAME_LENGTH := 250;
     role_tables :=
       Tables {[ "reader" := Role None true false; "late" := Role None true false ]}
         {[ ("alice", "reader") := AccRole 0 (Some 200%Z); ("alice", "late") := AccRole 150 None ]}
         {[ ("reader", "data*:*") := Perm true false false; ("reader", "mc:raw*") := Perm true false false;
            ("late", "user:*") := Perm true true true ]} ∅ ∅;
     accounts := {[ "alice" := true; "bob" := true ]}; account_attrs := ∅;
     scopes := {[ "data1" := "bob"; "mc" := "bob"; "user" := "bob" ]};
     dids := {[ ("mc", "own") := "alice"; ("user", "own") := "alice" ]};
     rules := ∅; replicas := ∅; locks := []; identities := []; exceptions := []; rses := [];
     rse_attrs := ∅ |}%string.

Definition alice : InternalType := InternalAccount "alice" DEFAULT_VO.

Definition demo_items : list (option InternalType * option string) :=
  [(Some (InternalScope "data1" DEFAULT_VO), Some "x"); (Some (InternalScope "mc" DEFAULT_VO), Some "raw1");
   (Some (InternalScope "mc" DEFAULT_VO), Some "aod1"); (Some (InternalScope "mc" DEFAULT_VO), Some "own");
   (Some (InternalScope "user" DEFAULT_VO), Some "own"); (None, Some "x")]%string.

Lemma did_filter_exact_witness :
  filter_by_did_access demo_role_session alice (did_access_checker demo_role_session alice READ false) demo_items =
    Ok (List.filter (direct_did_item demo_role_session alice READ) demo_items) /\
  List.filter (direct_did_item demo_role_session alice READ) demo_items =
    [(Some (InternalScope "data1" DEFAULT_VO), Some "x"); (Some (InternalScope "mc" DEFAULT_VO), Some "raw1");
     (Some (InternalScope "mc" DEFAULT_VO), Some "own")]%string.
Proof.
  split; [|by vm_compute]. apply (did_filter_exact demo_role_session alice READ demo_items).
  repeat constructor.
Defined.
