(* ===== verification/RoleAdmin.v ===== *)
(** * Managing roles: the writes of [lib/rucio/core/role.py]

    Roles, their assignments and their permissions are added, changed and removed here.  An
    operation gives the session after its commit; an exception leaves the database as it was,
    since every failing path rolls back.  The database is the transcription of the
    constraints of [models.py]: primary keys are map keys, and what a commit would violate is
    listed explicitly. *)

From S2P Require Import Prelude PyString Types Database Role.

(** ** What the code relies on *)

(** A [datetime]: without a time zone, or with one. *)
Inductive datetime := Naive (t : Z) | Aware (t : Z).

(** The constraints a commit may violate, by the suffix of their names. *)
Inductive DBConstraint := NN | ACCOUNT_FK | ROLE_FK | PK | EXPIRES_CHK.
#[export] Instance DBConstraint_eq_dec : EqDecision DBConstraint.
Proof. solve_decision. Defined.

(** The date parsers of the standard library, how the driver stores a date, and the
    constraint an [IntegrityError] names when several are violated. *)
Class Backend := {
  str_to_date : string -> option datetime;
  fromisoformat : string -> option datetime;
  stored_date : datetime -> Z;
  stored_naive t : stored_date (Naive t) = t;
  reported : list DBConstraint -> option DBConstraint;
  reported_violated l c : reported l = Some c -> c ∈ l;
}.

(** A value given by a caller. *)
Inductive PyVal :=
  | VNone | VBool (b : bool) | VInt (z : Z) | VStr (s : string)
  | VOperation (op : DidOperationType) | VPermissionType (t : RolePermissionType) | VDate (d : datetime) | VOther.

(** ** Roles *)

Definition with_roles (f : gmap string RoleRow -> gmap string RoleRow) (t : RoleTables) : RoleTables :=
  Tables (f (roles t)) (account_role_map t) (role_did_permission_map t)
    (role_local_limit_permission_map t) (role_global_limit_permission_map t).
Definition with_assignments (f : gmap (string * string) AccountRole -> gmap (string * string) AccountRole)
    (t : RoleTables) : RoleTables :=
  Tables (roles t) (f (account_role_map t)) (role_did_permission_map t)
    (role_local_limit_permission_map t) (role_global_limit_permission_map t).
Definition with_did_permissions (f : gmap (string * string) DidPerm -> gmap (string * string) DidPerm)
    (t : RoleTables) : RoleTables :=
  Tables (roles t) (account_role_map t) (f (role_did_permission_map t))
    (role_local_limit_permission_map t) (role_global_limit_permission_map t).
Definition with_local_limits (f : gmap (string * string) Z -> gmap (string * string) Z) (t : RoleTables) : RoleTables :=
  Tables (roles t) (account_role_map t) (role_did_permission_map t)
    (f (role_local_limit_permission_map t)) (role_global_limit_permission_map t).
Definition with_global_limits (f : gmap (string * string) Z -> gmap (string * string) Z) (t : RoleTables) : RoleTables :=
  Tables (roles t) (account_role_map t) (role_did_permission_map t)
    (role_local_limit_permission_map t) (f (role_global_limit_permission_map t)).

(** A committed change of the role tables. *)
Definition commit (s : Session) (f : RoleTables -> RoleTables) : Session :=
  set_role_tables s (f (role_tables s)).

Definition ensure (b : bool) (e : exn) : result unit := if b then Ok tt else Err e.

(** [_normalize_description] *)
Definition normalize_description (description : PyVal) : result (option string) :=
  match description with
  | VNone => Ok None
  | VStr d => Ok (or_none (str_strip d))
  | _ => Err InputValidationError
  end.

(** [_ensure_unlocked] *)
Definition ensure_unlocked (s : Session) (role : string) (force : bool) : result unit :=
  if force then Ok tt
  else match roles (role_tables s) !! role with
       | Some r => if locked r then Err RoleLocked else Ok tt
       | None => Ok tt
       end.

(** [_role_not_assignable] *)
Definition role_not_assignable (s : Session) (role : string) : bool :=
  match roles (role_tables s) !! role with Some r => negb (assignable r) | None => false end.

(** [add_role] *)
Definition add_role (s : Session) (role : string) (description : PyVal) (assignable locked : bool) : result Session :=
  let* u := ensure (negb (is_reserved_role role)) RoleReserved in
  let* description := normalize_description description in
  match roles (role_tables s) !! role with
  | Some _ => Err Duplicate
  | None => Ok (commit s (with_roles (insert role (Role description assignable locked))))
  end.

(** [x is not None] *)
Definition given {A} (x : option A) : bool := match x with Some _ => true | None => false end.
Definition is_given (x : PyVal) : bool := match x with VNone => false | _ => true end.

(** [update_role]: the session and the role as stored. *)
Definition update_role (s : Session) (role : string) (new_description : PyVal)
    (new_assignable new_locked : option bool) (force : bool) : result (Session * RoleRow) :=
  let* role_obj := or_raise RoleNotFound (roles (role_tables s) !! role) in
  let* u :=
    if is_reserved_role role then ensure (negb (is_given new_description || given new_locked)) RoleReserved
    else if is_given new_description || given new_assignable then ensure_unlocked s role force
    else Ok tt in
  let* d := if is_given new_description then normalize_description new_description
            else Ok (description role_obj) in
  let row := Role d (default (assignable role_obj) new_assignable) (default (locked role_obj) new_locked) in
  Ok (commit s (with_roles (insert role row)), row).

(** The rows of a role leave the permission tables with it (ON DELETE CASCADE). *)
Definition cascade_role (role : string) (t : RoleTables) : RoleTables :=
  Tables (delete role (roles t)) (account_role_map t)
    (filter (fun kv => kv.1.1 <> role) (role_did_permission_map t))
    (filter (fun kv => kv.1.1 <> role) (role_local_limit_permission_map t))
    (filter (fun kv => kv.1.1 <> role) (role_global_limit_permission_map t)).

(** The accounts a role is assigned to: ON DELETE RESTRICT. *)
Definition role_in_use (t : RoleTables) (role : string) : bool :=
  existsb (fun kv => bool_decide (kv.1.2 = role)) (map_to_list (account_role_map t)).

(** [_remove_accounts_from_role]: the assignments of the role, then the role. *)
Definition remove_accounts_from_role (role : string) (t : RoleTables) : RoleTables :=
  cascade_role role (with_assignments (filter (fun kv => kv.1.2 <> role)) t).

(** [delete_role] *)
Definition delete_role (s : Session) (role : string) (force : bool) : result Session :=
  let* role_obj := or_raise RoleNotFound (roles (role_tables s) !! role) in
  let* u := ensure (negb (is_reserved_role role)) RoleReserved in
  let* u := ensure_unlocked s role force in
  if force then Ok (commit s (remove_accounts_from_role role))
  else if role_in_use (role_tables s) role then Err RoleInUse
  else Ok (commit s (cascade_role role)).

(** [setup_reserved_roles]: the session and the roles created. *)
Definition setup_reserved_role (acc : Session * list string) (rd : string * string) : Session * list string :=
  let '(s, created) := acc in
  let '(role, description) := rd in
  match roles (role_tables s) !! role with
  | Some _ => (s, created)
  | None => (commit s (with_roles (insert role (Role (Some description) false true))), created ++ [role])
  end.

Definition setup_reserved_roles (s : Session) : Session * list string :=
  foldl setup_reserved_role (s, []) RESERVED_ROLES.

(** ** Assignments *)

(** [date <= other]: dates with and without a time zone do not compare. *)
Definition date_le (a b : datetime) : result bool :=
  match a, b with
  | Naive a, Naive b | Aware a, Aware b => Ok (bool_decide (a <= b)%Z)
  | _, _ => Err TypeError
  end.

(** [_ensure_expires_after_activation] *)
Definition ensure_expires_after_activation (activates_at : datetime) (expires_at : option datetime) : result unit :=
  match expires_at with
  | None => Ok tt
  | Some e => let* le := date_le e activates_at in ensure (negb le) InputValidationError
  end.

Section backend.
Context `{Backend}.

(** [_normalize_date] *)
Definition normalize_date (date : PyVal) : result (option datetime) :=
  match date with
  | VNone => Ok None
  | VDate d => Ok (Some d)
  | VStr d =>
      let d := str_strip d in
      if bool_decide (d = EmptyString) then Ok None
      else match str_to_date d with
           | Some x => Ok (Some x)
           | None => match fromisoformat d with
                     | Some x => Ok (Some x)
                     | None => Err InputValidationError
                     end
           end
  | _ => Err InputValidationError
  end.

Definition stored_assignment (activates_at : datetime) (expires_at : option datetime) : AccountRole :=
  AccRole (stored_date activates_at) (stored_date <$> expires_at).

(** The CHECK constraint of the table. *)
Definition expires_chk (m : AccountRole) : bool :=
  match expires_at m with None => true | Some e => bool_decide (activates_at m < e)%Z end.

(** The constraints the insertion of an assignment violates. *)
Definition assignment_violations (s : Session) (account : InternalType) (role : string) (m : AccountRole)
    : list DBConstraint :=
  let t := role_tables s in
  match internal account with
  | None => [NN]
  | Some a =>
      (if bool_decide (is_Some (accounts s !! a)) then [] else [ACCOUNT_FK]) ++
      (if bool_decide (is_Some (account_role_map t !! (a, role))) then [PK] else [])
  end ++
  (if bool_decide (is_Some (roles t !! role)) then [] else [ROLE_FK]) ++
  (if expires_chk m then [] else [EXPIRES_CHK]).

(** [add_account_role] *)
Definition add_account_role (s : Session) (account : InternalType) (role : string) (expires_at : PyVal)
    (force : bool) (activates_at : PyVal) : result Session :=
  let* u := ensure (force || negb (role_not_assignable s role)) RoleAssignmentDisabled in
  let* expires_at := normalize_date expires_at in
  let* activates_at := normalize_date activates_at in
  let activates_at := default (Naive (now s)) activates_at in
  let* u := ensure_expires_after_activation activates_at expires_at in
  let m := stored_assignment activates_at expires_at in
  match assignment_violations s account role m, internal account with
  | [], Some a => Ok (commit s (with_assignments (insert (a, role) m)))
  | violated, _ =>
      Err match reported violated with
          | Some ACCOUNT_FK => AccountNotFound
          | Some ROLE_FK => RoleNotFound
          | _ => Duplicate
          end
  end.

(** [session.get(models.AccountRoleAssociation, (account, role))] *)
Definition assignment_row (s : Session) (account : InternalType) (role : string)
    : option (string * AccountRole) :=
  a ← internal account; m ← account_role_map (role_tables s) !! (a, role); Some (a, m).

(** [delete_account_role] *)
Definition delete_account_role (s : Session) (account : InternalType) (role : string) (force : bool)
    : result Session :=
  let* row := or_raise RoleAssignmentNotFound (assignment_row s account role) in
  let* u := ensure (force || negb (role_not_assignable s role)) RoleAssignmentDisabled in
  Ok (commit s (with_assignments (delete (row.1, role)))).

(** [set_account_role_dates]; [None] for a date is [KEEP]. *)
Definition set_account_role_dates (s : Session) (account : InternalType) (role : string)
    (new_activates_at new_expires_at : option PyVal) : result Session :=
  let* row := or_raise RoleAssignmentNotFound (assignment_row s account role) in
  let '(a, m) := row in
  let* new_activates_at :=
    match new_activates_at with
    | Some d => let* d := normalize_date d in Ok (default (Naive (now s)) d)
    | None => Ok (Naive (activates_at m))
    end in
  let* new_expires_at :=
    match new_expires_at with
    | Some d => normalize_date d
    | None => Ok (Naive <$> expires_at m)
    end in
  let* u := ensure_expires_after_activation new_activates_at new_expires_at in
  let m := stored_assignment new_activates_at new_expires_at in
  let* u := ensure (expires_chk m) IntegrityError in
  Ok (commit s (with_assignments (insert (a, role) m))).

(** [clean_expired_account_roles]: the expired assignments of a VO are removed, unless it is
    a dry run; the removed ones are reported. *)
Definition expired_in (s : Session) (v : string) (kv : (string * string) * AccountRole) : Prop :=
  vo (mk_internal (Some kv.1.1) DEFAULT_VO false) = v /\
  match expires_at kv.2 with Some e => (e < now s)%Z | None => False end.
#[export] Instance expired_in_dec s v kv : Decision (expired_in s v kv).
Proof. unfold expired_in. destruct (expires_at kv.2); apply _. Defined.

Definition clean_expired_account_roles (s : Session) (v : string) (dry_run : bool)
    : Session * list ((string * string) * AccountRole) :=
  let expired := map_to_list (filter (expired_in s v) (account_role_map (role_tables s))) in
  if dry_run then (s, expired)
  else (commit s (with_assignments (fun m => foldr (fun kv m => delete kv.1 m) m expired)), expired).

End backend.

(** ** The parameters of a permission *)

Definition OPERATION : string := "operation".
Definition RSE_EXPRESSION_LENGTH : Z := 3000.

(** [LimitLocality] and its values *)
Inductive LimitLocality := LOCAL | GLOBAL.
#[export] Instance LimitLocality_eq_dec : EqDecision LimitLocality.
Proof. solve_decision. Defined.
Definition locality_value (l : LimitLocality) : string :=
  match l with LOCAL => "local" | GLOBAL => "global" end.

(** [_permission_handler]: [RolePermissionType(value)] of a value or a member, whose handler is
    registered *)
Definition permission_handler (permission_type : PyVal) : result RolePermissionType :=
  match permission_type with
  | VPermissionType t => Ok t
  | VStr s => if bool_decide (s = "did"%string) then Ok PT_DID
              else if bool_decide (s = "limit"%string) then Ok PT_LIMIT else Err InputValidationError
  | _ => Err InputValidationError
  end.

Definition target_attribute (h : RolePermissionType) : string :=
  match h with PT_DID => "did_pattern" | PT_LIMIT => "rse_expression" end.

(** [_split_target] *)
Definition split_target (h : RolePermissionType) (parameters : gmap string PyVal)
    : result (PyVal * gmap string PyVal) :=
  let* target := or_raise InputValidationError (parameters !! target_attribute h) in
  Ok (target, delete (target_attribute h) parameters).

(** [_normalize_operation] for the operations on DIDs *)
Definition normalize_operation (operation : PyVal) : result DidOperationType :=
  match operation with
  | VOperation op => Ok op
  | VStr v => match did_operation_of_value v with Ok op => Ok op | Err _ => Err InputValidationError end
  | _ => Err InputValidationError
  end.

(** [CheckedPermissionTypeHandler.normalize_parameters] *)
Definition normalize_did_parameters (parameters : gmap string PyVal) : result DidOperationType :=
  if bool_decide (dom parameters ⊆ {[ OPERATION ]}) then
    match parameters !! OPERATION with
    | None | Some VNone => Err InputValidationError
    | Some operation => normalize_operation operation
    end
  else Err InputValidationError.

(** [_normalize_bytes] *)
Definition normalize_bytes (value : PyVal) : result Z :=
  match value with
  | VInt v => if bool_decide (v < 0)%Z && negb (bool_decide (v = ROLE_QUOTA_NOCAP)) then Err InputValidationError else Ok v
  | _ => Err InputValidationError
  end.

Definition localities : list LimitLocality := [LOCAL; GLOBAL].
Definition limit_parameters_known (parameters : gmap string PyVal) : bool :=
  bool_decide (dom parameters ⊆ list_to_set (locality_value <$> localities)).

(** [LimitPermissionHandler.normalize_parameters] when granting: the locality and its bytes. *)
Definition normalize_limit_set (parameters : gmap string PyVal) : result (LimitLocality * Z) :=
  if limit_parameters_known parameters then
    if bool_decide (size parameters = 1) then
      match parameters !! locality_value LOCAL, parameters !! locality_value GLOBAL with
      | Some v, _ => let* b := normalize_bytes v in Ok (LOCAL, b)
      | None, Some v => let* b := normalize_bytes v in Ok (GLOBAL, b)
      | None, None => Err InputValidationError
      end
    else Err InputValidationError
  else Err InputValidationError.

(** The truth of a parameter of a removal, if it is a boolean. *)
Definition removal_flag (v : PyVal) : result bool :=
  match v with VBool b => Ok b | _ => Err InputValidationError end.

(** [LimitPermissionHandler.normalize_parameters] when removing: the localities to look at,
    each with whether it was asked for explicitly. *)
Definition normalize_limit_removal (parameters : gmap string PyVal) : result (list (LimitLocality * bool)) :=
  if limit_parameters_known parameters then
    let* flags := foldM (fun flags (kv : string * PyVal) =>
                           let* b := removal_flag kv.2 in Ok (<[kv.1 := b]> flags))
                    (∅ : gmap string bool) (map_to_list parameters) in
    if negb (bool_decide (parameters = ∅)) && negb (existsb snd (map_to_list flags))
    then Err InputValidationError
    else Ok (omap (fun l => match flags !! locality_value l with
                            | Some true => Some (l, true)
                            | Some false => None
                            | None => if bool_decide (parameters = ∅) then Some (l, false) else None
                            end) localities)
  else Err InputValidationError.

(** ** Granting and removing permissions *)

Section permissions.
Context `{Backend} `{RSEExpressions}.

(** [_validate_rse_expression] *)
Definition validate_rse_expression (s : Session) (rse_expression : string) : result string :=
  let e := str_strip rse_expression in
  if bool_decide (e = EmptyString) then Err InputValidationError
  else if bool_decide (RSE_EXPRESSION_LENGTH < Z.of_nat (str_len e))%Z then Err InputValidationError
  else match parse_expression s e None with
       | Ok _ => Ok e
       | Err (InvalidRSEExpression reason) =>
           if str_infix "empty set" reason then Ok e else Err InputValidationError
       | Err x => Err x
       end.

(** [_resolve_rse_ids] *)
Definition resolve_rse_ids (s : Session) (rse_expression : string) : result (gset string) :=
  match parse_expression s rse_expression None with
  | Ok l => Ok (list_to_set (rse_id <$> l))
  | Err (InvalidRSEExpression _) => Ok ∅
  | Err x => Err x
  end.

(** [normalize_target] of the two handlers *)
Definition normalize_target (s : Session) (h : RolePermissionType) (target : PyVal) : result string :=
  match target with
  | VStr t => match h with
              | PT_DID => validate_did_pattern s t
              | PT_LIMIT => validate_rse_expression s t
              end
  | _ => Err InputValidationError
  end.

(** The foreign key to the role, checked when the row is flushed. *)
Definition role_fk (s : Session) (role : string) : result unit :=
  match roles (role_tables s) !! role with
  | Some _ => Ok tt
  | None => Err match reported [ROLE_FK] with Some ROLE_FK => RoleNotFound | _ => Duplicate end
  end.

(** A row with no operation. *)
Definition no_operation : DidPerm := Perm false false false.
Definition any_operation (p : DidPerm) : bool := existsb (fun op => operation_column op p) [READ; WRITE; DELETE].

(** [CheckedPermissionTypeHandler.add], with the commit of [add_role_permission] *)
Definition did_add (s : Session) (role target : string) (op : DidOperationType) : result Session :=
  match role_did_permission_map (role_tables s) !! (role, target) with
  | None =>
      let* u := role_fk s role in
      Ok (commit s (with_did_permissions (insert (role, target) (set_operation_column op true no_operation))))
  | Some row =>
      if operation_column op row then Err Duplicate
      else Ok (commit s (with_did_permissions (insert (role, target) (set_operation_column op true row))))
  end.

(** [CheckedPermissionTypeHandler.remove]: the change and the number of permissions removed. *)
Definition did_remove (s : Session) (role target : string) (op : DidOperationType) : Session * nat :=
  match role_did_permission_map (role_tables s) !! (role, target) with
  | None => (s, 0)
  | Some row =>
      if operation_column op row then
        let row := set_operation_column op false row in
        (commit s (with_did_permissions
           (if any_operation row then insert (role, target) row else delete (role, target))), 1)
      else (s, 0)
  end.

(** [LimitPermissionHandler.add], with the commit of [add_role_permission] *)
Definition limit_add (s : Session) (role target : string) (set : LimitLocality * Z) : result Session :=
  let* rse_ids := resolve_rse_ids s target in
  match set.1 with
  | LOCAL =>
      match elements rse_ids with
      | [rse_id] => let* u := role_fk s role in Ok (commit s (with_local_limits (insert (role, rse_id) set.2)))
      | _ => Err InputValidationError
      end
  | GLOBAL =>
      if bool_decide (size rse_ids < 2) then Err InputValidationError
      else let* u := role_fk s role in Ok (commit s (with_global_limits (insert (role, target) set.2)))
  end.

(** The rows a deletion by key removes. *)
Definition row_count {V} (m : gmap (string * string) V) (k : string * string) : nat :=
  match m !! k with Some _ => 1 | None => 0 end.

(** [LimitPermissionHandler.remove] *)
Definition limit_remove (s : Session) (role target : string) (looked_at : list (LimitLocality * bool))
    : result (Session * nat) :=
  foldM (fun (acc : Session * nat) (l : LimitLocality * bool) =>
    let '(s, removed) := acc in
    match l.1 with
    | LOCAL =>
        let* rse_ids := resolve_rse_ids s target in
        match elements rse_ids with
        | [rse_id] =>
            Ok (commit s (with_local_limits (delete (role, rse_id))),
                removed + row_count (role_local_limit_permission_map (role_tables s)) (role, rse_id))
        | _ => if l.2 then Err InputValidationError else Ok (s, removed)
        end
    | GLOBAL =>
        Ok (commit s (with_global_limits (delete (role, target))),
            removed + row_count (role_global_limit_permission_map (role_tables s)) (role, target))
    end) (s, 0) looked_at.

(** [add_role_permission] *)
Definition add_role_permission (s : Session) (role : string) (permission_type : PyVal)
    (parameters : gmap string PyVal) (force : bool) : result Session :=
  let* h := permission_handler permission_type in
  let* tp := split_target h parameters in
  let* target := normalize_target s h tp.1 in
  match h with
  | PT_DID =>
      let* op := normalize_did_parameters tp.2 in
      let* u := ensure (negb (is_reserved_role role)) RoleReserved in
      let* u := ensure_unlocked s role force in
      did_add s role target op
  | PT_LIMIT =>
      let* set := normalize_limit_set tp.2 in
      let* u := ensure (negb (is_reserved_role role)) RoleReserved in
      let* u := ensure_unlocked s role force in
      limit_add s role target set
  end.

(** [delete_role_permission]: the session and the number of permissions removed. *)
Definition delete_role_permission (s : Session) (role : string) (permission_type : PyVal)
    (parameters : gmap string PyVal) (force : bool) : result (Session * nat) :=
  let* h := permission_handler permission_type in
  let* tp := split_target h parameters in
  let* target := normalize_target s h tp.1 in
  let* r :=
    match h with
    | PT_DID =>
        let* op := normalize_did_parameters tp.2 in
        let* u := ensure (negb (is_reserved_role role)) RoleReserved in
        let* u := ensure_unlocked s role force in
        Ok (did_remove s role target op)
    | PT_LIMIT =>
        let* looked_at := normalize_limit_removal tp.2 in
        let* u := ensure (negb (is_reserved_role role)) RoleReserved in
        let* u := ensure_unlocked s role force in
        limit_remove s role target looked_at
    end in
  if bool_decide (r.2 = 0) then Err RolePermissionNotFound else Ok r.

End permissions.

(** ** The state machine of the role tables *)

Inductive RoleOp :=
  | AddRole (role : string) (description : PyVal) (assignable locked : bool)
  | UpdateRole (role : string) (description : PyVal) (assignable locked : option bool) (force : bool)
  | DeleteRole (role : string) (force : bool)
  | SetupReservedRoles
  | AddAccountRole (account : InternalType) (role : string) (expires_at : PyVal) (force : bool) (activates_at : PyVal)
  | DeleteAccountRole (account : InternalType) (role : string) (force : bool)
  | SetAccountRoleDates (account : InternalType) (role : string) (activates_at expires_at : option PyVal)
  | CleanExpired (vo : string) (dry_run : bool)
  | AddPermission (role : string) (permission_type : PyVal) (parameters : gmap string PyVal) (force : bool)
  | DeletePermission (role : string) (permission_type : PyVal) (parameters : gmap string PyVal) (force : bool).

Definition is_forced (op : RoleOp) : bool :=
  match op with
  | UpdateRole _ _ _ _ force | DeleteRole _ force | AddAccountRole _ _ _ force _
  | DeleteAccountRole _ _ force | AddPermission _ _ _ force | DeletePermission _ _ _ force => force
  | _ => false
  end.

Section machine.
Context `{Backend} `{RSEExpressions}.

Definition run_role_op (s : Session) (op : RoleOp) : result Session :=
  match op with
  | AddRole role description assignable locked => add_role s role description assignable locked
  | UpdateRole role description assignable locked force =>
      mapR fst (update_role s role description assignable locked force)
  | DeleteRole role force => delete_role s role force
  | SetupReservedRoles => Ok (setup_reserved_roles s).1
  | AddAccountRole account role expires_at force activates_at =>
      add_account_role s account role expires_at force activates_at
  | DeleteAccountRole account role force => delete_account_role s account role force
  | SetAccountRoleDates account role activates_at expires_at =>
      set_account_role_dates s account role activates_at expires_at
  | CleanExpired vo dry_run => Ok (clean_expired_account_roles s vo dry_run).1
  | AddPermission role permission_type parameters force =>
      add_role_permission s role permission_type parameters force
  | DeletePermission role permission_type parameters force =>
      mapR fst (delete_role_permission s role permission_type parameters force)
  end.

(** One committed operation; a failed one changes nothing. *)
Inductive role_step (s : Session) : Session -> Prop :=
  | role_step_op op s' : run_role_op s op = Ok s' -> role_step s s'.

End machine.

(** ** The integrity of the role tables *)

Definition assignment_wf (s : Session) (roles : gmap string RoleRow) (k : string * string) (m : AccountRole) : Prop :=
  is_Some (accounts s !! k.1) /\ is_Some (roles !! k.2) /\ expires_chk m = true.

Definition holder_wf (roles : gmap string RoleRow) (role : string) : Prop :=
  is_Some (roles !! role) /\ is_reserved_role role = false.

Definition did_permission_wf (s : Session) (roles : gmap string RoleRow) (k : string * string) (p : DidPerm) : Prop :=
  holder_wf roles k.1 /\ any_operation p = true /\ validate_did_pattern s k.2 = Ok k.2.

Definition local_limit_wf (s : Session) (roles : gmap string RoleRow) (k : string * string) (b : Z) : Prop :=
  holder_wf roles k.1 /\ (ROLE_QUOTA_NOCAP <= b)%Z /\ k.2 ∈ rse_id <$> rses s.

Definition global_limit_wf (roles : gmap string RoleRow) (k : string * string) (b : Z) : Prop :=
  holder_wf roles k.1 /\ (ROLE_QUOTA_NOCAP <= b)%Z /\
  str_strip k.2 = k.2 /\ k.2 <> EmptyString /\ (Z.of_nat (str_len k.2) <= RSE_EXPRESSION_LENGTH)%Z.

(** Assignments join existing accounts and roles over a non-empty period; the permissions of
    existing, not reserved roles grant at least one operation on a pattern in its stored form,
    and limit bytes on existing RSEs or well-formed expressions. *)
Record tables_wf (s : Session) (t : RoleTables) : Prop := {
  wf_assignments : map_Forall (assignment_wf s (roles t)) (account_role_map t);
  wf_dids : map_Forall (did_permission_wf s (roles t)) (role_did_permission_map t);
  wf_locals : map_Forall (local_limit_wf s (roles t)) (role_local_limit_permission_map t);
  wf_globals : map_Forall (global_limit_wf (roles t)) (role_global_limit_permission_map t);
}.

Definition role_wf (s : Session) : Prop := tables_wf s (role_tables s).

Lemma commit_wf s f : tables_wf s (f (role_tables s)) -> role_wf (commit s f).
Proof. intros [Ha Hd Hl Hg]. split; [exact Ha|exact Hd|exact Hl|exact Hg]. Qed.

Lemma insert_role_wf s t role row : tables_wf s t -> tables_wf s (with_roles (insert role row) t).
Proof.
  assert (forall r, is_Some (roles t !! r) -> is_Some (<[role := row]> (roles t) !! r)) as Hmono.
  { intros r Hr. destruct (decide (role = r)) as [->|]; [by rewrite lookup_insert_eq|by rewrite lookup_insert_ne]. }
  intros [Ha Hd Hl Hg]. split; simpl.
  - intros k m Hk. destruct (Ha k m Hk) as (? & ? & ?). unfold assignment_wf. auto.
  - intros k m Hk. destruct (Hd k m Hk) as ([] & ? & ?). split; [split; auto|by auto].
  - intros k m Hk. destruct (Hl k m Hk) as ([] & ? & ?). split; [split; auto|by auto].
  - intros k m Hk. destruct (Hg k m Hk) as ([] & ?). split; [split; auto|by auto].
Qed.

(** Removing rows keeps the integrity; so does removing a role with its rows. *)
Lemma map_Forall_subseteq {V} (P : string * string -> V -> Prop) (m1 m2 : gmap (string * string) V) :
  m1 ⊆ m2 -> map_Forall P m2 -> map_Forall P m1.
Proof. intros Hs HP k v Hk. apply HP. by eapply lookup_weaken. Qed.

Lemma assignments_wf s t f :
  tables_wf s t -> map_Forall (assignment_wf s (roles t)) (f (account_role_map t)) -> tables_wf s (with_assignments f t).
Proof. intros [Ha Hd Hl Hg] Hf. by split. Qed.

Lemma did_permissions_wf s t f :
  tables_wf s t -> map_Forall (did_permission_wf s (roles t)) (f (role_did_permission_map t)) ->
  tables_wf s (with_did_permissions f t).
Proof. intros [Ha Hd Hl Hg] Hf. by split. Qed.

Lemma local_limits_wf s t f :
  tables_wf s t -> map_Forall (local_limit_wf s (roles t)) (f (role_local_limit_permission_map t)) ->
  tables_wf s (with_local_limits f t).
Proof. intros [Ha Hd Hl Hg] Hf. by split. Qed.

Lemma global_limits_wf s t f :
  tables_wf s t -> map_Forall (global_limit_wf (roles t)) (f (role_global_limit_permission_map t)) ->
  tables_wf s (with_global_limits f t).
Proof. intros [Ha Hd Hl Hg] Hf. by split. Qed.

Lemma cascade_role_wf s t role :
  tables_wf s t -> map_Forall (fun k _ => k.2 <> role) (account_role_map t) -> tables_wf s (cascade_role role t).
Proof.
  assert (forall r, is_Some (roles t !! r) -> r <> role -> is_Some (delete role (roles t) !! r)) as Hkeep.
  { intros r Hr Hne. by rewrite lookup_delete_ne. }
  intros [Ha Hd Hl Hg] Hnone. split; simpl.
  - intros k m Hk. destruct (Ha k m Hk) as (? & ? & ?). pose proof (Hnone k m Hk). unfold assignment_wf. auto.
  - intros k m [Hk Hne]%map_lookup_filter_Some. destruct (Hd k m Hk) as ([] & ? & ?). split; [split; auto|by auto].
  - intros k m [Hk Hne]%map_lookup_filter_Some. destruct (Hl k m Hk) as ([] & ? & ?). split; [split; auto|by auto].
  - intros k m [Hk Hne]%map_lookup_filter_Some. destruct (Hg k m Hk) as ([] & ?). split; [split; auto|by auto].
Qed.

Lemma ensure_Ok b e u : ensure b e = Ok u <-> b = true.
Proof. destruct u, b; simpl; split; congruence. Qed.

Lemma assignments_filter_wf (s : Session) (t : RoleTables) (m : gmap (string * string) AccountRole) :
  tables_wf s t -> m ⊆ account_role_map t -> tables_wf s (with_assignments (fun _ => m) t).
Proof. intros Ht Hm. apply assignments_wf; [done|]. eapply map_Forall_subseteq; [done|]. apply Ht. Qed.

Lemma foldr_delete_subseteq {V} (l : list ((string * string) * V)) (m : gmap (string * string) V) :
  foldr (fun kv m => delete kv.1 m) m l ⊆ m.
Proof. induction l as [|kv l IH]; simpl; [done|]. etrans; [apply delete_subseteq|done]. Qed.

(** *** Limits and operations of a permission *)

Lemma normalize_bytes_bound v b : normalize_bytes v = Ok b -> (ROLE_QUOTA_NOCAP <= b)%Z.
Proof.
  unfold normalize_bytes, ROLE_QUOTA_NOCAP. destruct v; try done.
  do 2 case_bool_decide; simpl; intros [= <-]; lia.
Qed.

Lemma normalize_limit_set_bound ps l b : normalize_limit_set ps = Ok (l, b) -> (ROLE_QUOTA_NOCAP <= b)%Z.
Proof.
  unfold normalize_limit_set. repeat case_match; try done;
    intros (b' & Hb & Heq)%bind_Ok; injection Heq as <- <-; by eapply normalize_bytes_bound.
Qed.

Lemma set_operation_any op p : any_operation (set_operation_column op true p) = true.
Proof. by destruct op, p as [[] [] []]. Qed.

Lemma operation_column_set op v p : operation_column op (set_operation_column op v p) = v.
Proof. by destruct op, p. Qed.

Lemma set_operation_set op v w p :
  set_operation_column op v (set_operation_column op w p) = set_operation_column op v p.
Proof. by destruct op, p. Qed.

Lemma set_operation_id op v p : operation_column op p = v -> set_operation_column op v p = p.
Proof. by destruct op, p; simpl; intros ->. Qed.

Section preserved.
Context `{Backend} `{RSEExpressions}.

Lemma role_fk_Ok s role u : role_fk s role = Ok u -> is_Some (roles (role_tables s) !! role).
Proof. unfold role_fk. destruct (roles _ !! role); done. Qed.

Lemma add_role_wf s role d a l s' : role_wf s -> add_role s role d a l = Ok s' -> role_wf s'.
Proof.
  intros Hs. unfold add_role. intros (u & _ & (d' & _ & Hr)%bind_Ok)%bind_Ok.
  destruct (roles _ !! role); [done|]. injection Hr as <-. by apply commit_wf, insert_role_wf.
Qed.

Lemma update_role_wf s role d a l f r : role_wf s -> update_role s role d a l f = Ok r -> role_wf r.1.
Proof.
  intros Hs. unfold update_role.
  intros (o & _ & (u & _ & (d' & _ & Hr)%bind_Ok)%bind_Ok)%bind_Ok. injection Hr as <-.
  by apply commit_wf, insert_role_wf.
Qed.

Lemma role_in_use_false t role : role_in_use t role = false -> map_Forall (fun k _ => k.2 <> role) (account_role_map t).
Proof.
  unfold role_in_use. intros Hu k m Hk Heq. apply not_true_iff_false in Hu. apply Hu, existsb_true.
  exists (k, m). split; [by apply elem_of_map_to_list|]. by apply bool_decide_eq_true.
Qed.

Lemma delete_role_wf s role f s' : role_wf s -> delete_role s role f = Ok s' -> role_wf s'.
Proof.
  intros Hs. unfold delete_role. intros (o & _ & (u & _ & (u' & _ & Hr)%bind_Ok)%bind_Ok)%bind_Ok.
  destruct f.
  - injection Hr as <-. apply commit_wf, cascade_role_wf.
    + apply (assignments_filter_wf _ _ (filter _ _)); [done|]. apply map_filter_subseteq.
    + intros k m [_ Hk]%map_lookup_filter_Some. done.
  - destruct (role_in_use _ _) eqn:Hu; [done|]. injection Hr as <-.
    apply commit_wf, cascade_role_wf; [done|]. by apply role_in_use_false.
Qed.

Lemma setup_reserved_roles_wf s : role_wf s -> role_wf (setup_reserved_roles s).1.
Proof.
  intros Hs. unfold setup_reserved_roles. change s with (s, @nil string).1 in Hs. revert Hs.
  generalize (s, @nil string). induction RESERVED_ROLES as [|[role d] l IH]; intros [s' created] Hs; simpl; [done|].
  destruct (roles _ !! role); [by apply IH|]. apply IH. by apply commit_wf, insert_role_wf.
Qed.

Lemma assignment_violations_nil s a role m account :
  internal account = Some a -> assignment_violations s account role m = [] ->
  assignment_wf s (roles (role_tables s)) (a, role) m /\ account_role_map (role_tables s) !! (a, role) = None.
Proof.
  intros Ha. unfold assignment_violations. rewrite Ha.
  repeat case_bool_decide; simpl; try done. destruct (expires_chk m) eqn:He; [|done]. intros _.
  split; [by split_and!|]. by apply eq_None_not_Some.
Qed.

Lemma add_account_role_wf s account role e f a s' :
  role_wf s -> add_account_role s account role e f a = Ok s' -> role_wf s'.
Proof.
  intros Hs. unfold add_account_role.
  intros (u & _ & (e' & _ & (a' & _ & (u' & _ & Hr)%bind_Ok)%bind_Ok)%bind_Ok)%bind_Ok.
  destruct (assignment_violations _ _ _ _) eqn:Hv; [|done].
  destruct (internal account) as [acc|] eqn:Ha; [|done]. injection Hr as <-.
  apply commit_wf, assignments_wf; [done|].
  apply map_Forall_insert_2; [by eapply assignment_violations_nil|apply Hs].
Qed.

Lemma assignment_row_Some s account role row :
  assignment_row s account role = Some row ->
  internal account = Some row.1 /\ account_role_map (role_tables s) !! (row.1, role) = Some row.2.
Proof.
  unfold assignment_row. destruct (internal account) as [a|]; simpl; [|done].
  destruct (account_role_map _ !! _) eqn:Hm; simpl; [|done]. by intros [= <-].
Qed.

Lemma delete_account_role_wf s account role f s' :
  role_wf s -> delete_account_role s account role f = Ok s' -> role_wf s'.
Proof.
  intros Hs. unfold delete_account_role. intros (row & _ & (u & _ & Hr)%bind_Ok)%bind_Ok. injection Hr as <-.
  apply commit_wf. apply (assignments_filter_wf _ _ (delete _ _)); [done|]. apply delete_subseteq.
Qed.

Lemma set_account_role_dates_wf s account role a e s' :
  role_wf s -> set_account_role_dates s account role a e = Ok s' -> role_wf s'.
Proof.
  intros Hs. unfold set_account_role_dates.
  intros ([acc m] & Hm & (a' & _ & (e' & _ & (u & _ & (u' & Hc & Hr)%bind_Ok)%bind_Ok)%bind_Ok)%bind_Ok)%bind_Ok.
  injection Hr as <-. apply or_raise_Ok, assignment_row_Some in Hm as [_ Hm]. apply ensure_Ok in Hc.
  apply commit_wf, assignments_wf; [done|]. apply map_Forall_insert_2; [|apply Hs].
  destruct (wf_assignments _ _ Hs _ _ Hm) as (? & ? & _). by split_and!.
Qed.

Lemma clean_expired_wf s v d : role_wf s -> role_wf (clean_expired_account_roles s v d).1.
Proof.
  intros Hs. unfold clean_expired_account_roles. destruct d; simpl; [done|]. apply commit_wf.
  apply (assignments_filter_wf _ _ (foldr _ _ _)); [done|]. apply foldr_delete_subseteq.
Qed.

(** The targets are stored in their normal form. *)
Lemma normalize_target_did s t target :
  normalize_target s PT_DID t = Ok target -> validate_did_pattern s target = Ok target.
Proof.
  destruct t; simpl; try done. intros Hv. pose proof Hv as (p & Hwf & Ht & Hfit & Hraw)%validate_did_pattern_Ok.
  apply validate_did_pattern_Ok. exists p. split_and!; [done|done|done|]. left.
  by eapply validate_did_pattern_stripped.
Qed.

Lemma validate_rse_expression_Ok s e t :
  validate_rse_expression s e = Ok t ->
  str_strip t = t /\ t <> EmptyString /\ (Z.of_nat (str_len t) <= RSE_EXPRESSION_LENGTH)%Z.
Proof.
  unfold validate_rse_expression. repeat case_bool_decide; try done.
  intros Ht. assert (t = str_strip e) as ->.
  { destruct (parse_expression _ _ _) as [|[]]; try done; [by injection Ht|]. case_match; [by injection Ht|done]. }
  split_and!; [apply str_strip_idem|done|lia].
Qed.

Lemma insert_did_permission_wf s role target p :
  role_wf s -> holder_wf (roles (role_tables s)) role -> any_operation p = true ->
  validate_did_pattern s target = Ok target ->
  role_wf (commit s (with_did_permissions (insert (role, target) p))).
Proof.
  intros Hs Hh Hp Ht. apply commit_wf, did_permissions_wf; [done|].
  apply map_Forall_insert_2; [by split_and!|apply Hs].
Qed.

Lemma did_add_wf s role target op s' :
  role_wf s -> is_reserved_role role = false -> validate_did_pattern s target = Ok target ->
  did_add s role target op = Ok s' -> role_wf s'.
Proof.
  intros Hs Hr Ht. unfold did_add. destruct (role_did_permission_map _ !! _) as [row|] eqn:Hrow.
  - destruct (operation_column op row); [done|]. intros [= <-].
    apply insert_did_permission_wf; [done| |apply set_operation_any|done].
    by destruct (wf_dids _ _ Hs _ _ Hrow) as ([] & _).
  - intros (u & Hu & Hok)%bind_Ok. injection Hok as <-.
    apply insert_did_permission_wf; [done| |apply set_operation_any|done].
    split; [by eapply role_fk_Ok|done].
Qed.

Lemma did_remove_wf s role target op :
  role_wf s -> role_wf (did_remove s role target op).1.
Proof.
  intros Hs. unfold did_remove. destruct (role_did_permission_map _ !! _) as [row|] eqn:Hrow; [|done].
  destruct (operation_column op row); [|done]. destruct (wf_dids _ _ Hs _ _ Hrow) as (Hh & _ & Ht). simpl.
  destruct (any_operation _) eqn:Hany; [by apply insert_did_permission_wf|].
  apply commit_wf, did_permissions_wf; [done|]. eapply map_Forall_subseteq; [apply delete_subseteq|apply Hs].
Qed.

(** A resolved expression matches RSEs of the instance. *)
Lemma resolve_rse_ids_rses s e ids i : resolve_rse_ids s e = Ok ids -> i ∈ ids -> i ∈ rse_id <$> rses s.
Proof.
  unfold resolve_rse_ids. destruct (parse_expression _ _ _) as [l|[]] eqn:Hp; try done; intros [= <-]; [|set_solver].
  intros Hi%elem_of_list_to_set. apply list_elem_of_fmap in Hi as (r & -> & Hr).
  apply list_elem_of_fmap. exists r. split; [done|]. by apply (parse_expression_rses _ _ _ _ Hp).
Qed.

Lemma limit_add_wf s role target set s' :
  role_wf s -> is_reserved_role role = false -> (ROLE_QUOTA_NOCAP <= set.2)%Z ->
  str_strip target = target -> target <> EmptyString -> (Z.of_nat (str_len target) <= RSE_EXPRESSION_LENGTH)%Z ->
  limit_add s role target set = Ok s' -> role_wf s'.
Proof.
  intros Hs Hr Hb Hst Hne Hlen. unfold limit_add. intros (ids & Hids & Hok)%bind_Ok. destruct set as [[] b]; simpl in *.
  - destruct (elements ids) as [|i [|]] eqn:Hel; [done| |done].
    apply bind_Ok in Hok as (u & Hu & Hok). injection Hok as <-. apply role_fk_Ok in Hu.
    apply commit_wf, local_limits_wf; [done|]. apply map_Forall_insert_2; [|apply Hs].
    split; [by split|]. split; [done|]. eapply resolve_rse_ids_rses; [done|].
    apply elem_of_elements. rewrite Hel. set_solver.
  - case_bool_decide; [done|]. apply bind_Ok in Hok as (u & Hu & Hok). injection Hok as <-. apply role_fk_Ok in Hu.
    apply commit_wf, global_limits_wf; [done|]. apply map_Forall_insert_2; [|apply Hs].
    split; [by split|]. by split_and!.
Qed.

Lemma limit_remove_wf s role target ls r : role_wf s -> limit_remove s role target ls = Ok r -> role_wf r.1.
Proof.
  intros Hs. unfold limit_remove. apply (foldM_inv (fun a => role_wf a.1)); [|done]. clear s Hs.
  intros [s n] [[] e] [s' n'] _ Hs; simpl in *.
  - intros (ids & _ & Hok)%bind_Ok. destruct (elements ids) as [|i [|]]; [destruct e; by simplify_eq| |destruct e; by simplify_eq].
    injection Hok as <- _. apply commit_wf, local_limits_wf; [done|].
    eapply map_Forall_subseteq; [apply delete_subseteq|apply Hs].
  - intros [= <- _]. apply commit_wf, global_limits_wf; [done|].
    eapply map_Forall_subseteq; [apply delete_subseteq|apply Hs].
Qed.

Lemma normalize_target_limit s t target :
  normalize_target s PT_LIMIT t = Ok target ->
  str_strip target = target /\ target <> EmptyString /\ (Z.of_nat (str_len target) <= RSE_EXPRESSION_LENGTH)%Z.
Proof. destruct t; simpl; try done. apply validate_rse_expression_Ok. Qed.

Lemma add_role_permission_wf s role ty ps f s' :
  role_wf s -> add_role_permission s role ty ps f = Ok s' -> role_wf s'.
Proof.
  intros Hs. unfold add_role_permission. intros (h & _ & (tp & _ & (t & Ht & Hok)%bind_Ok)%bind_Ok)%bind_Ok.
  destruct h.
  - apply bind_Ok in Hok as (op & _ & (u & Hu%ensure_Ok & (u' & _ & Hok)%bind_Ok)%bind_Ok).
    apply negb_true_iff in Hu. apply normalize_target_did in Ht. by eapply did_add_wf.
  - apply bind_Ok in Hok as ([l b] & Hb%normalize_limit_set_bound & (u & Hu%ensure_Ok & (u' & _ & Hok)%bind_Ok)%bind_Ok).
    apply negb_true_iff in Hu. apply normalize_target_limit in Ht as (? & ? & ?).
    by eapply (limit_add_wf _ _ _ (l, b)).
Qed.

Lemma delete_role_permission_wf s role ty ps f r :
  role_wf s -> delete_role_permission s role ty ps f = Ok r -> role_wf r.1.
Proof.
  intros Hs. unfold delete_role_permission.
  intros (h & _ & (tp & _ & (t & _ & (r' & Hr & Hok)%bind_Ok)%bind_Ok)%bind_Ok)%bind_Ok.
  case_bool_decide; [done|]. injection Hok as <-. destruct h.
  - apply bind_Ok in Hr as (op & _ & (u & _ & (u' & _ & Hr)%bind_Ok)%bind_Ok). injection Hr as <-. by apply did_remove_wf.
  - apply bind_Ok in Hr as (ls & _ & (u & _ & (u' & _ & Hr)%bind_Ok)%bind_Ok). by eapply limit_remove_wf.
Qed.

Lemma run_role_op_wf s op s' : role_wf s -> run_role_op s op = Ok s' -> role_wf s'.
Proof.
  intros Hs. destruct op; simpl.
  - by apply add_role_wf.
  - intros (r & Hr & <-)%map_Ok. by eapply update_role_wf.
  - by apply delete_role_wf.
  - intros [= <-]. by apply setup_reserved_roles_wf.
  - by apply add_account_role_wf.
  - by apply delete_account_role_wf.
  - by apply set_account_role_dates_wf.
  - intros [= <-]. by apply clean_expired_wf.
  - by apply add_role_permission_wf.
  - intros (r & Hr & <-)%map_Ok. by eapply delete_role_permission_wf.
Qed.

Lemma run_ops_wf ops s s' : role_wf s -> foldM run_role_op s ops = Ok s' -> role_wf s'.
Proof. intros Hs. apply foldM_inv; [|done]. intros s1 op s2 _. apply run_role_op_wf. Qed.

(** C20: the role tables keep their integrity through every sequence of committed operations:
    assignments join existing accounts and roles and expire after they activate; reserved
    roles hold no permission; every DID permission grants an operation on a pattern in its
    stored form; limits are not below the no-cap value, on existing RSEs or well-formed
    expressions. *)
Theorem role_tables_integrity s s' : rtc role_step s s' -> role_wf s -> role_wf s'.
Proof.
  intros Hsteps. induction Hsteps as [|s s1 s' [op s1' Hop] _ IH]; [done|].
  intros Hs. apply IH. by eapply run_role_op_wf.
Qed.

End preserved.

(** ** What a lock protects *)

(** The definition of a role: its description and assignable state, and its permissions. *)
Record same_definition (role : string) (t t' : RoleTables) : Prop := {
  sd_row : (fun r => (description r, assignable r)) <$> (roles t' !! role) =
           (fun r => (description r, assignable r)) <$> (roles t !! role);
  sd_dids target : role_did_permission_map t' !! (role, target) = role_did_permission_map t !! (role, target);
  sd_locals i : role_local_limit_permission_map t' !! (role, i) = role_local_limit_permission_map t !! (role, i);
  sd_globals e : role_global_limit_permission_map t' !! (role, e) = role_global_limit_permission_map t !! (role, e);
}.

Lemma same_definition_refl role t : same_definition role t t.
Proof. by split. Qed.

Lemma same_definition_assignments role t f : same_definition role t (with_assignments f t).
Proof. by split. Qed.

Lemma same_definition_roles role role' row t :
  role' <> role -> same_definition role t (with_roles (insert role' row) t).
Proof. intros Hne. split; simpl; try done. by rewrite lookup_insert_ne. Qed.

Lemma same_definition_cascade role role' t : role' <> role -> same_definition role t (cascade_role role' t).
Proof.
  intros Hne. split; simpl; [by rewrite lookup_delete_ne|..]; intros x;
    apply option_eq; intros y; rewrite map_lookup_filter_Some; naive_solver.
Qed.

Section locked.
Context `{Backend} `{RSEExpressions}.
Variables (role : string) (row : RoleRow).
Hypothesis Hlocked : locked row = true.
Hypothesis Hfree : is_reserved_role role = false.

Lemma ensure_unlocked_locked s role' u :
  roles (role_tables s) !! role = Some row -> ensure_unlocked s role' false = Ok u -> role' <> role.
Proof. intros Hrow Hu ->. unfold ensure_unlocked in Hu. by rewrite Hrow, Hlocked in Hu. Qed.

Lemma update_role_locked s role' d a l r :
  roles (role_tables s) !! role = Some row -> update_role s role' d a l false = Ok r ->
  same_definition role (role_tables s) (role_tables r.1).
Proof.
  intros Hrow. unfold update_role.
  intros (o & Ho%or_raise_Ok & (u & Hu & (d' & Hd & Hr)%bind_Ok)%bind_Ok)%bind_Ok. injection Hr as <-. simpl.
  destruct (decide (role' = role)) as [->|Hne]; [|by apply same_definition_roles].
  rewrite Hfree in Hu. rewrite Hrow in Ho. injection Ho as <-.
  destruct (is_given d || given a) eqn:Hg.
  { by apply (ensure_unlocked_locked _ _ _ Hrow) in Hu. }
  apply orb_false_iff in Hg as [Hgd Hga]. rewrite Hgd in Hd. injection Hd as <-. destruct a; [done|].
  split; simpl; try done. by rewrite lookup_insert_eq, Hrow.
Qed.

Lemma did_add_other s role' t op s' :
  role' <> role -> did_add s role' t op = Ok s' -> same_definition role (role_tables s) (role_tables s').
Proof.
  intros Hne. unfold did_add. destruct (role_did_permission_map _ !! _) as [p|].
  - destruct (operation_column op p); [done|]. intros [= <-]. split; simpl; try done.
    intros x. rewrite lookup_insert_ne; congruence.
  - intros (u & _ & Hok)%bind_Ok. injection Hok as <-. split; simpl; try done.
    intros x. rewrite lookup_insert_ne; congruence.
Qed.

Lemma did_remove_other s role' t op :
  role' <> role -> same_definition role (role_tables s) (role_tables (did_remove s role' t op).1).
Proof.
  intros Hne. unfold did_remove. destruct (role_did_permission_map _ !! _) as [p|]; [|done].
  destruct (operation_column op p); [|done]. split; simpl; try done.
  intros x. destruct (any_operation _); [rewrite lookup_insert_ne|rewrite lookup_delete_ne]; congruence.
Qed.

Lemma limit_add_other s role' t set s' :
  role' <> role -> limit_add s role' t set = Ok s' -> same_definition role (role_tables s) (role_tables s').
Proof.
  intros Hne. unfold limit_add. intros (ids & _ & Hok)%bind_Ok. destruct set as [[] b]; simpl in *.
  - destruct (elements ids) as [|i [|]]; [done| |done]. apply bind_Ok in Hok as (u & _ & Hok). injection Hok as <-.
    split; simpl; try done. intros x. rewrite lookup_insert_ne; congruence.
  - case_bool_decide; [done|]. apply bind_Ok in Hok as (u & _ & Hok). injection Hok as <-.
    split; simpl; try done. intros x. rewrite lookup_insert_ne; congruence.
Qed.

Lemma same_definition_trans t1 t2 t3 :
  same_definition role t1 t2 -> same_definition role t2 t3 -> same_definition role t1 t3.
Proof. intros [] []. split; [congruence|intros; etrans; eauto..]. Qed.

Lemma limit_remove_other s role' t ls r :
  role' <> role -> limit_remove s role' t ls = Ok r -> same_definition role (role_tables s) (role_tables r.1).
Proof.
  intros Hne. unfold limit_remove.
  apply (foldM_inv (fun a => same_definition role (role_tables s) (role_tables a.1))); [|apply same_definition_refl].
  intros [s0 n] [[] e] [s' n'] _ Hs; simpl in *.
  - intros (ids & _ & Hok)%bind_Ok. destruct (elements ids) as [|i [|]]; [destruct e; by simplify_eq| |destruct e; by simplify_eq].
    injection Hok as <- _. eapply same_definition_trans; [done|]. split; simpl; try done.
    intros x. rewrite lookup_delete_ne; congruence.
  - intros [= <- _]. eapply same_definition_trans; [done|]. split; simpl; try done.
    intros x. rewrite lookup_delete_ne; congruence.
Qed.

Lemma permission_locked s role' ty ps s' :
  roles (role_tables s) !! role = Some row ->
  add_role_permission s role' ty ps false = Ok s' -> same_definition role (role_tables s) (role_tables s').
Proof.
  intros Hrow. unfold add_role_permission. intros (h & _ & (tp & _ & (t & _ & Hok)%bind_Ok)%bind_Ok)%bind_Ok.
  destruct h.
  - apply bind_Ok in Hok as (op & _ & (u & _ & (u' & Hu%(ensure_unlocked_locked _ _ _ Hrow) & Hok)%bind_Ok)%bind_Ok).
    by eapply did_add_other.
  - apply bind_Ok in Hok as (op & _ & (u & _ & (u' & Hu%(ensure_unlocked_locked _ _ _ Hrow) & Hok)%bind_Ok)%bind_Ok).
    by eapply limit_add_other.
Qed.

Lemma delete_permission_locked s role' ty ps r :
  roles (role_tables s) !! role = Some row ->
  delete_role_permission s role' ty ps false = Ok r -> same_definition role (role_tables s) (role_tables r.1).
Proof.
  intros Hrow. unfold delete_role_permission.
  intros (h & _ & (tp & _ & (t & _ & (r' & Hr & Hok)%bind_Ok)%bind_Ok)%bind_Ok)%bind_Ok.
  case_bool_decide; [done|]. injection Hok as <-. destruct h.
  - apply bind_Ok in Hr as (op & _ & (u & _ & (u' & Hu%(ensure_unlocked_locked _ _ _ Hrow) & Hr)%bind_Ok)%bind_Ok).
    injection Hr as <-. by apply did_remove_other.
  - apply bind_Ok in Hr as (op & _ & (u & _ & (u' & Hu%(ensure_unlocked_locked _ _ _ Hrow) & Hr)%bind_Ok)%bind_Ok).
    by eapply limit_remove_other.
Qed.

Lemma setup_reserved_locked s : same_definition role (role_tables s) (role_tables (setup_reserved_roles s).1).
Proof.
  unfold setup_reserved_roles. simpl. destruct (roles _ !! ADMIN_ROLE); [apply same_definition_refl|].
  apply same_definition_roles. intros Heq. rewrite <-Heq in Hfree. done.
Qed.

Lemma delete_role_locked s role' s' :
  roles (role_tables s) !! role = Some row -> delete_role s role' false = Ok s' ->
  same_definition role (role_tables s) (role_tables s').
Proof.
  intros Hrow. unfold delete_role.
  intros (o & _ & (u & _ & (u' & Hu%(ensure_unlocked_locked _ _ _ Hrow) & Hr)%bind_Ok)%bind_Ok)%bind_Ok.
  destruct (role_in_use _ _); [done|]. injection Hr as <-. by apply same_definition_cascade.
Qed.

Lemma add_role_locked s role' d a l s' :
  roles (role_tables s) !! role = Some row -> add_role s role' d a l = Ok s' ->
  same_definition role (role_tables s) (role_tables s').
Proof.
  intros Hrow. unfold add_role. intros (u & _ & (d' & _ & Hr)%bind_Ok)%bind_Ok.
  destruct (roles (role_tables s) !! role') eqn:Hr'; [done|]. injection Hr as <-.
  apply same_definition_roles. congruence.
Qed.

End locked.

(** The operations on assignments change nothing but the assignments. *)
Definition is_assignment_op (op : RoleOp) : bool :=
  match op with
  | AddAccountRole _ _ _ _ _ | DeleteAccountRole _ _ _ | SetAccountRoleDates _ _ _ _ | CleanExpired _ _ => true
  | _ => false
  end.

Lemma assignment_op_frame `{Backend} `{RSEExpressions} s op s' :
  is_assignment_op op = true -> run_role_op s op = Ok s' ->
  exists f, role_tables s' = with_assignments f (role_tables s).
Proof.
  destruct op; try done; intros _; simpl.
  - unfold add_account_role.
    intros (u & _ & (e' & _ & (a' & _ & (u' & _ & Hr)%bind_Ok)%bind_Ok)%bind_Ok)%bind_Ok.
    destruct (assignment_violations _ _ _ _); [|done]. destruct (internal account); [|done].
    injection Hr as <-. by eexists.
  - unfold delete_account_role. intros (r & _ & (u & _ & Hr)%bind_Ok)%bind_Ok. injection Hr as <-. by eexists.
  - unfold set_account_role_dates.
    intros ([acc m] & _ & (a' & _ & (e' & _ & (u & _ & (u' & _ & Hr)%bind_Ok)%bind_Ok)%bind_Ok)%bind_Ok)%bind_Ok.
    injection Hr as <-. by eexists.
  - intros [= <-]. unfold clean_expired_account_roles. destruct dry_run; simpl; [|by eexists].
    exists (fun m => m). by destruct (role_tables s).
Qed.

Lemma assignment_op_same `{Backend} `{RSEExpressions} role s op s' :
  is_assignment_op op = true -> run_role_op s op = Ok s' -> same_definition role (role_tables s) (role_tables s').
Proof. intros Ha Hop. apply assignment_op_frame in Hop as [f ->]; [apply same_definition_assignments|done]. Qed.

(** No operation without [force] changes the description, the assignable state or the
    permissions of a locked role that is not reserved, nor removes it. *)
Theorem locked_role_protected `{Backend} `{RSEExpressions} s op s' role row :
  roles (role_tables s) !! role = Some row -> locked row = true -> is_reserved_role role = false ->
  is_forced op = false -> run_role_op s op = Ok s' -> same_definition role (role_tables s) (role_tables s').
Proof.
  intros Hrow Hl Hf Hforce Hop. destruct (is_assignment_op op) eqn:Ha; [by eapply assignment_op_same|].
  destruct op; try discriminate Ha; simpl in Hforce, Hop; try subst force.
  - by eapply add_role_locked.
  - apply map_Ok in Hop as (r & Hr & <-). by eapply update_role_locked.
  - by eapply delete_role_locked.
  - injection Hop as <-. by apply setup_reserved_locked.
  - by eapply permission_locked.
  - apply map_Ok in Hop as (r & Hr & <-). by eapply delete_permission_locked.
Qed.

(** ** Granting, then taking back *)

Lemma did_add_remove `{Backend} s role target op s' :
  role_wf s -> did_add s role target op = Ok s' -> did_remove s' role target op = (s, 1).
Proof.
  intros Hs. unfold did_add, did_remove.
  destruct (role_did_permission_map (role_tables s) !! (role, target)) as [row|] eqn:Hrow.
  - destruct (operation_column op row) eqn:Ho; [done|]. intros [= <-]. simpl.
    rewrite lookup_insert_eq, operation_column_set, set_operation_set, (set_operation_id op false row) by done.
    destruct (wf_dids _ _ Hs _ _ Hrow) as (_ & -> & _).
    unfold commit, with_did_permissions. simpl. rewrite insert_insert_eq, (insert_id _ _ _ Hrow).
    by destruct s as [? ? ? ? [] ? ? ? ? ? ? ? ? ? ? ?].
  - intros (u & _ & Hok)%bind_Ok. injection Hok as <-. simpl.
    rewrite lookup_insert_eq, operation_column_set, set_operation_set.
    rewrite (set_operation_id op false no_operation) by by destruct op. simpl.
    unfold commit, with_did_permissions. simpl. rewrite delete_insert_id by done.
    by destruct s as [? ? ? ? [] ? ? ? ? ? ? ? ? ? ? ?].
Qed.

Lemma did_add_row `{Backend} s role target op s' :
  did_add s role target op = Ok s' ->
  exists p, s' = commit s (with_did_permissions (insert (role, target) p)) /\ operation_column op p = true.
Proof.
  unfold did_add. destruct (role_did_permission_map (role_tables s) !! (role, target)) as [row|].
  - destruct (operation_column op row); [done|]. intros [= <-]. eexists. split; [done|]. apply operation_column_set.
  - intros (u & _ & Hok)%bind_Ok. injection Hok as <-. eexists. split; [done|]. apply operation_column_set.
Qed.

(** Granting a role an operation on a DID pattern and taking it back restores the
    database, the row and its other operations included; in between, every account that
    actively holds the role is granted the operation on all the pattern matches. *)
Theorem did_permission_grant_revoke `{Backend} `{RSEExpressions} s role parameters force s' raw op target :
  role_wf s -> parameters !! "did_pattern"%string = Some (VStr raw) ->
  validate_did_pattern s raw = Ok target ->
  normalize_did_parameters (delete "did_pattern"%string parameters) = Ok op ->
  add_role_permission s role (VPermissionType PT_DID) parameters force = Ok s' ->
  delete_role_permission s' role (VPermissionType PT_DID) parameters force = Ok (s, 1) /\
  forall account scope name, has_account_valid_role s account role = true ->
    did_pattern_matches scope name target = true ->
    has_permission s' account (DidPermissionRequest op scope name) = Ok true.
Proof.
  intros Hs Hraw Hv Hop Hadd.
  assert (exists u u', ensure (negb (is_reserved_role role)) RoleReserved = Ok u /\
    ensure_unlocked s role force = Ok u' /\ did_add s role target op = Ok s') as (u & u' & Hu & Hu' & Hd).
  { unfold add_role_permission, split_target in Hadd. cbn [permission_handler target_attribute bindR] in Hadd.
    rewrite Hraw in Hadd. cbn [bindR or_raise fst snd normalize_target] in Hadd. rewrite Hv in Hadd.
    cbn [bindR] in Hadd. rewrite Hop in Hadd. cbn [bindR] in Hadd.
    apply bind_Ok in Hadd as (u & ? & (u' & ? & ?)%bind_Ok). by exists u, u'. }
  destruct (did_add_row _ _ _ _ _ Hd) as (p & Hs' & Hp).
  split.
  - unfold delete_role_permission, split_target. cbn [permission_handler target_attribute bindR].
    rewrite Hraw. cbn [bindR or_raise fst snd normalize_target].
    replace (validate_did_pattern s' raw) with (Ok target) by by rewrite Hs'.
    cbn [bindR]. rewrite Hop, Hu. cbn [bindR].
    replace (ensure_unlocked s' role force) with (ensure_unlocked s role force) by by rewrite Hs'.
    rewrite Hu'. cbn [bindR]. by rewrite (did_add_remove s role target op s' Hs Hd).
  - intros account scope name Hh Hm. unfold has_permission. cbn [request_handler]. run. f_equal.
    apply existsb_true. exists target. split; [|done]. apply granted_targets_elem.
    rewrite Hs'. simpl. exists role, p. by rewrite lookup_insert_eq.
Qed.

(** ** Cleaning *)

Lemma clean_expired_lookup s v k m :
  account_role_map (role_tables (clean_expired_account_roles s v false).1) !! k = Some m <->
  account_role_map (role_tables s) !! k = Some m /\ ~ expired_in s v (k, m).
Proof.
  unfold clean_expired_account_roles. simpl. set (old := account_role_map (role_tables s)).
  assert (forall (l : list ((string * string) * AccountRole)) (m0 : gmap (string * string) AccountRole), foldr (fun kv m => delete kv.1 m) m0 l !! k =
    if decide (k ∈ (fst <$> l)) then None else m0 !! k) as Hfold.
  { intros l m0. induction l as [|[k' x] l IH]; simpl; [done|]. rewrite lookup_delete, IH.
    destruct (decide (k' = k)) as [->|Hne]; [by rewrite decide_True by set_solver|].
    destruct (decide (k ∈ (fst <$> l))); [by rewrite decide_True by set_solver|by rewrite decide_False by set_solver]. }
  rewrite Hfold. split.
  - case_decide as Hin; [done|]. intros Hk. split; [done|]. intros He. apply Hin.
    apply list_elem_of_fmap. exists (k, m). split; [done|]. apply elem_of_map_to_list, map_lookup_filter_Some. done.
  - intros [Hk Hne]. rewrite decide_False; [done|]. intros ([k' m'] & -> & Hin)%list_elem_of_fmap.
    apply elem_of_map_to_list, map_lookup_filter_Some in Hin as [Hm' He]. simpl in *. congruence.
Qed.

(** cleaning the expired assignments of a VO takes no role away from any account that
    holds it, removes every expired assignment of the VO and nothing else; a dry run changes nothing. *)
Theorem clean_expired_harmless s v dry_run account role k m :
  let s' := (clean_expired_account_roles s v dry_run).1 in
  has_account_valid_role s' account role = has_account_valid_role s account role /\
  (account_role_map (role_tables s') !! k = Some m <->
   account_role_map (role_tables s) !! k = Some m /\ (dry_run = true \/ ~ expired_in s v (k, m))).
Proof.
  intros s'. subst s'. destruct dry_run.
  { cbn. split; [done|]. split; [by auto|by intros []]. }
  split.
  2:{ rewrite clean_expired_lookup. split; [intros []; auto|]. by intros [? [?|?]]. }
  apply eq_bool_prop_intro. rewrite !Is_true_true, !has_account_valid_role_spec.
  change (now (clean_expired_account_roles s v false).1) with (now s).
  split; intros (a & m' & Ha & Hm & Hact & Hexp).
  - apply clean_expired_lookup in Hm as [Hm _]. by exists a, m'.
  - exists a, m'. split_and!; [done| |done|done]. apply clean_expired_lookup. split; [done|].
    intros [_ He]. simpl in He. destruct (expires_at m') as [e|]; [|done]. specialize (Hexp e eq_refl). lia.
Qed.

(** ** Dates with a time zone

    An expiry date given as an ISO 8601 string with an offset is parsed to a date with a time
    zone, which does not compare to the current time: the assignment fails with a
    [TypeError] instead of being stored or refused as invalid input. *)
Lemma aware_expiry_raises `{Backend} s account role d x t force :
  force || negb (role_not_assignable s role) = true ->
  str_strip d = d -> d <> EmptyString -> str_to_date d = None -> fromisoformat d = Some x -> x = Aware t ->
  add_account_role s account role (VStr d) force VNone = Err TypeError.
Proof.
  intros Hf Hd Hne Hp Hi ->. unfold add_account_role. rewrite Hf. cbn [ensure bindR].
  unfold normalize_date. rewrite Hd, bool_decide_false, Hp, Hi by done. done.
Qed.

(** ** Examples *)

Definition demo_backend : Backend.
Proof.
  refine {| str_to_date _ := None;
            fromisoformat d := if bool_decide (d = "2030-01-01T00:00:00+00:00"%string) then Some (Aware 300) else None;
            stored_date d := match d with Naive t | Aware t => t end;
            reported l := head l |}.
  - done.
  - intros [|x l] c; simpl; [done|]. intros [= <-]. set_solver.
Defined.

Definition demo_grant : gmap string PyVal :=
  {[ "did_pattern" := VStr " data:raw* "; "operation" := VStr "write" ]}%string.

Definition demo_ops : list RoleOp :=
  [SetupReservedRoles; AddRole "reader" (VStr " ") true false; AddRole "writer" VNone false true;
   AddAccountRole alice "reader" (VDate (Naive 300)) false VNone;
   AddPermission "reader" (VStr "did") demo_grant false]%string.

Definition demo_accounts : Session := set_role_tables demo_role_session no_role_tables.

Definition demo_managed : result Session :=
  foldM (fun s op => @run_role_op demo_backend name_expressions s op) demo_accounts demo_ops.

Example demo_managed_ok :
  mapR (fun s => has_permission s alice
                   (DidPermissionRequest WRITE (InternalScope "data" DEFAULT_VO) (Some "raw7"%string))) demo_managed
  = Ok (Ok true).
Proof. by vm_compute. Qed.

Definition demo_after : Session := match demo_managed with Ok s => s | Err _ => demo_accounts end.

Lemma run_ops_rtc `{Backend} `{RSEExpressions} ops s s' : foldM run_role_op s ops = Ok s' -> rtc role_step s s'.
Proof.
  revert s. induction ops as [|op ops IH]; intros s; simpl; [by intros [= <-]|].
  intros (s1 & H1 & H2)%bind_Ok. eapply rtc_l; [by econstructor|by apply IH].
Qed.

Lemma empty_tables_wf s : role_tables s = no_role_tables -> role_wf s.
Proof. unfold role_wf. intros ->. split; apply map_Forall_empty. Qed.

Lemma role_tables_integrity_witness :
  role_wf demo_accounts /\ role_wf demo_after.
Proof.
  assert (role_wf demo_accounts) as Hwf by by apply empty_tables_wf.
  split; [exact Hwf|].
  apply (@role_tables_integrity demo_backend name_expressions demo_accounts demo_after); [|exact Hwf].
  apply (run_ops_rtc demo_ops). vm_compute. reflexivity.
Defined.

Lemma locked_role_protected_witness :
  exists s', @run_role_op demo_backend name_expressions demo_after
      (UpdateRole "writer" VNone None (Some false) false) = Ok s' /\
    same_definition "writer" (role_tables demo_after) (role_tables s').
Proof.
  eexists. split; [vm_compute; reflexivity|].
  apply (@locked_role_protected demo_backend name_expressions demo_after
           (UpdateRole "writer" VNone None (Some false) false) _ "writer" (Role None false true));
    vm_compute; reflexivity.
Defined.

Definition demo_revoked : gmap string PyVal :=
  {[ "did_pattern" := VStr "data:raw*"; "operation" := VStr "read" ]}%string.

Lemma did_permission_grant_revoke_witness :
  exists s', @add_role_permission demo_backend name_expressions demo_after "reader" (VPermissionType PT_DID)
      demo_revoked false = Ok s' /\
    @delete_role_permission name_expressions s' "reader" (VPermissionType PT_DID) demo_revoked false = Ok (demo_after, 1).
Proof.
  eexists. split; [vm_compute; reflexivity|].
  assert (role_wf demo_after) as Hwf.
  { apply (fun h => @run_ops_wf demo_backend name_expressions demo_ops demo_accounts demo_after (empty_tables_wf _ h));
      vm_compute; reflexivity. }
  apply (@did_permission_grant_revoke demo_backend name_expressions demo_after "reader" demo_revoked false _
           "data:raw*" READ "data:raw*" Hwf); vm_compute; reflexivity.
Defined.
