(* ===== verification/RoleQuota.v ===== *)
(** * The RSE quotas of roles: the last part of [lib/rucio/core/role.py]

    The limits of the roles an account holds are collected as grants and applied to an RSE:
    the space left there by the role that leaves the most, if any role covers the RSE. *)

From S2P Require Import Prelude PyString Types Database Role RoleAdmin.

(** [RSEQuotaGrant] *)
Record RSEQuotaGrant := Grant {
  g_role : string;
  g_locality : LimitLocality;
  g_rse_expression : option string;
  g_rse_ids : gset string;
  g_bytes : Z;
}.

(** ORDER BY on two string columns *)
Definition key_le (a b : string * string) : Prop :=
  if bool_decide (a.1 = b.1) then String.leb a.2 b.2 = true else String.leb a.1 b.1 = true.
#[export] Instance key_le_dec : RelDecision key_le.
Proof. intros a b. unfold key_le. destruct (bool_decide _); apply _. Defined.

Definition row_le {V} (x y : (string * string) * V) : Prop := key_le x.1 y.1.
#[export] Instance row_le_dec {V} : RelDecision (@row_le V).
Proof. intros x y. unfold row_le. apply _. Defined.

(** The rows of a limit table whose role the account actively holds, in order. *)
Definition held_limits (s : Session) (account : InternalType) (m : gmap (string * string) Z)
    : list ((string * string) * Z) :=
  merge_sort row_le
    (filter (fun kv => has_account_valid_role s account kv.1.1 = true) (map_to_list m)).

Section quotas.
Context `{RSEExpressions}.

(** [list_account_rse_quota_grants] *)
Definition list_account_rse_quota_grants (s : Session) (account : InternalType) : result (list RSEQuotaGrant) :=
  let t := role_tables s in
  let grants := (fun kv : (string * string) * Z => Grant kv.1.1 LOCAL None {[ kv.1.2 ]} kv.2)
                  <$> held_limits s account (role_local_limit_permission_map t) in
  foldM (fun grants (kv : (string * string) * Z) =>
           let* rse_ids := resolve_rse_ids s kv.1.2 in
           if bool_decide (rse_ids = ∅) then Ok grants
           else Ok (grants ++ [Grant kv.1.1 GLOBAL (Some kv.1.2) rse_ids kv.2]))
    grants (held_limits s account (role_global_limit_permission_map t)).

End quotas.

(** [grants_by_role.setdefault(role, []).append(grant)] on a dictionary in insertion order *)
Fixpoint append_grant (g : RSEQuotaGrant) (groups : list (string * list RSEQuotaGrant))
    : list (string * list RSEQuotaGrant) :=
  match groups with
  | [] => [(g_role g, [g])]
  | (role, gs) :: groups =>
      if bool_decide (role = g_role g) then (role, gs ++ [g]) :: groups
      else (role, gs) :: append_grant g groups
  end.

Definition group_by_role (grants : list RSEQuotaGrant) (rse_id : string) : list (string * list RSEQuotaGrant) :=
  foldl (fun groups g => if bool_decide (rse_id ∈ g_rse_ids g) then append_grant g groups else groups) [] grants.

(** [usage.get(rse_id, 0)] *)
Definition usage_of (usage : gmap string Z) (rse_id : string) : Z := default 0%Z (usage !! rse_id).
(** [sum(usage.get(covered, 0) for covered in rse_ids)] *)
Definition usage_sum (usage : gmap string Z) (rse_ids : gset string) : Z :=
  foldr Z.add 0%Z (usage_of usage <$> elements rse_ids).

Definition is_local (g : RSEQuotaGrant) : bool := bool_decide (g_locality g = LOCAL).

(** What one role leaves: its local limit, and its global limits by expression. *)
Definition local_left (usage : gmap string Z) (rse_id : string) (g : RSEQuotaGrant) : znum :=
  if bool_decide (g_bytes g = ROLE_QUOTA_NOCAP) then Inf else Fin (g_bytes g - usage_of usage rse_id).
Definition global_left (usage : gmap string Z) (gs : list RSEQuotaGrant) : gmap string Z :=
  foldl (fun m g => if negb (is_local g) && negb (bool_decide (g_bytes g = ROLE_QUOTA_NOCAP))
                    then <[default "None"%string (g_rse_expression g) := (g_bytes g - usage_sum usage (g_rse_ids g))%Z]> m
                    else m) ∅ gs.

(** [min([local_left, *global_left.values()])] *)
Definition space_left (l : znum) (g : gmap string Z) : znum :=
  foldr (fun kv acc => zmin (Fin kv.2) acc) l (map_to_list g).

(** One round of the loop over the roles. *)
Definition better_role (rse_id : string) (usage : gmap string Z)
    (best : option (znum * znum * gmap string Z)) (role_grants : string * list RSEQuotaGrant)
    : option (znum * znum * gmap string Z) :=
  match List.find is_local role_grants.2 with
  | None => best
  | Some local_grant =>
      let l := local_left usage rse_id local_grant in
      let g := global_left usage role_grants.2 in
      let space := space_left l g in
      match best with
      | None => Some (space, l, g)
      | Some b => if zlt b.1.1 space then Some (space, l, g) else best
      end
  end.

(** [rse_quota_left] *)
Definition rse_quota_left (grants : list RSEQuotaGrant) (rse_id : string) (usage : gmap string Z)
    : option (znum * gmap string Z) :=
  match foldl (better_role rse_id usage) None (group_by_role grants rse_id) with
  | None => None
  | Some (_, l, g) => Some (l, g)
  end.

(** ** What the grants mean *)

(** The grants of a role on an RSE. *)
Definition role_grants (grants : list RSEQuotaGrant) (rse_id role : string) : list RSEQuotaGrant :=
  List.filter (fun g => bool_decide (rse_id ∈ g_rse_ids g) && bool_decide (g_role g = role)) grants.

(** What a role leaves on an RSE, if it covers it with a local limit. *)
Definition role_left (grants : list RSEQuotaGrant) (rse_id : string) (usage : gmap string Z) (role : string)
    : option (znum * gmap string Z) :=
  g ← List.find is_local (role_grants grants rse_id role);
  Some (local_left usage rse_id g, global_left usage (role_grants grants rse_id role)).

(** The groups of the loop: each role once, with its grants in order. *)
Definition groups_ok (grants : list RSEQuotaGrant) (rse_id : string) (groups : list (string * list RSEQuotaGrant)) : Prop :=
  (forall role gs, (role, gs) ∈ groups -> gs = role_grants grants rse_id role /\ gs <> []) /\
  (forall role, role_grants grants rse_id role <> [] -> role ∈ fst <$> groups).

Lemma append_grant_elem g groups role gs :
  NoDup (fst <$> groups) ->
  (role, gs) ∈ append_grant g groups <->
  (role <> g_role g /\ (role, gs) ∈ groups) \/
  (role = g_role g /\ exists gs', gs = gs' ++ [g] /\
     ((role, gs') ∈ groups \/ (gs' = [] /\ role ∉ fst <$> groups))).
Proof.
  induction groups as [|[r l] groups IH]; intros Hnd.
  - simpl. rewrite list_elem_of_singleton. split.
    + intros [= -> ->]. right. split; [done|]. exists []. split; [done|]. right. split; [done|]. set_solver.
    + intros [[_ ?]|[-> (gs' & -> & [?|[-> _]])]]; [set_solver..|done].
  - rewrite fmap_cons in Hnd. apply NoDup_cons in Hnd as [Hr Hnd]. simpl in Hr. cbn [append_grant].
    case_bool_decide as Hg.
    + subst r. rewrite elem_of_cons. split.
      * intros [[= -> ->]|Hin]; [right; split; [done|]; exists l; split; [done|]; left; by left|].
        left. split; [|by right]. intros ->. apply Hr. apply list_elem_of_fmap. by exists (g_role g, gs).
      * intros [[Hne [[= -> ->]|Hin]%elem_of_cons]|[-> (gs' & -> & [[[= ->]|Hin]%elem_of_cons|[-> Hn]])]];
          [done|by right|by left| |].
        -- exfalso. apply Hr. apply list_elem_of_fmap. by exists (g_role g, gs').
        -- exfalso. apply Hn. rewrite fmap_cons. by left.
    + rewrite elem_of_cons, IH by done. rewrite elem_of_cons. split.
      * intros [[= -> ->]|[[Hne Hin]|[-> (gs' & -> & Hin)]]]; [left; split; [done|by left]|left; split; [done|by right]|].
        right. split; [done|]. exists gs'. split; [done|]. destruct Hin as [Hin|[-> Hn]]; [left; by right|].
        right. split; [done|]. rewrite fmap_cons. set_solver.
      * intros [[Hne [[= -> ->]|Hin]]|[-> (gs' & -> & [[[= Heq _]|Hin]%elem_of_cons|[-> Hn]])]];
          [by left|right; by left|done|right; right; split; [done|]; exists gs'; split; [done|]; by left|].
        right. right. split; [done|]. exists []. split; [done|]. right. split; [done|].
        rewrite fmap_cons in Hn. set_solver.
Qed.

Lemma append_grant_roles g groups :
  fst <$> append_grant g groups =
  (fst <$> groups) ++ (if decide (g_role g ∈ fst <$> groups) then [] else [g_role g]).
Proof.
  induction groups as [|[r l] groups IH]; [done|]. cbn [append_grant]. case_bool_decide as Hg.
  - subst r. rewrite !fmap_cons. simpl. rewrite decide_True by by left. by rewrite app_nil_r.
  - rewrite !fmap_cons, IH. simpl. f_equal. f_equal.
    destruct (decide (g_role g ∈ fst <$> groups)); [by rewrite decide_True by by right|].
    rewrite decide_False; [done|]. intros [?|?]%elem_of_cons; congruence.
Qed.

Lemma role_grants_snoc grants g rse_id role :
  role_grants (grants ++ [g]) rse_id role =
  role_grants grants rse_id role ++
  (if bool_decide (rse_id ∈ g_rse_ids g) && bool_decide (g_role g = role) then [g] else []).
Proof. unfold role_grants. rewrite List.filter_app. simpl. by destruct (_ && _). Qed.

Lemma group_by_role_ok grants rse_id :
  NoDup (fst <$> group_by_role grants rse_id) /\ groups_ok grants rse_id (group_by_role grants rse_id).
Proof.
  induction grants as [|g grants [Hnd [Hin Hall]]] using rev_ind.
  { split; [constructor|]. split; [intros ? ? ?; set_solver|done]. }
  unfold group_by_role. rewrite foldl_app. simpl. fold (group_by_role grants rse_id).
  set (groups := group_by_role grants rse_id) in *. case_bool_decide as Hg.
  2:{ split; [done|]. split; intros role; [intros gs|]; rewrite role_grants_snoc, bool_decide_false by done;
        simpl; rewrite app_nil_r; auto. }
  split.
  { rewrite append_grant_roles. case_decide; [by rewrite app_nil_r|].
    apply NoDup_app. split; [done|]. split; [|apply NoDup_singleton]. intros r Hr ->%list_elem_of_singleton. done. }
  split.
  - intros role gs. rewrite append_grant_elem by done. rewrite role_grants_snoc, bool_decide_true by done. simpl.
    intros [[Hne Hgs]|[-> (gs' & -> & Hgs)]].
    + rewrite bool_decide_false, app_nil_r by congruence. by apply Hin.
    + rewrite bool_decide_true by done. split; [|by destruct gs']. f_equal.
      destruct Hgs as [Hgs|[-> Hgs]]; [by apply Hin|].
      destruct (role_grants grants rse_id (g_role g)) eqn:Hrg; [done|].
      exfalso. apply Hgs, Hall. by rewrite Hrg.
  - intros role. rewrite role_grants_snoc, bool_decide_true, append_grant_roles by done. simpl. intros Hne.
    destruct (decide (g_role g = role)) as [<-|Hr].
    + destruct (decide (g_role g ∈ fst <$> groups)) as [Hi|]; apply elem_of_app; [by left|].
      right. by apply list_elem_of_singleton.
    + rewrite bool_decide_false, app_nil_r in Hne by done. apply elem_of_app. left. by apply Hall.
Qed.

Lemma zlt_false_zle a b : zlt a b = false -> zle b a = true.
Proof. rewrite zlt_zle. by intros ?%negb_false_iff. Qed.

Lemma zlt_true_zle a b : zlt a b = true -> zle a b = true.
Proof. rewrite zlt_zle. intros Hb%negb_true_iff. destruct (zle_total a b) as [|Hx]; [done|congruence]. Qed.

(** What a group leaves. *)
Definition group_left (rse_id : string) (usage : gmap string Z) (rg : string * list RSEQuotaGrant)
    : option (znum * gmap string Z) :=
  g ← List.find is_local rg.2; Some (local_left usage rse_id g, global_left usage rg.2).

(** The loop keeps the group that leaves the most. *)
Lemma better_role_best rse_id usage groups :
  match foldl (better_role rse_id usage) None groups with
  | None => forall rg, rg ∈ groups -> group_left rse_id usage rg = None
  | Some (space, l, g) =>
      space = space_left l g /\ (exists rg, rg ∈ groups /\ group_left rse_id usage rg = Some (l, g)) /\
      forall rg l' g', rg ∈ groups -> group_left rse_id usage rg = Some (l', g') -> zle (space_left l' g') space = true
  end.
Proof.
  induction groups as [|rg groups IH] using rev_ind; [simpl; set_solver|]. rewrite foldl_app. simpl.
  unfold better_role at 1. destruct (List.find is_local rg.2) as [lg|] eqn:Hf.
  - assert (group_left rse_id usage rg = Some (local_left usage rse_id lg, global_left usage rg.2)) as Hrg
      by (unfold group_left; by rewrite Hf).
    destruct (foldl _ None groups) as [[[sp l] g]|]; cbn [fst].
    + destruct IH as (Hsp & (rg0 & Hin0 & Hrg0) & Hmax). destruct (zlt sp _) eqn:Hlt.
      * split; [done|]. split; [exists rg; split; [set_solver|done]|].
        intros rg' l' g' [Hin| ->%list_elem_of_singleton]%elem_of_app Hl'.
        -- eapply zle_trans; [by eapply Hmax|by apply zlt_true_zle].
        -- rewrite Hrg in Hl'. injection Hl' as <- <-. apply zle_refl.
      * split; [done|]. split; [exists rg0; split; [set_solver|done]|].
        intros rg' l' g' [Hin| ->%list_elem_of_singleton]%elem_of_app Hl'; [by eapply Hmax|].
        rewrite Hrg in Hl'. injection Hl' as <- <-. by apply zlt_false_zle.
    + split; [done|]. split; [exists rg; split; [set_solver|done]|].
      intros rg' l' g' [Hin| ->%list_elem_of_singleton]%elem_of_app Hl'.
      * by rewrite IH in Hl'.
      * rewrite Hrg in Hl'. injection Hl' as <- <-. apply zle_refl.
  - assert (group_left rse_id usage rg = None) as Hrg by (unfold group_left; by rewrite Hf).
    destruct (foldl _ None groups) as [[[sp l] g]|].
    + destruct IH as (Hsp & (rg0 & Hin0 & Hrg0) & Hmax). split; [done|].
      split; [exists rg0; split; [set_solver|done]|].
      intros rg' l' g' [Hin| ->%list_elem_of_singleton]%elem_of_app Hl'; [by eapply Hmax|congruence].
    + intros rg' [Hin| ->%list_elem_of_singleton]%elem_of_app; [by apply IH|done].
Qed.

Lemma role_left_group grants rse_id usage role :
  is_Some (role_left grants rse_id usage role) ->
  (role, role_grants grants rse_id role) ∈ group_by_role grants rse_id.
Proof.
  intros Hs. destruct (group_by_role_ok grants rse_id) as [_ [Hin Hall]].
  assert (role_grants grants rse_id role <> []) as Hne.
  { intros He. unfold role_left in Hs. rewrite He in Hs. by destruct Hs. }
  apply Hall, list_elem_of_fmap in Hne as ([r gs] & -> & Hgs). simpl in *. by destruct (Hin _ _ Hgs) as [<- _].
Qed.

(** The quota left on an RSE is that of a role covering it with a local limit, and no
    role covering it with a local limit leaves more space, the space of a role being the
    smallest of what its local limit and each of its global limits leave; there is none
    exactly when no role covers the RSE with a local limit. *)
Theorem rse_quota_left_best grants rse_id usage :
  match rse_quota_left grants rse_id usage with
  | None => forall role, role_left grants rse_id usage role = None
  | Some (l, g) =>
      (exists role, role_left grants rse_id usage role = Some (l, g)) /\
      (forall role l' g', role_left grants rse_id usage role = Some (l', g') ->
         zle (space_left l' g') (space_left l g) = true)
  end.
Proof.
  pose proof (group_by_role_ok grants rse_id) as [_ [Hin _]].
  pose proof (better_role_best rse_id usage (group_by_role grants rse_id)) as Hbest.
  unfold rse_quota_left. destruct (foldl _ None _) as [[[sp l] g]|].
  - destruct Hbest as (-> & ([role gs] & Hgs & Hrg) & Hmax). split.
    + exists role. by destruct (Hin _ _ Hgs) as [-> _].
    + intros role' l' g' Hl'. apply (Hmax (role', role_grants grants rse_id role')); [|done].
      eapply role_left_group. by rewrite Hl'.
  - intros role. destruct (role_left grants rse_id usage role) as [x|] eqn:Hx; [|done].
    rewrite <-Hx. apply (Hbest (role, role_grants grants rse_id role)). eapply role_left_group. by rewrite Hx.
Qed.
