(* ===== verification/RseSelector.v ===== *)
(** * Choosing RSEs for a rule: [lib/rucio/core/rse_selector.py]

    The RSEs an account may write to, with the space its limits leave on them, and the weighted
    random choice of some of them. *)

From S2P Require Import Prelude PyString PyFloat Types Database Role RoleAdmin RoleQuota.

(** ** Randomness

    The draws of the [random] module are numbered.  [shuffle] permutes a list, and [uniform(a, b)]
    is a number [a <= N <= b] when [a <= b]. *)
Class Random := {
  shuffle {A} : nat -> list A -> list A;
  uniform : nat -> float -> float -> float;
  shuffle_perm {A} k (l : list A) : shuffle k l ≡ₚ l;
  uniform_range k a b : fle a b = true -> fle a (uniform k a b) = true /\ fle (uniform k a b) b = true;
}.

(** ** The tables of limits and usage *)

Record QuotaDB := MkQuotaDB {
  account_limits : gmap (string * string) Z;                 (* account and RSE *)
  account_global_limits : list (string * string * Z);        (* account, RSE expression, bytes *)
  account_usage : gmap (string * string) (Z * Z);            (* account and RSE: files and bytes *)
  max_space_available : gmap string Z;                       (* the RSE limit MaxSpaceAvailable *)
  rse_counters : gmap string (Z * option Z);                 (* the bytes and files on the RSE *)
}.

(** [account_exists] of [core/account.py] *)
Definition account_exists (s : Session) (account : InternalType) : bool :=
  match internal account with Some a => bool_decide (accounts s !! a = Some true) | None => false end.

Definition bytes_limit (b : Z) : znum := if bool_decide (b = -1)%Z then Inf else Fin b.

(** [get_local_account_limit] of [core/account_limit.py], for a single RSE *)
Definition get_local_account_limit (s : Session) (q : QuotaDB) (account : InternalType) (rse_id : string)
    : result (option znum) :=
  if account_exists s account
  then Ok (a ← internal account; b ← account_limits q !! (a, rse_id); Some (bytes_limit b))
  else Err AccountNotFound.

(** The limit and the resolved RSEs of an expression *)
Record GlobalLimit := MkGlobalLimit { gl_expression : string; gl_limit : znum; gl_rse_ids : list string }.

(** [get_usage] and [get_all_rse_usages_per_account] of [core/account.py] *)
Definition get_usage (q : QuotaDB) (rse_id : string) (account : InternalType) : Z :=
  default 0%Z (a ← internal account; snd <$> account_usage q !! (a, rse_id)).
Definition get_all_rse_usages_per_account (q : QuotaDB) (account : InternalType) : gmap string Z :=
  list_to_map (omap (fun kv : (string * string) * (Z * Z) =>
                       if bool_decide (internal account = Some kv.1.1) then Some (kv.1.2, kv.2.2) else None)
                 (map_to_list (account_usage q))).

(** The attribute is set to something true. *)
Definition attribute_true (o : option AttrValue) : bool :=
  match o with
  | Some (ABool b) => b
  | Some (AStr s) => negb (bool_decide (s = EmptyString))
  | None => false
  end.
Definition float_of_attribute (v : AttrValue) : option float :=
  match v with AStr s => py_float s | ABool b => Some (of_Z (if b then 1 else 0)) end.

(** ** The selector *)

(** An RSE of the selector *)
Record Candidate := MkCandidate {
  c_rse_id : string;
  c_weight : float;
  c_mock : bool;
  c_availability_write : bool;
  c_staging_area : bool;
  c_quota_left : znum;
  c_space_left : znum;
  c_global_left : gmap string znum;
}.

Definition with_quota (c : Candidate) (quota space : znum) (global : gmap string znum) : Candidate :=
  MkCandidate (c_rse_id c) (c_weight c) (c_mock c) (c_availability_write c) (c_staging_area c) quota space global.

Record RSESelector := MkSelector { sel_rses : list Candidate; sel_copies : Z }.

(** An RSE without the attribute of the weight is ignored. *)
Definition weigh_rse (s : Session) (weight : option string) (rse : RSERow) : result (option Candidate) :=
  let candidate w := MkCandidate (rse_id rse) w (attribute_true (rse_attribute s (rse_id rse) "mock"))
                       (rse_availability_write rse) (rse_staging_area rse) (Fin 0) (Fin 0) ∅ in
  match weight with
  | Some w =>
      match rse_attribute s (rse_id rse) w with
      | None => Ok None
      | Some v => let* f := or_raise InvalidRuleWeight (float_of_attribute v) in Ok (Some (candidate f))
      end
  | None => Ok (Some (candidate (of_Z 1)))
  end.

(** [l] followed by the results of [f] that are not [None] *)
Definition collect {A B} (f : A -> result (option B)) (l : list A) : result (list B) :=
  foldM (fun acc a => let* o := f a in Ok (acc ++ match o with Some b => [b] | None => [] end)) [] l.

(** Admins are exempt from quotas. *)
Definition quota_exempt (s : Session) (account : InternalType) : bool :=
  if rbac_enabled s then bool_decide (external account = Some "root"%string) || has_admin_role s account
  else has_account_attribute s account "admin".

(** The loop over the global limits of the account: what each leaves on the RSE, up to the first
    that leaves nothing. *)
Fixpoint account_global_left (usages : gmap string Z) (rse_id : string) (limits : list GlobalLimit)
    (left : gmap string znum) : gmap string znum * bool :=
  match limits with
  | [] => (left, true)
  | l :: limits =>
      if bool_decide (rse_id ∈ gl_rse_ids l) then
        let g := zsub (gl_limit l) (foldr Z.add 0%Z (usage_of usages <$> gl_rse_ids l)) in
        if zle g (Fin 0) then (left, false)
        else account_global_left usages rse_id limits (<[gl_expression l := g]> left)
      else account_global_left usages rse_id limits left
  end.

Section selector.
Context `{RSEExpressions} `{Random}.

(** [get_global_account_limit] of [core/account_limit.py], for all limits of an account *)
Definition get_global_account_limit (s : Session) (q : QuotaDB) (account : InternalType) : result (list GlobalLimit) :=
  if account_exists s account then
    collect (fun row : string * string * Z =>
      if bool_decide (internal account = Some row.1.1) then
        let* l := parse_expression s row.1.2 (Some (vo account)) in
        Ok (Some (MkGlobalLimit row.1.2 (bytes_limit row.2) (rse_id <$> l)))
      else Ok None) (account_global_limits q)
  else Err AccountNotFound.

(** What the limits leave of an RSE that is not a mock: the local quota, the global ones, and
    whether all of these leave something. *)
Definition quotas_left (s : Session) (q : QuotaDB) (account : InternalType) (limits : list GlobalLimit)
    (usages : gmap string Z) (grants : list RSEQuotaGrant) (rse_id : string) : result (znum * gmap string znum * bool) :=
  match rse_quota_left grants rse_id usages with
  | Some (l, g) => Ok (l, Fin <$> g, bool_decide (map_Forall (fun _ x => 0 < x)%Z g))
  | None =>
      let* limit := get_local_account_limit s q account rse_id in
      let l := match limit with Some b => zsub b (get_usage q rse_id account) | None => Fin 0 end in
      let '(g, enough) := account_global_left usages rse_id limits ∅ in
      Ok (l, g, enough)
  end.

(** The RSE with its quotas, if they leave something. *)
Definition quota_rse (s : Session) (q : QuotaDB) (account : InternalType) (limits : list GlobalLimit)
    (usages : gmap string Z) (grants : list RSEQuotaGrant) (c : Candidate) : result (option Candidate) :=
  if c_mock c then Ok (Some (with_quota c Inf Inf ∅))
  else
    let* r := quotas_left s q account limits usages grants (c_rse_id c) in
    let '(l, g, enough) := r in
    if zlt (Fin 0) l && enough then
      let* space := match max_space_available q !! c_rse_id c with
                    | Some b => if bool_decide (b < 0)%Z then Ok Inf
                                else let* used := or_raise CounterNotFound (fst <$> rse_counters q !! c_rse_id c) in
                                     Ok (Fin (b - used))
                    | None => Ok Inf
                    end in
      Ok (Some (with_quota c l space g))
    else Ok None.

(** [RSESelector.__init__] *)
Definition new_selector (s : Session) (q : QuotaDB) (account : InternalType) (rses : list RSERow)
    (weight : option string) (copies : Z) (ignore_account_limit : bool) : result RSESelector :=
  let* candidates := collect (weigh_rse s weight) rses in
  if bool_decide (Z.of_nat (length candidates) < copies)%Z then Err InsufficientTargetRSEs
  else
    let* candidates :=
      if quota_exempt s account || ignore_account_limit
      then Ok ((fun c => with_quota c Inf Inf ∅) <$> candidates)
      else
        let* limits := get_global_account_limit s q account in
        let usages := get_all_rse_usages_per_account q account in
        let* grants := if rbac_enabled s then list_account_rse_quota_grants s account else Ok [] in
        collect (quota_rse s q account limits usages grants) candidates in
    if bool_decide (Z.of_nat (length candidates) < copies)%Z then Err InsufficientAccountLimit
    else Ok (MkSelector candidates copies).

(** *** Selecting *)

Definition Chosen : Type := string * bool * bool.
Definition as_tuple (c : Candidate) : Chosen := (c_rse_id c, c_staging_area c, c_availability_write c).

(** [RSESelector.__choose_rse], with the list it has shuffled *)
Fixpoint pick_weight (pick weight : float) (rses : list Candidate) : option Candidate :=
  match rses with
  | [] => None
  | c :: rses => let weight := fadd weight (c_weight c) in
                 if fle pick weight then Some c else pick_weight pick weight rses
  end.
Definition choose_rse (k : nat) (rses : list Candidate) : option Chosen * list Candidate :=
  let rses := shuffle k rses in
  let pick := uniform k fzero (foldl fadd fzero (c_weight <$> rses)) in
  (as_tuple <$> pick_weight pick fzero rses, rses).

(** [RSESelector.__update_quota] *)
Definition charge (size : Z) (c : Candidate) : Candidate :=
  with_quota c (zsub (c_quota_left c) size) (c_space_left c) ((fun g => zsub g size) <$> c_global_left c).
Fixpoint update_quota (rse : Chosen) (size : Z) (rses : list Candidate) : list Candidate :=
  match rses with
  | [] => []
  | c :: rses => if bool_decide (c_rse_id c = rse.1.1) then charge size c :: rses else c :: update_quota rse size rses
  end.

Definition rses_dict (rses : list Candidate) : gmap string Candidate := dict_of c_rse_id id rses.

(** [RSESelector.get_rse_dictionary] *)
Definition get_rse_dictionary (sel : RSESelector) : gmap string Candidate := rses_dict (sel_rses sel).

(** The loop over the copies.  No choice is [None], which [__update_quota] cannot index. *)
Fixpoint pick_copies (n : nat) (k : nat) (size : Z) (preferred_rse_ids : list string) (prioritize : bool)
    (rses : list Candidate) (result : list Chosen) (self_rses : list Candidate)
    : Prelude.result (list Chosen * list Candidate) :=
  match n with
  | O => Ok (result, self_rses)
  | S n =>
      let rses := List.filter (fun c => negb (bool_decide (c_rse_id c ∈ result.*1.*1))) rses in
      let preferred := omap (fun i => rses_dict rses !! i) preferred_rse_ids in
      let '(choice, rses) :=
        match preferred with
        | c :: _ => if prioritize then (Some (as_tuple c), rses) else ((choose_rse k preferred).1, rses)
        | [] => choose_rse k rses
        end in
      let* rse := or_raise TypeError choice in
      pick_copies n (S k) size preferred_rse_ids prioritize rses (result ++ [rse]) (update_quota rse size self_rses)
  end.

Definition not_blocked (blocklist : list string) (c : Candidate) : bool := negb (bool_decide (c_rse_id c ∈ blocklist)).
Definition has_space (size : Z) (existing : gmap string Z) (c : Candidate) : bool :=
  zle (Fin (size - default 0%Z (existing !! c_rse_id c))) (c_space_left c).
Definition has_quota (size : Z) (c : Candidate) : bool := zlt (Fin size) (c_quota_left c).
Definition has_global_quota (size : Z) (c : Candidate) : bool :=
  bool_decide (map_Forall (fun _ g => zlt g (Fin size) = false) (c_global_left c)).

(** [if len(rses) < count: raise e] *)
Definition at_least (count : Z) (e : exn) (rses : list Candidate) : Prelude.result (list Candidate) :=
  if bool_decide (Z.of_nat (length rses) < count)%Z then Err e else Ok rses.

(** [RSESelector.select_rse]; [k] numbers the draws. *)
Definition select_rse (sel : RSESelector) (k : nat) (size : Z) (preferred_rse_ids : list string) (copies : Z)
    (blocklist : list string) (prioritize_order_over_weight : bool) (existing_rse_size : gmap string Z)
    : Prelude.result (list Chosen * RSESelector) :=
  let count := if bool_decide (copies = 0)%Z then sel_copies sel else copies in
  let* rses := at_least count InsufficientTargetRSEs (List.filter (not_blocked blocklist) (sel_rses sel)) in
  let* rses := at_least count RSEOverQuota (List.filter (has_space size existing_rse_size) rses) in
  let* rses := at_least count InsufficientAccountLimit (List.filter (has_quota size) rses) in
  let* rses := at_least count InsufficientAccountLimit (List.filter (has_global_quota size) rses) in
  let* r := pick_copies (Z.to_nat count) k size preferred_rse_ids prioritize_order_over_weight rses [] (sel_rses sel) in
  Ok (r.1, MkSelector r.2 (sel_copies sel)).

(** [resolve_rse_expression]: the names chosen, and the preferred ones the expression does not match *)
Definition resolve_rse_expression (s : Session) (q : QuotaDB) (k : nat) (rse_expression : string) (account : InternalType)
    (weight : option string) (copies : Z) (ignore_account_limit : bool) (size : Z) (preferred_rses blocklist : list string)
    (prioritize_order_over_weight : bool) (existing_rse_size : gmap string Z)
    : Prelude.result (list string * gset string) :=
  let* rses := parse_expression s rse_expression (Some (vo account)) in
  let rse_to_id := dict_of rse_name rse_id rses in
  let id_to_rse := dict_of rse_id rse_name rses in
  let* selector := new_selector s q account rses weight copies ignore_account_limit in
  let preferred_rse_ids := omap (fun n => rse_to_id !! n) preferred_rses in
  let* r := select_rse selector k size preferred_rse_ids 0 blocklist prioritize_order_over_weight existing_rse_size in
  let* names := traverse (fun c : Chosen => or_raise KeyError (id_to_rse !! c.1.1)) r.1 in
  Ok (names, list_to_set preferred_rses ∖ list_to_set (rse_name <$> rses)).

End selector.
