(* ===== verification/RseSelectorFacts.v ===== *)
(** * What the RSE selector promises

    A selection succeeds exactly when enough RSEs are usable, takes distinct ones, follows the
    preferences, and charges each RSE chosen once; the candidates respect the limits. *)

From S2P Require Import Prelude PyString PyFloat Types Database Role RoleAdmin RoleQuota RseSelector.

(** ** Choosing by weight *)

Abbreviation ids := (fmap c_rse_id).
Abbreviation chosen_ids l := (l.*1.*1) (only parsing).

Definition weights_ok (l : list Candidate) : Prop := Forall (fun c => nonneg (c_weight c) = true) l.

Lemma pick_weight_elem pick weight l c : pick_weight pick weight l = Some c -> c ∈ l.
Proof.
  revert weight. induction l as [|x l IH]; simpl; intros weight; [done|].
  case_match; [intros [= <-]; by left|]. intros Hc. right. by eapply IH.
Qed.

Lemma pick_weight_total pick weight l :
  l <> [] -> fle pick (foldl fadd weight (c_weight <$> l)) = true -> is_Some (pick_weight pick weight l).
Proof.
  revert weight. induction l as [|x l IH]; simpl; intros weight Hl Hp; [done|].
  destruct (fle pick (fadd weight (c_weight x))) eqn:Hx; [by eexists|].
  apply IH; [|done]. intros ->. simpl in Hp. congruence.
Qed.

Section facts.
Context {RND : Random}.

Lemma choose_rse_ok k l :
  l <> [] -> weights_ok l ->
  (exists c, c ∈ l /\ (choose_rse k l).1 = Some (as_tuple c)) /\ (choose_rse k l).2 ≡ₚ l.
Proof.
  intros Hl Hw. unfold choose_rse. simpl. split; [|apply shuffle_perm].
  set (l' := shuffle k l). assert (l' ≡ₚ l) as Hp by apply shuffle_perm.
  assert (fle fzero (foldl fadd fzero (c_weight <$> l')) = true) as Hsum.
  { apply nonneg_sum; [done|]. apply Forall_fmap. unfold weights_ok in Hw. by rewrite <-Hp in Hw. }
  destruct (uniform_range k _ _ Hsum) as [_ Hle].
  assert (l' <> []) as Hne by (intros E; rewrite E in Hp; by apply Hl; symmetry; apply Permutation_nil_l).
  destruct (pick_weight_total _ fzero l' Hne Hle) as [c Hc].
  exists c. rewrite Hc. split; [|done]. rewrite <-Hp. by eapply pick_weight_elem.
Qed.

(** *** The dictionary of RSEs *)

Lemma rses_dict_Some l i c : rses_dict l !! i = Some c -> c ∈ l /\ c_rse_id c = i.
Proof. intros (x & Hx & Hi & <-)%dict_of_Some. by split. Qed.

Lemma rses_dict_elem l i : i ∈ ids l <-> is_Some (rses_dict l !! i).
Proof. apply dict_of_elem. Qed.

Lemma preferred_ids l (pref : list string) : ids (omap (fun i => rses_dict l !! i) pref) = filter (fun i => i ∈ ids l) pref.
Proof.
  induction pref as [|i pref IH]; [done|]. cbn [omap list_omap]. rewrite filter_cons.
  destruct (rses_dict l !! i) as [c|] eqn:Hc.
  - rewrite decide_True by (apply rses_dict_elem; by eexists). rewrite fmap_cons, IH.
    by apply rses_dict_Some in Hc as [_ ->].
  - rewrite decide_False; [done|]. rewrite rses_dict_elem, Hc. by intros [].
Qed.

(** ** The choices follow the preferences *)

(** Each choice is a preferred RSE, the first if the order counts, as long as one that is usable
    has not been taken. *)
Fixpoint follows (usable : gset string) (preferred : list string) (prioritize : bool) (taken : list string)
    (picks : list Chosen) : Prop :=
  match picks with
  | [] => True
  | r :: picks =>
      match filter (fun i => i ∈ usable /\ i ∉ taken) preferred with
      | [] => True
      | i :: l => if prioritize then r.1.1 = i else r.1.1 ∈ i :: l
      end /\ follows usable preferred prioritize (taken ++ [r.1.1]) picks
  end.

Lemma filter_length_remove (l : list Candidate) (taken : list string) (i : string) :
  NoDup (ids l) ->
  length (List.filter (fun c => negb (bool_decide (c_rse_id c ∈ taken))) l) <=
  S (length (List.filter (fun c => negb (bool_decide (c_rse_id c ∈ taken ++ [i]))) l)).
Proof.
  induction l as [|x l IH]; simpl; [lia|]. intros [Hx Hl]%NoDup_cons. specialize (IH Hl).
  destruct (decide (c_rse_id x = i)) as [<-|Hne].
  - assert (forall l', c_rse_id x ∉ ids l' -> List.filter (fun c => negb (bool_decide (c_rse_id c ∈ taken ++ [c_rse_id x]))) l' =
                              List.filter (fun c => negb (bool_decide (c_rse_id c ∈ taken))) l') as Hsame.
    { intros l' Hl'. apply filter_ext_in. intros c Hc%list_elem_of_In. f_equal. apply bool_decide_ext.
      rewrite elem_of_app, list_elem_of_singleton. split; [|tauto]. intros [?|Hc']; [done|].
      destruct Hl'. rewrite <-Hc'. by apply list_elem_of_fmap_2. }
    rewrite (Hsame l Hx). repeat case_match; simpl; lia.
  - assert (c_rse_id x ∈ taken ++ [i] <-> c_rse_id x ∈ taken) as Hiff.
    { rewrite elem_of_app, list_elem_of_singleton. naive_solver. }
    rewrite (bool_decide_ext _ _ Hiff). destruct (bool_decide _); simpl; lia.
Qed.

(** *** Charging the RSEs chosen *)

Definition charge_chosen (size : Z) (picks : list Chosen) (l : list Candidate) : list Candidate :=
  (fun c => if bool_decide (c_rse_id c ∈ chosen_ids picks) then charge size c else c) <$> l.

Lemma charge_ids size picks l : ids (charge_chosen size picks l) = ids l.
Proof.
  unfold charge_chosen. rewrite <-list_fmap_compose. apply list_fmap_ext. intros i c _. simpl.
  by destruct (bool_decide _).
Qed.

Lemma update_quota_charge size (r : Chosen) l : NoDup (ids l) -> update_quota r size l = charge_chosen size [r] l.
Proof.
  induction l as [|c l IH]; [done|]. intros [Hc Hl]%NoDup_cons. simpl. case_bool_decide as Hid.
  - rewrite bool_decide_true by (rewrite Hid; left). f_equal. rewrite <-(list_fmap_id l) at 1.
    apply list_fmap_ext. intros i c' Hc'. simpl. rewrite bool_decide_false; [done|].
    rewrite list_elem_of_singleton. intros Hr. destruct Hc. rewrite Hid, <-Hr.
    apply list_elem_of_fmap_2. by eapply list_elem_of_lookup_2.
  - rewrite bool_decide_false by by rewrite list_elem_of_singleton. f_equal. by apply IH.
Qed.

Lemma charge_app size (r : Chosen) picks l :
  r.1.1 ∉ chosen_ids picks -> charge_chosen size picks (charge_chosen size [r] l) = charge_chosen size (r :: picks) l.
Proof.
  intros Hr. unfold charge_chosen. rewrite <-list_fmap_compose. apply list_fmap_ext. intros i c _. simpl.
  destruct (decide (c_rse_id c = r.1.1)) as [He|Hne].
  - rewrite (bool_decide_true (c_rse_id c ∈ [r.1.1])) by (rewrite He; left).
    rewrite (bool_decide_true (c_rse_id c ∈ r.1.1 :: _)) by (rewrite He; left).
    rewrite bool_decide_false; [done|]. simpl. by rewrite He.
  - rewrite (bool_decide_false (c_rse_id c ∈ [r.1.1])) by by rewrite list_elem_of_singleton.
    erewrite (bool_decide_ext (c_rse_id c ∈ r.1.1 :: _)); [done|]. rewrite elem_of_cons. naive_solver.
Qed.

(** *** The loop *)

Lemma weights_filter f l : weights_ok l -> weights_ok (List.filter f l).
Proof. unfold weights_ok. rewrite !Forall_forall. intros Hl c [Hc _]%elem_of_filter_bool. by apply Hl. Qed.

Lemma filter_ids f l : NoDup (ids l) -> NoDup (ids (List.filter f l)).
Proof.
  induction l as [|c l IH]; simpl; [done|]. intros [Hc Hl]%NoDup_cons. specialize (IH Hl).
  destruct (f c); [|done]. rewrite fmap_cons. apply NoDup_cons. split; [|done]. contradict Hc.
  apply list_elem_of_fmap in Hc as (x & -> & [Hx _]%elem_of_filter_bool). by apply list_elem_of_fmap_2.
Qed.

(** One round: some RSE left is chosen, a preferred one if there is any. *)
Lemma pick_one k (prefer : list string) (prio : bool) (rses : list Candidate) :
  rses <> [] -> weights_ok rses ->
  let preferred := omap (fun i => rses_dict rses !! i) prefer in
  exists c rses', c ∈ rses /\ rses' ≡ₚ rses /\
    match preferred with
    | x :: _ => if prio then (Some (as_tuple x), rses) else ((choose_rse k preferred).1, rses)
    | [] => choose_rse k rses
    end = (Some (as_tuple c), rses') /\
    match filter (fun i => i ∈ ids rses) prefer with
    | [] => True
    | i :: l => if prio then c_rse_id c = i else c_rse_id c ∈ i :: l
    end.
Proof.
  intros Hne Hw preferred. rewrite <-preferred_ids. fold preferred.
  assert (forall c, c ∈ preferred -> c ∈ rses) as Hsub.
  { intros c (i & _ & Hc%rses_dict_Some)%list_elem_of_omap. tauto. }
  destruct preferred as [|x l] eqn:Hp.
  - destruct (choose_rse_ok k rses Hne Hw) as [(c & Hc & Hch) Hperm].
    exists c, (choose_rse k rses).2. split_and!; [done|done| |done]. rewrite <-Hch. by destruct (choose_rse k rses).
  - destruct prio.
    + exists x, rses. split_and!; [apply Hsub; left|done|done|done].
    + destruct (choose_rse_ok k (x :: l)) as [(c & Hc & Hch) _]; [done| |].
      { apply Forall_forall. intros c Hc. unfold weights_ok in Hw. rewrite Forall_forall in Hw. by apply Hw, Hsub. }
      exists c, rses. split_and!; [by apply Hsub|done|by rewrite Hch|]. by apply (list_elem_of_fmap_2 c_rse_id (x :: l)).
Qed.

Lemma pick_copies_ok n k size prefer prio (usable : gset string) rses (result : list Chosen) self :
  NoDup (ids rses) -> weights_ok rses -> NoDup (chosen_ids result) -> NoDup (ids self) ->
  (forall i, i ∉ chosen_ids result -> i ∈ ids rses <-> i ∈ usable) ->
  (n <= length (List.filter (fun c => negb (bool_decide (c_rse_id c ∈ chosen_ids result))) rses))%nat ->
  exists picks, pick_copies n k size prefer prio rses result self = Ok (result ++ picks, charge_chosen size picks self) /\
    length picks = n /\ NoDup (chosen_ids (result ++ picks)) /\
    (forall r, r ∈ picks -> exists c, c ∈ rses /\ r = as_tuple c) /\
    follows usable prefer prio (chosen_ids result) picks.
Proof.
  revert k rses result self. induction n as [|n IH]; intros k rses result self Hnd Hw Hres Hself Hus Hlen.
  - exists []. rewrite app_nil_r. split_and!; [|done|done|by intros r ?%not_elem_of_nil|done]. simpl. f_equal. f_equal.
    unfold charge_chosen. simpl. rewrite <-(list_fmap_id self) at 1. apply list_fmap_ext. by intros.
  - cbn [pick_copies]. set (left := List.filter _ rses) in *.
    assert (left <> []) as Hne by (intros E; rewrite E in Hlen; simpl in Hlen; lia).
    destruct (pick_one k prefer prio left Hne) as (c & rses' & Hc & Hperm & -> & Hpref); [by apply weights_filter|].
    assert (NoDup (ids rses')) as Hnd' by (rewrite Hperm; by apply filter_ids).
    assert (c_rse_id c ∉ chosen_ids result /\ c ∈ rses) as [Hnew Hcr].
    { apply elem_of_filter_bool in Hc as [Hc Hcr]. by apply negb_true_iff, bool_decide_eq_false in Hcr. }
    assert (forall i, i ∈ ids left <-> i ∈ usable /\ i ∉ chosen_ids result) as Hleft.
    { intros i. unfold left. rewrite list_elem_of_fmap. split.
      - intros (x & -> & [Hx Hn]%elem_of_filter_bool). apply negb_true_iff, bool_decide_eq_false in Hn.
        split; [|done]. apply Hus; [done|]. by apply list_elem_of_fmap_2.
      - intros [Hi Hn]. apply Hus in Hi as (x & -> & Hx)%list_elem_of_fmap; [|done]. exists x. split; [done|].
        apply elem_of_filter_bool. split; [done|]. by apply negb_true_iff, bool_decide_eq_false. }
    destruct (IH (S k) rses' (result ++ [as_tuple c]) (update_quota (as_tuple c) size self))
      as (picks & Hpk & Hn & Hndp & Hin & Hfol).
    { done. }
    { unfold weights_ok. rewrite Hperm. by apply weights_filter. }
    { rewrite !fmap_app. simpl. apply NoDup_app. split; [done|]. split; [|apply NoDup_singleton].
      intros i Hi ->%list_elem_of_singleton. done. }
    { by rewrite update_quota_charge, charge_ids. }
    { intros i. rewrite !fmap_app, not_elem_of_app. intros [Hi _]. rewrite Hperm, Hleft. tauto. }
    { rewrite !fmap_app. simpl. rewrite Hperm. pose proof (filter_length_remove left (chosen_ids result) (c_rse_id c)) as Hfl.
      assert (List.filter (fun c => negb (bool_decide (c_rse_id c ∈ chosen_ids result))) left = left) as Heq.
      { apply filter_all. intros x [_ Hx]%elem_of_filter_bool. exact Hx. }
      rewrite Heq in Hfl. specialize (Hfl (filter_ids _ _ Hnd)). lia. }
    exists (as_tuple c :: picks). run. rewrite Hpk, <-app_assoc. simpl. rewrite <-app_assoc in Hndp.
    split_and!; [|by rewrite Hn|done| | |].
    + f_equal. f_equal. rewrite update_quota_charge by done. apply charge_app. simpl.
      rewrite !fmap_app in Hndp. simpl in Hndp. apply NoDup_app in Hndp as (_ & _ & Hndp). by apply NoDup_cons in Hndp as [? _].
    + intros r [->|Hr]%elem_of_cons; [by exists c|]. destruct (Hin r Hr) as (x & Hx & ->). exists x. split; [|done].
      rewrite Hperm in Hx. unfold left in Hx. by apply elem_of_filter_bool in Hx as [Hx _].
    + rewrite (list_filter_iff _ (fun i => i ∈ usable /\ i ∉ chosen_ids result)) in Hpref by apply Hleft.
      simpl. exact Hpref.
    + by rewrite !fmap_app in Hfol.
Qed.

(** ** Selecting *)

Lemma at_least_ok count e l :
  (at_least count e l = Ok l /\ (count <= Z.of_nat (length l))%Z) \/
  (at_least count e l = Err e /\ (Z.of_nat (length l) < count)%Z).
Proof. unfold at_least. case_bool_decide; [by right|left; split; [done|lia]]. Qed.

Lemma filter_shorter {A} (f : A -> bool) l : (length (List.filter f l) <= length l)%nat.
Proof. induction l as [|x l IH]; simpl; [lia|]. destruct (f x); simpl; lia. Qed.

(** What a selection must be. *)
Definition selection_ok (sel : RSESelector) (size : Z) (preferred_rse_ids : list string) (copies : Z)
    (blocklist : list string) (prioritize : bool) (existing : gmap string Z) (outcome : result (list Chosen * RSESelector)) : Prop :=
  let count := if bool_decide (copies = 0)%Z then sel_copies sel else copies in
  let unblocked := List.filter (not_blocked blocklist) (sel_rses sel) in
  let roomy := List.filter (has_space size existing) unblocked in
  let usable := List.filter (has_global_quota size) (List.filter (has_quota size) roomy) in
  match outcome with
  | Ok (chosen, sel') =>
      length chosen = Z.to_nat count /\ NoDup (chosen_ids chosen) /\ (count <= Z.of_nat (length usable))%Z /\
      (forall r, r ∈ chosen -> exists c, c ∈ usable /\ r = as_tuple c) /\
      follows (list_to_set (ids usable)) preferred_rse_ids prioritize [] chosen /\
      sel' = MkSelector (charge_chosen size chosen (sel_rses sel)) (sel_copies sel)
  | Err InsufficientTargetRSEs => (Z.of_nat (length unblocked) < count)%Z
  | Err RSEOverQuota => (Z.of_nat (length roomy) < count <= Z.of_nat (length unblocked))%Z
  | Err InsufficientAccountLimit => (Z.of_nat (length usable) < count <= Z.of_nat (length roomy))%Z
  | Err _ => False
  end.

Lemma select_rse_spec (sel : RSESelector) (k : nat) (size : Z) (preferred_rse_ids : list string) (copies : Z)
    (blocklist : list string) (prioritize : bool) (existing : gmap string Z) :
  NoDup (ids (sel_rses sel)) -> weights_ok (sel_rses sel) ->
  selection_ok sel size preferred_rse_ids copies blocklist prioritize existing
    (select_rse sel k size preferred_rse_ids copies blocklist prioritize existing).
Proof.
  intros Hnd Hw. unfold selection_ok, select_rse. set (count := if bool_decide _ then _ else _).
  set (unblocked := List.filter _ (sel_rses sel)). set (roomy := List.filter _ unblocked). set (usable := List.filter _ (List.filter _ roomy)).
  destruct (at_least_ok count InsufficientTargetRSEs unblocked) as [[-> H1]|[-> H1]]; [|done]. run. fold roomy.
  destruct (at_least_ok count RSEOverQuota roomy) as [[-> H2]|[-> H2]]; [|done]. run.
  pose proof (filter_shorter (has_global_quota size) (List.filter (has_quota size) roomy)) as Hsh. fold usable in Hsh.
  destruct (at_least_ok count InsufficientAccountLimit (List.filter (has_quota size) roomy)) as [[-> H3]|[-> H3]];
    run; [|lia]. fold usable.
  destruct (at_least_ok count InsufficientAccountLimit usable) as [[-> H4]|[-> H4]]; run; [|lia].
  destruct (pick_copies_ok (Z.to_nat count) k size preferred_rse_ids prioritize (list_to_set (ids usable)) usable [] (sel_rses sel))
    as (picks & -> & Hlen & Hndp & Hin & Hfol).
  - by do 4 apply filter_ids.
  - by do 4 apply weights_filter.
  - constructor.
  - done.
  - intros i _. by rewrite elem_of_list_to_set.
  - rewrite filter_all; [lia|]. intros c _. by rewrite bool_decide_false by apply not_elem_of_nil.
  - run. by split_and!.
Qed.

Lemma select_chosen sel k size prefer blocklist prio existing chosen sel' :
  NoDup (ids (sel_rses sel)) -> weights_ok (sel_rses sel) ->
  select_rse sel k size prefer 0 blocklist prio existing = Ok (chosen, sel') ->
  length chosen = Z.to_nat (sel_copies sel) /\ NoDup (chosen_ids chosen) /\ forall r, r ∈ chosen -> r.1.1 ∉ blocklist.
Proof.
  intros Hnd Hw Hs. pose proof (select_rse_spec sel k size prefer 0 blocklist prio existing Hnd Hw) as Hspec.
  rewrite Hs in Hspec. destruct Hspec as (Hlen & Hndc & _ & Hin & _). split_and!; [done|done|].
  intros r Hr. destruct (Hin r Hr) as (c & Hc & ->). simpl. do 3 apply elem_of_filter_bool in Hc as [Hc _].
  apply elem_of_filter_bool in Hc as [_ Hc]. by apply negb_true_iff, bool_decide_eq_false in Hc.
Qed.

(** C35: With weights that are not negative, and each RSE once, [RSESelector.select_rse] succeeds exactly when enough RSEs are usable, whatever the
    random draws: not blocked, with space for the size less what is there already, with more
    local quota and at least as much global quota; each shortage has its own exception.  The RSEs
    chosen are as many as asked for, usable, distinct, and preferred ones while there are any (in
    their order if it has priority); exactly their quotas are charged, once.  (Negative weights: [negative_weight_raises].) *)
Theorem select_rse_exact (sel : RSESelector) (k : nat) (size : Z) (preferred_rse_ids : list string) (copies : Z)
    (blocklist : list string) (prioritize : bool) (existing : gmap string Z) :
  NoDup (ids (sel_rses sel)) -> weights_ok (sel_rses sel) ->
  selection_ok sel size preferred_rse_ids copies blocklist prioritize existing
    (select_rse sel k size preferred_rse_ids copies blocklist prioritize existing).
Proof. apply select_rse_spec. Qed.

End facts.

(** ** The candidates *)

Lemma collect_app {A B} (f : A -> result (option B)) l acc :
  foldM (fun acc a => let* o := f a in Ok (acc ++ match o with Some b => [b] | None => [] end)) acc l =
  mapR (app acc) (collect f l).
Proof.
  unfold collect. revert acc. induction l as [|a l IH]; intros acc; cbn [foldM mapR]; [by rewrite app_nil_r|].
  destruct (f a) as [o|e]; run; [|done]. rewrite IH, (IH ([] ++ _)).
  destruct (foldM _ [] l); run; [|done]. by rewrite <-app_assoc.
Qed.

Lemma collect_cons {A B} (f : A -> result (option B)) a l r :
  collect f (a :: l) = Ok r -> exists o r', f a = Ok o /\ collect f l = Ok r' /\ r = match o with Some b => [b] | None => [] end ++ r'.
Proof.
  unfold collect at 1. cbn [foldM]. intros (acc & (o & Ho & [= <-])%bind_Ok & Hf)%bind_Ok.
  rewrite collect_app in Hf. apply map_Ok in Hf as (r' & Hr' & <-). by exists o, r'.
Qed.

Lemma collect_elem {A B} (f : A -> result (option B)) l r b :
  collect f l = Ok r -> b ∈ r -> exists a, a ∈ l /\ f a = Ok (Some b).
Proof.
  revert r. induction l as [|a l IH]; intros r Hr Hb.
  - injection Hr as <-. by apply not_elem_of_nil in Hb.
  - destruct (collect_cons f a l r Hr) as (o & r' & Ho & Hr' & ->). apply elem_of_app in Hb as [Hb|Hb].
    + destruct o as [x|]; [|by apply not_elem_of_nil in Hb]. apply list_elem_of_singleton in Hb as ->.
      exists a. split; [left|done].
    + destruct (IH r' Hr' Hb) as (x & Hx & Hfx). exists x. by split; [right|].
Qed.

Lemma collect_sublist {A B K} (f : A -> result (option B)) (g : B -> K) (h : A -> K) l r :
  (forall a b, f a = Ok (Some b) -> g b = h a) -> collect f l = Ok r -> (g <$> r) `sublist_of` (h <$> l).
Proof.
  intros Hgh. revert r. induction l as [|a l IH]; intros r Hr.
  - injection Hr as <-. constructor.
  - destruct (collect_cons f a l r Hr) as (o & r' & Ho & Hr' & ->). destruct o as [b|]; simpl.
    + rewrite (Hgh a b Ho). by apply sublist_skip, IH.
    + by apply sublist_cons, IH.
Qed.

Section candidates.
Context {RSE_EXPR : RSEExpressions}.

(** What a candidate takes from its RSE *)
Definition candidate_of (s : Session) (weight : option string) (rse : RSERow) (c : Candidate) : Prop :=
  c_rse_id c = rse_id rse /\ c_staging_area c = rse_staging_area rse /\ c_availability_write c = rse_availability_write rse /\
  c_mock c = attribute_true (rse_attribute s (rse_id rse) "mock") /\
  match weight with
  | Some w => exists v, rse_attribute s (rse_id rse) w = Some v /\ float_of_attribute v = Some (c_weight c)
  | None => c_weight c = of_Z 1
  end.

Lemma weigh_rse_of s weight rse c : weigh_rse s weight rse = Ok (Some c) -> candidate_of s weight rse c.
Proof.
  unfold weigh_rse. destruct weight as [w|]; [|by intros [= <-]].
  destruct (rse_attribute s (rse_id rse) w) as [v|] eqn:Hv; [|done].
  intros (f & Hf & [= <-])%bind_Ok. apply or_raise_Ok in Hf. split_and!; try done. by exists v.
Qed.

Lemma account_global_left_positive usages i limits left m :
  map_Forall (fun _ g => zlt (Fin 0) g = true) left -> account_global_left usages i limits left = (m, true) ->
  map_Forall (fun _ g => zlt (Fin 0) g = true) m.
Proof.
  revert left. induction limits as [|l limits IH]; intros left Hl; simpl; [by intros [= <-]|].
  case_bool_decide; [|by apply IH]. destruct (zle _ (Fin 0)) eqn:Hz; [done|]. apply IH.
  apply map_Forall_insert_2; [|done]. by rewrite zlt_zle, Hz.
Qed.

(** What the limits leave: roles first, the account limits where no role covers the RSE. *)
Definition limits_respected (s : Session) (q : QuotaDB) (account : InternalType) (grants : list RSEQuotaGrant) (c : Candidate) : Prop :=
  zlt (Fin 0) (c_quota_left c) = true /\ map_Forall (fun _ g => zlt (Fin 0) g = true) (c_global_left c) /\
  match rse_quota_left grants (c_rse_id c) (get_all_rse_usages_per_account q account) with
  | Some (l, g) => c_quota_left c = l /\ c_global_left c = Fin <$> g
  | None => exists a b, internal account = Some a /\ account_limits q !! (a, c_rse_id c) = Some b /\
      c_quota_left c = zsub (bytes_limit b) (get_usage q (c_rse_id c) account)
  end.

Lemma quota_rse_of s q account limits grants c c' :
  quota_rse s q account limits (get_all_rse_usages_per_account q account) grants c = Ok (Some c') ->
  (exists l sp g, c' = with_quota c l sp g) /\
  if c_mock c then c' = with_quota c Inf Inf ∅ else limits_respected s q account grants c'.
Proof.
  unfold quota_rse. destruct (c_mock c) eqn:Hm; [intros [= <-]; split; [by eexists _, _, _|done]|].
  intros ([[l g] enough] & Hq & Hc)%bind_Ok.
  destruct (zlt (Fin 0) l) eqn:Hl; [|done]. destruct enough; [|done]. simpl in Hc.
  apply bind_Ok in Hc as (sp & _ & [= <-]). split; [by eexists _, _, _|]. unfold limits_respected. simpl.
  split; [done|]. unfold quotas_left in Hq. destruct (rse_quota_left _ _ _) as [[l' g']|].
  - injection Hq as <- <- Henough. apply bool_decide_eq_true in Henough. split; [|done].
    intros e x. rewrite lookup_fmap. intros (y & Hy & ->)%fmap_Some. specialize (Henough e y Hy). simpl in Henough.
    by apply bool_decide_eq_true.
  - apply bind_Ok in Hq as (limit & Hlim & Hq).
    destruct (account_global_left _ _ limits ∅) as [m b] eqn:Hgl. injection Hq as <- -> ->. split.
    + eapply account_global_left_positive; [|exact Hgl]. apply map_Forall_empty.
    + unfold get_local_account_limit in Hlim. destruct (account_exists s account); [|done]. injection Hlim as <-.
      destruct (internal account) as [a|]; simpl in Hl |- *; [|done].
      destruct (account_limits q !! (a, c_rse_id c)) as [b|] eqn:Hb; simpl in Hl |- *; [|done]. by exists a, b.
Qed.

(** What a selector must be. *)
Definition selector_ok s q account (rses : list RSERow) weight copies ignore_account_limit sel : Prop :=
  sel_copies sel = copies /\ (copies <= Z.of_nat (length (sel_rses sel)))%Z /\ NoDup (ids (sel_rses sel)) /\
  forall c, c ∈ sel_rses sel ->
    (exists rse, rse ∈ rses /\ candidate_of s weight rse c) /\
    if quota_exempt s account || ignore_account_limit || c_mock c
    then c_quota_left c = Inf /\ c_space_left c = Inf /\ c_global_left c = ∅
    else exists grants, (if rbac_enabled s then list_account_rse_quota_grants s account else Ok []) = Ok grants /\
           limits_respected s q account grants c.

Lemma selector_candidates s q account rses weight copies ignore_account_limit sel :
  NoDup (rse_id <$> rses) -> new_selector s q account rses weight copies ignore_account_limit = Ok sel ->
  selector_ok s q account rses weight copies ignore_account_limit sel.
Proof.
  intros Hnd (cands & Hc & Hsel)%bind_Ok. case_bool_decide as H1; [done|].
  apply bind_Ok in Hsel as (final & Hf & Hsel). case_bool_decide as H2; [done|]. injection Hsel as <-. unfold selector_ok. simpl.
  assert (ids cands `sublist_of` (rse_id <$> rses)) as Hsub.
  { eapply collect_sublist; [|exact Hc]. intros rse c Hw. by apply weigh_rse_of in Hw as [? _]. }
  assert (NoDup (ids cands)) as Hndc by by eapply sublist_NoDup.
  assert (forall c, c ∈ cands -> exists rse, rse ∈ rses /\ candidate_of s weight rse c) as Hcand.
  { intros c Hin. destruct (collect_elem _ _ _ c Hc Hin) as (rse & Hr & Hw). exists rse. split; [done|by apply weigh_rse_of]. }
  split_and!; [done|lia| |].
  - destruct (quota_exempt s account || ignore_account_limit).
    + injection Hf as <-. by rewrite <-list_fmap_compose.
    + apply bind_Ok in Hf as (limits & _ & (grants & _ & Hf)%bind_Ok).
      eapply sublist_NoDup; [exact Hndc|]. eapply collect_sublist; [|exact Hf].
      intros c c' Hq. apply quota_rse_of in Hq as [(l & sp & g & ->) _]. done.
  - intros c Hin. destruct (quota_exempt s account || ignore_account_limit) eqn:Hex; simpl.
    + injection Hf as <-. apply list_elem_of_fmap in Hin as (c0 & -> & Hin).
      split; [|done]. destruct (Hcand c0 Hin) as (rse & ? & ?). by exists rse.
    + apply bind_Ok in Hf as (limits & _ & (grants & Hg & Hf)%bind_Ok).
      destruct (collect_elem _ _ _ c Hf Hin) as (c0 & Hin0 & Hq).
      apply quota_rse_of in Hq as [(l & sp & g & ->) Hq]. destruct (Hcand c0 Hin0) as (rse & Hr & Hof).
      split; [by exists rse|]. simpl. destruct (c_mock c0); [|by exists grants].
      by injection Hq as -> -> ->.
Qed.

Lemma names_distinct (l : list RSERow) (chosen : list Chosen) ns :
  NoDup (rse_name <$> l) -> NoDup (chosen_ids chosen) ->
  Forall2 (fun (c : Chosen) n => exists rse, rse ∈ l /\ rse_id rse = c.1.1 /\ rse_name rse = n) chosen ns -> NoDup ns.
Proof.
  intros Hndn Hndc HF. induction HF as [|c n chosen ns (rse & Hr & Hid & Hn) HF IH]; [constructor|].
  apply NoDup_cons in Hndc as [Hc Hndc]. apply NoDup_cons. split; [|by apply IH].
  intros [i Hi]%list_elem_of_lookup. destruct (Forall2_lookup_r _ _ _ _ _ HF Hi) as (c' & Hc' & rse' & Hr' & Hid' & Hn').
  assert (rse = rse') as ->.
  { apply list_elem_of_lookup in Hr as [x Hx], Hr' as [y Hy].
    assert (x = y) as ->; [|congruence]. eapply (NoDup_lookup _ _ _ n Hndn); rewrite list_lookup_fmap.
    - by rewrite Hx, <-Hn.
    - by rewrite Hy, <-Hn'. }
  apply Hc. rewrite <-Hid, Hid'. do 2 apply list_elem_of_fmap_2. by eapply list_elem_of_lookup_2.
Qed.


End candidates.

(** ** Resolving an expression into RSEs *)

Section resolving.
Context {RSE_EXPR : RSEExpressions} {RND : Random}.

(** [resolve_rse_expression] returns as many names as copies asked for, all different: RSEs
    the expression matches in the VO of the account, none of them blocked; and the preferred names
    the expression does not match. *)
Theorem resolve_rse_expression_sound s q k expression account weight copies ignore_account_limit size
    preferred_rses blocklist prioritize existing l names unmatched :
  parse_expression s expression (Some (vo account)) = Ok l ->
  NoDup (rse_id <$> l) -> NoDup (rse_name <$> l) ->
  (forall rse c, rse ∈ l -> candidate_of s weight rse c -> nonneg (c_weight c) = true) ->
  resolve_rse_expression s q k expression account weight copies ignore_account_limit size preferred_rses blocklist
    prioritize existing = Ok (names, unmatched) ->
  length names = Z.to_nat copies /\ NoDup names /\
  (forall n, n ∈ names -> exists rse, rse ∈ l /\ rse_name rse = n /\ rse_vo rse = vo account /\ rse_id rse ∉ blocklist) /\
  (forall n, n ∈ unmatched <-> n ∈ preferred_rses /\ n ∉ rse_name <$> l).
Proof.
  intros Hl Hndi Hndn Hw. unfold resolve_rse_expression. rewrite Hl. run.
  intros (sel & Hsel & ([chosen sel'] & Hch & (ns & Hns & [= <- <-])%bind_Ok)%bind_Ok)%bind_Ok. simpl in Hns.
  destruct (selector_candidates _ _ _ _ _ _ _ _ Hndi Hsel) as (Hcop & _ & Hnds & Hcand).
  assert (weights_ok (sel_rses sel)) as Hwok.
  { apply Forall_forall. intros c Hc. destruct (Hcand c Hc) as [(rse & Hr & Hof) _]. by eapply Hw. }
  destruct (select_chosen sel k size _ _ _ _ _ _ Hnds Hwok Hch) as (Hlen & Hndc & Hin). rewrite Hcop in Hlen.
  apply traverse_Ok in Hns.
  assert (Forall2 (fun (c : Chosen) n => exists rse, rse ∈ l /\ rse_id rse = c.1.1 /\ rse_name rse = n) chosen ns) as Hns'.
  { eapply Forall2_impl; [exact Hns|]. intros c n Hn%or_raise_Ok. by apply dict_of_Some in Hn. }
  split_and!.
  - by rewrite <-Hlen, <-(Forall2_length _ _ _ Hns').
  - by eapply names_distinct.
  - intros n Hn. apply list_elem_of_lookup in Hn as [i Hi].
    destruct (Forall2_lookup_r _ _ _ _ _ Hns' Hi) as (c & Hc & rse & Hr & Hid & Hnm). exists rse. split_and!; [done|done| |].
    + pose proof (parse_expression_vo _ _ _ _ Hl) as Hvo. rewrite Forall_forall in Hvo. by apply Hvo.
    + rewrite Hid. apply (Hin c). by eapply list_elem_of_lookup_2.
  - intros n. by rewrite elem_of_difference, !elem_of_list_to_set.
Qed.

End resolving.

(** ** Examples *)

Open Scope string_scope.

Lemma fle_refl a b : fle a b = true -> fle a a = true.
Proof.
  destruct a as [s|s| |s m e]; [by destruct s|by destruct s|by destruct b|]. intros _.
  unfold fle, SpecFloat.SFleb. simpl. destruct s; by rewrite Z.compare_refl, Pos.compare_cont_refl.
Qed.

(** Nothing is shuffled and the lowest number is drawn. *)
Definition low_draws : Random.
Proof.
  refine {| shuffle A k l := l; uniform k a b := a |}.
  - done.
  - intros k a b Hab. split; [by eapply fle_refl|done].
Defined.

Definition demo_rses : list RSERow :=
  [RSE "1" "A" "def" RT_DISK false true false true; RSE "2" "B" "def" RT_DISK true true false true; RSE "3" "C" "def" RT_DISK false false false true].
Definition demo_account : InternalType := mk_internal (Some "bob") "def" true.
Definition demo_quota_session : Session :=
  {| now := 0; rbac_enabled := false; SCOPE_LENGTH := 25; NAME_LENGTH := 250; role_tables := no_role_tables;
     accounts := {[ "bob" := true ]}; account_attrs := ∅; scopes := ∅; dids := ∅; rules := ∅; replicas := ∅; locks := [];
     identities := []; exceptions := []; rses := demo_rses;
     rse_attrs := {[ ("1", "freespace") := AStr "2.5"; ("2", "freespace") := AStr "10"; ("3", "bad") := AStr "-5" ]} |}.
Definition demo_quotas : QuotaDB :=
  MkQuotaDB {[ ("bob", "1") := 100%Z; ("bob", "2") := (-1)%Z; ("bob", "3") := 50%Z ]} [("bob", "*", 120%Z)]
    {[ ("bob", "1") := (2%Z, 20%Z) ]} {[ "1" := 1000%Z ]} {[ "1" := (940%Z, None) ]}.
Definition demo_selector : RSESelector :=
  match new_selector (H := name_expressions) demo_quota_session demo_quotas demo_account demo_rses (Some "freespace") 1 false with
  | Ok sel => sel
  | Err _ => MkSelector [] 0
  end.

Example demo_candidates : (fun c => (c_rse_id c, c_quota_left c, c_space_left c, c_global_left c !! "*")) <$> sel_rses demo_selector =
  [("1", Fin 80, Fin 60, Some (Fin 100)); ("2", Inf, Inf, Some (Fin 100))].
Proof. by vm_compute. Qed.


Lemma select_rse_exact_witness :
  selection_ok demo_selector 70 ["2"; "1"] 0 [] true ∅ (select_rse (H0 := low_draws) demo_selector 0 70 ["2"; "1"] 0 [] true ∅).
Proof.
  apply select_rse_exact.
  - apply (bool_decide_unpack _). by vm_compute.
  - apply Forall_forall. intros c Hc. vm_compute in Hc.
    repeat (apply elem_of_cons in Hc as [->|Hc]; [by vm_compute|]). by apply not_elem_of_nil in Hc.
Defined.

Lemma resolve_rse_expression_sound_witness :
  length ["B"; "A"] = Z.to_nat 2 /\ NoDup ["B"; "A"] /\
  (forall n, n ∈ ["B"; "A"] -> exists rse, rse ∈ demo_rses /\ rse_name rse = n /\ rse_vo rse = vo demo_account /\ rse_id rse ∉ ["3"]) /\
  (forall n, n ∈ ({[ "Z" ]} : gset string) <-> n ∈ ["B"; "Z"] /\ n ∉ rse_name <$> demo_rses).
Proof.
  apply (resolve_rse_expression_sound (RSE_EXPR := name_expressions) (RND := low_draws) demo_quota_session demo_quotas 0 "*"
           demo_account None 2 false 30 ["B"; "Z"] ["3"] false ∅ demo_rses).
  - by vm_compute.
  - apply (bool_decide_unpack _). by vm_compute.
  - apply (bool_decide_unpack _). by vm_compute.
  - intros rse c _ (_ & _ & _ & _ & ->). by vm_compute.
  - by vm_compute.
Defined.

(** A negative weight can leave nothing to choose: a draw between the sum of the weights and 0 that
    is not the sum itself is above it, and the missing choice is indexed. *)
Theorem negative_weight_raises :
  exists sel, new_selector (H := name_expressions) demo_quota_session demo_quotas demo_account demo_rses (Some "bad") 1 true = Ok sel /\
    forall k, select_rse (H0 := low_draws) sel k 1 [] 0 [] false ∅ = Err TypeError.
Proof. eexists. split; [vm_compute; reflexivity|]. intros k. by vm_compute. Qed.
