(* ===== verification/Regex.v ===== *)
(** * Regular expressions: what [re.match] does

    Python's [re] backtracks: it tries the alternatives in order and repeats as often as it can,
    and takes the first match it finds.  Expressions are matched on lists of characters. *)

From S2P Require Import Prelude PyString.

Inductive regex :=
  | Chr (p : ascii -> bool)
  | Cat (r1 r2 : regex)
  | Alt (r1 r2 : regex)
  | Star (r : regex).

Definition Plus (r : regex) : regex := Cat r (Star r).
Definition Lit (a : ascii) : regex := Chr (fun b => bool_decide (a = b)).

(** As many repetitions of the body as possible: one that consumes nothing is not tried again, so
    that the length of the text bounds the repetitions. *)
Fixpoint repeat_match (body : list ascii -> (list ascii -> option (list ascii)) -> option (list ascii))
    (k : list ascii -> option (list ascii)) (fuel : nat) (s : list ascii) : option (list ascii) :=
  match fuel with
  | O => k s
  | S fuel =>
      match body s (fun s' => if (length s' <? length s)%nat then repeat_match body k fuel s' else None) with
      | Some x => Some x
      | None => k s
      end
  end.

(** The match of [r] at the start of [s] whose rest the continuation accepts. *)
Fixpoint rmatch (r : regex) (s : list ascii) (k : list ascii -> option (list ascii)) : option (list ascii) :=
  match r with
  | Chr p => match s with a :: s' => if p a then k s' else None | [] => None end
  | Cat r1 r2 => rmatch r1 s (fun s' => rmatch r2 s' k)
  | Alt r1 r2 => match rmatch r1 s k with Some x => Some x | None => rmatch r2 s k end
  | Star r => repeat_match (rmatch r) k (length s) s
  end.

(** [re.match(r, s)]: what follows the match *)
Definition re_match (r : regex) (s : list ascii) : option (list ascii) := rmatch r s Some.

(** [match.group() == s] *)
Definition matches_all (r : regex) (s : list ascii) : bool := bool_decide (re_match r s = Some []).

(** [match.group() if match else ""] *)
Definition match_group (r : regex) (s : list ascii) : list ascii :=
  match re_match r s with Some rest => take (length s - length rest) s | None => [] end.

(** ** The language of an expression *)

Inductive lang : regex -> list ascii -> Prop :=
  | lang_chr (p : ascii -> bool) a : p a = true -> lang (Chr p) [a]
  | lang_cat r1 r2 s1 s2 : lang r1 s1 -> lang r2 s2 -> lang (Cat r1 r2) (s1 ++ s2)
  | lang_alt_l r1 r2 s : lang r1 s -> lang (Alt r1 r2) s
  | lang_alt_r r1 r2 s : lang r2 s -> lang (Alt r1 r2) s
  | lang_star_nil r : lang (Star r) []
  | lang_star_cons r s1 s2 : lang r s1 -> lang (Star r) s2 -> lang (Star r) (s1 ++ s2).

(** A match found is in the language. *)
Lemma rmatch_sound r s k x :
  rmatch r s k = Some x -> exists c s', s = c ++ s' /\ lang r c /\ k s' = Some x.
Proof.
  revert s k x. induction r as [p|r1 IH1 r2 IH2|r1 IH1 r2 IH2|r IH]; intros s k x; cbn [rmatch].
  - destruct s as [|a s']; [done|]. destruct (p a) eqn:Hp; [|done]. intros Hk. exists [a], s'. by split_and!; [|constructor|].
  - intros (c1 & s1 & -> & H1 & (c2 & s2 & -> & H2 & Hk)%IH2)%IH1. exists (c1 ++ c2), s2.
    split_and!; [by rewrite app_assoc|by constructor|done].
  - destruct (rmatch r1 s k) as [y|] eqn:Hr1.
    + intros [= <-]. destruct (IH1 _ _ _ Hr1) as (c & s' & ? & ? & ?). exists c, s'. by split_and!; [|constructor|].
    + intros (c & s' & ? & ? & ?)%IH2. exists c, s'. by split_and!; [|apply lang_alt_r|].
  - generalize (length s) at 1. intros fuel. revert s x. induction fuel as [|fuel IHf]; intros s x; cbn [repeat_match].
    + intros Hk. exists [], s. by split_and!; [|constructor|].
    + destruct (rmatch r s _) as [y|] eqn:Hr.
      * intros [= <-]. destruct (IH _ _ _ Hr) as (c & s1 & -> & Hc & Hk).
        destruct (_ <? _)%nat; [|done]. destruct (IHf _ _ Hk) as (c2 & s2 & -> & Hc2 & Hk2).
        exists (c ++ c2), s2. by split_and!; [by rewrite app_assoc|by apply lang_star_cons|].
      * intros Hk. exists [], s. by split_and!; [|constructor|].
Qed.

(** No match where no prefix is in the language. *)
Lemma rmatch_none r s k : (forall c s', s = c ++ s' -> ~ lang r c) -> rmatch r s k = None.
Proof.
  intros Hno. destruct (rmatch r s k) as [x|] eqn:Hr; [|done].
  apply rmatch_sound in Hr as (c & s' & Hs & Hc & _). by destruct (Hno c s' Hs).
Qed.

(** ** Repetitions *)

(** One more repetition, when the body matches on to a rest from which the repetition goes on. *)
Lemma repeat_once body k s s' x fuel :
  (forall k', k' s' = Some x -> body s k' = Some x) -> (length s' < length s <= fuel)%nat ->
  (forall fuel, (length s' <= fuel)%nat -> repeat_match body k fuel s' = Some x) -> repeat_match body k fuel s = Some x.
Proof.
  intros Hb Hlt Hstar. destruct fuel as [|fuel]; [lia|]. cbn [repeat_match]. rewrite (Hb _); [done|].
  rewrite (proj2 (Nat.ltb_lt _ _)) by lia. apply Hstar. lia.
Qed.

(** No more repetition, when the body does not match. *)
Lemma repeat_end body k s fuel : (forall k', body s k' = None) -> repeat_match body k fuel s = k s.
Proof. intros Hb. destruct fuel as [|fuel]; [done|]. cbn [repeat_match]. by rewrite Hb. Qed.

(** ** Greedy repetition of characters *)

Definition stops (p : ascii -> bool) (s : list ascii) : Prop := match s with [] => True | a :: _ => p a = false end.

(** A repetition of a character takes all there are, if the rest then matches. *)
Lemma star_chars p l s k x :
  Forall (fun a => p a = true) l -> stops p s -> k s = Some x -> rmatch (Star (Chr p)) (l ++ s) k = Some x.
Proof.
  intros Hl Hs Hk. cbn [rmatch].
  assert (length (l ++ s) <= length (l ++ s))%nat as Hf by lia.
  revert Hf. generalize (length (l ++ s)) at 2 3. intros fuel. revert fuel. induction Hl as [|a l Ha Hl IH]; intros fuel Hf.
  - rewrite repeat_end; [done|]. intros k'. destruct s as [|b s]; [done|]. simpl in Hs |- *. by rewrite Hs.
  - apply (repeat_once _ _ _ (l ++ s)); [|simpl in Hf |- *; lia|done]. intros k' Hk'. simpl. by rewrite Ha.
Qed.

Lemma plus_chars p a l s k x :
  p a = true -> Forall (fun a => p a = true) l -> stops p s -> k s = Some x ->
  rmatch (Plus (Chr p)) ((a :: l) ++ s) k = Some x.
Proof. intros Ha Hl Hs Hk. unfold Plus. cbn [rmatch app]. rewrite Ha. by apply (star_chars p). Qed.

Lemma lang_star_chars p s : lang (Star (Chr p)) s -> Forall (fun a => p a = true) s.
Proof.
  remember (Star (Chr p)) as r eqn:Hr. induction 1 as [| | | | |r s1 s2 H1 _ H2 IH2]; try done. injection Hr as ->.
  apply Forall_app. split; [|by apply IH2]. inversion H1; subst. by constructor.
Qed.

Lemma lang_plus_chars p s : lang (Plus (Chr p)) s -> exists a l, s = a :: l /\ p a = true /\ Forall (fun a => p a = true) l.
Proof.
  inversion 1 as [|? ? s1 s2 H1 H2| | | |]; subst. inversion H1 as [? a Ha| | | | |]; subst.
  exists a, s2. split_and!; [done|done|by apply lang_star_chars].
Qed.

Lemma plus_chars_lang p a l : p a = true -> Forall (fun a => p a = true) l -> lang (Plus (Chr p)) (a :: l).
Proof.
  intros Ha Hl. apply (lang_cat _ _ [a] l); [by constructor|]. clear Ha. induction Hl as [|b l Hb Hl IH]; [constructor|].
  apply (lang_star_cons _ [b] l); [by constructor|done].
Qed.
