(* ===== verification/RseExpression.v ===== *)
(** * RSE expressions: [lib/rucio/core/rse_expression_parser.py]

    An expression combines the RSEs of attributes with union, intersection and complement, from
    left to right.  It is checked against a regular expression, parsed into elements and
    evaluated on the RSEs of the instance. *)

From S2P Require Import Prelude PyString PyFloat Types Database Regex RseSelector.

(** ** The syntax *)

Definition in_range (lo hi : nat) (a : ascii) : bool := bool_decide (lo <= nat_of_ascii a <= hi)%nat.
(** [[A-Za-z0-9]], [[_-]], [[A-Za-z0-9\._-]], [[=<>]] and [[A-Za-z0-9_-]] *)
Definition alnum (a : ascii) : bool := in_range 65 90 a || in_range 97 122 a || in_range 48 57 a.
Definition sep (a : ascii) : bool := bool_decide (a = "_"%char) || bool_decide (a = "-"%char).
Definition key_char (a : ascii) : bool := alnum a || bool_decide (a = "."%char) || sep a.
Definition comparison (a : ascii) : bool :=
  bool_decide (a = "="%char) || bool_decide (a = "<"%char) || bool_decide (a = ">"%char).
Definition value_char (a : ascii) : bool := alnum a || sep a.

Definition DEFAULT_RSE_ATTRIBUTE : regex := Cat (Plus (Chr alnum)) (Star (Cat (Chr sep) (Plus (Chr alnum)))).
Definition RSE_ATTRIBUTE : regex := Cat (Plus (Chr key_char)) (Cat (Chr comparison) (Plus (Chr value_char))).
Definition PRIMITIVE : regex :=
  Cat (Star (Lit "(")) (Cat (Alt RSE_ATTRIBUTE (Alt DEFAULT_RSE_ATTRIBUTE (Lit "*"))) (Star (Lit ")"))).
Definition UNION : regex := Cat (Lit "|") PRIMITIVE.
Definition INTERSECTION : regex := Cat (Lit "&") PRIMITIVE.
Definition COMPLEMENT : regex := Cat (Lit "\") PRIMITIVE.
Definition PATTERN : regex := Cat PRIMITIVE (Star (Alt UNION (Alt INTERSECTION COMPLEMENT))).

(** The check of the parentheses, at the numbers of those opened and closed so far *)
Fixpoint check_parentheses (opened closed : nat) (expression : list ascii) : result unit :=
  match expression with
  | [] => if bool_decide (opened <> closed) then Err (InvalidRSEExpression "Problem with parentheses.") else Ok tt
  | char :: expression =>
      let opened := if bool_decide (char = "("%char) then S opened else opened in
      let closed := if bool_decide (char = ")"%char) then S closed else closed in
      if (opened <? closed)%nat then Err (InvalidRSEExpression "Problem with parentheses.")
      else check_parentheses opened closed expression
  end.

Definition check_syntax (expression : list ascii) : result unit :=
  let* u := check_parentheses 0 0 expression in
  if matches_all PATTERN expression then Ok tt
  else Err (InvalidRSEExpression "Expression does not comply to RSE Expression syntax").

(** ** Elements *)

Inductive Operator := ComplementOperator | UnionOperator | IntersectOperator.

Inductive Element :=
  | RSEAll
  | RSEAttributeEqualCheck (key : string) (value : AttrValue)
  | RSEAttributeSmallerCheck (key : string) (value : string)
  | RSEAttributeLargerCheck (key : string) (value : string)
  | Operation (operator : Operator) (left_term right_term : Element).

#[export] Instance Operator_eq_dec : EqDecision Operator.
Proof. solve_decision. Defined.
#[export] Instance Element_eq_dec : EqDecision Element.
Proof. solve_decision. Defined.

(** [s.split(c)] *)
Fixpoint split_on (c : ascii) (s : list ascii) : list (list ascii) :=
  match s with
  | [] => [[]]
  | a :: s => if bool_decide (a = c) then [] :: split_on c s
              else match split_on c s with x :: l => (a :: x) :: l | [] => [[a]] end
  end.
Definition to_string (s : list ascii) : string := String.string_of_list_ascii s.
Definition part (n : nat) (c : ascii) (s : list ascii) : string := to_string (default [] (split_on c s !! n)).

(** [__resolve_primitive_expression]: the element and the text of the primitive *)
Definition resolve_primitive (expression : list ascii) : Element * list ascii :=
  let primitive := match_group PRIMITIVE expression in
  let element :=
    if bool_decide ("="%char ∈ primitive) then RSEAttributeEqualCheck (part 0 "=" primitive) (AStr (part 1 "=" primitive))
    else if bool_decide ("<"%char ∈ primitive) then RSEAttributeSmallerCheck (part 0 "<" primitive) (part 1 "<" primitive)
    else if bool_decide (">"%char ∈ primitive) then RSEAttributeLargerCheck (part 0 ">" primitive) (part 1 ">" primitive)
    else if bool_decide ("*"%char ∈ primitive) then RSEAll
    else RSEAttributeEqualCheck (to_string primitive) (ABool true) in
  (element, primitive).

(** [__extract_term]: the loop at a depth, with the text read so far *)
Fixpoint extract_loop (depth : Z) (read : list ascii) (expression : list ascii) : result (list ascii) :=
  match expression with
  | [] => Err SystemError
  | char :: expression =>
      let depth := if bool_decide (char = "("%char) then (depth + 1)%Z
                   else if bool_decide (char = ")"%char) then (depth - 1)%Z else depth in
      if bool_decide (depth = 0)%Z then Ok (drop 1 read) else extract_loop depth (read ++ [char]) expression
  end.
Definition extract_term (expression : list ascii) : result (list ascii) := extract_loop 0 [] expression.

(** A term just read becomes the left term, or the right one of the pending operator. *)
Definition place_term (left_term : option Element) (operator : option Operator) (term : option Element)
    : result (option Element * option Operator) :=
  match left_term with
  | None => Ok (term, operator)
  | Some l =>
      match operator, term with
      | Some o, Some t => Ok (Some (Operation o l t), None)
      | _, _ => Err AttributeError
      end
  end.

Definition operator_of (char : ascii) : option Operator :=
  if bool_decide (char = "\"%char) then Some ComplementOperator
  else if bool_decide (char = "&"%char) then Some IntersectOperator
  else if bool_decide (char = "|"%char) then Some UnionOperator
  else None.

(** [__resolve_term_expression]: its loop; no element is [None]. *)
Fixpoint resolve_term (fuel : nat) (left_term : option Element) (operator : option Operator) (expression : list ascii)
    : result (option Element) :=
  match fuel with
  | O => Err OutOfFuel
  | S fuel =>
      match expression with
      | [] => Ok left_term
      | char :: rest =>
          if bool_decide (char = "("%char) then
            let* inner := extract_term expression in
            let* term := resolve_term fuel None None inner in
            let* r := place_term left_term operator term in
            resolve_term fuel r.1 r.2 (drop (length inner + 2) expression)
          else match operator_of char with
          | Some o => resolve_term fuel left_term (Some o) rest
          | None =>
              let '(term, primitive) := resolve_primitive expression in
              let* r := place_term left_term operator (Some term) in
              resolve_term fuel r.1 r.2 (drop (length primitive) expression)
          end
      end
  end.

(** ** Evaluation *)

(** Every round reads a character. *)
Definition resolve_term_expression (expression : list ascii) : result (option Element) :=
  resolve_term (S (length expression)) None None expression.

(** [BooleanString.process_bind_param] of [db/sqla/types.py] *)
Definition bind_boolean_string (v : AttrValue) : AttrValue :=
  match v with
  | ABool b => ABool b
  | AStr s => if bool_decide (str_lower s = "true"%string) then ABool true
              else if bool_decide (str_lower s = "false"%string) then ABool false else AStr s
  end.

Definition name_le (a b : RSERow) : Prop := String.leb (rse_name a) (rse_name b) = true.
#[export] Instance name_le_dec : RelDecision name_le.
Proof. intros a b. unfold name_le. apply _. Defined.

Definition Elements : Type := gset string * gmap string RSERow.
Definition elements_of (output : list RSERow) : Elements := (list_to_set (rse_id <$> output), dict_of rse_id id output).

(** ** The cache *)

(** [REGION]: what was set for an expression, with the time; after 600 seconds it is no longer found. *)
Abbreviation Region := (gmap string (Z * list RSERow)).
Definition expiration_time : Z := 600.
Definition region_get (REGION : Region) (time : Z) (key : string) : option (list RSERow) :=
  match REGION !! key with
  | Some (set_at, value) => if bool_decide (expiration_time < time - set_at)%Z then None else Some value
  | None => None
  end.

Section evaluation.
(** The columns of the class of RSEs: the rows a filter on one keeps, or the exception it raises;
    [None] for a name that is no attribute of the class. *)
Variable rse_column : string -> AttrValue -> option (result (RSERow -> bool)).

Definition available (s : Session) : list RSERow := List.filter (fun r => negb (rse_deleted r)) (rses s).

(** [list_rses] of [core/rse.py], with no filter or one *)
Definition list_rses (s : Session) (filters : option (string * AttrValue)) : result (list RSERow) :=
  let* rows := match filters with
               | None => Ok (available s)
               | Some (k, v) =>
                   match rse_column k v with
                   | Some column => let* f := column in Ok (List.filter f (available s))
                   | None => Ok (List.filter (fun r => bool_decide (rse_attribute s (rse_id r) k = Some (bind_boolean_string v))) (available s))
                   end
               end in
  Ok (merge_sort name_le rows).

(** [get_rses_with_attribute] of [core/rse.py] *)
Definition get_rses_with_attribute (s : Session) (key : string) : list RSERow :=
  List.filter (fun r => bool_decide (is_Some (rse_attribute s (rse_id r) key))) (available s).

(** The RSEs whose attribute compares to the value, both as numbers; others are skipped. *)
Definition compare_attribute (compare : float -> float -> bool) (s : Session) (key value : string) : Elements :=
  elements_of (List.filter (fun r =>
    match rse_attribute s (rse_id r) key ≫= float_of_attribute, py_float value with
    | Some a, Some b => compare a b
    | _, _ => false
    end) (get_rses_with_attribute s key)).

(** [resolve_elements] of the elements *)
Fixpoint resolve_elements (s : Session) (e : Element) : result Elements :=
  match e with
  | RSEAll => mapR elements_of (list_rses s None)
  | RSEAttributeEqualCheck key value => mapR elements_of (list_rses s (Some (key, value)))
  | RSEAttributeSmallerCheck key value => Ok (compare_attribute flt s key value)
  | RSEAttributeLargerCheck key value => Ok (compare_attribute (fun a b => flt b a) s key value)
  | Operation operator left_term right_term =>
      let* l := resolve_elements s left_term in
      let* r := resolve_elements s right_term in
      let ids := match operator with
                 | ComplementOperator => l.1 ∖ r.1
                 | UnionOperator => l.1 ∪ r.1
                 | IntersectOperator => l.1 ∩ r.1
                 end in
      Ok (ids, r.2 ∪ l.2)
  end.

(** The evaluation of an expression that is not in the cache *)
Definition evaluate (s : Session) (expression : string) : result (list RSERow) :=
  let chars := String.list_ascii_of_string expression in
  let* u := check_syntax chars in
  let* element := resolve_term_expression chars in
  let* element := or_raise AttributeError element in
  let* r := resolve_elements s element in
  traverse (fun i => or_raise KeyError (r.2 !! i)) (elements r.1).

(** The filters of [parse_expression] on the RSEs of an expression *)
Definition apply_filter (filter_ : gmap string AttrValue) (result : list RSERow) : Prelude.result (list RSERow) :=
  let '(vo_result, filter_) :=
    match filter_ !! "vo"%string with
    | Some (AStr (String _ _ as vo)) => (List.filter (fun r => bool_decide (rse_vo r = vo)) result, delete "vo"%string filter_)
    | _ => (result, filter_)
    end in
  if bool_decide (vo_result = []) then Err (InvalidRSEExpression "RSE Expression resulted in an empty set.")
  else if bool_decide (filter_ = ∅) then Ok vo_result
  else
    let final := List.filter (fun r => attribute_true (filter_ !! "availability_write"%string) && rse_availability_write r) vo_result in
    if bool_decide (final = []) then Err RSEWriteBlocked else Ok final.

(** [parse_expression], with its cache of the RSEs of expressions, of any VO *)
Definition parse_cached (REGION : Region) (s : Session) (expression : string)
    (filter_ : gmap string AttrValue) : result (list RSERow) * Region :=
  match region_get REGION (now s) expression with
  | Some result => (apply_filter filter_ result, REGION)
  | None =>
      match evaluate s expression with
      | Ok result => (apply_filter filter_ result, <[expression := (now s, result)]> REGION)
      | Err e => (Err e, REGION)
      end
  end.

(** [parse_expression] with an empty cache *)
Definition parse_filtered (s : Session) (expression : string) (filter_ : gmap string AttrValue) : result (list RSERow) :=
  let* result := evaluate s expression in apply_filter filter_ result.

End evaluation.

(** No attribute of an RSE has the name of a column, but for its own. *)
Definition basic_columns (key : string) (value : AttrValue) : option (result (RSERow -> bool)) :=
  match value with
  | AStr v => if bool_decide (key = "id"%string) then Some (Ok (fun r => bool_decide (rse_id r = v)))
              else if bool_decide (key = "rse"%string) then Some (Ok (fun r => bool_decide (rse_name r = v)))
              else if bool_decide (key = "vo"%string) then Some (Ok (fun r => bool_decide (rse_vo r = v)))
              else None
  | ABool _ => None
  end.

Example demo_element : resolve_term_expression (String.list_ascii_of_string "tier=1&(country=fr|CERN-PROD)\size>5|*") =
  Ok (Some (Operation UnionOperator
    (Operation ComplementOperator
      (Operation IntersectOperator (RSEAttributeEqualCheck "tier" (AStr "1"))
         (Operation UnionOperator (RSEAttributeEqualCheck "country" (AStr "fr")) (RSEAttributeEqualCheck "CERN-PROD" (ABool true))))
      (RSEAttributeLargerCheck "size" "5")) RSEAll)).
Proof. by vm_compute. Qed.
Example demo_syntax : check_syntax (String.list_ascii_of_string "tier=1&(country=fr|CERN-PROD)\size>5|*") = Ok tt /\
  is_ok (check_syntax (String.list_ascii_of_string "(A|B")) = false /\ is_ok (check_syntax (String.list_ascii_of_string "A B")) = false.
Proof. by vm_compute. Qed.
