(* ===== verification/RseExpressionSyntax.v ===== *)
(** * The grammar of RSE expressions

    The texts the parser accepts are the expressions of a grammar, each read as one element:
    operators have no precedence and group to the left. *)

From S2P Require Import Prelude PyString PyFloat Types Database Regex RseSelector RseExpression.

Open Scope char_scope.

Abbreviation text := (list ascii).

(** ** The grammar *)

Definition compare_element (c : ascii) (key value : text) : Element :=
  if bool_decide (c = "=") then RSEAttributeEqualCheck (to_string key) (AStr (to_string value))
  else if bool_decide (c = "<") then RSEAttributeSmallerCheck (to_string key) (to_string value)
  else RSEAttributeLargerCheck (to_string key) (to_string value).

Inductive atom : text -> Element -> Prop :=
  | atom_compare key c value : lang (Plus (Chr key_char)) key -> comparison c = true -> lang (Plus (Chr value_char)) value ->
      atom (key ++ c :: value) (compare_element c key value)
  | atom_name name : lang DEFAULT_RSE_ATTRIBUTE name -> atom name (RSEAttributeEqualCheck (to_string name) (ABool true))
  | atom_all : atom ["*"] RSEAll.

Inductive expr : text -> Element -> Prop :=
  | expr_term s e : term s e -> expr s e
  | expr_op s1 l c o s2 r : expr s1 l -> operator_of c = Some o -> term s2 r -> expr (s1 ++ c :: s2) (Operation o l r)
with term : text -> Element -> Prop :=
  | term_atom s e : atom s e -> term s e
  | term_paren s e : expr s e -> term ("(" :: s ++ [")"]) e.

Scheme expr_mind := Minimality for expr Sort Prop
  with term_mind := Minimality for term Sort Prop.
Combined Scheme expr_term_ind from expr_mind, term_mind.

(** ** Characters *)

Definition atom_char (a : ascii) : bool := key_char a || comparison a || bool_decide (a = "*").

Lemma value_key a : value_char a = true -> key_char a = true.
Proof. unfold value_char, key_char. destruct (alnum a), (bool_decide (a = ".")), (sep a); done. Qed.

Lemma alnum_value a : alnum a = true -> value_char a = true.
Proof. unfold value_char. by intros ->. Qed.

Lemma sep_value a : sep a = true -> value_char a = true.
Proof. unfold value_char. intros ->. apply orb_true_r. Qed.

Lemma comparison_cases c : comparison c = true -> c = "=" \/ c = "<" \/ c = ">".
Proof. unfold comparison. rewrite !orb_true_iff, !bool_decide_eq_true. tauto. Qed.

Lemma comparison_not_key c : comparison c = true -> key_char c = false.
Proof. by intros [->|[->| ->]]%comparison_cases. Qed.

Lemma sep_not_alnum c : sep c = true -> alnum c = false.
Proof. unfold sep. rewrite orb_true_iff, !bool_decide_eq_true. by intros [->| ->]. Qed.

Lemma operator_cases c o : operator_of c = Some o ->
  (c = "\" /\ o = ComplementOperator) \/ (c = "&" /\ o = IntersectOperator) \/ (c = "|" /\ o = UnionOperator).
Proof. unfold operator_of. repeat case_bool_decide; naive_solver. Qed.

Lemma atom_char_plain a : atom_char a = true -> a <> "(" /\ a <> ")" /\ operator_of a = None.
Proof.
  intros Ha. split_and!; [by intros ->..|]. destruct (operator_of a) as [o|] eqn:Ho; [|done].
  by apply operator_cases in Ho as [[-> _]|[[-> _]|[-> _]]].
Qed.

(** The text after a term: nothing, or an operator. *)
Definition ends (s : text) : Prop := match s with [] => True | c :: _ => is_Some (operator_of c) end.

Lemma ends_stops s : ends s -> stops atom_char s /\ stops (fun b => bool_decide (")" = b)) s.
Proof.
  destruct s as [|c s]; [done|]. simpl. intros [o Ho].
  by apply operator_cases in Ho as [[-> _]|[[-> _]|[-> _]]].
Qed.

(** ** Atoms *)

Lemma default_language name : lang DEFAULT_RSE_ATTRIBUTE name ->
  exists a w tl, name = (a :: w) ++ tl /\ alnum a = true /\ Forall (fun a => alnum a = true) w /\
    lang (Star (Cat (Chr sep) (Plus (Chr alnum)))) tl.
Proof.
  inversion 1 as [|? ? s1 tl H1 H2| | | |]; subst. apply lang_plus_chars in H1 as (a & w & -> & Ha & Hw).
  by exists a, w, tl.
Qed.

Lemma segment_language s : lang (Cat (Chr sep) (Plus (Chr alnum))) s ->
  exists c a w, s = c :: a :: w /\ sep c = true /\ alnum a = true /\ Forall (fun a => alnum a = true) w.
Proof.
  inversion 1 as [|? ? s1 s2 H1 H2| | | |]; subst. inversion H1; subst.
  apply lang_plus_chars in H2 as (b & w & -> & Hb & Hw). by exists a, b, w.
Qed.

Lemma segments_chars tl : lang (Star (Cat (Chr sep) (Plus (Chr alnum)))) tl -> Forall (fun a => value_char a = true) tl.
Proof.
  remember (Star _) as r eqn:Hr. induction 1 as [| | | | |r s1 s2 H1 _ H2 IH]; try done. injection Hr as ->.
  apply Forall_app. split; [|by apply IH]. apply segment_language in H1 as (c & a & w & -> & Hc & Ha & Hw).
  constructor; [by apply sep_value|]. constructor; [by apply alnum_value|]. eapply Forall_impl; [exact Hw|]. apply alnum_value.
Qed.

Lemma default_chars name : lang DEFAULT_RSE_ATTRIBUTE name -> name <> [] /\ Forall (fun a => value_char a = true) name.
Proof.
  intros (a & w & tl & -> & Ha & Hw & Htl)%default_language. split; [done|].
  apply Forall_app. split; [|by apply segments_chars]. constructor; [by apply alnum_value|].
  eapply Forall_impl; [exact Hw|]. apply alnum_value.
Qed.

Lemma atom_chars s e : atom s e -> s <> [] /\ Forall (fun a => atom_char a = true) s.
Proof.
  assert (forall a, key_char a = true -> atom_char a = true) as Hk by (unfold atom_char; by intros a ->).
  destruct 1 as [key c value H1 Hc H2|name H|]; [| |split; [done|by constructor]].
  - apply lang_plus_chars in H1 as (a & l & -> & Ha & Hl), H2 as (b & m & -> & Hb & Hm). split; [done|].
    apply Forall_app. split; [constructor; [by apply Hk|]; by eapply Forall_impl|].
    constructor; [unfold atom_char; rewrite Hc; by rewrite orb_true_r|].
    constructor; [by apply Hk, value_key|]. eapply Forall_impl; [exact Hm|]. intros x Hx. by apply Hk, value_key.
  - apply default_chars in H as [Hn H]. split; [done|]. eapply Forall_impl; [exact H|]. intros x Hx. by apply Hk, value_key.
Qed.

(** The text of atom characters at the start of a text is within an atom there. *)
Lemma atom_prefix (a rest c s' : text) :
  a ++ rest = c ++ s' -> Forall (fun a => atom_char a = true) c -> stops atom_char rest -> exists a2, a = c ++ a2.
Proof.
  revert a. induction c as [|x c IH]; intros a Heq Hc Hs; [by exists a|].
  apply Forall_cons in Hc as [Hx Hc]. destruct a as [|y a]; simpl in Heq.
  - destruct rest as [|z rest]; [done|]. injection Heq as -> _. simpl in Hs. congruence.
  - injection Heq as -> Heq. destruct (IH a Heq Hc Hs) as [a2 ->]. by exists a2.
Qed.

Lemma rse_attribute_language s : lang RSE_ATTRIBUTE s ->
  exists key c value, s = key ++ c :: value /\ lang (Plus (Chr key_char)) key /\ comparison c = true /\ lang (Plus (Chr value_char)) value.
Proof.
  inversion 1 as [|? ? s1 s2 H1 H2| | | |]; subst. inversion H2 as [|? ? s3 s4 H3 H4| | | |]; subst.
  inversion H3; subst. by exists s1, a, s4.
Qed.

(** A text of no comparison is no attribute with a value. *)
Lemma no_comparison a rest k :
  stops atom_char rest -> Forall (fun b => comparison b = false) a -> rmatch RSE_ATTRIBUTE (a ++ rest) k = None.
Proof.
  intros Hs Ha. apply rmatch_none. intros c s' Heq Hc.
  pose proof Hc as (key & d & value & -> & Hkey & Hd & Hv)%rse_attribute_language.
  destruct (atom_prefix a rest _ s' Heq) as [a2 ->]; [|done|].
  - by apply (atom_chars _ (compare_element d key value)), atom_compare.
  - rewrite !Forall_app in Ha. destruct Ha as [[_ Ha] _]. apply Forall_cons in Ha as [Ha _]. congruence.
Qed.

Lemma value_not_comparison a : value_char a = true -> comparison a = false.
Proof. intros Ha%value_key. destruct (comparison a) eqn:Hc; [|done]. apply comparison_not_key in Hc. congruence. Qed.

Lemma stops_weaken (p q : ascii -> bool) s : (forall a, q a = true -> p a = true) -> stops p s -> stops q s.
Proof. intros Hpq. destruct s as [|c s]; [done|]. simpl. intros Hp. destruct (q c) eqn:Hq; [|done]. apply Hpq in Hq. congruence. Qed.

(** The repetition of a name takes all its segments. *)
Lemma segments_match tl rest k x :
  lang (Star (Cat (Chr sep) (Plus (Chr alnum)))) tl -> stops value_char rest -> k rest = Some x ->
  stops alnum (tl ++ rest) /\
  forall fuel, (length (tl ++ rest) <= fuel)%nat -> repeat_match (rmatch (Cat (Chr sep) (Plus (Chr alnum)))) k fuel (tl ++ rest) = Some x.
Proof.
  intros Htl Hs Hk. remember (Star _) as r eqn:Hr. induction Htl as [| | | |r0|r0 s1 s2 H1 _ H2 IH]; try done; injection Hr as ->.
  - split; [by apply (stops_weaken value_char); [apply alnum_value|]|]. intros fuel _. rewrite repeat_end; [done|]. intros k'.
    destruct rest as [|c rest]; [done|]. simpl in Hs |- *. destruct (sep c) eqn:Hc; [|done].
    apply sep_value in Hc. congruence.
  - destruct (IH eq_refl) as [Hst Hfuel]. apply segment_language in H1 as (c & a & w & -> & Hc & Ha & Hw).
    split; [by apply sep_not_alnum|]. intros fuel Hf. rewrite <-app_assoc in Hf |- *.
    apply (repeat_once _ _ _ (s2 ++ rest)); [|rewrite !length_app in Hf; rewrite !length_app; cbn [length] in *; rewrite ?length_app; lia|done].
    intros k' Hk'. cbn [rmatch app]. rewrite Hc. by apply (plus_chars alnum a w (s2 ++ rest)).
Qed.

Lemma default_match name rest k x :
  lang DEFAULT_RSE_ATTRIBUTE name -> stops value_char rest -> k rest = Some x ->
  rmatch DEFAULT_RSE_ATTRIBUTE (name ++ rest) k = Some x.
Proof.
  intros (a & w & tl & -> & Ha & Hw & Htl)%default_language Hs Hk.
  destruct (segments_match tl rest k x Htl Hs Hk) as [Hst Hfuel].
  rewrite <-app_assoc. change DEFAULT_RSE_ATTRIBUTE with (Cat (Plus (Chr alnum)) (Star (Cat (Chr sep) (Plus (Chr alnum))))).
  cbn [rmatch]. apply (plus_chars alnum); [done|done|done|]. cbn [rmatch]. by apply Hfuel.
Qed.

Definition ATOM : regex := Alt RSE_ATTRIBUTE (Alt DEFAULT_RSE_ATTRIBUTE (Lit "*")).

Lemma atom_match a e rest k x :
  atom a e -> stops atom_char rest -> k rest = Some x -> rmatch ATOM (a ++ rest) k = Some x.
Proof.
  intros Ha Hs Hk. assert (stops value_char rest) as Hsv.
  { apply (stops_weaken atom_char); [|done]. intros b Hb. unfold atom_char. by rewrite (value_key b Hb). }
  unfold ATOM. destruct Ha as [key c value H1 Hc H2|name H|].
  - apply lang_plus_chars in H1 as (b & l & -> & Hb & Hl), H2 as (d & m & -> & Hd & Hm).
    assert (rmatch RSE_ATTRIBUTE (((b :: l) ++ c :: d :: m) ++ rest) k = Some x) as Hm'; [|cbn [rmatch]; by rewrite Hm'].
    unfold RSE_ATTRIBUTE. rewrite <-app_assoc. cbn [rmatch].
    apply (plus_chars key_char b l); [done|done|by apply comparison_not_key|]. cbn [app]. rewrite Hc.
    by apply (plus_chars value_char d m rest).
  - cbn [rmatch]. rewrite no_comparison; [|done|].
    + by rewrite (default_match _ _ _ x).
    + eapply Forall_impl; [by apply default_chars|]. intros b. apply value_not_comparison.
  - cbn [rmatch]. rewrite no_comparison; [|done|by repeat constructor]. by simpl.
Qed.

(** ** Primitives and patterns *)

Abbreviation opens n := (replicate n "(").
Abbreviation closes n := (replicate n ")").

(** An atom with parentheses around, not always balanced *)
Definition prim (s : text) : Prop := exists n a e m, atom a e /\ s = opens n ++ a ++ closes m.

(** More primitives, each after an operator *)
Inductive tails : text -> Prop :=
  | tails_nil : tails []
  | tails_cons c o p tl : operator_of c = Some o -> prim p -> tails tl -> tails (c :: p ++ tl).

Definition flat (s : text) : Prop := exists p tl, prim p /\ tails tl /\ s = p ++ tl.

Lemma tails_ends tl : tails tl -> ends tl.
Proof. destruct 1; [done|]. by eexists. Qed.

Lemma Forall_lit (c : ascii) n : Forall (fun a => bool_decide (c = a) = true) (replicate n c).
Proof. apply Forall_replicate. by apply bool_decide_eq_true. Qed.

Lemma closes_stops m rest : ends rest -> stops atom_char (closes m ++ rest).
Proof. intros [Ha _]%ends_stops. by destruct m. Qed.

Lemma primitive_match p rest k x : prim p -> ends rest -> k rest = Some x -> rmatch PRIMITIVE (p ++ rest) k = Some x.
Proof.
  intros (n & a & e & m & Ha & ->) He Hk. rewrite <-!app_assoc. unfold PRIMITIVE. fold ATOM. cbn [rmatch].
  apply (star_chars _ (opens n)); [apply Forall_lit| |].
  - destruct (atom_chars a e Ha) as [Hne Hch]. destruct a as [|b a]; [done|]. apply Forall_cons in Hch as [Hb _].
    apply bool_decide_eq_false. intros <-. by vm_compute in Hb.
  - apply (atom_match a e); [done|by apply closes_stops|]. cbn [rmatch].
    apply (star_chars _ (closes m)); [apply Forall_lit|by apply ends_stops|done].
Qed.

Lemma tail_match tl : tails tl ->
  forall fuel, (length tl <= fuel)%nat ->
  repeat_match (rmatch (Alt UNION (Alt INTERSECTION COMPLEMENT))) Some fuel tl = Some [].
Proof.
  induction 1 as [|c o p tl Ho Hp Htl IH]; intros fuel Hf.
  - by rewrite repeat_end.
  - apply (repeat_once _ _ _ tl); [|cbn [length] in *; rewrite length_app in *; lia|done]. intros k' Hk'.
    pose proof (primitive_match p tl k' [] Hp (tails_ends tl Htl) Hk') as Hm.
    unfold UNION, INTERSECTION, COMPLEMENT. cbn [rmatch Lit].
    apply operator_cases in Ho as [[-> _]|[[-> _]|[-> _]]]; cbn [rmatch Lit];
      repeat (rewrite ?bool_decide_true by done; rewrite ?bool_decide_false by done; rewrite ?Hm; try done).
Qed.

Lemma flat_matches s : flat s -> matches_all PATTERN s = true.
Proof.
  intros (p & tl & Hp & Htl & ->). apply bool_decide_eq_true. unfold re_match, PATTERN. cbn [rmatch].
  apply primitive_match; [done|by apply tails_ends|]. by apply tail_match.
Qed.

(** Expressions are made of primitives. *)
Lemma prim_open p : prim p -> prim ("(" :: p).
Proof. intros (n & a & e & m & Ha & ->). by exists (S n), a, e, m. Qed.

Lemma prim_close p : prim p -> prim (p ++ [")"]).
Proof.
  intros (n & a & e & m & Ha & ->). exists n, a, e, (m + 1)%nat. split; [done|].
  by rewrite replicate_add, <-!app_assoc.
Qed.

Lemma tails_close tl : tails tl -> tl <> [] -> tails (tl ++ [")"]).
Proof.
  induction 1 as [|c o p tl Ho Hp Htl IH]; [done|]. intros _. simpl. rewrite <-app_assoc.
  destruct (decide (tl = [])) as [->|Hne].
  - simpl. rewrite <-(app_nil_r (p ++ [")"])). apply (tails_cons c o); [done|by apply prim_close|constructor].
  - apply (tails_cons c o); [done|done|by apply IH].
Qed.

Lemma tails_app tl s2 : tails tl -> tails s2 -> tails (tl ++ s2).
Proof. induction 1 as [|c o p tl Ho Hp Htl IH]; [done|]. intros Hs. simpl. rewrite <-app_assoc. apply (tails_cons c o); auto. Qed.

Lemma expr_flat : (forall s e, expr s e -> flat s) /\ (forall s e, term s e -> flat s).
Proof.
  apply expr_term_ind.
  - done.
  - intros s1 l c o s2 r _ (p1 & tl1 & Hp1 & Ht1 & ->) Ho _ (p2 & tl2 & Hp2 & Ht2 & ->).
    exists p1, (tl1 ++ c :: p2 ++ tl2). split_and!; [done| |by rewrite <-app_assoc].
    apply tails_app; [done|]. by apply (tails_cons c o).
  - intros s e Ha. exists s, []. split_and!; [|constructor|by rewrite app_nil_r]. exists 0%nat, s, e, 0%nat. split; [done|].
    simpl. by rewrite app_nil_r.
  - intros s e _ (p & tl & Hp & Ht & ->). destruct (decide (tl = [])) as [->|Hne].
    + exists ("(" :: p ++ [")"]), []. split_and!; [by apply prim_open, prim_close|constructor|]. by rewrite !app_nil_r.
    + exists ("(" :: p), (tl ++ [")"]). split_and!; [by apply prim_open|by apply tails_close|]. by rewrite <-app_assoc.
Qed.

(** Texts of the pattern are made of primitives. *)
Lemma lang_atom s : lang ATOM s -> exists e, atom s e.
Proof.
  inversion 1 as [| |? ? ? H1|? ? ? H1| |]; subst.
  - apply rse_attribute_language in H1 as (key & c & value & -> & ? & ? & ?). eexists. by apply atom_compare.
  - inversion H1 as [| |? ? ? H2|? ? ? H2| |]; subst; [eexists; by apply atom_name|].
    inversion H2 as [p a Ha| | | | |]; subst. apply bool_decide_eq_true in Ha as <-. eexists. apply atom_all.
Qed.

Lemma lang_star_lit c s : lang (Star (Lit c)) s -> s = replicate (length s) c.
Proof.
  intros Hs%lang_star_chars. induction Hs as [|a s Ha Hs IH]; [done|]. apply bool_decide_eq_true in Ha as <-.
  simpl. by f_equal.
Qed.

Lemma lang_primitive s : lang PRIMITIVE s -> prim s.
Proof.
  unfold PRIMITIVE. fold ATOM. inversion 1 as [|? ? s1 s2 H1 H2| | | |]; subst.
  inversion H2 as [|? ? s3 s4 H3 H4| | | |]; subst. apply lang_star_lit in H1. apply lang_star_lit in H4.
  apply lang_atom in H3 as [e He]. exists (length s1), s3, e, (length s4). split; [done|]. by rewrite <-H1, <-H4.
Qed.

Lemma lang_tail s : lang (Alt UNION (Alt INTERSECTION COMPLEMENT)) s -> exists c o p, s = c :: p /\ operator_of c = Some o /\ prim p.
Proof.
  assert (forall c o, operator_of c = Some o -> lang (Cat (Lit c) PRIMITIVE) s ->
            exists c o p, s = c :: p /\ operator_of c = Some o /\ prim p) as Hcat.
  { intros c o Ho. inversion 1 as [|? ? s1 s2 H1 H2| | | |]; subst. inversion H1 as [? a Ha| | | | |]; subst.
    apply bool_decide_eq_true in Ha as <-. apply lang_primitive in H2. by exists c, o, s2. }
  inversion 1 as [| |? ? ? H1|? ? ? H1| |]; subst; [by eapply (Hcat "|")|].
  inversion H1 as [| |? ? ? H2|? ? ? H2| |]; subst; [by eapply (Hcat "&")|by eapply (Hcat "\")].
Qed.

Lemma lang_tails s : lang (Star (Alt UNION (Alt INTERSECTION COMPLEMENT))) s -> tails s.
Proof.
  remember (Star _) as r eqn:Hr. induction 1 as [| | | | |r s1 s2 H1 _ H2 IH]; try done; [constructor|]. injection Hr as ->.
  apply lang_tail in H1 as (c & o & p & -> & Ho & Hp). simpl. apply (tails_cons c o); auto.
Qed.

Lemma matches_flat s : matches_all PATTERN s = true -> flat s.
Proof.
  intros Hm%bool_decide_eq_true. apply rmatch_sound in Hm as (c & s' & -> & Hc & [= ->]).
  rewrite app_nil_r. inversion Hc as [|? ? s1 s2 H1 H2| | | |]; subst.
  exists s1, s2. split_and!; [by apply lang_primitive|by apply lang_tails|done].
Qed.
