(* ===== verification/RseExpressionParser.v ===== *)
(** * Accepted RSE expressions and how they are read

    The syntax check accepts exactly the expressions of the grammar, and the parser then ends with
    the element of the expression. *)

From S2P Require Import Prelude PyString PyFloat Types Database Regex RseSelector RseExpression RseExpressionSyntax.

Open Scope char_scope.

(** ** Parentheses *)

Lemma atom_not_paren s e : atom s e -> Forall (fun a => a <> "(" /\ a <> ")" /\ operator_of a = None) s.
Proof. intros [_ Hc]%atom_chars. eapply Forall_impl; [exact Hc|]. apply atom_char_plain. Qed.

Lemma check_plain s o c rest : (c <= o)%nat ->
  Forall (fun a => a <> "(" /\ a <> ")") s -> check_parentheses o c (s ++ rest) = check_parentheses o c rest.
Proof.
  intros Hle. induction 1 as [|a s [Ho Hc] _ IH]; [done|]. cbn [app check_parentheses].
  rewrite !bool_decide_false by done. by rewrite (proj2 (Nat.ltb_ge _ _)).
Qed.

Lemma check_open o c rest : (c <= o)%nat -> check_parentheses o c ("(" :: rest) = check_parentheses (S o) c rest.
Proof.
  intros Hle. cbn [check_parentheses]. rewrite bool_decide_true, bool_decide_false by done.
  by rewrite (proj2 (Nat.ltb_ge _ _)) by lia.
Qed.

Lemma check_close o c rest : (c < o)%nat -> check_parentheses o c (")" :: rest) = check_parentheses o (S c) rest.
Proof.
  intros Hle. cbn [check_parentheses]. rewrite bool_decide_false, bool_decide_true by done.
  by rewrite (proj2 (Nat.ltb_ge _ _)) by lia.
Qed.

Lemma check_opens n o c rest : (c <= o)%nat -> check_parentheses o c (opens n ++ rest) = check_parentheses (n + o) c rest.
Proof.
  revert o. induction n as [|n IH]; intros o Hle; [done|]. cbn [replicate app]. rewrite check_open, IH by lia.
  f_equal. lia.
Qed.

Lemma check_closes m o c rest u :
  (c <= o)%nat -> check_parentheses o c (closes m ++ rest) = Ok u -> (m + c <= o)%nat /\ check_parentheses o (m + c) rest = Ok u.
Proof.
  revert c. induction m as [|m IH]; intros c Hle; [done|]. cbn [replicate app].
  destruct (decide (c < o)%nat) as [Hlt|Hge].
  - rewrite check_close by done. intros [H1 H2]%IH; [|lia]. split; [lia|]. by replace (S m + c)%nat with (m + S c)%nat by lia.
  - cbn [check_parentheses]. rewrite bool_decide_false, bool_decide_true by done.
    by rewrite (proj2 (Nat.ltb_lt _ _)) by lia.
Qed.

Lemma operator_not_paren c o : operator_of c = Some o -> c <> "(" /\ c <> ")".
Proof. by intros [[-> _]|[[-> _]|[-> _]]]%operator_cases. Qed.

Lemma check_operator d op o c rest : operator_of d = Some op -> (c <= o)%nat ->
  check_parentheses o c (d :: rest) = check_parentheses o c rest.
Proof. intros Hd Hle. apply (check_plain [d]); [done|]. constructor; [by eapply operator_not_paren|done]. Qed.

Lemma expr_check :
  (forall s e, expr s e -> exists n, forall o c rest, (c <= o)%nat -> check_parentheses o c (s ++ rest) = check_parentheses (n + o) (n + c) rest) /\
  (forall s e, term s e -> exists n, forall o c rest, (c <= o)%nat -> check_parentheses o c (s ++ rest) = check_parentheses (n + o) (n + c) rest).
Proof.
  apply expr_term_ind.
  - done.
  - intros s1 l d o s2 r _ [n1 H1] Ho _ [n2 H2]. exists (n2 + n1)%nat. intros op cl rest Hle.
    rewrite <-app_assoc, H1 by done. cbn [app].
    rewrite (check_operator d o) by (done || lia). rewrite H2 by lia. f_equal; lia.
  - intros s e Ha. exists 0%nat. intros op cl rest Hle. apply check_plain; [done|].
    eapply Forall_impl; [by eapply atom_not_paren|]. naive_solver.
  - intros s e _ [n Hn]. exists (S n). intros op cl rest Hle. cbn [app]. rewrite check_open by done.
    rewrite <-app_assoc, Hn by lia. cbn [app]. rewrite check_close by lia. f_equal; lia.
Qed.

(** ** Balanced primitives are expressions

    The terms begun and not yet closed are frames: what precedes the parenthesis in it. *)

Definition frame : Type := option (text * Element * ascii * Operator).

Definition render (f : frame) : text := match f with None => ["("] | Some (s, _, c, _) => s ++ [c; "("] end.
Definition frame_ok (f : frame) : Prop :=
  match f with None => True | Some (s, l, c, o) => expr s l /\ operator_of c = Some o end.

(** The text read at a depth: frames, the last opened first, and the expression in the last. *)
Definition reading (depth : nat) (s : text) : Prop :=
  exists (fs : list frame) cur e, length fs = depth /\ Forall frame_ok fs /\ expr cur e /\
    s = foldr (fun f acc => acc ++ render f) [] fs ++ cur.

Lemma reading_done s : reading 0 s -> exists e, expr s e.
Proof. intros (fs & cur & e & Hl & _ & He & ->). apply nil_length_inv in Hl as ->. by exists e. Qed.

Lemma reading_close d s : reading (S d) s -> reading d (s ++ [")"]).
Proof.
  intros (fs & cur & e & Hl & Hok & He & ->). destruct fs as [|f fs]; [done|]. injection Hl as Hl.
  apply Forall_cons in Hok as [Hf Hok]. simpl. destruct f as [[[[s l] c] o]|]; simpl in *.
  - destruct Hf as [Hs Hc]. exists fs, (s ++ c :: ("(" :: cur ++ [")"])), (Operation o l e). split_and!; [done|done| |].
    + apply expr_op; [done|done|by apply term_paren].
    + by rewrite <-!app_assoc.
  - exists fs, ("(" :: cur ++ [")"]), e. split_and!; [done|done|by apply expr_term, term_paren|]. by rewrite <-!app_assoc.
Qed.

Lemma reading_closes m d s : (m <= d)%nat -> reading d s -> reading (d - m) (s ++ closes m).
Proof.
  revert d s. induction m as [|m IH]; intros d s Hle Hr; [by rewrite Nat.sub_0_r, app_nil_r|].
  destruct d as [|d]; [lia|]. cbn [replicate Nat.sub]. change (")" :: closes m) with ([")"] ++ closes m).
  rewrite app_assoc. apply IH; [lia|]. by apply reading_close.
Qed.

Lemma render_opens n fs : foldr (fun f acc => acc ++ render f) [] (replicate n (None : frame) ++ fs) =
  foldr (fun f acc => acc ++ render f) [] fs ++ opens n.
Proof.
  induction n as [|n IH]; [by rewrite app_nil_r|]. cbn [replicate app foldr]. rewrite IH. cbn [render].
  rewrite <-app_assoc. f_equal. symmetry. apply replicate_cons_app.
Qed.

Lemma reading_first n a e : atom a e -> reading n (opens n ++ a).
Proof.
  intros Ha. exists (replicate n None), a, e. split_and!.
  - apply length_replicate.
  - by apply Forall_replicate.
  - by apply expr_term, term_atom.
  - rewrite <-(app_nil_r (replicate n None)), render_opens. done.
Qed.

Lemma reading_next d s n c o a e :
  reading d s -> operator_of c = Some o -> atom a e -> reading (n + d) (s ++ c :: opens n ++ a).
Proof.
  intros (fs & cur & el & Hl & Hok & He & ->) Hc Ha. destruct n as [|n].
  - exists fs, (cur ++ c :: a), (Operation o el e). split_and!; [done|done|by apply expr_op; [..|apply term_atom]|].
    by rewrite <-!app_assoc.
  - exists (replicate n None ++ Some (cur, el, c, o) :: fs), a, e. split_and!.
    + rewrite length_app, length_replicate. simpl. by rewrite <-Hl, Nat.add_succ_r.
    + apply Forall_app. split; [by apply Forall_replicate|]. by constructor.
    + by apply expr_term, term_atom.
    + rewrite render_opens. simpl. by rewrite <-!app_assoc.
Qed.

Lemma reading_tails tl o c pre u :
  tails tl -> (c <= o)%nat -> reading (o - c) pre -> check_parentheses o c tl = Ok u -> exists e, expr (pre ++ tl) e.
Proof.
  intros Htl. revert o c pre. induction Htl as [|d op p tl Hd (n & a & e & m & Ha & ->) Htl IH]; intros o c pre Hle Hr Hc.
  - cbn in Hc. case_bool_decide; [done|]. rewrite app_nil_r. apply reading_done. by replace 0%nat with (o - c)%nat by lia.
  - rewrite <-!app_assoc in Hc. rewrite (check_operator d op) in Hc by (done || lia).
    rewrite check_opens in Hc by done.
    rewrite check_plain in Hc; [|lia|eapply Forall_impl; [by eapply atom_not_paren|]; naive_solver].
    apply check_closes in Hc as [Hm Hc]; [|lia].
    replace (pre ++ d :: (opens n ++ a ++ closes m) ++ tl) with (((pre ++ d :: opens n ++ a) ++ closes m) ++ tl)
      by by rewrite <-!app_assoc; simpl; rewrite <-!app_assoc.
    apply (IH (n + o)%nat (m + c)%nat); [lia| |done].
    replace (n + o - (m + c))%nat with (n + (o - c) - m)%nat by lia.
    apply reading_closes; [lia|]. by eapply reading_next.
Qed.

Lemma balanced_flat s u : flat s -> check_parentheses 0 0 s = Ok u -> exists e, expr s e.
Proof.
  intros (p & tl & (n & a & e & m & Ha & ->) & Htl & ->) Hc. rewrite <-!app_assoc in Hc.
  rewrite check_opens in Hc by done.
  rewrite check_plain in Hc; [|lia|eapply Forall_impl; [by eapply atom_not_paren|]; naive_solver].
  apply check_closes in Hc as [Hm Hc]; [|lia]. rewrite (app_assoc (opens n) a).
  apply (reading_tails tl (n + 0) (m + 0) ((opens n ++ a) ++ closes m) u); [done|lia| |done].
  replace (n + 0 - (m + 0))%nat with (n - m)%nat by lia. apply reading_closes; [lia|by eapply reading_first].
Qed.

(** The syntax check accepts the expressions of the grammar. *)
Lemma check_syntax_grammar s : check_syntax s = Ok tt <-> exists e, expr s e.
Proof.
  unfold check_syntax. split.
  - intros ([] & Hp & Hm)%bind_Ok. destruct (matches_all PATTERN s) eqn:Hmatch; [|done].
    by eapply balanced_flat; [apply matches_flat|].
  - intros [e He]. destruct (proj1 expr_check s e He) as [n Hn]. specialize (Hn 0%nat 0%nat [] ltac:(lia)).
    rewrite app_nil_r in Hn. rewrite Hn. cbn. rewrite bool_decide_false by naive_solver. cbn.
    by rewrite flat_matches by by apply (proj1 expr_flat s e).
Qed.

(** ** Reading an expression *)

Lemma split_none c s : c ∉ s -> split_on c s = [s].
Proof.
  induction s as [|a s IH]; [done|]. intros [Ha Hs]%not_elem_of_cons. simpl. rewrite bool_decide_false by done.
  by rewrite IH.
Qed.

Lemma split_one c key value : c ∉ key -> c ∉ value -> split_on c (key ++ c :: value) = [key; value].
Proof.
  intros Hk Hv. induction key as [|a key IH]; simpl.
  - rewrite bool_decide_true by done. by rewrite split_none.
  - apply not_elem_of_cons in Hk as [Ha Hk]. rewrite bool_decide_false by done. by rewrite IH.
Qed.

Lemma not_in_chars (p : ascii -> bool) c s : p c = false -> Forall (fun a => p a = true) s -> c ∉ s.
Proof. intros Hc Hs Hin. rewrite Forall_forall in Hs. apply Hs in Hin. congruence. Qed.

Lemma plus_lang_Forall p s : lang (Plus (Chr p)) s -> Forall (fun a => p a = true) s.
Proof. intros (a & l & -> & ? & ?)%lang_plus_chars. by constructor. Qed.

(** A comparison splits at its own character, and holds no other. *)
Lemma compare_parts c key value :
  lang (Plus (Chr key_char)) key -> comparison c = true -> lang (Plus (Chr value_char)) value ->
  (forall d, comparison d = true -> d ∈ key ++ c :: value <-> d = c) /\
  part 0 c (key ++ c :: value) = to_string key /\ part 1 c (key ++ c :: value) = to_string value.
Proof.
  intros Hk%plus_lang_Forall Hc Hv%plus_lang_Forall.
  assert (forall d, comparison d = true -> d ∉ key /\ d ∉ value) as Hno.
  { intros d Hd. split; [by apply (not_in_chars key_char); [apply comparison_not_key|]|].
    apply (not_in_chars value_char); [|done]. destruct (value_char d) eqn:Hvd; [|done].
    apply value_not_comparison in Hvd. congruence. }
  split; [intros d Hd; destruct (Hno d Hd); rewrite elem_of_app, elem_of_cons; tauto|].
  destruct (Hno c Hc) as [H1 H2]. unfold part. by rewrite split_one.
Qed.

Lemma match_group_rest r a rest : re_match r (a ++ rest) = Some rest -> match_group r (a ++ rest) = a.
Proof.
  intros Hm. unfold match_group. rewrite Hm, length_app.
  replace (length a + length rest - length rest)%nat with (length a) by lia. apply take_app_length.
Qed.

Lemma resolve_atom a e rest : atom a e -> ends rest -> resolve_primitive (a ++ rest) = (e, a).
Proof.
  intros Ha He. unfold resolve_primitive.
  rewrite match_group_rest by (apply primitive_match; [exists 0%nat, a, e, 0%nat; by rewrite app_nil_r|done|done]).
  f_equal. destruct Ha as [key c value Hk Hc Hv|name Hn|]; [| |done].
  - destruct (compare_parts c key value Hk Hc Hv) as (Hin & Hp0 & Hp1). unfold compare_element.
    rewrite (bool_decide_ext _ _ (Hin "=" eq_refl)), (bool_decide_ext _ _ (Hin "<" eq_refl)), (bool_decide_ext _ _ (Hin ">" eq_refl)).
    by apply comparison_cases in Hc as [->|[->| ->]]; simpl; rewrite Hp0, Hp1.
  - apply default_chars in Hn as [_ Hn].
    rewrite !bool_decide_false by by apply (not_in_chars value_char). done.
Qed.

(** *** Parentheses around a term *)

Lemma extract_plain s depth rd rest :
  (1 <= depth)%Z -> Forall (fun a => a <> "(" /\ a <> ")") s ->
  extract_loop depth rd (s ++ rest) = extract_loop depth (rd ++ s) rest.
Proof.
  intros Hd Hs. revert rd. induction Hs as [|a s [Ho Hc] _ IH]; intros rd; [by rewrite app_nil_r|].
  cbn [app extract_loop]. rewrite (bool_decide_false (a = "(")), (bool_decide_false (a = ")")) by done.
  rewrite bool_decide_false by lia. rewrite IH. by rewrite <-app_assoc.
Qed.

Lemma extract_open depth rd rest : (0 <= depth)%Z ->
  extract_loop depth rd ("(" :: rest) = extract_loop (depth + 1) (rd ++ ["("]) rest.
Proof. intros Hd. cbn [extract_loop]. rewrite (bool_decide_true ("(" = "(")) by done. by rewrite bool_decide_false by lia. Qed.

Lemma extract_close depth rd rest :
  extract_loop (depth + 1) rd (")" :: rest) =
  if bool_decide (depth = 0)%Z then Ok (drop 1 rd) else extract_loop depth (rd ++ [")"]) rest.
Proof.
  cbn [extract_loop]. rewrite (bool_decide_false (")" = "(")), (bool_decide_true (")" = ")")) by done.
  by replace (depth + 1 - 1)%Z with depth by lia.
Qed.

Lemma expr_extract :
  (forall s e, expr s e -> forall depth rd rest, (1 <= depth)%Z -> extract_loop depth rd (s ++ rest) = extract_loop depth (rd ++ s) rest) /\
  (forall s e, term s e -> forall depth rd rest, (1 <= depth)%Z -> extract_loop depth rd (s ++ rest) = extract_loop depth (rd ++ s) rest).
Proof.
  apply expr_term_ind.
  - done.
  - intros s1 l c o s2 r _ H1 Ho _ H2 depth rd rest Hd. rewrite <-app_assoc, H1 by done. cbn [app].
    change (c :: s2 ++ rest) with ([c] ++ s2 ++ rest).
    rewrite extract_plain, H2; [by rewrite <-!app_assoc|done|done|]. constructor; [by eapply operator_not_paren|done].
  - intros s e Ha depth rd rest Hd. apply extract_plain; [done|]. eapply Forall_impl; [by eapply atom_not_paren|]. naive_solver.
  - intros s e _ H depth rd rest Hd. cbn [app]. rewrite extract_open by lia. rewrite <-app_assoc, H by lia. cbn [app].
    rewrite extract_close, bool_decide_false by lia. by rewrite <-!app_assoc.
Qed.

Lemma extract_paren s e rest : expr s e -> extract_term ("(" :: s ++ ")" :: rest) = Ok s.
Proof.
  intros He. unfold extract_term. rewrite extract_open by done.
  rewrite (proj1 expr_extract s e He) by done. rewrite extract_close. done.
Qed.

(** *** The loop *)

(** With enough fuel, the parser at a text goes on at the rest with other terms. *)
Definition goes (l : option Element) (o : option Operator) (s : text) (l' : option Element) (o' : option Operator) (rest : text) : Prop :=
  forall fuel, (length s < fuel)%nat ->
    exists fuel', (length rest < fuel')%nat /\ resolve_term fuel l o s = resolve_term fuel' l' o' rest.

Lemma goes_trans l o s l1 o1 s1 l2 o2 s2 : goes l o s l1 o1 s1 -> goes l1 o1 s1 l2 o2 s2 -> goes l o s l2 o2 s2.
Proof.
  intros H1 H2 fuel Hf. destruct (H1 fuel Hf) as (f1 & Hf1 & ->). by apply H2.
Qed.

Lemma goes_operator l o c d rest : operator_of c = Some d -> goes l o (c :: rest) l (Some d) rest.
Proof.
  intros Hc fuel Hf. destruct fuel as [|fuel]; [lia|]. exists fuel. cbn [length] in Hf. split; [lia|].
  cbn [resolve_term]. rewrite bool_decide_false by by eapply operator_not_paren. by rewrite Hc.
Qed.

Lemma goes_resolve s e : goes None None s (Some e) None [] -> forall fuel, (length s < fuel)%nat -> resolve_term fuel None None s = Ok (Some e).
Proof. intros Hg fuel Hf. destruct (Hg fuel Hf) as (f & Hf' & ->). by destruct f; [lia|]. Qed.

Lemma expr_goes :
  (forall s e, expr s e -> forall rest, ends rest -> goes None None (s ++ rest) (Some e) None rest) /\
  (forall s e, term s e -> forall rest l o l' o', ends rest -> place_term l o (Some e) = Ok (l', o') -> goes l o (s ++ rest) l' o' rest).
Proof.
  apply expr_term_ind.
  - intros s e _ H rest Hr. by apply H.
  - intros s1 l c o s2 r _ H1 Hc _ H2 rest Hr. rewrite <-app_assoc. cbn [app].
    eapply goes_trans; [apply H1; by eexists|]. eapply goes_trans; [by apply goes_operator|]. by apply H2.
  - intros a e Ha rest l o l' o' Hr Hp fuel Hf. destruct fuel as [|fuel]; [lia|].
    destruct (atom_chars a e Ha) as [Hne Hch]. destruct a as [|b a]; [done|].
    apply Forall_cons in Hch as [[Hb1 [_ Hb2]]%atom_char_plain _]. exists fuel.
    cbn [app length] in Hf. rewrite length_app in Hf. split; [lia|]. cbn [resolve_term app]. rewrite bool_decide_false by done. rewrite Hb2.
    change (b :: a ++ rest) with ((b :: a) ++ rest). rewrite (resolve_atom _ e rest Ha Hr), Hp. cbn [bindR fst snd].
    by rewrite drop_app_length.
  - intros s e Hse H rest l o l' o' Hr Hp fuel Hf. destruct fuel as [|fuel]; [lia|]. exists fuel.
    cbn [app length] in Hf |- *. rewrite <-app_assoc in Hf |- *. cbn [app] in Hf |- *. rewrite length_app in Hf. cbn [length] in Hf.
    split; [lia|]. cbn [resolve_term]. rewrite bool_decide_true by done. rewrite (extract_paren s e rest Hse). cbn [bindR].
    specialize (H [] I). rewrite app_nil_r in H. rewrite (goes_resolve s e H) by lia. cbn [bindR]. rewrite Hp. cbn [bindR fst snd].
    f_equal. replace (length s + 2)%nat with (S (length (s ++ [")"]))) by (rewrite length_app; simpl; lia). cbn [drop].
    change (")" :: rest) with ([")"] ++ rest). rewrite app_assoc. apply drop_app_length.
Qed.

Lemma resolve_expr s e : expr s e -> resolve_term_expression s = Ok (Some e).
Proof.
  intros He. apply goes_resolve; [|lia]. rewrite <-(app_nil_r s) at 1. by apply (proj1 expr_goes).
Qed.

(** A text is an expression, accepted and read as its element, or rejected. *)
Lemma expression_syntax s :
  (exists e, expr s e /\ check_syntax s = Ok tt /\ resolve_term_expression s = Ok (Some e)) \/
  (exists reason, check_syntax s = Err (InvalidRSEExpression reason) /\ ~ exists e, expr s e).
Proof.
  assert (forall s o c, check_parentheses o c s = Ok tt \/ check_parentheses o c s = Err (InvalidRSEExpression "Problem with parentheses."))
    as Hp.
  { intros l. induction l as [|a l IH]; intros o c; cbn [check_parentheses]; [case_bool_decide; auto|]. case_match; [by right|apply IH]. }
  destruct (check_syntax s) as [[]|x] eqn:Hs.
  - left. apply check_syntax_grammar in Hs as [e He]. exists e. split_and!; [done|done|by apply resolve_expr].
  - right. assert (exists reason, x = InvalidRSEExpression reason) as [reason ->].
    { unfold check_syntax in Hs. destruct (Hp s 0%nat 0%nat) as [E|E]; rewrite E in Hs; cbn [bindR] in Hs.
      - destruct (matches_all PATTERN s); [done|]. injection Hs as <-. by eexists.
      - injection Hs as <-. by eexists. }
    exists reason. split; [done|]. intros He%check_syntax_grammar. congruence.
Qed.

(** C33: the syntax check and the parser agree with the grammar: an expression is accepted exactly
    when the grammar derives it, and then the parser ends (each round reads a character, so the
    fuel is never short) with the one element the grammar gives it. *)
Theorem expression_grammar (expression : string) :
  let chars := String.list_ascii_of_string expression in
  (check_syntax chars = Ok tt <-> exists e, expr chars e) /\
  (forall e, expr chars e <-> check_syntax chars = Ok tt /\ resolve_term_expression chars = Ok (Some e)) /\
  (check_syntax chars <> Ok tt -> exists reason, check_syntax chars = Err (InvalidRSEExpression reason)).
Proof.
  intros chars. pose proof (check_syntax_grammar chars) as Hg. split; [exact Hg|]. split.
  - intros e. split.
    + intros He. split; [apply Hg; by exists e|by apply resolve_expr].
    + intros [[e' He']%Hg Hr]. rewrite (resolve_expr _ _ He') in Hr. by injection Hr as ->.
  - destruct (expression_syntax chars) as [(e & _ & -> & _)|(reason & -> & _)]; [done|by exists reason].
Qed.
