(* ===== verification/RseExpressionFacts.v ===== *)
(** * What an RSE expression denotes

    The RSEs of an expression are those that satisfy it, the filters and the cache of
    [parse_expression], and the promises the rest of the core relies on. *)

From S2P Require Import Prelude PyString PyFloat Types Database Regex RseSelector RseSelectorFacts RseExpression RseExpressionSyntax RseExpressionParser.

Section semantics.
Variable rse_column : string -> AttrValue -> option (result (RSERow -> bool)).

(** Whether an RSE satisfies an element. *)
Fixpoint satisfies (s : Session) (e : Element) (r : RSERow) : bool :=
  let attribute key := rse_attribute s (rse_id r) key in
  let compared compare key value :=
    match attribute key ≫= float_of_attribute, py_float value with Some a, Some b => compare a b | _, _ => false end in
  match e with
  | RSEAll => true
  | RSEAttributeEqualCheck key value =>
      match rse_column key value with
      | Some (Ok f) => f r
      | Some (Err _) => false
      | None => bool_decide (attribute key = Some (bind_boolean_string value))
      end
  | RSEAttributeSmallerCheck key value => compared flt key value
  | RSEAttributeLargerCheck key value => compared (fun a b => flt b a) key value
  | Operation ComplementOperator l r' => satisfies s l r && negb (satisfies s r' r)
  | Operation UnionOperator l r' => satisfies s l r || satisfies s r' r
  | Operation IntersectOperator l r' => satisfies s l r && satisfies s r' r
  end.

Lemma available_inj s a b :
  NoDup (rse_id <$> rses s) -> a ∈ available s -> b ∈ available s -> rse_id a = rse_id b -> a = b.
Proof.
  intros Hnd [Ha _]%elem_of_filter_bool [Hb _]%elem_of_filter_bool Hid.
  apply list_elem_of_lookup in Ha as [i Hi], Hb as [j Hj].
  assert (i = j) as ->; [|congruence]. eapply (NoDup_lookup _ _ _ (rse_id a) Hnd); rewrite list_lookup_fmap.
  - by rewrite Hi.
  - by rewrite Hj, Hid.
Qed.

(** The ids and rows an element resolves to, when the RSEs have different ids. *)
Definition resolved (s : Session) (p : RSERow -> bool) (x : Elements) : Prop :=
  (forall i, i ∈ x.1 <-> exists r, r ∈ available s /\ rse_id r = i /\ p r = true) /\
  (forall i, i ∈ x.1 -> is_Some (x.2 !! i)) /\
  (forall i r, x.2 !! i = Some r -> r ∈ available s /\ rse_id r = i).

Lemma elements_of_resolved s (p : RSERow -> bool) l :
  (forall r, r ∈ l <-> r ∈ available s /\ p r = true) -> resolved s p (elements_of l).
Proof.
  intros Hl. unfold elements_of. split_and!; simpl.
  - intros i. rewrite elem_of_list_to_set, list_elem_of_fmap. split.
    + intros (r & -> & [Hr Hp]%Hl). by exists r.
    + intros (r & Hr & <- & Hp). exists r. split; [done|]. by apply Hl.
  - intros i. rewrite elem_of_list_to_set. apply dict_of_elem.
  - intros i r (x & [Hx _]%Hl & <- & <-)%dict_of_Some. done.
Qed.

Lemma compare_resolved compare s key value :
  resolved s (fun r => match rse_attribute s (rse_id r) key ≫= float_of_attribute, py_float value with
                       | Some a, Some b => compare a b | _, _ => false end) (compare_attribute compare s key value).
Proof.
  apply elements_of_resolved. intros r. unfold get_rses_with_attribute. rewrite !elem_of_filter_bool, bool_decide_eq_true.
  split; [tauto|]. intros [Hr Hp]. split_and!; [done| |done].
  destruct (rse_attribute s (rse_id r) key); [by eexists|done].
Qed.

Lemma list_rses_elem s filters l r :
  list_rses rse_column s filters = Ok l ->
  r ∈ l <-> r ∈ available s /\ match filters with Some (k, v) => satisfies s (RSEAttributeEqualCheck k v) r = true | None => True end.
Proof.
  intros (rows & Hrows & [= <-])%bind_Ok. rewrite merge_sort_Permutation. destruct filters as [[k v]|].
  - simpl. destruct (rse_column k v) as [[f|e]|]; simpl in Hrows; [| done|]; injection Hrows as <-; by rewrite elem_of_filter_bool.
  - injection Hrows as <-. tauto.
Qed.

(** [resolve_elements] gives the RSEs that satisfy the element, or the exception of a column. *)
Lemma resolve_elements_ok s e :
  NoDup (rse_id <$> rses s) ->
  match resolve_elements rse_column s e with
  | Ok x => resolved s (satisfies s e) x
  | Err x => exists k v, rse_column k v = Some (Err x)
  end.
Proof.
  intros Hnd. induction e as [|k v|k v|k v|o l IHl r IHr]; cbn [resolve_elements].
  - destruct (list_rses _ s None) as [out|x] eqn:Hout; simpl; [|done]. apply elements_of_resolved.
    intros row. rewrite (list_rses_elem _ _ _ _ Hout). naive_solver.
  - destruct (list_rses _ s (Some (k, v))) as [out|x] eqn:Hout; cbn [mapR].
    + apply elements_of_resolved. intros row. by rewrite (list_rses_elem _ _ _ _ Hout).
    + exists k, v. unfold list_rses in Hout. destruct (rse_column k v) as [[f|y]|]; [done| |done]. by injection Hout as ->.
  - apply compare_resolved.
  - apply compare_resolved.
  - destruct (resolve_elements _ s l) as [xl|x]; cbn [bindR]; [|done].
    destruct (resolve_elements _ s r) as [xr|x]; cbn [bindR]; [|done].
    destruct IHl as (L1 & L2 & L3), IHr as (R1 & R2 & R3).
    assert (forall a b, a ∈ available s -> b ∈ available s -> rse_id a = rse_id b -> a = b) as Hinj by (intros; by apply (available_inj s)).
    split_and!; cbn [fst snd].
    + intros i. destruct o; cbn [satisfies]; rewrite ?elem_of_difference, ?elem_of_union, ?elem_of_intersection, L1, R1;
        setoid_rewrite andb_true_iff || setoid_rewrite orb_true_iff.
      * split.
        -- intros [(a & Ha & <- & Hp) Hno]. exists a. split_and!; [done|done|done|]. apply negb_true_iff.
           destruct (satisfies s r a) eqn:Hs; [|done]. destruct Hno. by exists a.
        -- intros (a & Ha & <- & Hp & Hn%negb_true_iff). split; [by exists a|]. intros (b & Hb & Hid & Hpb).
           rewrite (Hinj b a Hb Ha Hid) in Hpb. congruence.
      * naive_solver.
      * split; [|naive_solver]. intros [(a & Ha & <- & Hp) (b & Hb & Hid & Hpb)].
        rewrite (Hinj b a Hb Ha Hid) in Hpb. by exists a.
    + intros i Hi. rewrite lookup_union_is_Some. destruct o;
        rewrite ?elem_of_difference, ?elem_of_union, ?elem_of_intersection in Hi; naive_solver.
    + intros i a. rewrite lookup_union_Some_raw. naive_solver.
Qed.

(** The dictionary of the rows has every id. *)
Lemma rows_of_ids s p x :
  NoDup (rse_id <$> rses s) -> resolved s p x ->
  exists l, traverse (fun i => or_raise KeyError (x.2 !! i)) (elements x.1) = Ok l /\ forall r, r ∈ l <-> r ∈ available s /\ p r = true.
Proof.
  intros Hnd (H1 & H2 & H3).
  assert (exists l, Forall2 (fun i r => x.2 !! i = Some r) (elements x.1) l) as [l Hl].
  { assert (Forall (fun i => is_Some (x.2 !! i)) (elements x.1)) as Hall.
    { apply Forall_forall. intros i Hi. by apply H2, elem_of_elements. }
    clear -Hall. induction Hall as [|i l [r Hr] _ [l' IH]]; [exists []; constructor|]. exists (r :: l'). by constructor. }
  exists l. split.
  - apply traverse_Ok. eapply Forall2_impl; [exact Hl|]. intros i r Hr. by rewrite Hr.
  - intros r. split.
    + intros [n Hn]%list_elem_of_lookup. destruct (Forall2_lookup_r _ _ _ _ _ Hl Hn) as (i & Hi & Hr).
      assert (i ∈ x.1) as Hix by (apply elem_of_elements; by eapply list_elem_of_lookup_2).
      apply H3 in Hr as [Hr <-]. split; [done|]. apply H1 in Hix as (a & Ha & Hid & Hp).
      by rewrite <-(available_inj s a r).
    + intros [Hr Hp]. assert (rse_id r ∈ x.1) as Hi by (apply H1; by exists r).
      apply elem_of_elements, list_elem_of_lookup in Hi as [n Hn].
      destruct (Forall2_lookup_l _ _ _ _ _ Hl Hn) as (a & Ha & Hxa). apply H3 in Hxa as [Haa Hid].
      rewrite <-(available_inj s a r); [|done..]. by eapply list_elem_of_lookup_2.
Qed.

Lemma expr_unique chars e e' : expr chars e -> expr chars e' -> e = e'.
Proof. intros H1%resolve_expr H2%resolve_expr. congruence. Qed.

Lemma evaluate_spec (s : Session) (expression : string) :
  NoDup (rse_id <$> rses s) ->
  let chars := String.list_ascii_of_string expression in
  (exists l, evaluate rse_column s expression = Ok l /\ exists e, expr chars e /\
     forall r, r ∈ l <-> r ∈ rses s /\ rse_deleted r = false /\ satisfies s e r = true) \/
  (exists x, evaluate rse_column s expression = Err x /\ exists k v, rse_column k v = Some (Err x)) \/
  (exists reason, evaluate rse_column s expression = Err (InvalidRSEExpression reason) /\ ~ exists e, expr chars e).
Proof.
  intros Hnd chars. unfold evaluate. fold chars.
  destruct (expression_syntax chars) as [(e & He & Hs & Hr)|(reason & Hs & Hno)];
    [|rewrite Hs; right; right; by exists reason].
  rewrite Hs. run. rewrite Hr. run. pose proof (resolve_elements_ok s e Hnd) as Hel.
  destruct (resolve_elements rse_column s e) as [x|x]; run; [|right; left; by exists x].
  destruct (rows_of_ids s (satisfies s e) x Hnd Hel) as (l & -> & Hl). left. exists l. split; [done|].
  exists e. split; [done|]. intros r. rewrite Hl. unfold available. rewrite elem_of_filter_bool, negb_true_iff. tauto.
Qed.

(** Evaluating an expression never fails but for its syntax or a column: it gives the RSEs not
    deleted that satisfy the element the grammar reads it as, where the operators are the Boolean
    ones, grouped from left to right. *)
Theorem evaluate_denotation (s : Session) (expression : string) :
  NoDup (rse_id <$> rses s) ->
  let chars := String.list_ascii_of_string expression in
  match evaluate rse_column s expression with
  | Ok l => exists e, expr chars e /\ forall r, r ∈ l <-> r ∈ rses s /\ rse_deleted r = false /\ satisfies s e r = true
  | Err x => (exists reason, x = InvalidRSEExpression reason /\ ~ exists e, expr chars e) \/
             (exists k v, rse_column k v = Some (Err x))
  end.
Proof.
  intros Hnd chars. destruct (evaluate_spec s expression Hnd) as [(l & -> & e & He)|[(x & -> & Hx)|(reason & -> & Hno)]];
    [by exists e|by right|left; by exists reason].
Qed.

(** ** Filters and cache *)

(** The filters the core uses: a VO, and RSEs available for writing. *)
Definition filters (vo : option string) (write : bool) : gmap string AttrValue :=
  (if write then <["availability_write"%string := ABool true]> else id)
    (match vo with Some v => {[ "vo"%string := AStr v ]} | None => ∅ end).

Definition in_vo (vo : option string) (r : RSERow) : bool := match vo with Some v => bool_decide (rse_vo r = v) | None => true end.

Lemma apply_filter_cases vo write l :
  vo <> Some EmptyString ->
  let in_vo_rows := List.filter (in_vo vo) l in
  apply_filter (filters vo write) l =
  if bool_decide (in_vo_rows = []) then Err (InvalidRSEExpression "RSE Expression resulted in an empty set.")
  else if write then
    let final := List.filter rse_availability_write in_vo_rows in
    if bool_decide (final = []) then Err RSEWriteBlocked else Ok final
  else Ok in_vo_rows.
Proof.
  intros Hvo. unfold apply_filter, filters. destruct vo as [[|a v]|]; [done| |].
  - assert ((if write then <["availability_write"%string := ABool true]> else id) {[ "vo"%string := AStr (String a v) ]} !! "vo"%string
            = Some (AStr (String a v))) as -> by by destruct write.
    cbn [in_vo]. destruct (bool_decide (_ = [])); [done|]. destruct write; [|done].
    assert (delete "vo"%string (<["availability_write"%string := ABool true]> {[ "vo"%string := AStr (String a v) ]} : gmap string AttrValue)
            = {[ "availability_write"%string := ABool true ]}) as -> by by vm_compute.
    done.
  - assert (((if write then <["availability_write"%string := ABool true]> else id) ∅ : gmap string AttrValue) !! "vo"%string = None)
      as -> by by destruct write.
    rewrite (filter_all (in_vo None)) by done.
    by destruct (bool_decide (l = [])), write.
Qed.

(** ** The cache over many calls *)

(** A call of [parse_expression], and what calls return one after the other *)
Record Call := MkCall { call_session : Session; call_expression : string; call_vo : option string; call_write : bool }.
Definition call (c : Call) (REGION : Region) : result (list RSERow) * Region :=
  parse_cached rse_column REGION (call_session c) (call_expression c) (filters (call_vo c) (call_write c)).
Fixpoint parse_calls (REGION : Region) (calls : list Call) : list (result (list RSERow)) :=
  match calls with
  | [] => []
  | c :: calls => (call c REGION).1 :: parse_calls (call c REGION).2 calls
  end.

(** The cache holds evaluations of calls of the past. *)
Definition region_of (past : list Call) (REGION : Region) : Prop :=
  forall expression time l, REGION !! expression = Some (time, l) ->
  exists c, c ∈ past /\ call_expression c = expression /\ now (call_session c) = time /\ evaluate rse_column (call_session c) expression = Ok l.

(** A call answers as one of the past, or itself, of the same expression would have with an empty cache. *)
Definition answered_by (past : list Call) (c c' : Call) (answer : result (list RSERow)) : Prop :=
  c' ∈ past /\ call_expression c' = call_expression c /\
  (now (call_session c) - now (call_session c') <= expiration_time)%Z /\
  answer = parse_filtered rse_column (call_session c') (call_expression c) (filters (call_vo c) (call_write c)).

Lemma call_spec past REGION c :
  region_of past REGION ->
  (exists c', answered_by (past ++ [c]) c c' (call c REGION).1) /\ region_of (past ++ [c]) (call c REGION).2.
Proof.
  intros Hok. assert (region_of (past ++ [c]) REGION) as Hok'.
  { intros x time l (c' & Hc' & Hrest)%Hok. exists c'. rewrite elem_of_app. tauto. }
  assert (c ∈ (past ++ [c])%list) as Hc by (apply elem_of_app; right; apply list_elem_of_here).
  unfold call, parse_cached, region_get, answered_by, parse_filtered.
  destruct (REGION !! call_expression c) as [[time l]|] eqn:Hl; [destruct (bool_decide_reflect (expiration_time < now (call_session c) - time)%Z) as [Ho|Hy]|].
  2: { split; [|done]. apply Hok' in Hl as (c' & Hin & He & <- & Hl). exists c'. rewrite Hl. split_and!; [done|done|lia|done]. }
  all: destruct (evaluate rse_column (call_session c) (call_expression c)) as [l'|x] eqn:He; cbn [fst snd];
    (split; [exists c; rewrite He; split_and!; [done|done|rewrite Z.sub_diag; by apply Z.leb_le|done]|]); [|done].
  all: intros x t l0 [(<- & [= <- <-])|(_ & Hx)]%lookup_insert_Some; [by exists c|by apply Hok' in Hx].
Qed.

Lemma parse_calls_spec past REGION calls n c answer :
  region_of past REGION -> calls !! n = Some c -> parse_calls REGION calls !! n = Some answer ->
  exists c', answered_by (past ++ take (S n) calls) c c' answer.
Proof.
  revert past REGION n. induction calls as [|c0 calls IH]; intros past REGION n Hok Hc Ha; [done|].
  destruct (call_spec past REGION c0 Hok) as [H1 H2]. destruct n as [|n]; cbn in Hc, Ha.
  - injection Hc as ->. injection Ha as <-. cbn [take]. by rewrite take_0.
  - destruct (IH _ _ _ H2 Hc Ha) as (c' & Hc'). exists c'. by rewrite <-app_assoc in Hc'.
Qed.

(** What [parse_expression] says of the tables of a session *)
Definition right_answer (s : Session) (expression : string) (vo : option string) (write : bool) (answer : result (list RSERow)) : Prop :=
  match answer with
  | Ok l => l <> [] /\ exists e, expr (String.list_ascii_of_string expression) e /\
      forall r, r ∈ l <-> (r ∈ rses s /\ rse_deleted r = false /\ satisfies s e r = true /\ in_vo vo r = true /\
                           (write = true -> rse_availability_write r = true))
  | Err RSEWriteBlocked => (exists k v, rse_column k v = Some (Err RSEWriteBlocked)) \/ (write = true /\
      exists e, expr (String.list_ascii_of_string expression) e /\
      forall r, r ∈ rses s -> rse_deleted r = false -> satisfies s e r = true -> in_vo vo r = true -> rse_availability_write r = false)
  | Err (InvalidRSEExpression _ as x) => (exists k v, rse_column k v = Some (Err x)) \/
      forall e, expr (String.list_ascii_of_string expression) e ->
      forall r, r ∈ rses s -> rse_deleted r = false -> satisfies s e r = true -> in_vo vo r = false
  | Err x => exists k v, rse_column k v = Some (Err x)
  end.

Lemma filters_exact s expression vo write :
  NoDup (rse_id <$> rses s) -> vo <> Some EmptyString -> right_answer s expression vo write (parse_filtered rse_column s expression (filters vo write)).
Proof.
  intros Hnd Hvo. unfold right_answer, parse_filtered.
  destruct (evaluate_spec s expression Hnd) as [(l & -> & e & He & Hl)|[(x & -> & Hx)|(reason & -> & Hno)]].
  - run. rewrite apply_filter_cases by done. set (rows := List.filter _ l).
    assert (forall r, r ∈ rows <-> r ∈ rses s /\ rse_deleted r = false /\ satisfies s e r = true /\ in_vo vo r = true) as Hrows.
    { intros r. unfold rows. rewrite elem_of_filter_bool, Hl. tauto. }
    case_bool_decide as Hempty.
    + right. intros e' He' r Hr Hdel Hs. apply not_true_iff_false. intros Hv. rewrite (expr_unique _ e' e He' He) in Hs.
      assert (r ∈ rows) as Hin by (apply Hrows; done). rewrite Hempty in Hin. by apply not_elem_of_nil in Hin.
    + destruct write.
      * cbn zeta. case_bool_decide as Hfinal.
        -- right. split; [done|]. exists e. split; [done|]. intros r Hr Hdel Hs Hv.
           assert (r ∈ rows) as Hin by (apply Hrows; done). destruct (rse_availability_write r) eqn:Hw; [|done].
           assert (r ∈ List.filter rse_availability_write rows) as Hf by by apply elem_of_filter_bool.
           rewrite Hfinal in Hf. by apply not_elem_of_nil in Hf.
        -- split; [done|]. exists e. split; [done|]. intros r. rewrite elem_of_filter_bool, Hrows. naive_solver.
      * split; [done|]. exists e. split; [done|]. intros r. rewrite Hrows. naive_solver.
  - run. destruct x; by try left.
  - run. right. intros e He. destruct Hno. by exists e.
Qed.

(** ** What the core relies on *)

Lemma resolve_elements_roles s t e :
  resolve_elements rse_column (set_role_tables s t) e = resolve_elements rse_column s e.
Proof. induction e as [| | | |o l IHl r IHr]; [done..|]. cbn [resolve_elements]. by rewrite IHl, IHr. Qed.

Lemma evaluate_roles s t expression : evaluate rse_column (set_role_tables s t) expression = evaluate rse_column s expression.
Proof.
  unfold evaluate. destruct (check_syntax (String.list_ascii_of_string expression)); [|done]. run.
  destruct (resolve_term_expression (String.list_ascii_of_string expression)) as [[e|]|]; run; [|done..].
  by rewrite resolve_elements_roles.
Qed.

Lemma evaluate_subset s expression l : evaluate rse_column s expression = Ok l -> l ⊆ rses s.
Proof.
  unfold evaluate. intros (u & _ & (el & _ & (e & _ & (x & Hx & Hl)%bind_Ok)%bind_Ok)%bind_Ok)%bind_Ok.
  assert (forall i r, x.2 !! i = Some r -> r ∈ available s) as Hdict.
  { clear -Hx. revert x Hx. induction e as [|k v|k v|k v|o l IHl r IHr]; cbn [resolve_elements]; intros x Hx.
    1, 2: apply map_Ok in Hx as (out & Hout & <-); intros i r (y & Hy & _ & <-)%dict_of_Some;
          by apply (list_rses_elem _ _ _ _ Hout) in Hy as [Hy _].
    1, 2: injection Hx as <-; intros i r (y & Hy & _ & <-)%dict_of_Some; unfold get_rses_with_attribute in Hy;
          by do 2 apply elem_of_filter_bool in Hy as [Hy _].
    apply bind_Ok in Hx as (xl & Hxl & (xr & Hxr & [= <-])%bind_Ok). intros i a. cbn [snd].
    rewrite lookup_union_Some_raw. intros [Ha|[_ Ha]]; [by eapply IHr|by eapply IHl]. }
  apply traverse_Ok in Hl. intros r [n Hn]%list_elem_of_lookup. destruct (Forall2_lookup_r _ _ _ _ _ Hl Hn) as (i & _ & Hr).
  apply or_raise_Ok, Hdict, elem_of_filter_bool in Hr. tauto.
Qed.

Lemma filtered_vo s expression vo l :
  parse_filtered rse_column s expression (filters vo false) = Ok l ->
  l <> [] /\ exists l0, evaluate rse_column s expression = Ok l0 /\ l ⊆ l0 /\
    match vo with Some v => Forall (fun r => rse_vo r = v) l | None => True end.
Proof.
  intros (l0 & Hl0 & Hf)%bind_Ok. destruct vo as [[|a v]|].
  - exfalso. unfold apply_filter, filters in Hf. cbn [id] in Hf. rewrite lookup_singleton_eq in Hf.
    destruct (bool_decide (l0 = [])); [done|]. rewrite bool_decide_false in Hf by by intros Hm%map_non_empty_singleton.
    rewrite lookup_singleton_ne in Hf by done. cbn in Hf.
    assert (List.filter (fun r : RSERow => false) l0 = []) as Hno by (clear; by induction l0).
    rewrite Hno in Hf. done.
  - rewrite apply_filter_cases in Hf by done. case_bool_decide as He; [done|]. injection Hf as <-. split; [done|].
    exists l0. split_and!; [done|intros r; rewrite elem_of_filter_bool; tauto|]. apply Forall_forall. intros r [_ Hr]%elem_of_filter_bool.
    by apply bool_decide_eq_true in Hr.
  - rewrite apply_filter_cases in Hf by done. case_bool_decide as He; [done|]. injection Hf as <-. split; [done|].
    exists l0. split_and!; [done|intros r; rewrite elem_of_filter_bool; tauto|done].
Qed.

(** The parser with an empty cache keeps the promises of [RSEExpressions]. *)
Definition parsed_expressions : RSEExpressions.
Proof.
  refine {| parse_expression s e v := parse_filtered rse_column s e (filters v false) |}.
  - intros s e v l Hl. by apply filtered_vo in Hl as [? _].
  - intros s e v l Hl. apply filtered_vo in Hl as (_ & l0 & Hl0 & Hsub & _). apply evaluate_subset in Hl0. by trans l0.
  - intros s e v l Hl. by apply filtered_vo in Hl as (_ & l0 & _ & _ & Hv).
  - intros s t e v. unfold parse_filtered. by rewrite evaluate_roles.
Defined.

(** C34: Whatever was parsed before, each call of [parse_expression] answers as the tables say of a session of this or of an earlier
    call of the same expression, no more than 600 seconds ago: it returns
    the RSEs not deleted that satisfy the expression, in the VO and available for writing if asked
    for; it raises [InvalidRSEExpression] for a wrong syntax or when there are none, and
    [RSEWriteBlocked] when none is available for writing.  Without a call of the expression in the last 600
    seconds, this is the current session.  The ids of RSEs are a key, and the VO asked for is not empty; the
    attributes are those of the table, as they are when [get_rse_attribute] finds none in its own cache. *)
Theorem parse_expression_exact (calls : list Call) (n : nat) (c : Call) (answer : result (list RSERow)) :
  (forall c', c' ∈ calls -> NoDup (rse_id <$> rses (call_session c'))) -> call_vo c <> Some EmptyString ->
  calls !! n = Some c -> parse_calls ∅ calls !! n = Some answer ->
  exists c', c' ∈ take (S n) calls /\ call_expression c' = call_expression c /\
    (now (call_session c) - now (call_session c') <= expiration_time)%Z /\
    right_answer (call_session c') (call_expression c) (call_vo c) (call_write c) answer.
Proof.
  intros Hnd Hvo Hc Ha. destruct (parse_calls_spec [] ∅ calls n c answer) as (c' & Hin & He & Hage & ->); [|done..|].
  { intros x t l Hx. by rewrite lookup_empty in Hx. }
  exists c'. split_and!; [done..|]. apply filters_exact; [|done]. apply Hnd. apply elem_of_take in Hin as (i & Hi & _). by eapply list_elem_of_lookup_2.
Qed.

End semantics.

(** ** Examples *)

Open Scope string_scope.

Definition demo_expression : string := "freespace>3|(rse=A\bad)".

Example demo_parse :
  mapR (fmap rse_name) (parse_filtered basic_columns demo_quota_session demo_expression (filters (Some "def") true)) = Ok ["A"; "B"] \/
  mapR (fmap rse_name) (parse_filtered basic_columns demo_quota_session demo_expression (filters (Some "def") true)) = Ok ["B"; "A"].
Proof. vm_compute. by left + by right. Qed.

(** The parser under the RSE selector *)
Example demo_resolve_parsed :
  resolve_rse_expression (H := parsed_expressions basic_columns) (H0 := low_draws) demo_quota_session demo_quotas 0
    "(*\bad<0)&freespace>1" demo_account None 2 false 30 ["B"; "C"] [] true ∅ = Ok (["B"; "A"], {[ "C" ]}).
Proof. by vm_compute. Qed.

(** A filter on anything but the availability for writing keeps no RSE. *)
Theorem other_filters_block l :
  l <> [] -> apply_filter {[ "availability_read" := ABool true ]} l = Err RSEWriteBlocked /\
             apply_filter {[ "availability_write" := ABool false ]} l = Err RSEWriteBlocked.
Proof.
  intros Hl. assert (forall f, (forall r : RSERow, f r = false) -> List.filter f l = []) as Hno.
  { intros f Hf. clear Hl. induction l as [|r l' IH]; [done|]. simpl. by rewrite Hf. }
  unfold apply_filter. rewrite !lookup_singleton_ne by done. rewrite !(bool_decide_false (l = [])) by done.
  rewrite !bool_decide_false by by intros Hm%map_non_empty_singleton.
  split; (rewrite Hno; [done|]); intros r; by vm_compute.
Qed.

Lemma evaluate_denotation_witness :
  match evaluate basic_columns demo_quota_session demo_expression with
  | Ok l => exists e, expr (String.list_ascii_of_string demo_expression) e /\
      forall r, r ∈ l <-> r ∈ rses demo_quota_session /\ rse_deleted r = false /\ satisfies basic_columns demo_quota_session e r = true
  | Err x => (exists reason, x = InvalidRSEExpression reason /\ ~ exists e, expr (String.list_ascii_of_string demo_expression) e) \/
             (exists k v, basic_columns k v = Some (Err x))
  end.
Proof. apply (evaluate_denotation basic_columns demo_quota_session demo_expression). apply (bool_decide_unpack _). by vm_compute. Defined.

(** "A" is deleted in between: after ten minutes it is still returned, a second later it is not. *)
Definition demo_later (time : Z) : Session :=
  let s := demo_quota_session in
  {| now := time; rbac_enabled := rbac_enabled s; SCOPE_LENGTH := SCOPE_LENGTH s; NAME_LENGTH := NAME_LENGTH s; role_tables := role_tables s;
     accounts := accounts s; account_attrs := account_attrs s; scopes := scopes s; dids := dids s; rules := rules s; replicas := replicas s;
     locks := locks s; identities := identities s; exceptions := exceptions s;
     rses := [RSE "1" "A" "def" RT_DISK false true true true; RSE "2" "B" "def" RT_DISK true true false true]; rse_attrs := rse_attrs s |}.
Definition demo_calls : list Call :=
  (fun s => MkCall s "(rse=A|rse=B)" (Some "def") true) <$> [demo_quota_session; demo_later 600; demo_later 601].

Lemma parse_expression_exact_witness :
  (mapR length <$> parse_calls basic_columns ∅ demo_calls) = [Ok 2; Ok 2; Ok 1] /\
  exists c answer, demo_calls !! 1 = Some c /\ parse_calls basic_columns ∅ demo_calls !! 1 = Some answer /\
  exists c', c' ∈ take 2 demo_calls /\ call_expression c' = call_expression c /\
    (now (call_session c) - now (call_session c') <= expiration_time)%Z /\
    right_answer basic_columns (call_session c') (call_expression c) (call_vo c) (call_write c) answer.
Proof.
  split; [by vm_compute|]. do 2 eexists. split; [reflexivity|]. split; [reflexivity|].
  eapply (parse_expression_exact basic_columns demo_calls 1); [|done|reflexivity|reflexivity].
  intros c' Hc'. cbn in Hc'. repeat (apply elem_of_cons in Hc' as [->|Hc']; [apply (bool_decide_unpack _); by vm_compute|]). by apply elem_of_nil in Hc'.
Defined.
