(* ===== verification/Permission.v ===== *)
(** * The generic permission policy: [lib/rucio/core/permission/generic.py]

    [has_permission] decides whether an account may perform an action with the arguments of
    the call.  The arguments are a dictionary of dynamically typed values, as the gateway
    passes them; a missing key or a value of the wrong type raises, as in the code. *)

From S2P Require Import Prelude PyString Types Database Role.

(** ** Arguments *)

Inductive Value :=
  | PNone
  | PBool (b : bool)
  | PInt (z : Z)
  | PStr (s : string)
  | PAccount (a : InternalType)
  | PScope (a : InternalType)
  | PState (st : ReplicaState)
  | PList (l : list Value)
  | PDict (d : list (string * Value)).

Definition Kwargs : Type := list (string * Value).

(** [d.get(key)] and [d[key]] *)
Fixpoint get (d : Kwargs) (key : string) : option Value :=
  match d with
  | [] => None
  | (k, v) :: d => if bool_decide (k = key) then Some v else get d key
  end.
Definition getitem (d : Kwargs) (key : string) : result Value := or_raise KeyError (get d key).
Definition get_or (d : Kwargs) (key : string) (v : Value) : Value := default v (get d key).

(** Truth *)
Definition truthy (v : Value) : bool :=
  match v with
  | PNone => false
  | PBool b => b
  | PInt z => negb (bool_decide (z = 0%Z))
  | PStr s => negb (bool_decide (s = EmptyString))
  | PList l => match l with [] => false | _ => true end
  | PDict d => match d with [] => false | _ => true end
  | _ => true
  end.
Definition get_truthy (d : Kwargs) (key : string) : bool := truthy (get_or d key PNone).

(** Iteration, subscripting, and the internal types *)
Definition as_list (v : Value) : result (list Value) :=
  match v with PList l => Ok l | _ => Err TypeError end.
Definition as_dict (v : Value) : result Kwargs :=
  match v with PDict d => Ok d | _ => Err TypeError end.
Definition as_scope (v : Value) : result InternalType :=
  match v with PScope a => Ok a | _ => Err AttributeError end.
Definition as_account (v : Value) : result InternalType :=
  match v with PAccount a => Ok a | _ => Err AttributeError end.
Definition as_str (v : Value) : result string :=
  match v with PStr s => Ok s | _ => Err TypeError end.
(** A name, [None] included. *)
Definition as_name (v : Value) : result (option string) :=
  match v with PStr s => Ok (Some s) | PNone => Ok None | _ => Err TypeError end.

(** [v == issuer]: accounts only equal accounts. *)
Definition is_account (v : Value) (issuer : InternalType) : bool :=
  match v with PAccount a => ieq a issuer | _ => false end.

(** [str(v)], as far as its ending can be the name of an RSE. *)
Definition py_str (v : Value) : string :=
  match v with
  | PStr s => s
  | PNone => "None"
  | PBool b => if b then "True" else "False"
  | PAccount a | PScope a => str_external a
  | _ => ""
  end.

(** The elements of [set(v)] *)
Definition set_of (v : Value) : result (list Value) :=
  match v with
  | PDict d => Ok (PStr <$> d.*1)
  | PList l => if existsb (fun x => match x with PList _ | PDict _ => true | _ => false end) l
               then Err TypeError else Ok l
  | PStr s => Ok ((fun a => PStr (String a EmptyString)) <$> String.list_ascii_of_string s)
  | _ => Err TypeError
  end.
Definition elem_str (v : Value) (l : list string) : bool :=
  match v with PStr s => bool_decide (s ∈ l) | _ => false end.
(** [set & l] is not empty; [set.issubset(l)] *)
Definition meets (keys : list Value) (l : list string) : bool := existsb (fun k => elem_str k l) keys.
Definition within (keys : list Value) (l : list string) : bool := forallb (fun k => elem_str k l) keys.

(** ** Constants *)

Definition RBAC_DELETE_METADATA_KEYS : list string := ["lifetime"; "expired_at"; "eol_at"; "purge_replicas"]%string.

Definition RBAC_PROTECTED_METADATA_KEYS : list string :=
  ["name"; "scope"; "account"; "did_type"; "bytes"; "length"; "events"; "adler32"; "md5"; "guid";
   "availability"; "complete"; "is_open"; "monotonic"; "obsolete"; "suppressed"; "hidden"; "transient";
   "is_archive"; "constituent"; "is_new"; "closed_at"; "deleted_at"; "accessed_at"; "access_cnt";
   "created_at"; "updated_at"]%string.

Definition RBAC_UPDATABLE_RULE_OPTIONS : list string := ["lifetime"; "comment"; "notify"; "purge_replicas"]%string.

Definition RBAC_REPLICA_RSE_SUFFIXES : list string := ["SCRATCHDISK"; "USERDISK"; "MOCK"; "LOCALGROUPDISK"]%string.

(** [s.endswith(suffixes)] *)
Definition ends_with_any (suffixes : list string) (s : string) : bool := existsb (fun p => ends_with p s) suffixes.

(** [RseAttr.COUNTRY] *)
Definition COUNTRY : string := "country".

(** ** Privileges *)

Definition is_root (issuer : InternalType) : bool := bool_decide (external issuer = Some "root"%string).
Definition use_roles (s : Session) : bool := rbac_enabled s.
Definition is_admin (s : Session) (issuer : InternalType) : bool :=
  if use_roles s then has_admin_role s issuer else has_account_attribute s issuer "admin".

(** [get_did(...)['account']] for a name that may be [None] *)
Definition did_account (s : Session) (scope : InternalType) (name : option string) : result string :=
  match name with
  | Some n => get_did_account s scope n
  | None => Err DataIdentifierNotFound
  end.

(** [_did_exists] *)
Definition did_exists (s : Session) (scope : InternalType) (name : option string) : bool :=
  is_ok (did_account s scope name).

Definition DidRef : Type := InternalType * option string.

(** The scope and name of one DID of [_internal_dids] *)
Definition internal_did (issuer : InternalType) (did : Value) : result DidRef :=
  let* did := as_dict did in
  let* scope := getitem did "scope" in
  let* scope := match scope with
                | PScope a => Ok a
                | PStr e => Ok (mk_internal (Some e) (vo issuer) true)
                | PNone => Ok (mk_internal None (vo issuer) true)
                | _ => Err TypeError
                end in
  let* name := getitem did "name" in
  let* name := as_name name in
  Ok (scope, name).

(** The same key of a dictionary: scopes by their internal value. *)
Definition same_did (a b : DidRef) : bool := ieq a.1 b.1 && bool_decide (a.2 = b.2).

(** [_internal_dids]: the distinct DIDs, in the order they are first given *)
Definition internal_dids (issuer : InternalType) (dids : list Value) : result (list DidRef) :=
  foldM (fun acc did => let* d := internal_did issuer did in
                        Ok (if existsb (same_did d) acc then acc else acc ++ [d])) [] dids.

(** ** RBAC helpers *)

(** [_rbac_permission_access] *)
Definition rbac_permission_access (s : Session) (issuer scope : InternalType) (name : option string)
    (op : DidOperationType) : result bool :=
  if is_scope_owner s scope issuer then Ok true
  else has_permission s issuer (DidPermissionRequest op scope name).

(** [_rbac_did_ownership_access] *)
Definition rbac_did_ownership_access (s : Session) (issuer scope : InternalType) (name : option string) : result bool :=
  if negb (has_any_scope_prefix_access s issuer scope READ) then Ok false
  else match did_account s scope name with
       | Ok a => Ok (is_int a issuer)
       | Err _ => Ok false
       end.

(** [owner = did.get('account') or issuer], resolved in the VO of the issuer *)
Definition new_did_owner (issuer : InternalType) (did : Kwargs) : result InternalType :=
  match get_or did "account" PNone with
  | PAccount a => Ok a
  | v => if truthy v then let* e := as_str v in Ok (mk_internal (Some e) (vo issuer) true) else Ok issuer
  end.

(** [_rbac_new_did_ownership_access] *)
Definition rbac_new_did_ownership_access (s : Session) (issuer : InternalType) (new_did : Kwargs) : result bool :=
  let* owner := new_did_owner issuer new_did in
  if negb (ieq owner issuer) then Ok false
  else
    let* scope := getitem new_did "scope" in
    let* scope := as_scope scope in
    Ok (has_any_scope_prefix_access s issuer scope READ).

(** [rule['scope']]: a stored scope *)
Definition stored_scope (sc : string) : InternalType := mk_internal (Some sc) DEFAULT_VO false.

(** [_rbac_rule_ownership_access] *)
Definition rbac_rule_ownership_access (s : Session) (issuer : InternalType) (rule : RuleKey) : result bool :=
  Ok (is_int (rule_account rule) issuer &&
      has_any_scope_prefix_access s issuer (stored_scope (rule_scope rule)) READ).

(** [_rbac_can_read_did] *)
Definition rbac_can_read_did (s : Session) (issuer scope : InternalType) (name : option string) : result bool :=
  rbac_permission_access s issuer scope name READ orelse rbac_did_ownership_access s issuer scope name.

(** [_rbac_can_read_dids] *)
Definition rbac_can_read_dids (s : Session) (issuer : InternalType) (dids : list Value) : result bool :=
  let* l := internal_dids issuer dids in
  allM (fun d => rbac_can_read_did s issuer d.1 d.2) l.

(** [_rbac_can_alter_did] *)
Definition rbac_can_alter_did (s : Session) (issuer scope : InternalType) (name : option string) : result bool :=
  rbac_permission_access s issuer scope name DELETE orelse rbac_did_ownership_access s issuer scope name.

(** [_rbac_can_alter_rule] *)
Definition rbac_can_alter_rule (s : Session) (issuer : InternalType) (rule_id : string) : result bool :=
  match get_rule s rule_id with
  | Err _ => Ok false
  | Ok rule =>
      rbac_rule_ownership_access s issuer rule orelse
      rbac_permission_access s issuer (stored_scope (rule_scope rule)) (Some (rule_name rule)) DELETE
  end.

(** [_rbac_can_alter_metadata] *)
Definition rbac_can_alter_metadata (s : Session) (issuer scope : InternalType) (name : option string)
    (keys : Value) : result bool :=
  let* ks := set_of keys in
  if meets ks RBAC_PROTECTED_METADATA_KEYS then Ok false
  else rbac_can_alter_did s issuer scope name.

(** [_rbac_can_attach_dids] *)
Definition rbac_can_attach_dids (s : Session) (issuer : InternalType) (dids : list Value) (registered : bool) : result bool :=
  let* l := internal_dids issuer dids in
  allM (fun d => if registered && negb (did_exists s d.1 d.2)
                 then rbac_permission_access s issuer d.1 d.2 WRITE
                 else rbac_can_read_did s issuer d.1 d.2) l.

(** [_rbac_can_attach_into] *)
Definition rbac_can_attach_into (s : Session) (issuer scope : InternalType) (name : option string) : result bool :=
  rbac_permission_access s issuer scope name WRITE orelse rbac_did_ownership_access s issuer scope name.

(** [_rbac_can_detach_from] *)
Definition rbac_can_detach_from (s : Session) (issuer scope : InternalType) (name : option string)
    (dids : list Value) : result bool :=
  rbac_can_alter_did s issuer scope name orelse
  (rbac_permission_access s issuer scope name WRITE andalso
   (let* l := internal_dids issuer dids in
    allM (fun d => rbac_did_ownership_access s issuer d.1 d.2) l)).

(** [did.get(key) or []], iterated *)
Definition list_or_empty (did : Kwargs) (key : string) : result (list Value) :=
  if get_truthy did key then as_list (get_or did key PNone) else Ok [].

(** [did['scope'], did['name']] *)
Definition scope_and_name (did : Kwargs) : result DidRef :=
  let* scope := getitem did "scope" in
  let* scope := as_scope scope in
  let* name := getitem did "name" in
  let* name := as_name name in
  Ok (scope, name).

(** [_rbac_can_create_did] *)
Definition rbac_can_create_did (s : Session) (issuer : InternalType) (did : Kwargs) : result bool :=
  let* d := scope_and_name did in
  let* owner := new_did_owner issuer did in
  if negb (ieq owner issuer) then Ok false
  else
    rbac_permission_access s issuer d.1 d.2 WRITE andalso
    (let* keys := if get_truthy did "meta" then set_of (get_or did "meta" PNone) else Ok [] in
     if meets keys RBAC_PROTECTED_METADATA_KEYS then Ok false
     else Ok (negb (meets keys RBAC_DELETE_METADATA_KEYS)) orelse
          rbac_permission_access s issuer d.1 d.2 DELETE orelse
          rbac_new_did_ownership_access s issuer did).

(** [_rbac_can_create_did_with] *)
Definition rbac_can_create_did_with (s : Session) (issuer : InternalType) (did : Kwargs) : result bool :=
  let* d := scope_and_name did in
  (Ok (negb (get_truthy did "rules")) orelse
   rbac_permission_access s issuer d.1 d.2 READ orelse
   rbac_new_did_ownership_access s issuer did) andalso
  (let* dids := list_or_empty did "dids" in
   rbac_can_attach_dids s issuer dids (get_truthy did "rse_id")).

(** [get_replica_locks] for a name that may be [None] *)
Definition replica_locks (s : Session) (rse_id : string) (d : DidRef) : list LockRef :=
  match d.2 with Some n => get_replica_locks s d.1 n (Some [rse_id]) | None => [] end.

(** [_rbac_held_by_other_accounts] *)
Definition rbac_held_by_other_accounts (s : Session) (issuer : InternalType) (rse_id : string) (d : DidRef) : bool :=
  existsb (fun l => negb (is_int (lock_account l) issuer)) (replica_locks s rse_id d).

(** [_rbac_can_register_replicas] *)
Definition rbac_can_register_replicas (s : Session) (issuer : InternalType) (kwargs : Kwargs) : result bool :=
  if negb (get_truthy kwargs "dids") then
    let* scopes := list_or_empty kwargs "scopes" in
    let* scopes := foldM (fun acc v =>
        let* scope := match v with
                      | PScope a => Ok a
                      | PStr e => Ok (mk_internal (Some e) (vo issuer) true)
                      | PNone => Ok (mk_internal None (vo issuer) true)
                      | _ => Err TypeError
                      end in
        Ok (if existsb (ieq scope) acc then acc else acc ++ [scope])) [] scopes in
    allM (fun scope => rbac_permission_access s issuer scope None READ) scopes
  else
    let* dids := as_list (get_or kwargs "dids" PNone) in
    let* l := internal_dids issuer dids in
    allM (fun d => Ok (negb (did_exists s d.1 d.2)) orelse rbac_can_read_did s issuer d.1 d.2) l.

(** The guard of the checks on replicas: the RSE, some scopes and some DIDs *)
Definition rbac_replica_guard (kwargs : Kwargs) : result bool :=
  let* rse := getitem kwargs "rse" in
  if negb (ends_with_any RBAC_REPLICA_RSE_SUFFIXES (py_str rse)) then Ok false
  else
    let* scopes := getitem kwargs "scopes" in
    Ok (truthy scopes && get_truthy kwargs "dids").

(** [_rbac_can_delete_replicas] *)
Definition rbac_can_delete_replicas (s : Session) (issuer : InternalType) (kwargs : Kwargs) : result bool :=
  rbac_replica_guard kwargs andalso
  (let* dids := as_list (get_or kwargs "dids" PNone) in
   let* l := internal_dids issuer dids in
   allM (fun d => rbac_can_alter_did s issuer d.1 d.2 andalso
                  (let* rse_id := getitem kwargs "rse_id" in
                   let* rse_id := as_str rse_id in
                   Ok (negb (rbac_held_by_other_accounts s issuer rse_id d)))) l).

(** [_is_replica_being_copied] *)
Definition is_replica_being_copied (s : Session) (rse_id : string) (d : DidRef) : bool :=
  match d.2 with
  | Some n => match get_replica_state s rse_id d.1 n with
              | Ok st => bool_decide (st = R_COPYING)
              | Err _ => false
              end
  | None => false
  end.

(** [ReplicaState(file.get('state')) == ReplicaState.AVAILABLE], false when there is no such state *)
Definition requests_available (file : Kwargs) : bool :=
  match get_or file "state" PNone with
  | PStr v => bool_decide (replica_state_of_value v = Ok R_AVAILABLE)
  | PState st => bool_decide (st = R_AVAILABLE)
  | _ => false
  end.

(** [_rbac_can_update_replica_state] *)
Definition rbac_can_update_replica_state (s : Session) (issuer : InternalType) (rse_id : string) (file : Value) : result bool :=
  let* d := internal_did issuer file in
  if rbac_held_by_other_accounts s issuer rse_id d then Ok false
  else
    rbac_can_alter_did s issuer d.1 d.2 orelse
    (let* file := as_dict file in
     let finishes_upload := requests_available file && negb (get_truthy file "path") in
     if negb finishes_upload || negb (is_replica_being_copied s rse_id d) then Ok false
     else
       (let* owner := did_account s d.1 d.2 in
        Ok (is_int owner issuer) andalso rbac_permission_access s issuer d.1 d.2 WRITE) orelse
       rbac_can_read_did s issuer d.1 d.2).

(** [_rbac_can_update_replica_states] *)
Definition rbac_can_update_replica_states (s : Session) (issuer : InternalType) (kwargs : Kwargs) : result bool :=
  rbac_replica_guard kwargs andalso
  (let* dids := as_list (get_or kwargs "dids" PNone) in
   allM (fun file => let* rse_id := getitem kwargs "rse_id" in
                     let* rse_id := as_str rse_id in
                     rbac_can_update_replica_state s issuer rse_id file) dids).

(** ** Permission functions *)

Section permissions.
Context `{RSEExpressions}.
Variable s : Session.

Definition root_or_admin (issuer : InternalType) : bool := is_root issuer || is_admin s issuer.

Definition perm_default (issuer : InternalType) (kwargs : Kwargs) : result bool :=
  Ok (is_root issuer || is_admin s issuer).
Definition perm_add_rse (issuer : InternalType) (kwargs : Kwargs) : result bool :=
  Ok (is_root issuer || is_admin s issuer).
Definition perm_update_rse (issuer : InternalType) (kwargs : Kwargs) : result bool :=
  Ok (is_root issuer || is_admin s issuer).

Definition perm_add_rule (issuer : InternalType) (kwargs : Kwargs) : result bool :=
  let* account := getitem kwargs "account" in
  (Ok (is_account account issuer) andalso
   (let* locked := getitem kwargs "locked" in Ok (negb (truthy locked)))) >>=* fun own =>
  if own then
    Ok (negb (use_roles s)) orelse Ok (is_root issuer) orelse Ok (is_admin s issuer) orelse
    (let* dids := getitem kwargs "dids" in
     let* dids := as_list dids in
     rbac_can_read_dids s issuer dids)
  else Ok (is_root issuer || is_admin s issuer).

Definition perm_add_subscription (issuer : InternalType) (kwargs : Kwargs) : result bool :=
  if is_root issuer || is_admin s issuer then Ok true else Ok false.
Definition perm_add_rse_attribute (issuer : InternalType) (kwargs : Kwargs) : result bool :=
  if is_root issuer || is_admin s issuer then Ok true else Ok false.
Definition perm_del_rse_attribute (issuer : InternalType) (kwargs : Kwargs) : result bool :=
  if is_root issuer || is_admin s issuer then Ok true else Ok false.
Definition perm_del_rse (issuer : InternalType) (kwargs : Kwargs) : result bool :=
  Ok (is_root issuer || is_admin s issuer).
Definition perm_add_account (issuer : InternalType) (kwargs : Kwargs) : result bool := Ok (is_root issuer).
Definition perm_del_account (issuer : InternalType) (kwargs : Kwargs) : result bool := Ok (is_root issuer).
Definition perm_update_account (issuer : InternalType) (kwargs : Kwargs) : result bool :=
  Ok (is_root issuer || is_admin s issuer).
Definition perm_add_scope (issuer : InternalType) (kwargs : Kwargs) : result bool :=
  Ok (is_root issuer || is_admin s issuer).

(** [is_scope_owner(scope=kwargs['scope'], account=issuer)] *)
Definition owns_scope (issuer : InternalType) (kwargs : Kwargs) : result bool :=
  let* scope := getitem kwargs "scope" in
  let* scope := as_scope scope in
  Ok (is_scope_owner s scope issuer).

(** [kwargs['scope'].external == 'mock'] *)
Definition mock_scope (kwargs : Kwargs) : result bool :=
  let* scope := getitem kwargs "scope" in
  let* scope := as_scope scope in
  Ok (bool_decide (external scope = Some "mock"%string)).

Definition perm_update_scope (issuer : InternalType) (kwargs : Kwargs) : result bool :=
  Ok (is_root issuer) orelse Ok (is_admin s issuer) orelse owns_scope issuer kwargs.

Definition auth_token (kwargs : Kwargs) (key : string) (type : IdentityType) : result bool :=
  let* identity := getitem kwargs key in
  let* identity := as_str identity in
  let* account := getitem kwargs "account" in
  let* account := as_account account in
  Ok (exist_identity_account s identity type account).

Definition perm_get_auth_token_user_pass (issuer : InternalType) (kwargs : Kwargs) : result bool :=
  auth_token kwargs "username" ID_USERPASS.
Definition perm_get_auth_token_gss (issuer : InternalType) (kwargs : Kwargs) : result bool :=
  auth_token kwargs "gsscred" ID_GSS.
Definition perm_get_auth_token_x509 (issuer : InternalType) (kwargs : Kwargs) : result bool :=
  auth_token kwargs "dn" ID_X509.

Definition perm_add_account_identity (issuer : InternalType) (kwargs : Kwargs) : result bool :=
  Ok (is_root issuer || is_admin s issuer).
Definition perm_del_account_identity (issuer : InternalType) (kwargs : Kwargs) : result bool :=
  Ok (is_root issuer || is_admin s issuer).

(** [issuer.external in kwargs.get('accounts')] *)
Definition external_in (issuer : InternalType) (accounts : Value) : result bool :=
  match accounts, external issuer with
  | PList l, Some e => Ok (existsb (fun v => match v with PStr a => bool_decide (a = e) | _ => false end) l)
  | PList l, None => Ok (existsb (fun v => match v with PNone => true | _ => false end) l)
  | PStr a, Some e => Ok (str_infix e a)
  | PDict d, Some e => Ok (existsb (fun kv => bool_decide (kv.1 = e)) d)
  | PDict d, None => Ok false
  | _, _ => Err TypeError
  end.

Definition perm_del_identity (issuer : InternalType) (kwargs : Kwargs) : result bool :=
  Ok (is_root issuer) orelse external_in issuer (get_or kwargs "accounts" PNone).

(** The accounts of the rules given with a DID: all the issuer's? *)
Definition rules_of_issuer (issuer : InternalType) (kwargs : Kwargs) : result bool :=
  let* rules := as_list (get_or kwargs "rules" (PList [])) in
  allM (fun rule => let* rule := as_dict rule in
                    let* account := getitem rule "account" in
                    Ok (is_account account issuer)) rules.

Definition perm_add_did (issuer : InternalType) (kwargs : Kwargs) : result bool :=
  (if negb (is_root issuer) && negb (is_admin s issuer) then rules_of_issuer issuer kwargs else Ok true) andalso
  (if is_root issuer || is_admin s issuer then Ok true
   else
     (owns_scope issuer kwargs orelse mock_scope kwargs orelse
      (Ok (use_roles s) andalso rbac_can_create_did s issuer kwargs)) andalso
     (Ok (negb (use_roles s)) orelse rbac_can_create_did_with s issuer kwargs)).

Definition perm_add_dids (issuer : InternalType) (kwargs : Kwargs) : result bool :=
  let* dids := getitem kwargs "dids" in
  let* dids := as_list dids in
  allM (fun did => let* did := as_dict did in perm_add_did issuer did) dids.

(** [attachment.get('dids', [])] and [bool(attachment.get('rse_id'))] of an attachment *)
Definition rbac_can_attach (issuer : InternalType) (attachment : Kwargs) : result bool :=
  let* dids := as_list (get_or attachment "dids" (PList [])) in
  rbac_can_attach_dids s issuer dids (get_truthy attachment "rse_id").

Definition attach_into (issuer : InternalType) (kwargs : Kwargs) : result bool :=
  let* d := scope_and_name kwargs in rbac_can_attach_into s issuer d.1 d.2.

Definition perm_attach_dids (issuer : InternalType) (kwargs : Kwargs) : result bool :=
  if is_root issuer || is_admin s issuer then Ok true
  else
    let* allowed :=
      (owns_scope issuer kwargs orelse mock_scope kwargs orelse
       (Ok (use_roles s) andalso attach_into issuer kwargs)) in
    let* attachment := getitem kwargs "attachment" in
    let* attachment := as_dict attachment in
    Ok allowed andalso (Ok (negb (use_roles s)) orelse rbac_can_attach issuer attachment).

Definition perm_attach_dids_to_dids (issuer : InternalType) (kwargs : Kwargs) : result bool :=
  if is_root issuer || is_admin s issuer then Ok true
  else
    let* attachments := getitem kwargs "attachments" in
    let* attachments := as_list attachments in
    allM (fun attachment =>
      let* attachment := as_dict attachment in
      (owns_scope issuer attachment orelse (Ok (use_roles s) andalso attach_into issuer attachment)) andalso
      notM (Ok (use_roles s) andalso notM (rbac_can_attach issuer attachment))) attachments.

Definition perm_create_did_sample (issuer : InternalType) (kwargs : Kwargs) : result bool :=
  Ok (is_root issuer) orelse Ok (is_admin s issuer) orelse owns_scope issuer kwargs orelse mock_scope kwargs orelse
  (Ok (use_roles s) andalso
   (let* scope := getitem kwargs "scope" in
    let* scope := as_scope scope in
    let* name := as_name (get_or kwargs "name" PNone) in
    rbac_permission_access s issuer scope name WRITE)).

(** [_rbac_can_alter_rule(issuer, kwargs['rule_id'], session)] *)
Definition alter_rule (issuer : InternalType) (kwargs : Kwargs) : result bool :=
  let* rule_id := getitem kwargs "rule_id" in
  let* rule_id := as_str rule_id in
  rbac_can_alter_rule s issuer rule_id.

Definition perm_del_rule (issuer : InternalType) (kwargs : Kwargs) : result bool :=
  if is_root issuer || is_admin s issuer then Ok true
  else Ok (use_roles s) andalso alter_rule issuer kwargs.

Definition perm_update_rule (issuer : InternalType) (kwargs : Kwargs) : result bool :=
  if is_root issuer || is_admin s issuer then Ok true
  else
    Ok (use_roles s) andalso
    (let* options := getitem kwargs "options" in
     let* options := set_of options in
     Ok (within options RBAC_UPDATABLE_RULE_OPTIONS)) andalso
    alter_rule issuer kwargs.

Definition perm_approve_rule (issuer : InternalType) (kwargs : Kwargs) : result bool :=
  if is_root issuer || is_admin s issuer then Ok true else Ok false.

Definition perm_reduce_rule (issuer : InternalType) (kwargs : Kwargs) : result bool :=
  if is_root issuer || is_admin s issuer then Ok true
  else Ok (use_roles s) andalso alter_rule issuer kwargs.

(** [kwargs['override']] *)
Definition override (kwargs : Kwargs) : result Kwargs :=
  let* o := getitem kwargs "override" in as_dict o.

Definition perm_move_rule (issuer : InternalType) (kwargs : Kwargs) : result bool :=
  if is_root issuer || is_admin s issuer then Ok true
  else
    Ok (use_roles s) andalso
    (let* o := override kwargs in Ok (negb (get_truthy o "locked"))) andalso
    (let* o := override kwargs in Ok (is_account (get_or o "account" (PAccount issuer)) issuer)) andalso
    alter_rule issuer kwargs.

Definition perm_update_subscription (issuer : InternalType) (kwargs : Kwargs) : result bool :=
  if is_root issuer || is_admin s issuer then Ok true else Ok false.

Definition perm_detach_dids (issuer : InternalType) (kwargs : Kwargs) : result bool :=
  Ok (is_root issuer) orelse Ok (is_admin s issuer) orelse owns_scope issuer kwargs orelse mock_scope kwargs orelse
  (Ok (use_roles s) andalso
   (let* d := scope_and_name kwargs in
    let* dids := getitem kwargs "dids" in
    let* dids := as_list dids in
    rbac_can_detach_from s issuer d.1 d.2 dids)).

(** [not kwargs.get('recursive') and _rbac_can_alter_metadata(..., keys)] *)
Definition alter_metadata (issuer : InternalType) (kwargs : Kwargs) (keys : result Value) : result bool :=
  Ok (negb (get_truthy kwargs "recursive")) andalso
  (let* d := scope_and_name kwargs in
   let* keys := keys in
   rbac_can_alter_metadata s issuer d.1 d.2 keys).

Definition perm_set_metadata_bulk (issuer : InternalType) (kwargs : Kwargs) : result bool :=
  Ok (is_root issuer) orelse Ok (is_admin s issuer) orelse owns_scope issuer kwargs orelse
  (Ok (use_roles s) andalso alter_metadata issuer kwargs (getitem kwargs "meta")).

Definition perm_set_metadata (issuer : InternalType) (kwargs : Kwargs) : result bool :=
  Ok (is_root issuer) orelse Ok (is_admin s issuer) orelse owns_scope issuer kwargs orelse
  (Ok (use_roles s) andalso
   alter_metadata issuer kwargs (mapR (fun k => PList [k]) (getitem kwargs "key"))).

Definition perm_set_status (issuer : InternalType) (kwargs : Kwargs) : result bool :=
  if truthy (get_or kwargs "open" (PBool false)) && negb (is_root issuer) && negb (is_admin s issuer) then Ok false
  else Ok (is_root issuer) orelse Ok (is_admin s issuer) orelse owns_scope issuer kwargs.

Definition perm_add_protocol (issuer : InternalType) (kwargs : Kwargs) : result bool :=
  Ok (is_root issuer || is_admin s issuer).
Definition perm_del_protocol (issuer : InternalType) (kwargs : Kwargs) : result bool :=
  Ok (is_root issuer || is_admin s issuer).
Definition perm_update_protocol (issuer : InternalType) (kwargs : Kwargs) : result bool :=
  Ok (is_root issuer || is_admin s issuer).
Definition perm_add_qos_policy (issuer : InternalType) (kwargs : Kwargs) : result bool :=
  Ok (is_root issuer || is_admin s issuer).
Definition perm_delete_qos_policy (issuer : InternalType) (kwargs : Kwargs) : result bool :=
  Ok (is_root issuer || is_admin s issuer).
Definition perm_declare_bad_file_replicas (issuer : InternalType) (kwargs : Kwargs) : result bool :=
  Ok (is_root issuer).
Definition perm_declare_suspicious_file_replicas (issuer : InternalType) (kwargs : Kwargs) : result bool :=
  Ok true.

Definition perm_add_replicas (issuer : InternalType) (kwargs : Kwargs) : result bool :=
  if is_root issuer || is_admin s issuer then Ok true
  else
    let rse := py_str (get_or kwargs "rse" (PStr "")) in
    Ok (ends_with "SCRATCHDISK" rse || ends_with "USERDISK" rse || ends_with "MOCK" rse
        || ends_with "LOCALGROUPDISK" rse) andalso
    (Ok (negb (use_roles s)) orelse rbac_can_register_replicas s issuer kwargs).

Definition perm_skip_availability_check (issuer : InternalType) (kwargs : Kwargs) : result bool :=
  Ok (is_root issuer || is_admin s issuer).

Definition perm_delete_replicas (issuer : InternalType) (kwargs : Kwargs) : result bool :=
  Ok (use_roles s) andalso rbac_can_delete_replicas s issuer kwargs.

Definition perm_update_replicas_states (issuer : InternalType) (kwargs : Kwargs) : result bool :=
  Ok (is_root issuer) orelse Ok (is_admin s issuer) orelse
  (Ok (use_roles s) andalso rbac_can_update_replica_states s issuer kwargs).

Definition perm_queue_requests (issuer : InternalType) (kwargs : Kwargs) : result bool := Ok (is_root issuer).
Definition perm_list_requests (issuer : InternalType) (kwargs : Kwargs) : result bool :=
  Ok (is_root issuer || is_admin s issuer).
Definition perm_list_requests_history (issuer : InternalType) (kwargs : Kwargs) : result bool :=
  Ok (is_root issuer || is_admin s issuer).
Definition perm_get_request_by_did (issuer : InternalType) (kwargs : Kwargs) : result bool := Ok true.
Definition perm_get_request_history_by_did (issuer : InternalType) (kwargs : Kwargs) : result bool :=
  Ok (is_root issuer || is_admin s issuer).
Definition perm_cancel_request (issuer : InternalType) (kwargs : Kwargs) : result bool := Ok (is_root issuer).
Definition perm_get_next (issuer : InternalType) (kwargs : Kwargs) : result bool := Ok (is_root issuer).
Definition perm_set_rse_usage (issuer : InternalType) (kwargs : Kwargs) : result bool := Ok (is_root issuer).
Definition perm_set_rse_limits (issuer : InternalType) (kwargs : Kwargs) : result bool :=
  Ok (is_root issuer || is_admin s issuer).

(** The countries the account administers: the attributes ['country-<c>'] of value ['admin'] *)
Definition admin_in_country (issuer : InternalType) : result (list string) :=
  let* attributes := list_account_attributes s issuer in
  Ok (omap (fun kv : string * AttrValue =>
              if starts_with "country-" kv.1 && bool_decide (kv.2 = AStr "admin")
              then Some (str_partition "-"%char kv.1).2 else None) attributes).

(** [country in countries] for the country of an RSE, which it may not have *)
Definition country_in (countries : list string) (c : option AttrValue) : bool :=
  match c with Some (AStr c) => bool_decide (c ∈ countries) | _ => false end.

Definition country_of (rse_id : string) : option AttrValue := rse_attribute s rse_id COUNTRY.

(** The local limits: root, admins, and the admins of the country of the RSE *)
Definition local_account_limit (issuer : InternalType) (kwargs : Kwargs) : result bool :=
  if is_root issuer || is_admin s issuer then Ok true
  else
    let* countries := admin_in_country issuer in
    if bool_decide (countries = []) then Ok false
    else
      let* rse_id := getitem kwargs "rse_id" in
      let* rse_id := as_str rse_id in
      Ok (country_in countries (country_of rse_id)).

Definition perm_set_local_account_limit (issuer : InternalType) (kwargs : Kwargs) : result bool :=
  local_account_limit issuer kwargs.
Definition perm_delete_local_account_limit (issuer : InternalType) (kwargs : Kwargs) : result bool :=
  local_account_limit issuer kwargs.

(** [{list_rse_attributes(rse_id=rse['rse_id']).get(COUNTRY) for rse in parse_expression(...)}] *)
Definition resolved_rse_countries (issuer : InternalType) (kwargs : Kwargs) : result (list (option AttrValue)) :=
  let* e := getitem kwargs "rse_expression" in
  let* e := as_str e in
  let* rses := parse_expression s e (Some (vo issuer)) in
  foldM (fun acc rse => let* rse_id := rse_getitem rse "rse_id" in Ok (acc ++ [country_of rse_id])) [] rses.

Definition perm_set_global_account_limit (issuer : InternalType) (kwargs : Kwargs) : result bool :=
  if is_root issuer || is_admin s issuer then Ok true
  else
    let* countries := admin_in_country issuer in
    let* resolved := resolved_rse_countries issuer kwargs in
    Ok (forallb (country_in countries) resolved).

Definition perm_delete_global_account_limit (issuer : InternalType) (kwargs : Kwargs) : result bool :=
  if is_root issuer || is_admin s issuer then Ok true
  else
    let* countries := admin_in_country issuer in
    if bool_decide (countries = []) then Ok false
    else
      let* resolved := resolved_rse_countries issuer kwargs in
      Ok (forallb (country_in countries) resolved).

Definition perm_config (issuer : InternalType) (kwargs : Kwargs) : result bool :=
  Ok (is_root issuer || is_admin s issuer).

(** [kwargs.get('account') == issuer] *)
Definition about_issuer (issuer : InternalType) (kwargs : Kwargs) : bool :=
  is_account (get_or kwargs "account" PNone) issuer.

Definition account_usage (issuer : InternalType) (kwargs : Kwargs) : result bool :=
  if is_root issuer || is_admin s issuer || about_issuer issuer kwargs then Ok true
  else
    let* countries := admin_in_country issuer in
    Ok (negb (bool_decide (countries = []))).

Definition perm_get_local_account_usage (issuer : InternalType) (kwargs : Kwargs) : result bool :=
  account_usage issuer kwargs.
Definition perm_get_global_account_usage (issuer : InternalType) (kwargs : Kwargs) : result bool :=
  account_usage issuer kwargs.

Definition perm_add_account_attribute (issuer : InternalType) (kwargs : Kwargs) : result bool :=
  Ok (is_root issuer || is_admin s issuer).
Definition perm_del_account_attribute (issuer : InternalType) (kwargs : Kwargs) : result bool :=
  perm_add_account_attribute issuer kwargs.
Definition perm_list_heartbeats (issuer : InternalType) (kwargs : Kwargs) : result bool := Ok (is_root issuer).
Definition perm_resurrect (issuer : InternalType) (kwargs : Kwargs) : result bool :=
  Ok (is_root issuer || is_admin s issuer).

Definition perm_update_lifetime_exceptions (issuer : InternalType) (kwargs : Kwargs) : result bool :=
  let* v := getitem kwargs "vo" in
  let* same_vo :=
    match v with
    | PNone => Ok true
    | _ =>
        let* exception_id := getitem kwargs "exception_id" in
        let* exception_id := as_name exception_id in
        match list_exceptions s exception_id with
        | [] => Err StopIteration
        | e :: _ => Ok (match v with PStr v => bool_decide (vo (stored_scope e.2) = v) | _ => false end)
        end
    end in
  if same_vo then Ok (is_root issuer || is_admin s issuer) else Ok false.

Definition perm_get_auth_token_ssh (issuer : InternalType) (kwargs : Kwargs) : result bool := Ok true.
Definition perm_get_signed_url (issuer : InternalType) (kwargs : Kwargs) : result bool :=
  Ok (is_root issuer || has_account_attribute s issuer "sign-url").
Definition perm_add_bad_pfns (issuer : InternalType) (kwargs : Kwargs) : result bool := Ok (is_root issuer).

Definition perm_remove_did_from_followed (issuer : InternalType) (kwargs : Kwargs) : result bool :=
  Ok (is_root issuer) orelse Ok (is_admin s issuer) orelse
  (let* account := getitem kwargs "account" in Ok (is_account account issuer)) orelse mock_scope kwargs.

Definition perm_remove_dids_from_followed (issuer : InternalType) (kwargs : Kwargs) : result bool :=
  if is_root issuer || is_admin s issuer then Ok true
  else let* account := getitem kwargs "account" in Ok (is_account account issuer).

Definition perm_export (issuer : InternalType) (kwargs : Kwargs) : result bool := Ok (is_root issuer).
Definition perm_list_transfer_limits (issuer : InternalType) (kwargs : Kwargs) : result bool :=
  Ok (is_root issuer || is_admin s issuer).
Definition perm_set_transfer_limit (issuer : InternalType) (kwargs : Kwargs) : result bool :=
  Ok (is_root issuer || is_admin s issuer).
Definition perm_delete_transfer_limit (issuer : InternalType) (kwargs : Kwargs) : result bool :=
  Ok (is_root issuer || is_admin s issuer).

Definition perm_delete_metadata (issuer : InternalType) (kwargs : Kwargs) : result bool :=
  Ok (is_root issuer) orelse Ok (is_admin s issuer) orelse
  (Ok (use_roles s) andalso (let* d := scope_and_name kwargs in rbac_can_alter_did s issuer d.1 d.2)).

Definition perm_list_account_roles (issuer : InternalType) (kwargs : Kwargs) : result bool :=
  Ok (is_root issuer) orelse Ok (is_admin s issuer) orelse
  (let* account := getitem kwargs "account" in Ok (is_account account issuer)).

Definition perm_list_role_permissions (issuer : InternalType) (kwargs : Kwargs) : result bool :=
  Ok (is_root issuer) orelse Ok (is_admin s issuer) orelse
  (let* role := getitem kwargs "role" in
   let* role := as_str role in
   Ok (has_account_valid_role s issuer role)).

Definition perm_read_scope (issuer : InternalType) (kwargs : Kwargs) : result bool :=
  if negb (use_roles s) || is_root issuer || is_admin s issuer then Ok true
  else if get_truthy kwargs "name" then
    let* d := scope_and_name kwargs in rbac_can_read_did s issuer d.1 d.2
  else
    owns_scope issuer kwargs orelse
    (let* scope := getitem kwargs "scope" in
     let* scope := as_scope scope in
     Ok (has_any_scope_prefix_access s issuer scope READ)).

(** The dispatch table of [has_permission] *)
Definition perm : list (string * (InternalType -> Kwargs -> result bool)) :=
  [("add_account", perm_add_account); ("del_account", perm_del_account);
   ("update_account", perm_update_account); ("add_rule", perm_add_rule);
   ("add_subscription", perm_add_subscription); ("add_scope", perm_add_scope);
   ("update_scope", perm_update_scope); ("add_rse", perm_add_rse); ("update_rse", perm_update_rse);
   ("add_protocol", perm_add_protocol); ("del_protocol", perm_del_protocol);
   ("update_protocol", perm_update_protocol); ("add_qos_policy", perm_add_qos_policy);
   ("delete_qos_policy", perm_delete_qos_policy);
   ("declare_bad_file_replicas", perm_declare_bad_file_replicas);
   ("declare_suspicious_file_replicas", perm_declare_suspicious_file_replicas);
   ("add_replicas", perm_add_replicas); ("delete_replicas", perm_delete_replicas);
   ("skip_availability_check", perm_skip_availability_check);
   ("update_replicas_states", perm_update_replicas_states);
   ("add_rse_attribute", perm_add_rse_attribute); ("del_rse_attribute", perm_del_rse_attribute);
   ("del_rse", perm_del_rse); ("del_rule", perm_del_rule); ("update_rule", perm_update_rule);
   ("approve_rule", perm_approve_rule); ("update_subscription", perm_update_subscription);
   ("reduce_rule", perm_reduce_rule); ("move_rule", perm_move_rule);
   ("get_auth_token_user_pass", perm_get_auth_token_user_pass);
   ("get_auth_token_gss", perm_get_auth_token_gss); ("get_auth_token_x509", perm_get_auth_token_x509);
   ("add_account_identity", perm_add_account_identity); ("add_did", perm_add_did);
   ("add_dids", perm_add_dids); ("attach_dids", perm_attach_dids); ("detach_dids", perm_detach_dids);
   ("attach_dids_to_dids", perm_attach_dids_to_dids); ("create_did_sample", perm_create_did_sample);
   ("set_metadata", perm_set_metadata); ("set_metadata_bulk", perm_set_metadata_bulk);
   ("set_status", perm_set_status); ("queue_requests", perm_queue_requests);
   ("set_rse_usage", perm_set_rse_usage); ("set_rse_limits", perm_set_rse_limits);
   ("list_requests", perm_list_requests); ("list_requests_history", perm_list_requests_history);
   ("get_request_by_did", perm_get_request_by_did);
   ("get_request_history_by_did", perm_get_request_history_by_did);
   ("cancel_request", perm_cancel_request); ("get_next", perm_get_next);
   ("set_local_account_limit", perm_set_local_account_limit);
   ("set_global_account_limit", perm_set_global_account_limit);
   ("delete_local_account_limit", perm_delete_local_account_limit);
   ("delete_global_account_limit", perm_delete_global_account_limit);
   ("config_sections", perm_config); ("config_add_section", perm_config);
   ("config_has_section", perm_config); ("config_options", perm_config);
   ("config_has_option", perm_config); ("config_get", perm_config); ("config_items", perm_config);
   ("config_set", perm_config); ("config_remove_section", perm_config);
   ("config_remove_option", perm_config);
   ("get_local_account_usage", perm_get_local_account_usage);
   ("get_global_account_usage", perm_get_global_account_usage);
   ("add_attribute", perm_add_account_attribute); ("del_attribute", perm_del_account_attribute);
   ("list_heartbeats", perm_list_heartbeats); ("resurrect", perm_resurrect);
   ("update_lifetime_exceptions", perm_update_lifetime_exceptions);
   ("get_auth_token_ssh", perm_get_auth_token_ssh); ("get_signed_url", perm_get_signed_url);
   ("add_bad_pfns", perm_add_bad_pfns); ("del_account_identity", perm_del_account_identity);
   ("del_identity", perm_del_identity);
   ("remove_did_from_followed", perm_remove_did_from_followed);
   ("remove_dids_from_followed", perm_remove_dids_from_followed); ("export", perm_export);
   ("list_transfer_limits", perm_list_transfer_limits); ("set_transfer_limit", perm_set_transfer_limit);
   ("delete_transfer_limit", perm_delete_transfer_limit); ("delete_metadata", perm_delete_metadata);
   ("list_account_roles", perm_list_account_roles); ("list_role_permissions", perm_list_role_permissions);
   ("list_dids", perm_read_scope); ("list_parent_dids", perm_read_scope); ("get_did", perm_read_scope);
   ("get_metadata", perm_read_scope); ("get_metadata_bulk", perm_read_scope);
   ("list_content", perm_read_scope); ("list_content_history", perm_read_scope);
   ("list_files", perm_read_scope); ("scope_list", perm_read_scope);
   ("list_archive_content", perm_read_scope); ("get_users_following_did", perm_read_scope);
   ("add_did_to_followed", perm_read_scope); ("list_replication_rule_history", perm_read_scope);
   ("list_replication_rule_full_history", perm_read_scope); ("get_replication_rule", perm_read_scope);
   ("examine_replication_rule", perm_read_scope); ("get_dataset_locks", perm_read_scope);
   ("get_dataset_locks_bulk", perm_read_scope);
   ("list_associated_replication_rules_for_file", perm_read_scope); ("list_replicas", perm_read_scope);
   ("list_dataset_replicas", perm_read_scope); ("list_dataset_replicas_bulk", perm_read_scope);
   ("list_dataset_replicas_vp", perm_read_scope); ("get_replica_locks_for_rule_id", perm_read_scope)]%string.

Fixpoint assoc {V} (l : list (string * V)) (key : string) : option V :=
  match l with
  | [] => None
  | (k, v) :: l => if bool_decide (k = key) then Some v else assoc l key
  end.

(** [has_permission] *)
Definition has_permission (issuer : InternalType) (action : string) (kwargs : Kwargs) : result bool :=
  default perm_default (assoc perm action) issuer kwargs.

End permissions.
