(* ===== verification/PermissionFacts.v ===== *)
(** * What the generic policy guarantees

    Theorems on [Permission.has_permission]: who is always allowed, what no role may grant,
    that roles do nothing without RBAC and only ever add rights, and that the filter of a
    listing keeps exactly what the policy lets the account read. *)

From S2P Require Import Prelude PyString Types Database Role Permission.

Section facts.
Context `{RSEExpressions}.

(** ** The policy and the listing filter *)

Lemma is_privileged_root_or_admin s issuer :
  rbac_enabled s = true -> is_privileged s issuer = is_root issuer || is_admin s issuer.
Proof. intros He. unfold is_privileged, is_root, is_admin, use_roles. by rewrite He. Qed.

Lemma role_has_permission_existsb s issuer op scope name :
  Role.has_permission s issuer (DidPermissionRequest op scope name) =
  Ok (existsb (did_pattern_matches scope name) (granted_targets s issuer op)).
Proof. done. Qed.

(** A pattern that covers a whole scope covers its names. *)
Lemma matches_whole_scope scope n l :
  existsb (did_pattern_matches scope None) l = true -> existsb (did_pattern_matches scope (Some n)) l = true.
Proof.
  rewrite !existsb_true. intros (t & Ht & Hm). exists t. split; [done|]. revert Hm.
  unfold did_pattern_matches. destruct (str_partition DID_SEPARATOR t) as [[sp f] np].
  by destruct (bool_decide (np = WILD)).
Qed.

(** A pattern that matches a DID matches its scope, whatever the name. *)
Lemma matches_prefix_access s issuer scope name op :
  existsb (did_pattern_matches scope name) (granted_targets s issuer op) = true ->
  has_any_scope_prefix_access s issuer scope op = true.
Proof.
  unfold has_any_scope_prefix_access. rewrite !existsb_true. intros (t & Ht & Hm). exists t. split; [done|].
  revert Hm. unfold did_pattern_matches, scope_part. destruct (str_partition DID_SEPARATOR t) as [[sp f] np]. simpl.
  destruct (bool_decide (np = WILD)); [done|]. destruct name as [n|]; [|done].
  intros [He%bool_decide_eq_true _]%andb_true_iff. rewrite He. unfold prefix_pattern_matches.
  destruct (ends_with_char DID_WILDCARD sp) eqn:Hw; [|by apply bool_decide_eq_true].
  apply ends_with_char_snoc in Hw as [p ->]. rewrite drop_last_snoc. apply starts_with_spec. by eexists.
Qed.

Definition read_kwargs (scope : InternalType) (n : string) : Kwargs :=
  [("scope", PScope scope); ("name", PStr n)]%string.

Lemma read_permission_direct s issuer scope n :
  rbac_enabled s = true -> n <> EmptyString ->
  has_permission s issuer "get_did" (read_kwargs scope n) = Ok (direct_did s issuer READ scope (Some n)).
Proof.
  intros He Hn. change (has_permission s issuer "get_did" (read_kwargs scope n))
    with (perm_read_scope s issuer (read_kwargs scope n)).
  unfold perm_read_scope, use_roles. rewrite He. cbn [negb orb].
  unfold direct_did, direct_scope, direct_check. rewrite <-orb_assoc.
  rewrite (is_privileged_root_or_admin s issuer He).
  destruct (is_root issuer || is_admin s issuer); [done|]. cbn [orb].
  unfold get_truthy, read_kwargs. simpl. rewrite bool_decide_false by done. simpl.
  unfold rbac_can_read_did, rbac_permission_access, rbac_did_ownership_access. rewrite role_has_permission_existsb.
  destruct (is_scope_owner s scope issuer); simpl; [by rewrite orb_true_r|]. rewrite !orb_false_r.
  destruct (existsb (did_pattern_matches scope None) (granted_targets s issuer READ)) eqn:Hw.
  { by rewrite (matches_whole_scope _ n _ Hw). }
  destruct (existsb (did_pattern_matches scope (Some n)) _); [done|]. simpl.
  destruct (has_any_scope_prefix_access s issuer scope READ); [|done]. simpl.
  unfold get_did_account, did_owner. by destruct (scope_key scope n ≫= _).
Qed.

(** The arguments of the reading action on an item of a listing *)
Definition item_readable (s : Session) (issuer : InternalType) (item : InternalType * string) : bool :=
  bool_decide (has_permission s issuer "get_did" (read_kwargs item.1 item.2) = Ok true).

Definition listing (items : list (InternalType * string)) : list (option InternalType * option string) :=
  (fun i => (Some i.1, Some i.2)) <$> items.

(** C18: with RBAC, filtering a listing keeps exactly the DIDs the policy lets the account
    read one by one: the gateway's filter and the 'get_did' permission never disagree. *)
Theorem listing_filter_is_policy s issuer items :
  rbac_enabled s = true ->
  Forall (fun i => canonical i.1 /\ i.2 <> EmptyString) items ->
  filter_by_did_access s issuer (did_access_checker s issuer READ false) (listing items) =
  Ok (listing (List.filter (item_readable s issuer) items)).
Proof.
  intros He Hitems. rewrite (filter_by_did_access_ok s issuer READ); [|apply did_access_checker_ok|].
  - f_equal. induction Hitems as [|[scope n] items [Hc Hn] _ IH]; simpl; [done|].
    unfold item_readable at 1. simpl. rewrite (read_permission_direct s issuer scope n He Hn).
    unfold direct_did_item at 1. simpl. destruct (direct_did s issuer READ scope (Some n)); simpl.
    + by rewrite IH.
    + done.
  - apply Forall_forall. intros i (x & -> & Hx)%list_elem_of_fmap. rewrite Forall_forall in Hitems.
    by apply (Hitems x Hx).
Qed.

(** ** Global limits

    The dictionaries of [parse_expression] have no key ['rse_id'] (their identifier is under
    ['id']), so that resolving the countries of an expression always raises. *)
Lemma resolved_rse_countries_raises s issuer kwargs : exists e, resolved_rse_countries s issuer kwargs = Err e.
Proof.
  unfold resolved_rse_countries. destruct (getitem kwargs "rse_expression") as [v|e]; simpl; [|by exists e].
  destruct (as_str v) as [x|e]; simpl; [|by exists e].
  destruct (parse_expression s x (Some (vo issuer))) as [l|e] eqn:Hp; simpl; [|by exists e].
  destruct l as [|r l]; [by apply parse_expression_nonempty in Hp|]. by exists KeyError.
Qed.

(** ** Roles only add rights *)

(** [r'] is positive when [r] is; it also raises no more than [r] does. *)
Definition up (r r' : result bool) : Prop := r = Ok true -> r' = Ok true.
Definition steady (r r' : result bool) : Prop := up r r' /\ (is_ok r = true -> is_ok r' = true).

Lemma up_refl r : up r r.
Proof. exact (fun H => H). Qed.
Lemma steady_refl r : steady r r.
Proof. split; auto using up_refl. Qed.
Lemma steady_up r r' : steady r r' -> up r r'.
Proof. by intros []. Qed.
Lemma steady_Ok (b b' : bool) : (b = true -> b' = true) -> steady (Ok b) (Ok b').
Proof. intros Hb. split; [|done]. intros [= Hb']. by rewrite Hb. Qed.

Lemma up_and a a' b b' : up a a' -> up b b' -> up (a andalso b) (a' andalso b').
Proof. unfold up. py_logic. Qed.

Lemma up_or a a' b b' : steady a a' -> up b b' -> up (a orelse b) (a' orelse b').
Proof.
  intros [Ha Hok] Hb Ht. apply orM_true in Ht as [Ht|[Hf Ht]]; apply orM_true; [by left; apply Ha|].
  rewrite Hf in Hok. destruct a' as [[]|]; [by left| |by specialize (Hok eq_refl)]. right. auto.
Qed.

Lemma steady_or a a' b b' : steady a a' -> steady b b' -> is_ok a = true -> steady (a orelse b) (a' orelse b').
Proof.
  intros Ha Hb Hoka. split; [apply up_or; [done|apply Hb]|]. destruct Ha as [Ha Hok].
  specialize (Hok Hoka). destruct a as [[]|], a' as [[]|]; simpl; try done; [|apply Hb].
  specialize (Ha eq_refl). congruence.
Qed.

Lemma steady_and_l a b b' : steady b b' -> steady (a andalso b) (a andalso b').
Proof. destruct a as [[]|]; simpl; [done|intros; apply steady_refl|intros; apply steady_refl]. Qed.

Lemma up_bind {A} (m : result A) f g : (forall x, m = Ok x -> up (f x) (g x)) -> up (bindR m f) (bindR m g).
Proof. destruct m; simpl; [auto|done]. Qed.

Lemma steady_bind {A} (m : result A) f g :
  (forall x, m = Ok x -> steady (f x) (g x)) -> steady (bindR m f) (bindR m g).
Proof. destruct m; simpl; [auto|intros; apply steady_refl]. Qed.

Lemma up_allM {A} (f g : A -> result bool) l : (forall x, x ∈ l -> up (f x) (g x)) -> up (allM f l) (allM g l).
Proof. unfold up. py_logic. Qed.

Lemma up_if (b : bool) r1 r2 r1' r2' : up r1 r1' -> up r2 r2' -> up (if b then r1 else r2) (if b then r1' else r2').
Proof. by destruct b. Qed.

Lemma steady_if (b : bool) r1 r2 r1' r2' :
  steady r1 r1' -> steady r2 r2' -> steady (if b then r1 else r2) (if b then r1' else r2').
Proof. by destruct b. Qed.

Create HintDb mono.
#[local] Hint Resolve up_refl steady_refl up_and up_or up_bind up_allM steady_bind steady_and_l up_if steady_if : mono.
#[local] Hint Extern 3 (up _ _) => apply steady_up : mono.

Section monotone.
Variables (s : Session) (t : RoleTables) (issuer : InternalType).

(** Tables that grant at least what those of the session grant. *)
Record more_roles : Prop := {
  mr_held role : has_account_valid_role s issuer role = true ->
    has_account_valid_role (set_role_tables s t) issuer role = true;
  mr_granted role target p op : role_did_permission_map (role_tables s) !! (role, target) = Some p ->
    operation_column op p = true ->
    exists p', role_did_permission_map t !! (role, target) = Some p' /\ operation_column op p' = true;
}.

Hypothesis Hmore : more_roles.
Abbreviation s' := (set_role_tables s t).

Lemma more_targets op x : x ∈ granted_targets s issuer op -> x ∈ granted_targets s' issuer op.
Proof.
  rewrite !granted_targets_elem. intros (role & p & Hp & Hr & Ho).
  destruct (mr_granted Hmore _ _ _ _ Hp Ho) as (p' & Hp' & Ho'). exists role, p'. split_and!; [done| |done].
  by apply (mr_held Hmore).
Qed.

Lemma more_existsb op f :
  existsb f (granted_targets s issuer op) = true -> existsb f (granted_targets s' issuer op) = true.
Proof. rewrite !existsb_true. intros (x & Hx & Hf). exists x. split; [by apply more_targets|done]. Qed.

Lemma more_prefix scope op :
  has_any_scope_prefix_access s issuer scope op = true -> has_any_scope_prefix_access s' issuer scope op = true.
Proof. apply more_existsb. Qed.

Lemma more_admin : is_admin s issuer = true -> is_admin s' issuer = true.
Proof. unfold is_admin, use_roles. simpl. destruct (rbac_enabled s); [apply (mr_held Hmore)|done]. Qed.

Lemma steady_admin : steady (Ok (is_admin s issuer)) (Ok (is_admin s' issuer)).
Proof. apply steady_Ok, more_admin. Qed.

Lemma steady_privileged : steady (Ok (is_root issuer || is_admin s issuer)) (Ok (is_root issuer || is_admin s' issuer)).
Proof. apply steady_Ok. destruct (is_root issuer); [done|]. apply more_admin. Qed.

(** The branch of the privileged accounts. *)
Lemma up_privileged r r' :
  up r r' -> up (if is_root issuer || is_admin s issuer then Ok true else r)
                (if is_root issuer || is_admin s' issuer then Ok true else r').
Proof.
  intros Hr. destruct (is_root issuer); [done|]. simpl. pose proof more_admin as Ha.
  destruct (is_admin s issuer); [by rewrite Ha|]. intros Ht. destruct (is_admin s' issuer); [done|by apply Hr].
Qed.

Lemma steady_permission scope name op :
  steady (rbac_permission_access s issuer scope name op) (rbac_permission_access s' issuer scope name op).
Proof.
  unfold rbac_permission_access. apply steady_if; [apply steady_refl|].
  rewrite !role_has_permission_existsb. apply steady_Ok, more_existsb.
Qed.

Lemma permission_ok scope name op : is_ok (rbac_permission_access s issuer scope name op) = true.
Proof. unfold rbac_permission_access. by destruct (is_scope_owner _ _ _). Qed.

Lemma steady_ownership scope name :
  steady (rbac_did_ownership_access s issuer scope name) (rbac_did_ownership_access s' issuer scope name).
Proof.
  unfold rbac_did_ownership_access. pose proof (more_prefix scope READ) as Hp.
  change (did_account s' scope name) with (did_account s scope name).
  destruct (has_any_scope_prefix_access s issuer scope READ).
  - rewrite Hp by done. apply steady_refl.
  - destruct (has_any_scope_prefix_access s' issuer scope READ); simpl; [|apply steady_refl].
    destruct (did_account s scope name); by apply steady_Ok.
Qed.

Lemma steady_access scope name op :
  steady (rbac_permission_access s issuer scope name op orelse rbac_did_ownership_access s issuer scope name)
         (rbac_permission_access s' issuer scope name op orelse rbac_did_ownership_access s' issuer scope name).
Proof. apply steady_or; [apply steady_permission|apply steady_ownership|apply permission_ok]. Qed.

Lemma up_new_ownership did :
  up (rbac_new_did_ownership_access s issuer did) (rbac_new_did_ownership_access s' issuer did).
Proof.
  unfold rbac_new_did_ownership_access. apply up_bind. intros o _. apply up_if; [apply up_refl|].
  do 2 (apply up_bind; intros ? _). apply steady_up, steady_Ok, more_prefix.
Qed.

#[local] Hint Resolve steady_admin steady_privileged up_privileged steady_permission steady_ownership
  steady_access up_new_ownership permission_ok : mono.

Lemma steady_can_alter scope name :
  steady (rbac_can_alter_did s issuer scope name) (rbac_can_alter_did s' issuer scope name).
Proof. apply steady_access. Qed.
Lemma steady_can_read scope name :
  steady (rbac_can_read_did s issuer scope name) (rbac_can_read_did s' issuer scope name).
Proof. apply steady_access. Qed.
Lemma steady_attach_into scope name :
  steady (rbac_can_attach_into s issuer scope name) (rbac_can_attach_into s' issuer scope name).
Proof. apply steady_access. Qed.
#[local] Hint Resolve steady_can_alter steady_can_read steady_attach_into : mono.

Ltac mono := eauto 12 with mono.

Lemma up_attach_dids dids registered :
  up (rbac_can_attach_dids s issuer dids registered) (rbac_can_attach_dids s' issuer dids registered).
Proof.
  unfold rbac_can_attach_dids. apply up_bind. intros l _. apply up_allM. intros d _.
  change (did_exists s' d.1 d.2) with (did_exists s d.1 d.2). mono.
Qed.

Lemma up_alter_rule id : up (rbac_can_alter_rule s issuer id) (rbac_can_alter_rule s' issuer id).
Proof.
  unfold rbac_can_alter_rule. change (get_rule s' id) with (get_rule s id).
  destruct (get_rule s id) as [rule|]; [|apply up_refl]. apply up_or; [|mono].
  apply steady_Ok. intros [Ha Hp]%andb_true_iff. rewrite Ha. by apply more_prefix.
Qed.

Lemma up_alter_metadata scope name keys :
  up (rbac_can_alter_metadata s issuer scope name keys) (rbac_can_alter_metadata s' issuer scope name keys).
Proof. unfold rbac_can_alter_metadata. mono. Qed.

Lemma up_detach_from scope name dids :
  up (rbac_can_detach_from s issuer scope name dids) (rbac_can_detach_from s' issuer scope name dids).
Proof. unfold rbac_can_detach_from. mono. Qed.

Lemma up_create_did did : up (rbac_can_create_did s issuer did) (rbac_can_create_did s' issuer did).
Proof.
  unfold rbac_can_create_did. apply up_bind. intros d _. apply up_bind. intros o _.
  apply up_if; [apply up_refl|]. apply up_and; [mono|]. apply up_bind. intros keys _. mono.
Qed.

Lemma up_create_did_with did : up (rbac_can_create_did_with s issuer did) (rbac_can_create_did_with s' issuer did).
Proof.
  unfold rbac_can_create_did_with. apply up_bind. intros d _. apply up_and; [mono|].
  apply up_bind. intros dids _. apply up_attach_dids.
Qed.

Lemma up_register_replicas kwargs :
  up (rbac_can_register_replicas s issuer kwargs) (rbac_can_register_replicas s' issuer kwargs).
Proof.
  unfold rbac_can_register_replicas. apply up_if; (apply up_bind; intros ? _; apply up_bind; intros ? _; apply up_allM; intros d _).
  - mono.
  - change (did_exists s' d.1 d.2) with (did_exists s d.1 d.2). mono.
Qed.

Lemma up_delete_replicas kwargs :
  up (rbac_can_delete_replicas s issuer kwargs) (rbac_can_delete_replicas s' issuer kwargs).
Proof.
  unfold rbac_can_delete_replicas. apply up_and; [apply up_refl|].
  apply up_bind; intros ? _; apply up_bind; intros ? _; apply up_allM; intros d _.
  apply up_and; [mono|apply up_refl].
Qed.

Lemma up_update_replica_state rse file :
  up (rbac_can_update_replica_state s issuer rse file) (rbac_can_update_replica_state s' issuer rse file).
Proof.
  unfold rbac_can_update_replica_state. apply up_bind. intros d _. apply up_if; [apply up_refl|].
  apply up_or; [mono|]. apply up_bind. intros f _. apply up_if; [apply up_refl|].
  apply up_or; [|mono]. apply steady_bind. intros o _. apply steady_and_l. mono.
Qed.

Lemma up_update_replica_states kwargs :
  up (rbac_can_update_replica_states s issuer kwargs) (rbac_can_update_replica_states s' issuer kwargs).
Proof.
  unfold rbac_can_update_replica_states. apply up_and; [apply up_refl|].
  apply up_bind; intros ? _; apply up_allM; intros d _. do 2 (apply up_bind; intros ? _). apply up_update_replica_state.
Qed.

#[local] Hint Resolve up_attach_dids up_alter_rule up_alter_metadata up_detach_from up_create_did
  up_create_did_with up_register_replicas up_delete_replicas up_update_replica_states : mono.

Lemma up_privileged_or r r' :
  up r r' -> up (Ok (is_root issuer) orelse Ok (is_admin s issuer) orelse r)
                (Ok (is_root issuer) orelse Ok (is_admin s' issuer) orelse r').
Proof. intros Hr. apply up_or; [apply steady_refl|]. apply up_or; [apply steady_admin|done]. Qed.
#[local] Hint Resolve up_privileged_or : mono.

Lemma up_perm_default kwargs : up (perm_default s issuer kwargs) (perm_default s' issuer kwargs).
Proof. apply steady_up, steady_privileged. Qed.

Lemma up_perm_add_rule kwargs : up (perm_add_rule s issuer kwargs) (perm_add_rule s' issuer kwargs).
Proof.
  unfold perm_add_rule. apply up_bind. intros a _. apply up_bind. intros own _.
  apply up_if; [|apply (up_perm_default kwargs)].
  apply up_or; [apply steady_refl|]. apply up_privileged_or.
  do 2 (apply up_bind; intros ? _). unfold rbac_can_read_dids. apply up_bind. intros l _.
  apply up_allM. intros d _. mono.
Qed.

Lemma up_perm_add_did kwargs : up (perm_add_did s issuer kwargs) (perm_add_did s' issuer kwargs).
Proof.
  unfold perm_add_did. pose proof more_admin as Ha.
  destruct (is_root issuer); [apply up_refl|]. cbn [negb andb orb].
  destruct (is_admin s issuer); [rewrite Ha by done; apply up_refl|]. cbn [negb andb orb].
  destruct (is_admin s' issuer); cbn [negb andb orb]; [intros _; done|].
  apply up_and; [apply up_refl|]. apply up_and.
  - apply up_or; [apply steady_refl|]. apply up_or; [apply steady_refl|]. mono.
  - apply up_or; [apply steady_refl|]. mono.
Qed.

Lemma up_perm_add_dids kwargs : up (perm_add_dids s issuer kwargs) (perm_add_dids s' issuer kwargs).
Proof.
  unfold perm_add_dids. do 2 (apply up_bind; intros ? _). apply up_allM. intros d _.
  apply up_bind. intros ? _. apply up_perm_add_did.
Qed.

Lemma up_attach kwargs : up (rbac_can_attach s issuer kwargs) (rbac_can_attach s' issuer kwargs).
Proof. unfold rbac_can_attach. apply up_bind. intros l _. mono. Qed.

Lemma up_into kwargs : up (attach_into s issuer kwargs) (attach_into s' issuer kwargs).
Proof. unfold attach_into. apply up_bind. intros l _. mono. Qed.
#[local] Hint Resolve up_attach up_into : mono.

Lemma up_perm_attach_dids kwargs : up (perm_attach_dids s issuer kwargs) (perm_attach_dids s' issuer kwargs).
Proof.
  unfold perm_attach_dids. apply up_privileged.
  assert (up (owns_scope s issuer kwargs orelse mock_scope kwargs orelse (Ok (use_roles s) andalso attach_into s issuer kwargs))
             (owns_scope s' issuer kwargs orelse mock_scope kwargs orelse (Ok (use_roles s') andalso attach_into s' issuer kwargs)))
    as Hallowed by (apply up_or; [apply steady_refl|]; apply up_or; [apply steady_refl|]; mono).
  intros (allowed & Ha & Hrest)%bind_Ok. apply bind_Ok in Hrest as (v & Hv & (att & Hatt & Hrest)%bind_Ok).
  apply andM_true in Hrest as [[= ->] Hrest]. apply Hallowed in Ha. rewrite Ha. cbn [bindR].
  rewrite Hv. cbn [bindR]. rewrite Hatt. cbn [bindR]. apply andM_true. split; [done|].
  revert Hrest. apply up_or; [apply steady_refl|apply up_attach].
Qed.

Lemma not_and_not (b : bool) r : notM (Ok b andalso notM r) = Ok true <-> b = false \/ r = Ok true.
Proof. destruct b, r as [[]|]; simpl; naive_solver. Qed.

Lemma up_perm_attach_dids_to_dids kwargs :
  up (perm_attach_dids_to_dids s issuer kwargs) (perm_attach_dids_to_dids s' issuer kwargs).
Proof.
  unfold perm_attach_dids_to_dids. apply up_privileged. do 2 (apply up_bind; intros ? _).
  apply up_allM. intros a _. apply up_bind. intros att _. apply up_and.
  - apply up_or; [apply steady_refl|]. mono.
  - unfold up. rewrite !not_and_not. intros [Hb|Hr]; [by left|right]. by apply up_attach.
Qed.

Lemma up_alter kwargs : up (alter_rule s issuer kwargs) (alter_rule s' issuer kwargs).
Proof. unfold alter_rule. do 2 (apply up_bind; intros ? _). apply up_alter_rule. Qed.

Lemma up_metadata kwargs keys : up (alter_metadata s issuer kwargs keys) (alter_metadata s' issuer kwargs keys).
Proof.
  unfold alter_metadata. apply up_and; [apply up_refl|]. do 2 (apply up_bind; intros ? _). apply up_alter_metadata.
Qed.
#[local] Hint Resolve up_alter up_metadata : mono.

Lemma up_perm_read_scope kwargs : up (perm_read_scope s issuer kwargs) (perm_read_scope s' issuer kwargs).
Proof.
  unfold perm_read_scope, use_roles. cbn [rbac_enabled set_role_tables]. destruct (rbac_enabled s); [|apply up_refl]. cbn [negb andb orb].
  apply up_privileged. apply up_if; [apply up_bind; intros ? _; mono|].
  apply up_or; [apply steady_refl|]. do 2 (apply up_bind; intros ? _). apply steady_up, steady_Ok, more_prefix.
Qed.

Lemma up_perm_set_status kwargs : up (perm_set_status s issuer kwargs) (perm_set_status s' issuer kwargs).
Proof.
  unfold perm_set_status. pose proof more_admin as Ha.
  destruct (is_root issuer); cbn [negb andb orb]; [rewrite andb_false_r; apply up_refl|]. rewrite !andb_true_r.
  destruct (is_admin s issuer); cbn [negb andb orb]; [rewrite Ha by done; apply up_refl|]. rewrite andb_true_r.
  destruct (truthy _); [intros [=]|]. cbn [negb andb orb]. destruct (is_admin s' issuer); [intros _; done|apply up_refl].
Qed.

Lemma up_perm_list_role_permissions kwargs :
  up (perm_list_role_permissions s issuer kwargs) (perm_list_role_permissions s' issuer kwargs).
Proof.
  unfold perm_list_role_permissions. apply up_privileged_or. do 2 (apply up_bind; intros ? _).
  apply steady_up, steady_Ok, (mr_held Hmore).
Qed.

Lemma up_usage kwargs : up (account_usage s issuer kwargs) (account_usage s' issuer kwargs).
Proof.
  unfold account_usage. destruct (about_issuer issuer kwargs); [rewrite !orb_true_r; apply up_refl|].
  rewrite !orb_false_r. apply up_privileged, up_refl.
Qed.

Lemma up_perm_update_lifetime_exceptions kwargs :
  up (perm_update_lifetime_exceptions s issuer kwargs) (perm_update_lifetime_exceptions s' issuer kwargs).
Proof.
  unfold perm_update_lifetime_exceptions. do 2 (apply up_bind; intros ? _). apply up_if; [|apply up_refl].
  apply (up_perm_default kwargs).
Qed.

Lemma up_perm_signed_url kwargs : up (perm_get_signed_url s issuer kwargs) (perm_get_signed_url s' issuer kwargs).
Proof. apply up_refl. Qed.

Definition same_handler (x y : string * (InternalType -> Kwargs -> result bool)) : Prop :=
  x.1 = y.1 /\ forall kwargs, up (x.2 issuer kwargs) (y.2 issuer kwargs).

#[local] Hint Resolve up_perm_default up_perm_add_rule up_perm_add_did up_perm_add_dids up_perm_attach_dids
  up_perm_attach_dids_to_dids up_perm_read_scope up_perm_set_status up_perm_list_role_permissions up_usage
  up_perm_update_lifetime_exceptions up_perm_signed_url : mono.

Lemma up_perm : Forall2 same_handler (perm s) (perm s').
Proof.
  unfold perm. repeat (constructor; [split; [done|]; intros kwargs; cbn [fst snd]|]).
  all: try exact (up_perm_default kwargs).
  all: try (apply up_privileged; apply up_refl).
  all: try (apply up_privileged_or; apply up_refl).
  all: try apply up_refl.
  all: try solve [mono].
  - unfold perm_set_global_account_limit. apply up_privileged.
    destruct (resolved_rse_countries_raises s issuer kwargs) as [e ->]. by destruct (admin_in_country s issuer).
  - unfold perm_delete_global_account_limit. apply up_privileged.
    destruct (resolved_rse_countries_raises s issuer kwargs) as [e ->].
    destruct (admin_in_country s issuer) as [c|]; [|done]. simpl. by destruct (bool_decide (c = [])).
Qed.

Lemma assoc_up action (l l' : list (string * (InternalType -> Kwargs -> result bool))) kwargs :
  Forall2 same_handler l l' ->
  up (default (perm_default s) (assoc l action) issuer kwargs) (default (perm_default s') (assoc l' action) issuer kwargs).
Proof.
  intros Hl. induction Hl as [|[k f] [k' f'] l l' [Hk Hf] Hl IH]; simpl; [apply (up_perm_default kwargs)|].
  simpl in Hk. subst k'. destruct (bool_decide (k = action)); [apply Hf|apply IH].
Qed.

(** C17: roles only ever add rights: an action the policy allows stays allowed when the role
    tables grant the account more, whatever the action and its arguments. *)
Theorem roles_only_add_rights action kwargs :
  has_permission s issuer action kwargs = Ok true -> has_permission s' issuer action kwargs = Ok true.
Proof. apply assoc_up, up_perm. Qed.

End monotone.

(** ** Without RBAC *)

Section without_rbac.
Variables (s : Session) (t : RoleTables) (issuer : InternalType).
Hypothesis Hoff : rbac_enabled s = false.
Abbreviation s1 := (set_role_tables s t).

Lemma off_use_roles : use_roles s = false.
Proof. exact Hoff. Qed.
Lemma off_use_roles' : use_roles s1 = false.
Proof. exact Hoff. Qed.
Lemma off_is_admin : is_admin s1 issuer = is_admin s issuer.
Proof. unfold is_admin. by rewrite off_use_roles, off_use_roles'. Qed.

Lemma off_perm_default kwargs : perm_default s1 issuer kwargs = perm_default s issuer kwargs.
Proof. unfold perm_default. by rewrite off_is_admin. Qed.

Lemma off_add_did kwargs : perm_add_did s1 issuer kwargs = perm_add_did s issuer kwargs.
Proof. unfold perm_add_did. by rewrite off_is_admin, off_use_roles, off_use_roles'. Qed.

Lemma off_to_dids kwargs : perm_attach_dids_to_dids s1 issuer kwargs = perm_attach_dids_to_dids s issuer kwargs.
Proof. unfold perm_attach_dids_to_dids. by rewrite off_is_admin, off_use_roles, off_use_roles'. Qed.

Lemma off_countries kwargs : resolved_rse_countries s1 issuer kwargs = resolved_rse_countries s issuer kwargs.
Proof. unfold resolved_rse_countries. destruct (getitem _ _); [|done]. simpl. destruct (as_str _); [|done]. simpl.
  by rewrite parse_expression_roles. Qed.

Lemma off_add_dids kwargs : perm_add_dids s1 issuer kwargs = perm_add_dids s issuer kwargs.
Proof.
  unfold perm_add_dids. destruct (getitem _ _); [|done]. simpl. destruct (as_list _) as [l|]; [|done]. simpl.
  induction l as [|d l IH]; simpl; [done|]. rewrite IH. destruct (as_dict d); simpl; [by rewrite off_add_did|done].
Qed.


Lemma off_perm :
  Forall2 (fun x y => x.1 = y.1 /\ (x.1 <> "list_role_permissions"%string ->
                       forall kwargs, x.2 issuer kwargs = y.2 issuer kwargs)) (perm s1) (perm s).
Proof.
  unfold perm. repeat (constructor; [split; [done|]; intros Hne kwargs; cbn [fst snd]|]).
  all: try exact (off_perm_default kwargs).
  all: try reflexivity.
  all: try done.
  all: try solve [apply off_add_did|apply off_add_dids|apply off_to_dids].
  all: match goal with |- ?f _ _ _ = _ => let h := head_of f in unfold h end.
  all: unfold local_account_limit, account_usage; rewrite ?off_is_admin, ?off_use_roles, ?off_use_roles', ?off_countries.
  all: reflexivity.
Qed.

(** Without RBAC the role tables do not matter: the policy decides the same whatever they
    hold, for every action but the listing of the permissions of a role. *)
Theorem without_rbac_roles_are_inert action kwargs :
  action <> "list_role_permissions"%string ->
  has_permission s1 issuer action kwargs = has_permission s issuer action kwargs.
Proof.
  intros Hne. unfold has_permission. pose proof off_perm as Hl. revert Hl. generalize (perm s1) (perm s).
  intros l l' Hl. induction Hl as [|[k f] [k' f'] l l' [Hk Hf] _ IH]; simpl; [apply off_perm_default|].
  simpl in Hk. subst k'. case_bool_decide; [|done]. subst k. by apply Hf.
Qed.

End without_rbac.

End facts.

Lemma listing_filter_is_policy_witness :
  filter_by_did_access demo_role_session alice (did_access_checker demo_role_session alice READ false)
    (listing [(InternalScope "data1" DEFAULT_VO, "x"); (InternalScope "mc" DEFAULT_VO, "aod1")]%string) =
  Ok (listing [(InternalScope "data1" DEFAULT_VO, "x")]%string).
Proof.
  rewrite (@listing_filter_is_policy name_expressions demo_role_session alice); [by vm_compute|done|].
  repeat constructor; done.
Defined.
