(* ===== verification/PermissionSafety.v ===== *)
(** * What the generic policy never grants, and always grants

    Safety of [Permission.has_permission]: the limits of what roles can do to metadata,
    replicas and rules, and the actions root may always perform. *)

From S2P Require Import Prelude PyString Types Database Role Permission PermissionFacts.

(** The positive decision of a policy function, step by step. *)
Ltac inv_true :=
  repeat match goal with
  | H : (_ andalso _) = Ok true |- _ => apply andM_true in H as [? ?]
  | H : notM _ = Ok true |- _ => apply notM_true in H
  | H : bindR _ _ = Ok _ |- _ => apply bind_Ok in H as (? & ? & ?)
  | H : or_raise _ _ = Ok _ |- _ => apply or_raise_Ok in H
  | H : Ok _ = Ok _ |- _ => injection H as H; try subst
  | H : Err _ = Ok _ |- _ => discriminate H
  end.

Section safety.
Context `{RSEExpressions}.
Variables (s : Session) (issuer : InternalType).

(** ** Root *)

(** The actions whose check does not begin with the test for root. *)
Definition not_for_root : list string :=
  ["get_auth_token_user_pass"; "get_auth_token_gss"; "get_auth_token_x509"; "delete_replicas";
   "add_rule"; "add_dids"; "update_lifetime_exceptions"]%string.

Lemma root_perm :
  is_root issuer = true ->
  Forall (fun kf => existsb (String.eqb kf.1) not_for_root = false -> forall kwargs, kf.2 issuer kwargs = Ok true) (perm s).
Proof.
  intros Hr. unfold perm. repeat (constructor; [intros Hne kwargs; cbn [fst snd] in *|]).
  all: try exact (Forall_nil_2 _).
  all: try discriminate Hne.
  all: clear Hne.
  all: match goal with |- ?f _ _ = _ => let h := head_of f in unfold h end.
  all: unfold local_account_limit, account_usage, perm_add_account_attribute; rewrite ?Hr; cbn [orb negb andb].
  all: rewrite ?orb_true_r, ?andb_false_r; try reflexivity.
Qed.

(** Root is allowed every action, known to the policy or not and whatever its arguments,
    but for the tokens of other identities, the deletion of replicas (which the policy only
    grants through roles), and three actions whose arguments are read first. *)
Theorem root_is_allowed action kwargs :
  is_root issuer = true -> action ∉ not_for_root -> has_permission s issuer action kwargs = Ok true.
Proof.
  intros Hr Hne. unfold has_permission. pose proof (root_perm Hr) as Hl. revert Hl. generalize (perm s).
  intros l Hl. induction Hl as [|[k f] l Hf _ IH]; simpl; [unfold perm_default; by rewrite Hr|].
  case_bool_decide; [|done]. subst k. apply Hf. cbn [fst]. apply not_true_iff_false. intros He. apply Hne.
  apply existsb_true in He as (x & Hx & ->%String.eqb_eq). done.
Qed.

(** ** Metadata held by Rucio *)

(** The metadata keys an action sets. *)
Definition metadata_keys (action : string) (kwargs : Kwargs) : result (list Value) :=
  if bool_decide (action = "set_metadata"%string) then
    let* k := getitem kwargs "key" in set_of (PList [k])
  else if bool_decide (action = "set_metadata_bulk"%string) then
    let* m := getitem kwargs "meta" in set_of m
  else if get_truthy kwargs "meta" then set_of (get_or kwargs "meta" PNone) else Ok [].

Definition unprivileged : Prop := is_root issuer = false /\ is_admin s issuer = false.

Lemma alter_metadata_keys kwargs keys :
  alter_metadata s issuer kwargs keys = Ok true ->
  exists v ks, keys = Ok v /\ set_of v = Ok ks /\ meets ks RBAC_PROTECTED_METADATA_KEYS = false.
Proof.
  unfold alter_metadata, rbac_can_alter_metadata. intros Ht. inv_true.
  destruct (meets _ _) eqn:Hm; [done|]. eauto 10.
Qed.

Lemma owned_or a kwargs b :
  owns_scope s a kwargs <> Ok true -> (owns_scope s a kwargs orelse b) = Ok true -> b = Ok true.
Proof. py_logic. Qed.

(** C21: no role lets an account that is not root, an admin or the owner of the scope set the
    metadata held by Rucio itself (name, size, checksums, state...), neither one key at a
    time, nor in bulk, nor on a DID it creates outside the mock scope. *)
Theorem protected_metadata_never_granted action kwargs :
  unprivileged -> owns_scope s issuer kwargs <> Ok true -> mock_scope kwargs <> Ok true ->
  action ∈ ["set_metadata"; "set_metadata_bulk"; "add_did"]%string ->
  has_permission s issuer action kwargs = Ok true ->
  exists keys, metadata_keys action kwargs = Ok keys /\ meets keys RBAC_PROTECTED_METADATA_KEYS = false.
Proof.
  intros [Hr Ha] Hown Hmock Hin Hp. rewrite !elem_of_cons in Hin.
  destruct Hin as [->|[->|[->|Hin]]]; [| | |by apply not_elem_of_nil in Hin].
  - change (perm_set_metadata s issuer kwargs = Ok true) in Hp. unfold perm_set_metadata in Hp.
    rewrite Hr, Ha in Hp. apply owned_or in Hp; [|done]. inv_true.
    edestruct alter_metadata_keys as (v & ks & Hv & Hks & Hm); [eassumption|].
    apply map_Ok in Hv as (k & Hk & <-). unfold metadata_keys. rewrite bool_decide_true by done.
    rewrite Hk. cbn [bindR]. eauto.
  - change (perm_set_metadata_bulk s issuer kwargs = Ok true) in Hp. unfold perm_set_metadata_bulk in Hp.
    rewrite Hr, Ha in Hp. apply owned_or in Hp; [|done]. inv_true.
    edestruct alter_metadata_keys as (v & ks & Hv & Hks & Hm); [eassumption|].
    unfold metadata_keys. rewrite bool_decide_false, bool_decide_true by done.
    rewrite Hv. cbn [bindR]. eauto.
  - change (perm_add_did s issuer kwargs = Ok true) in Hp. unfold perm_add_did in Hp.
    rewrite Hr, Ha in Hp. cbn [negb andb orb] in Hp. inv_true.
    match goal with Hx : (owns_scope _ _ _ orelse _) = Ok true |- _ => apply owned_or in Hx; [|done];
      apply orM_true in Hx as [?|[_ Hx]]; [done|] end.
    inv_true. unfold rbac_can_create_did in *. inv_true.
    destruct (negb (ieq _ _)); [done|]. inv_true. unfold metadata_keys. rewrite !bool_decide_false by done.
    match goal with Hk : _ = Ok ?x, Hm : (if meets ?x _ then _ else _) = _ |- _ => exists x; split; [exact Hk|];
      by destruct (meets x RBAC_PROTECTED_METADATA_KEYS) end.
Qed.

(** ** Replicas of other accounts *)

Lemma as_list_Ok v l : as_list v = Ok l -> v = PList l.
Proof. destruct v; simpl; congruence. Qed.

Lemma as_str_Ok v x : as_str v = Ok x -> v = PStr x.
Proof. destruct v; simpl; congruence. Qed.

Lemma guard_true kwargs :
  rbac_replica_guard kwargs = Ok true ->
  exists rse, get kwargs "rse" = Some rse /\ ends_with_any RBAC_REPLICA_RSE_SUFFIXES (py_str rse) = true.
Proof.
  unfold rbac_replica_guard, getitem. intros (rse & Hrse & Hg)%bind_Ok. apply or_raise_Ok in Hrse.
  exists rse. split; [done|]. by destruct (ends_with_any _ _).
Qed.

Lemma not_held rse_id d :
  rbac_held_by_other_accounts s issuer rse_id d = false ->
  forall l, l ∈ replica_locks s rse_id d -> is_int (lock_account l) issuer = true.
Proof.
  intros Hh l Hl. apply not_false_iff_true. intros Hf. apply not_true_iff_false in Hh. apply Hh.
  apply existsb_true. exists l. split; [done|]. by rewrite Hf.
Qed.

Lemma same_did_refl d : same_did d d = true.
Proof. unfold same_did, ieq. by rewrite !bool_decide_true. Qed.

Lemma internal_dids_acc dids acc l d :
  foldM (fun acc did => let* d := internal_did issuer did in
           Ok (if existsb (same_did d) acc then acc else acc ++ [d])) acc dids = Ok l ->
  existsb (same_did d) acc = true \/ (exists v, v ∈ dids /\ internal_did issuer v = Ok d) ->
  existsb (same_did d) l = true.
Proof.
  revert acc. induction dids as [|x dids IH]; intros acc; simpl.
  - intros [= <-] [?|(v & Hv & _)]; [done|by apply not_elem_of_nil in Hv].
  - intros (acc' & Hx & Hrest)%bind_Ok Hd. apply bind_Ok in Hx as (dx & Hdx & Hx). injection Hx as <-.
    apply (IH _ Hrest). destruct Hd as [Hacc|(v & [->|Hv]%elem_of_cons & Hd)]; [left|left|right; eauto].
    + destruct (existsb (same_did dx) acc); [done|]. by rewrite existsb_app, Hacc.
    + rewrite Hd in Hdx. injection Hdx as <-. destruct (existsb (same_did d) acc) eqn:He; [done|].
      rewrite existsb_app. simpl. by rewrite same_did_refl, orb_true_r.
Qed.

Lemma internal_dids_elem dids l v d :
  internal_dids issuer dids = Ok l -> v ∈ dids -> internal_did issuer v = Ok d ->
  exists d', d' ∈ l /\ internal d'.1 = internal d.1 /\ d'.2 = d.2.
Proof.
  intros Hl Hv Hd. eapply internal_dids_acc in Hl; [|right; by exists v].
  apply existsb_true in Hl as (d' & Hin & [Hi%ieq_true Hn%bool_decide_eq_true]%andb_true_iff). eauto.
Qed.

(** Locks are looked up by the internal scope. *)
Lemma replica_locks_same rse_id d d' :
  internal d'.1 = internal d.1 -> d'.2 = d.2 -> replica_locks s rse_id d' = replica_locks s rse_id d.
Proof. intros Hi Hn. unfold replica_locks, get_replica_locks, is_int. by rewrite Hi, Hn. Qed.

(** C22: with the rights of roles alone an account deletes replicas, or updates their states,
    only on the RSEs reserved to users, and never touches a replica a rule of another account
    locks. *)
Theorem others_replicas_untouched action kwargs :
  (action = "delete_replicas"%string \/ (action = "update_replicas_states"%string /\ unprivileged)) ->
  has_permission s issuer action kwargs = Ok true ->
  rbac_enabled s = true /\
  exists rse dids,
    get kwargs "rse" = Some rse /\ ends_with_any RBAC_REPLICA_RSE_SUFFIXES (py_str rse) = true /\
    get_or kwargs "dids" PNone = PList dids /\
    forall file d, file ∈ dids -> internal_did issuer file = Ok d ->
      exists rse_id, get kwargs "rse_id" = Some (PStr rse_id) /\
        forall l, l ∈ replica_locks s rse_id d -> is_int (lock_account l) issuer = true.
Proof.
  intros Hact Hp. destruct Hact as [->|[-> [Hr Ha]]].
  - change (perm_delete_replicas s issuer kwargs = Ok true) in Hp.
    unfold perm_delete_replicas, rbac_can_delete_replicas in Hp.
    apply andM_true in Hp as [Hon Hp]. split; [by injection Hon|].
    apply andM_true in Hp as [(rse & Hrse & Hsuf)%guard_true (dids & Hdids%as_list_Ok & (l & Hl & Hall)%bind_Ok)%bind_Ok].
    exists rse, dids. split_and!; [done..|]. intros file d Hfile Hd.
    destruct (internal_dids_elem dids l file d Hl Hfile Hd) as (d' & Hd' & Hi & Hn).
    rewrite allM_true in Hall. apply Hall in Hd'.
    apply andM_true in Hd' as [_ (v & Hv%or_raise_Ok & (rse_id & Hid%as_str_Ok & Hheld)%bind_Ok)%bind_Ok].
    subst v. exists rse_id. split; [done|]. rewrite <-(replica_locks_same rse_id d d' Hi Hn). apply not_held.
    injection Hheld. by intros ?%negb_true_iff.
  - change (perm_update_replicas_states s issuer kwargs = Ok true) in Hp.
    unfold perm_update_replicas_states, rbac_can_update_replica_states in Hp. rewrite Hr, Ha in Hp. cbn [orM bindR] in Hp.
    apply andM_true in Hp as [Hon Hp]. split; [by injection Hon|].
    apply andM_true in Hp as [(rse & Hrse & Hsuf)%guard_true (dids & Hdids%as_list_Ok & Hall)%bind_Ok].
    exists rse, dids. split_and!; [done..|]. intros file d Hfile Hd.
    rewrite allM_true in Hall. apply Hall in Hfile.
    apply bind_Ok in Hfile as (v & Hv%or_raise_Ok & (rse_id & Hid%as_str_Ok & Hup)%bind_Ok).
    subst v. exists rse_id. split; [done|]. apply not_held.
    unfold rbac_can_update_replica_state in Hup. rewrite Hd in Hup. cbn [bindR] in Hup.
    by destruct (rbac_held_by_other_accounts s issuer rse_id d).
Qed.

(** ** Rules *)

(** What lets an account that is neither root nor an admin change a rule. *)
Definition rule_alterable (rule : RuleKey) : Prop :=
  (is_int (rule_account rule) issuer = true /\
   has_any_scope_prefix_access s issuer (stored_scope (rule_scope rule)) READ = true) \/
  is_scope_owner s (stored_scope (rule_scope rule)) issuer = true \/
  Role.has_permission s issuer
    (DidPermissionRequest DELETE (stored_scope (rule_scope rule)) (Some (rule_name rule))) = Ok true.

Lemma alter_rule_true kwargs :
  alter_rule s issuer kwargs = Ok true ->
  exists id rule, get kwargs "rule_id" = Some (PStr id) /\ rules s !! id = Some rule /\ rule_alterable rule.
Proof.
  intros (v & Hv%or_raise_Ok & (id & Hid%as_str_Ok & Ht)%bind_Ok)%bind_Ok. subst v.
  unfold rbac_can_alter_rule in Ht. destruct (get_rule s id) as [rule|] eqn:Hrule; [|done].
  apply or_raise_Ok in Hrule. exists id, rule. split_and!; [done..|]. unfold rule_alterable.
  apply orM_true in Ht as [[= Ho]|[_ Ht]]; [left; by apply andb_true_iff|right].
  unfold rbac_permission_access in Ht. destruct (is_scope_owner _ _ _); [by left|by right].
Qed.

(** An account that is neither root nor an admin changes a rule only with RBAC on, and
    only a rule that exists and that it owns (reading its scope), whose scope it owns, or on
    whose DID it holds 'delete'; it updates nothing but the lifetime, comment, notification
    and purge options, and it neither locks nor gives away the rule it moves. *)
Theorem rule_changes_guarded action kwargs :
  unprivileged -> action ∈ ["del_rule"; "reduce_rule"; "update_rule"; "move_rule"]%string ->
  has_permission s issuer action kwargs = Ok true ->
  rbac_enabled s = true /\
  (exists id rule, get kwargs "rule_id" = Some (PStr id) /\ rules s !! id = Some rule /\ rule_alterable rule) /\
  (action = "update_rule"%string -> exists v options, get kwargs "options" = Some v /\ set_of v = Ok options /\
     within options RBAC_UPDATABLE_RULE_OPTIONS = true) /\
  (action = "move_rule"%string -> exists o, get kwargs "override" = Some (PDict o) /\
     get_truthy o "locked" = false /\ is_account (get_or o "account" (PAccount issuer)) issuer = true).
Proof.
  intros [Hr Ha] Hin Hp. rewrite !elem_of_cons in Hin.
  destruct Hin as [->|[->|[->|[->|Hin]]]]; [| | | |by apply not_elem_of_nil in Hin].
  - change (perm_del_rule s issuer kwargs = Ok true) in Hp. unfold perm_del_rule in Hp.
    rewrite Hr, Ha in Hp. apply andM_true in Hp as [Hon Hrule%alter_rule_true].
    split; [by injection Hon|]. by split.
  - change (perm_reduce_rule s issuer kwargs = Ok true) in Hp. unfold perm_reduce_rule in Hp.
    rewrite Hr, Ha in Hp. apply andM_true in Hp as [Hon Hrule%alter_rule_true].
    split; [by injection Hon|]. by split.
  - change (perm_update_rule s issuer kwargs = Ok true) in Hp. unfold perm_update_rule in Hp.
    rewrite Hr, Ha in Hp. apply andM_true in Hp as [Hon [Hopt Hrule%alter_rule_true]%andM_true].
    split; [by injection Hon|]. split_and!; [done| |done]. intros _.
    apply bind_Ok in Hopt as (v & Hv%or_raise_Ok & (opts & Ho & [= Hw])%bind_Ok). eauto.
  - change (perm_move_rule s issuer kwargs = Ok true) in Hp. unfold perm_move_rule in Hp.
    rewrite Hr, Ha in Hp. apply andM_true in Hp as [Hon [Hlock [Hacc Hrule%alter_rule_true]%andM_true]%andM_true].
    split; [by injection Hon|]. split_and!; [done|done|]. intros _. unfold override in *.
    apply bind_Ok in Hlock as (o & Ho & [= Hl%negb_true_iff]). rewrite Ho in Hacc. injection Hacc as Hacc.
    apply bind_Ok in Ho as (v & Hv%or_raise_Ok & Hd). destruct v; try done. injection Hd as ->. eauto.
Qed.

(** ** Global account limits *)

(** The policy never lets a country admin who is neither root nor an admin set or delete
    a global account limit: once the expression resolves, the check raises a [KeyError]. *)
Theorem global_limits_never_delegated action kwargs :
  unprivileged -> action ∈ ["set_global_account_limit"; "delete_global_account_limit"]%string ->
  has_permission s issuer action kwargs <> Ok true /\
  forall countries e l, admin_in_country s issuer = Ok countries -> countries <> [] ->
    get kwargs "rse_expression" = Some (PStr e) -> parse_expression s e (Some (vo issuer)) = Ok l ->
    has_permission s issuer action kwargs = Err KeyError.
Proof.
  intros [Hr Ha] Hin. rewrite !elem_of_cons in Hin.
  assert (forall countries e l, admin_in_country s issuer = Ok countries -> countries <> [] ->
    get kwargs "rse_expression" = Some (PStr e) -> parse_expression s e (Some (vo issuer)) = Ok l ->
    resolved_rse_countries s issuer kwargs = Err KeyError) as Hkey.
  { intros countries e l _ _ He Hl. unfold resolved_rse_countries, getitem. rewrite He. cbn [or_raise bindR as_str].
    rewrite Hl. destruct l as [|r l]; [by apply parse_expression_nonempty in Hl|done]. }
  destruct (resolved_rse_countries_raises s issuer kwargs) as [x Hx].
  destruct Hin as [->|[->|Hin]]; [| |by apply not_elem_of_nil in Hin].
  - change (has_permission s issuer "set_global_account_limit" kwargs) with (perm_set_global_account_limit s issuer kwargs).
    unfold perm_set_global_account_limit. rewrite Hr, Ha. cbn [orb]. split.
    + rewrite Hx. by destruct (admin_in_country s issuer).
    + intros countries e l Hc Hne He Hl. by rewrite (Hkey _ _ _ Hc Hne He Hl), Hc.
  - change (has_permission s issuer "delete_global_account_limit" kwargs) with (perm_delete_global_account_limit s issuer kwargs).
    unfold perm_delete_global_account_limit. rewrite Hr, Ha. cbn [orb]. split.
    + rewrite Hx. destruct (admin_in_country s issuer) as [c|]; [|done]. simpl. by destruct (bool_decide (c = [])).
    + intros countries e l Hc Hne He Hl. rewrite (Hkey _ _ _ Hc Hne He Hl), Hc. cbn [bindR].
      by rewrite bool_decide_false.
Qed.

End safety.

(** ** Examples *)

(** Alice manages the raw names of [mc] through a role and administers the sites of [de]. *)
Definition demo_policy_session : Session :=
  {| now := 100; rbac_enabled := true; SCOPE_LENGTH := 25; NAME_LENGTH := 250;
     role_tables :=
       Tables {[ "manager" := Role None true false ]} {[ ("alice", "manager") := AccRole 0 None ]}
         {[ ("manager", "mc:raw*") := Perm true true true ]} ∅ ∅;
     accounts := {[ "alice" := true; "bob" := true ]};
     account_attrs := {[ ("alice", "country-de") := AStr "admin" ]};
     scopes := {[ "mc" := "bob" ]}; dids := {[ ("mc", "raw1") := "bob" ]};
     rules := {[ "r1" := RuleRef "bob" "mc" "raw1" ]};
     replicas := ∅; locks := [LockOf "mc" "raw1" "id1" "alice"; LockOf "mc" "raw1" "id2" "bob"];
     identities := []; exceptions := [];
     rses := [RSE "id1" "DE_SCRATCHDISK" DEFAULT_VO RT_DISK false true false true];
     rse_attrs := {[ ("id1", "country") := AStr "de" ]} |}%string.

Abbreviation allowed := (@has_permission name_expressions).

Definition mc : InternalType := InternalScope "mc" DEFAULT_VO.
Definition raw1 : Kwargs := [("scope", PScope mc); ("name", PStr "raw1")]%string.

Definition metadata_kwargs : Kwargs := raw1 ++ [("key", PStr "comment"); ("value", PStr "x")]%string.
Definition delete_kwargs : Kwargs :=
  [("rse", PStr "DE_SCRATCHDISK"); ("rse_id", PStr "id1"); ("scopes", PList [PScope mc]); ("dids", PList [PDict raw1])]%string.
Definition rule_kwargs : Kwargs := [("rule_id", PStr "r1"); ("options", PDict [("lifetime", PInt 0)])]%string.
Definition limit_kwargs : Kwargs := [("rse_expression", PStr "DE_SCRATCHDISK"); ("account", PAccount alice)]%string.

Lemma roles_only_add_rights_witness :
  allowed demo_role_session alice "get_did" (read_kwargs (InternalScope "data1" DEFAULT_VO) "x") = Ok true /\
  allowed (set_role_tables demo_role_session
             (Tables (roles (role_tables demo_role_session)) (account_role_map (role_tables demo_role_session))
                (<[("reader", "user:*")%string := Perm true true true]> (role_did_permission_map (role_tables demo_role_session)))
                ∅ ∅)) alice "get_did" (read_kwargs (InternalScope "data1" DEFAULT_VO) "x") = Ok true.
Proof.
  split; [by vm_compute|]. apply (@roles_only_add_rights name_expressions demo_role_session _ alice); [|by vm_compute].
  split; [done|]. intros role target p op Hp Ho. simpl.
  destruct (decide ((role, target) = ("reader", "user:*")%string)) as [[= -> ->]|Hne].
  - exfalso. vm_compute in Hp. discriminate Hp.
  - exists p. by rewrite lookup_insert_ne.
Defined.

Definition demo_without_rbac : Session :=
  {| now := 100; rbac_enabled := false; SCOPE_LENGTH := 25; NAME_LENGTH := 250;
     role_tables := no_role_tables; accounts := accounts demo_policy_session;
     account_attrs := {[ ("bob", "admin")%string := ABool true ]};
     scopes := scopes demo_policy_session; dids := dids demo_policy_session; rules := ∅; replicas := ∅;
     locks := []; identities := []; exceptions := []; rses := []; rse_attrs := ∅ |}.

Lemma without_rbac_roles_are_inert_witness :
  allowed (set_role_tables demo_without_rbac (role_tables demo_policy_session)) alice "set_metadata" metadata_kwargs =
  Ok false.
Proof.
  rewrite (@without_rbac_roles_are_inert name_expressions demo_without_rbac); [by vm_compute|done|done].
Defined.

Lemma root_is_allowed_witness :
  allowed demo_policy_session (InternalAccount "root" DEFAULT_VO) "no such action" [] = Ok true.
Proof. apply root_is_allowed; [by vm_compute|]. apply (bool_decide_unpack _). by vm_compute. Defined.

Lemma protected_metadata_never_granted_witness :
  allowed demo_policy_session alice "set_metadata" metadata_kwargs = Ok true /\
  exists keys, metadata_keys "set_metadata" metadata_kwargs = Ok keys /\ meets keys RBAC_PROTECTED_METADATA_KEYS = false.
Proof.
  split; [by vm_compute|].
  apply (@protected_metadata_never_granted name_expressions demo_policy_session alice);
    [by vm_compute|by vm_compute|by vm_compute|by left|by vm_compute].
Defined.

Lemma others_replicas_untouched_witness :
  allowed demo_policy_session alice "delete_replicas" delete_kwargs = Ok true /\ rbac_enabled demo_policy_session = true.
Proof.
  split; [by vm_compute|].
  apply (@others_replicas_untouched name_expressions demo_policy_session alice "delete_replicas" delete_kwargs);
    [by left|by vm_compute].
Defined.

Lemma rule_changes_guarded_witness :
  allowed demo_policy_session alice "update_rule" rule_kwargs = Ok true /\ rbac_enabled demo_policy_session = true.
Proof.
  split; [by vm_compute|].
  apply (@rule_changes_guarded name_expressions demo_policy_session alice "update_rule" rule_kwargs);
    [by vm_compute|right; right; by left|by vm_compute].
Defined.

Lemma global_limits_never_delegated_witness :
  @admin_in_country demo_policy_session alice = Ok ["de"%string] /\
  allowed demo_policy_session alice "set_global_account_limit" limit_kwargs = Err KeyError.
Proof.
  split; [by vm_compute|].
  apply (@global_limits_never_delegated name_expressions demo_policy_session alice "set_global_account_limit" limit_kwargs)
    with (countries := ["de"%string]) (e := "DE_SCRATCHDISK"%string) (l := rses demo_policy_session);
    [by vm_compute|by left|by vm_compute|done|by vm_compute|by vm_compute].
Defined.
