(* ===== verification/Topology.v ===== *)
(** * The transfer topology: [lib/rucio/core/topology.py]

    RSEs are the nodes and distances the edges of a graph; the shortest paths from sources to
    a destination are found by a backwards Dijkstra search.  An edge is the only one between
    its two nodes, so nodes and edges are named by RSE ids: the dictionaries [in_edges] and
    [out_edges] of a node list its neighbours in the order the edges were added, and [_edges]
    holds the state of an edge. *)

From S2P Require Import Prelude PriorityQueue PyString Types Database.

(** ** The graph *)

Record Node := MkNode {
  in_edges : list string;
  out_edges : list string;
  used_for_multihop : bool;
}.

(** [Node.__init__] *)
Definition new_node : Node := MkNode [] [] false.

Record Topology := MkTopology {
  rse_id_to_data_map : gmap string Node;
  edges : gmap (string * string) Z;         (* the cost of an edge, by source and destination *)
  edges_loaded : bool;
  multihop_nodes : gset string;
  hop_penalty : Z;
  ignore_availability : bool;
}.

Definition DEFAULT_HOP_PENALTY : Z := 10.

Definition with_nodes (f : gmap string Node -> gmap string Node) (t : Topology) : Topology :=
  MkTopology (f (rse_id_to_data_map t)) (edges t) (edges_loaded t) (multihop_nodes t) (hop_penalty t)
    (ignore_availability t).
Definition with_edges (f : gmap (string * string) Z -> gmap (string * string) Z) (t : Topology) : Topology :=
  MkTopology (rse_id_to_data_map t) (f (edges t)) (edges_loaded t) (multihop_nodes t) (hop_penalty t)
    (ignore_availability t).
Definition with_loaded (b : bool) (t : Topology) : Topology :=
  MkTopology (rse_id_to_data_map t) (edges t) b (multihop_nodes t) (hop_penalty t) (ignore_availability t).
Definition with_multihop (m : gset string) (t : Topology) : Topology :=
  MkTopology (rse_id_to_data_map t) (edges t) (edges_loaded t) m (hop_penalty t) (ignore_availability t).
Definition with_penalty (p : Z) (t : Topology) : Topology :=
  MkTopology (rse_id_to_data_map t) (edges t) (edges_loaded t) (multihop_nodes t) p (ignore_availability t).

(** [Topology.__init__] *)
Definition new_topology (rse_ids : list string) (ignore_availability : bool) : Topology :=
  MkTopology (list_to_map ((fun i => (i, new_node)) <$> rse_ids)) ∅ false ∅ DEFAULT_HOP_PENALTY ignore_availability.

(** [d[k] = v] on an ordered dictionary of keys; [d.pop(k, None)] *)
Definition add_key (k : string) (l : list string) : list string := if bool_decide (k ∈ l) then l else l ++ [k].
Definition remove_key (k : string) (l : list string) : list string := filter (fun x => x <> k) l.

(** [Topology.get_or_create]: a new node makes the edges incomplete. *)
Definition get_or_create (t : Topology) (rse_id : string) : Topology :=
  match rse_id_to_data_map t !! rse_id with
  | Some _ => t
  | None => with_loaded false (with_nodes (insert rse_id new_node) t)
  end.

(** [Edge.add_to_nodes] and [Edge.remove_from_nodes] *)
Definition add_to_nodes (src dst : string) (t : Topology) : Topology :=
  with_nodes (fun m =>
    alter (fun n => MkNode (add_key src (in_edges n)) (out_edges n) (used_for_multihop n)) dst
      (alter (fun n => MkNode (in_edges n) (add_key dst (out_edges n)) (used_for_multihop n)) src m)) t.
Definition remove_from_nodes (src dst : string) (t : Topology) : Topology :=
  with_nodes (fun m =>
    alter (fun n => MkNode (remove_key src (in_edges n)) (out_edges n) (used_for_multihop n)) dst
      (alter (fun n => MkNode (in_edges n) (remove_key dst (out_edges n)) (used_for_multihop n)) src m)) t.

(** [Topology.get_or_create_edge]: a new edge has cost 1 and is added to its nodes. *)
Definition get_or_create_edge (t : Topology) (src dst : string) : Topology :=
  match edges t !! (src, dst) with
  | Some _ => t
  | None => add_to_nodes src dst (with_edges (insert (src, dst) 1%Z) t)
  end.

(** [Topology.delete_edge] *)
Definition delete_edge (t : Topology) (src dst : string) : result Topology :=
  match edges t !! (src, dst) with
  | Some _ => Ok (remove_from_nodes src dst t)
  | None => Err KeyError
  end.

(** ** Loading from the database *)

(** What a search reads of an RSE: its availability and its hop penalty attribute. *)
Record RSEInfo := MkRSEInfo {
  availability_read : bool;
  availability_write : bool;
  hop_penalty_attribute : option AttrValue;
}.

Record TopologyDB := MkTopologyDB {
  distances : list (string * string * option Z);   (* source, destination, distance *)
  rse_infos : gmap string RSEInfo;                 (* the RSEs not deleted *)
  config_hop_penalty : Z;                          (* [transfers]/hop_penalty *)
  config_multihop_rses : list string;              (* the RSEs of [transfers]/multihop_rse_expression *)
}.

Definition rse_info (db : TopologyDB) (rse_id : string) : result RSEInfo :=
  or_raise RSENotFound (rse_infos db !! rse_id).

Definition set_multihop_flag (b : bool) (rse_id : string) (t : Topology) : Topology :=
  with_nodes (alter (fun n => MkNode (in_edges n) (out_edges n) b) rse_id) t.

(** [Topology._configure_multihop] *)
Definition configure_multihop (db : TopologyDB) (multihop_rse_ids : option (list string)) (t : Topology)
    : result Topology :=
  let ids := default (config_multihop_rses db) multihop_rse_ids in
  let t := foldr (set_multihop_flag false) t (elements (multihop_nodes t)) in
  let t := with_multihop ∅ t in
  let* t := foldM (fun t rse_id =>
      let t := get_or_create t rse_id in
      let* info := rse_info db rse_id in
      if ignore_availability t || (availability_read info && availability_write info)
      then Ok (with_multihop ({[ rse_id ]} ∪ multihop_nodes t) (set_multihop_flag true rse_id t))
      else Ok t) t ids in
  Ok (with_penalty (config_hop_penalty db) t).

(** [int(distance.distance) if distance.distance >= 0 else 0] *)
Definition sanitized_dist (d : Z) : Z := if bool_decide (0 <= d)%Z then d else 0%Z.

(** One row of the distances: the edges loaded so far and the topology *)
Definition load_distance (acc : gset (string * string) * Topology) (row : string * string * option Z)
    : gset (string * string) * Topology :=
  let '(loaded_edges, t) := acc in
  let '(src, dst, distance) := row in
  match distance with
  | None => acc
  | Some d =>
      let t := get_or_create_edge t src dst in
      ({[ (src, dst) ]} ∪ loaded_edges, with_edges (insert (src, dst) (sanitized_dist d)) t)
  end.

(** [Topology._ensure_edges_loaded] *)
Definition ensure_edges_loaded (db : TopologyDB) (t : Topology) : result Topology :=
  if edges_loaded t then Ok t
  else
    let rows := filter (fun r => r.1.1 ∈ dom (rse_id_to_data_map t) /\ r.1.2 ∈ dom (rse_id_to_data_map t)) (distances db) in
    let '(loaded_edges, t) := foldl load_distance (∅, t) rows in
    let* t :=
      if bool_decide (size loaded_edges <> size (edges t)) then
        foldM (fun t (e : string * string) => delete_edge t e.1 e.2) t (elements (dom (edges t) ∖ loaded_edges))
      else Ok t in
    Ok (with_loaded true t).

(** ** The search *)

(** An entry of [next_hops]: the distance to the destination, and the next hop but for the
    destination itself. *)
Record Hop := MkHop { hop_dist : Z; hop_edge : option string }.

Section dijkstra.
Context {Q : Type} {PM : PriorityMap string Q}.
(** The graph, and the state providers of nodes and edges *)
Variables (multihop : bool) (in_neighbours : string -> list string) (multihop_node : string -> bool).
Variables (node_cost : string -> Z) (edge_cost : string -> string -> Z) (edge_enabled : string -> string -> bool).

(** The local variables of [dijkstra_spf], and the sources of the edges found disabled *)
Record Spf := MkSpf {
  priority_q : Q;
  next_hops : gmap string Hop;
  refused : gset string;
}.

Definition spf_init (dst_node : string) : result Spf :=
  let* q := pm_set pm_empty dst_node 0%Z in
  Ok (MkSpf q {[ dst_node := MkHop 0 None ]} ∅).

(** [nodes_to_find is None or adjacent_node in nodes_to_find or adjacent_node.used_for_multihop] *)
Definition examined (nodes_to_find : option (gset string)) (adjacent_node : string) : bool :=
  match nodes_to_find with
  | None => true
  | Some l => bool_decide (adjacent_node ∈ l) || multihop_node adjacent_node
  end.

(** [d < next_hops.get(node, (INF, ))[0]] *)
Definition closer (d : Z) (h : option Hop) : bool :=
  match h with None => true | Some h => bool_decide (d < hop_dist h)%Z end.

(** The body of the loop over the inbound edges of a node *)
Definition relax (nodes_to_find : option (gset string)) (node : string) (h : Hop) (st : Spf)
    (adjacent_node : string) : result Spf :=
  if examined nodes_to_find adjacent_node then
    let new_adjacent_dist := (hop_dist h + node_cost node + edge_cost adjacent_node node)%Z in
    if closer new_adjacent_dist (next_hops st !! adjacent_node) then
      if edge_enabled adjacent_node node then
        let* q := pm_set (priority_q st) adjacent_node new_adjacent_dist in
        Ok (MkSpf q (<[adjacent_node := MkHop new_adjacent_dist (Some node)]> (next_hops st)) (refused st))
      else Ok (MkSpf (priority_q st) (next_hops st) ({[ adjacent_node ]} ∪ refused st))
    else Ok st
  else Ok st.

Definition expand (nodes_to_find : option (gset string)) (node : string) (h : Hop) (st : Spf) : result Spf :=
  if multihop || bool_decide (hop_edge h = None)
  then foldM (relax nodes_to_find node h) st (in_neighbours node)
  else Ok st.

(** The head of an iteration: the node popped and its entry, if the queue is not empty *)
Definition spf_pop (st : Spf) : result (option (string * Hop * Spf)) :=
  if pm_truthy (priority_q st) then
    let* r := pm_pop (priority_q st) in
    let* h := or_raise KeyError (next_hops st !! r.1) in
    Ok (Some (r.1, h, MkSpf r.2 (next_hops st) (refused st)))
  else Ok None.

(** [dijkstra_spf] with its consumer: [consume] runs at every yield, on its own state, which
    holds the set [nodes_to_find] shared with the generator, and says whether to go on. *)
Fixpoint spf_run {A} (fuel : nat) (consume : A -> string -> Hop -> string -> result (A * bool))
    (nodes_to_find : A -> option (gset string)) (a : A) (st : Spf) : result (A * Spf) :=
  match fuel with
  | O => Err OutOfFuel
  | S fuel =>
      let* popped := spf_pop st in
      match popped with
      | None => Ok (a, st)
      | Some (node, h, st) =>
          let* r := match hop_edge h with
                    | Some next_hop => consume a node h next_hop
                    | None => Ok (a, true)
                    end in
          let '(a, go_on) := r in
          if go_on then
            let* st := expand (nodes_to_find a) node h st in
            spf_run fuel consume nodes_to_find a st
          else Ok (a, st)
      end
  end.

End dijkstra.
Arguments Spf : clear implicits.

(** ** Shortest paths *)

(** What [find_matching_scheme] chooses *)
Record Scheme := MkScheme {
  source_scheme : string; dest_scheme : string;
  source_scheme_priority : Z; dest_scheme_priority : Z;
}.

(** [HopDict] *)
Record HopDict := MkHopDict {
  source_rse : string; dest_rse : string;
  hop_distance : Z; cumulated_distance : Z;
  chosen_scheme : option Scheme;
}.

Section search.
Context {Q : Type} {PM : PriorityMap string Q}.
(** [rsemgr.find_matching_scheme]: the schemes both ends support, restricted to the given
    destination schemes, or [None] for [RSEProtocolNotSupported] *)
Variable find_matching_scheme : string -> string -> option (list string) -> option Scheme.

Definition neighbours (t : Topology) (rse_id : string) : list string :=
  match rse_id_to_data_map t !! rse_id with Some n => in_edges n | None => [] end.
Definition is_multihop_node (t : Topology) (rse_id : string) : bool :=
  match rse_id_to_data_map t !! rse_id with Some n => used_for_multihop n | None => false end.
Definition has_out_edges (t : Topology) (rse_id : string) : bool :=
  match rse_id_to_data_map t !! rse_id with Some n => negb (bool_decide (out_edges n = [])) | None => false end.

(** [_NodeStateProvider] *)
Definition node_state_cost (db : TopologyDB) (t : Topology) (dst_node node : string) : Z :=
  if bool_decide (node = dst_node) then 0%Z
  else match rse_infos db !! node ≫= hop_penalty_attribute with
       | Some v => default (hop_penalty t) (int_of_attribute v)
       | None => hop_penalty t
       end.

(** [_EdgeStateProvider] *)
Definition edge_state_cost (t : Topology) (src dst : string) : Z := default 0%Z (edges t !! (src, dst)).
Definition edge_scheme (limit_dest_schemes : list string) (dst_node src dst : string) : option Scheme :=
  find_matching_scheme src dst
    (if bool_decide (dst = dst_node) && negb (bool_decide (limit_dest_schemes = [])) then Some limit_dest_schemes else None).
Definition edge_state_enabled (limit_dest_schemes : list string) (dst_node src dst : string) : bool :=
  match edge_scheme limit_dest_schemes dst_node src dst with Some _ => true | None => false end.

(** The loop of [search_shortest_paths] over the nodes yielded: the paths and the nodes left *)
Definition collect_path (t : Topology) (limit_dest_schemes : list string) (dst_node : string)
    (acc : gmap string (list HopDict) * gset string) (node : string) (h : Hop) (nh_node : string)
    : result (gmap string (list HopDict) * gset string * bool) :=
  let '(paths, nodes_to_find) := acc in
  let hop := MkHopDict node nh_node (edge_state_cost t node nh_node) (hop_dist h)
               (edge_scheme limit_dest_schemes dst_node node nh_node) in
  let* next := or_raise KeyError (paths !! nh_node) in
  let nodes_to_find := nodes_to_find ∖ {[ node ]} in
  Ok (<[node := hop :: next]> paths, nodes_to_find, negb (bool_decide (nodes_to_find = ∅))).

(** Every iteration pops another node. *)
Definition search_fuel (t : Topology) : nat := S (S (size (rse_id_to_data_map t))).

(** [Topology.search_shortest_paths]: the paths found, and the topology with its edges loaded *)
Definition search_shortest_paths (db : TopologyDB) (t : Topology) (src_nodes : list string) (dst_node : string)
    (limit_dest_schemes : list string) : result (gmap string (list HopDict) * Topology) :=
  let* u := foldM (fun u rse_id => mapR (fun _ => u) (rse_info db rse_id)) tt
              (src_nodes ++ [dst_node] ++ elements (multihop_nodes t)) in
  let* t := ensure_edges_loaded db t in
  let multihop := negb (bool_decide (multihop_nodes t = ∅)) in
  let nodes_to_find : gset string :=
    list_to_set (if multihop then List.filter (has_out_edges t) src_nodes else src_nodes) in
  let* st := spf_init dst_node in
  let* r := spf_run multihop (neighbours t) (is_multihop_node t) (node_state_cost db t dst_node)
              (edge_state_cost t) (edge_state_enabled limit_dest_schemes dst_node)
              (search_fuel t) (collect_path t limit_dest_schemes dst_node) (fun a => Some a.2)
              ({[ dst_node := [] ]}, nodes_to_find) st in
  let '((paths, _), st) := r in
  Ok (foldl (fun result node =>
        match paths !! node with
        | Some path => <[node := path]> result
        | None => if bool_decide (node ∈ refused st) then <[node := []]> result else result
        end) ∅ src_nodes, t).

(** [get_hops] *)
Definition get_hops (db : TopologyDB) (source_rse_id dest_rse_id : string) (multihop_rse_ids : option (list string))
    (limit_dest_schemes : option (list string)) : result (list HopDict) :=
  let* t := configure_multihop db multihop_rse_ids (new_topology [] false) in
  let t := get_or_create (get_or_create t source_rse_id) dest_rse_id in
  let* r := search_shortest_paths db t [source_rse_id] dest_rse_id (default [] limit_dest_schemes) in
  match r.1 !! source_rse_id with
  | None => Err NoDistance
  | Some [] => Err RSEProtocolNotSupported
  | Some path => Ok path
  end.

End search.
