(* ===== verification/TopologyFacts.v ===== *)
(** * Shortest paths are shortest

    The backwards Dijkstra search of [Topology.v] over any priority queue with the contract of
    [PriorityMap]: distances are minimal, nodes come in order of distance, the search reaches
    every node a route leads from, and it ends. *)

From S2P Require Import Prelude PriorityQueue PyString Types Database Topology.

Section dijkstra.
Context {Q : Type} {PM : PriorityMap string Q}.
Variables (multihop : bool) (in_neighbours : string -> list string) (multihop_node : string -> bool).
Variables (node_cost : string -> Z) (edge_cost : string -> string -> Z) (edge_enabled : string -> string -> bool).
Variables (dst : string) (wanted : option (gset string)).
Hypothesis node_cost_pos : forall n, (0 <= node_cost n)%Z.
Hypothesis edge_cost_pos : forall u v, (0 <= edge_cost u v)%Z.

(** ** Routes

    [route u d]: a route of total distance [d] leads from [u] to the destination, over enabled
    edges; its nodes are wanted ones or multihop ones, and it has one hop without multihop. *)
Inductive route : string -> Z -> Prop :=
  | route_dst : route dst 0
  | route_hop u v d : route v d -> u ∈ in_neighbours v -> edge_enabled u v = true ->
      examined multihop_node wanted u = true -> (v = dst \/ multihop = true) ->
      route u (d + node_cost v + edge_cost u v).

Definition dist (nh : gmap string Hop) (n : string) : option Z := hop_dist <$> (nh !! n).

(** The state between two iterations; [S] is the set of nodes popped so far. *)
Record spf_inv (S : gset string) (st : Spf Q) : Prop := {
  si_wf : pm_wf (priority_q st);
  si_queue n x : pm_map (priority_q st) !! n = Some x <-> n ∉ S /\ dist (next_hops st) n = Some x;
  si_settled n : n ∈ S -> is_Some (next_hops st !! n);
  si_dst : next_hops st !! dst = Some (MkHop 0 None);
  si_sound n h : next_hops st !! n = Some h -> route n (hop_dist h) /\ (0 <= hop_dist h)%Z;
  si_hop n h v : next_hops st !! n = Some h -> hop_edge h = Some v ->
    v ∈ S /\ n ∈ in_neighbours v /\ edge_enabled n v = true /\
    exists d, dist (next_hops st) v = Some d /\ hop_dist h = (d + node_cost v + edge_cost n v)%Z;
  si_first n h : next_hops st !! n = Some h -> hop_edge h = None -> n = dst;
  si_order n m x y : n ∈ S -> m ∉ S -> dist (next_hops st) n = Some x -> dist (next_hops st) m = Some y -> (x <= y)%Z;
}.

(** The edges into [v] from its inbound neighbours [l] have been relaxed. *)
Definition relaxed (l : list string) (v : string) (st : Spf Q) : Prop :=
  forall u d, u ∈ l -> edge_enabled u v = true -> examined multihop_node wanted u = true ->
    dist (next_hops st) v = Some d ->
    exists x, dist (next_hops st) u = Some x /\ (x <= d + node_cost v + edge_cost u v)%Z.

(** Every settled node that is expanded has been. *)
Definition closed (S : gset string) (st : Spf Q) : Prop :=
  forall v, v ∈ S -> (v = dst \/ multihop = true) -> relaxed (in_neighbours v) v st.

(** Refused nodes have an edge that is disabled. *)
Definition refused_ok (st : Spf Q) : Prop :=
  forall u, u ∈ refused st -> exists v, u ∈ in_neighbours v /\ edge_enabled u v = false.

Lemma spf_init_inv :
  exists st, spf_init dst = Ok st /\ spf_inv ∅ st /\ closed ∅ st /\ refused_ok st.
Proof.
  destruct pm_empty_ok as [Hwf He].
  destruct (pm_set_ok pm_empty dst 0%Z Hwf) as (q & Hq & Hwfq & Hm).
  eexists. unfold spf_init. rewrite Hq. split; [done|]. rewrite He in Hm.
  split; [split; simpl|split; [intros v Hv; set_solver|intros u Hu; set_solver]].
  - done.
  - intros n x. rewrite Hm. unfold dist. simpl. destruct (decide (n = dst)) as [->|Hne].
    + rewrite lookup_insert_eq, lookup_singleton_eq. simpl. set_solver.
    + rewrite lookup_insert_ne, lookup_singleton_ne by done. rewrite lookup_empty. set_solver.
  - intros n Hn. set_solver.
  - apply lookup_singleton_eq.
  - intros n h [<- <-]%lookup_singleton_Some. simpl. split; [constructor|lia].
  - intros n h v [<- <-]%lookup_singleton_Some. done.
  - by intros n h [<- <-]%lookup_singleton_Some.
  - set_solver.
Qed.

(** ** The frontier: a route is settled, or passes through a queued node at least as close *)
Lemma frontier S st u d :
  spf_inv S st -> closed S st -> route u d ->
  (exists x, u ∈ S /\ dist (next_hops st) u = Some x /\ (x <= d)%Z) \/
  (exists n x, n ∉ S /\ dist (next_hops st) n = Some x /\ (x <= d)%Z).
Proof.
  intros Hinv Hclosed. induction 1 as [|u v d Hr IH Hin Hen Hex Hexp].
  - assert (dist (next_hops st) dst = Some 0%Z) as Hd by (unfold dist; by rewrite (si_dst _ _ Hinv)).
    destruct (decide (dst ∈ S)); [left|right]; eauto with lia.
  - pose proof (node_cost_pos v). pose proof (edge_cost_pos u v).
    destruct IH as [(x & Hv & Hx & Hle)|(n & x & Hn & Hx & Hle)].
    + destruct (Hclosed v Hv Hexp u x Hin Hen Hex Hx) as (y & Hy & Hley).
      destruct (decide (u ∈ S)); [left|right]; [exists y|exists u, y]; split_and!; try done; lia.
    + right. exists n, x. split_and!; try done. lia.
Qed.

(** What [spf_pop] does to the invariant: the popped node is settled at its shortest distance. *)
Lemma spf_pop_ok S st :
  spf_inv S st -> closed S st -> refused_ok st ->
  (spf_pop st = Ok None /\ (forall n d, route n d -> n ∈ S)) \/
  (exists n h st', spf_pop st = Ok (Some (n, h, st')) /\
     n ∉ S /\ next_hops st !! n = Some h /\ next_hops st' = next_hops st /\ refused st' = refused st /\
     spf_inv ({[ n ]} ∪ S) st' /\ (forall d, route n d -> (hop_dist h <= d)%Z) /\
     (forall m x, m ∉ S -> dist (next_hops st) m = Some x -> (hop_dist h <= x)%Z)).
Proof.
  intros Hinv Hclosed Href. pose proof (pm_truthy_ok _ (si_wf _ _ Hinv)) as Ht. unfold spf_pop.
  destruct (pm_truthy (priority_q st)) eqn:Htr.
  - right. destruct (pm_pop_ok _ (si_wf _ _ Hinv)) as (n & q' & x & Hpop & Hwf & Hmap & Hx & Hmin);
      [by apply Ht|].
    apply (si_queue _ _ Hinv) in Hx as [Hn Hx]. pose proof Hx as Hd.
    unfold dist in Hd. apply fmap_Some in Hd as (h & Hh & ->).
    assert (forall m x, m ∉ S -> dist (next_hops st) m = Some x -> (hop_dist h <= x)%Z) as Hleast.
    { intros m y Hm Hy. apply (Hmin m). by apply (si_queue _ _ Hinv). }
    rewrite Hpop. run. rewrite Hh. run. eexists _, _, _. split; [done|]. simpl.
    split_and!; try done.
    + split; simpl; [done|..].
      * intros m y. rewrite Hmap, lookup_delete. case_decide as Hnm.
        -- subst m. split; [done|set_solver].
        -- rewrite (si_queue _ _ Hinv). set_solver.
      * intros m [->%elem_of_singleton|Hm]%elem_of_union; [by eexists|by apply (si_settled _ _ Hinv)].
      * apply (si_dst _ _ Hinv).
      * apply (si_sound _ _ Hinv).
      * intros m h' v Hm Hv. destruct (si_hop _ _ Hinv m h' v Hm Hv) as (? & ? & ? & ?). split_and!; try done. set_solver.
      * apply (si_first _ _ Hinv).
      * intros a b y z [->%elem_of_singleton|Ha]%elem_of_union Hb Hy Hz.
        -- rewrite Hx in Hy. injection Hy as <-. apply (Hleast b); [set_solver|done].
        -- apply (si_order _ _ Hinv a b); try done. set_solver.
    + intros d Hr. destruct (frontier S st n d Hinv Hclosed Hr) as [(y & Hy & _)|(m & y & Hm & Hy & Hle)]; [done|].
      specialize (Hleast m y Hm Hy). lia.
  - left. split; [done|]. intros n d Hr.
    assert (pm_map (priority_q st) = ∅) as He by (destruct (decide (pm_map (priority_q st) = ∅)); [done|]; exfalso; naive_solver).
    destruct (frontier S st n d Hinv Hclosed Hr) as [(y & Hy & _)|(m & y & Hm & Hy & Hle)]; [done|].
    exfalso. assert (pm_map (priority_q st) !! m = Some y) as Hq by by apply (si_queue _ _ Hinv).
    by rewrite He, lookup_empty in Hq.
Qed.

(** *** Relaxing the inbound edges of the node just popped *)

Section expanding.
Variables (S : gset string) (ntf : option (gset string)) (n : string) (h : Hop).
Hypothesis n_settled : n ∈ S.
Hypothesis n_expanded : n = dst \/ multihop = true.
(** What the generator looks at, when nodes already settled may have been discarded. *)
Hypothesis ntf_wanted : forall u, examined multihop_node ntf u = true -> examined multihop_node wanted u = true.
Hypothesis wanted_ntf : forall u, u ∉ S -> examined multihop_node wanted u = true -> examined multihop_node ntf u = true.

(** [n] is the last settled node: the farthest one. *)
Definition last_settled (st : Spf Q) : Prop :=
  next_hops st !! n = Some h /\ forall m x, m ∈ S -> dist (next_hops st) m = Some x -> (x <= hop_dist h)%Z.

(** Distances only decrease, and not those of settled nodes. *)
Definition improves (st st' : Spf Q) : Prop :=
  (forall m x, dist (next_hops st) m = Some x -> exists y, dist (next_hops st') m = Some y /\ (y <= x)%Z) /\
  (forall m, m ∈ S -> next_hops st' !! m = next_hops st !! m).

Lemma improves_refl st : improves st st.
Proof. split; [|done]. intros m x Hx. exists x. split; [done|lia]. Qed.

Lemma improves_trans st1 st2 st3 : improves st1 st2 -> improves st2 st3 -> improves st1 st3.
Proof.
  intros [H1 H1'] [H2 H2']. split.
  - intros m x Hx. destruct (H1 m x Hx) as (y & Hy & ?). destruct (H2 m y Hy) as (z & Hz & ?). exists z. split; [done|lia].
  - intros m Hm. by rewrite H2', H1'.
Qed.

Lemma relaxed_improves l v st st' : v ∈ S -> improves st st' -> relaxed l v st -> relaxed l v st'.
Proof.
  intros Hv [Hdec Hkeep] Hrel u d Hu He Hx Hd.
  assert (dist (next_hops st) v = Some d) as Hd' by (unfold dist in *; by rewrite <-Hkeep).
  destruct (Hrel u d Hu He Hx Hd') as (x & Hux & Hle). destruct (Hdec u x Hux) as (y & Hy & ?).
  exists y. split; [done|lia].
Qed.

Lemma last_settled_improves st st' : improves st st' -> last_settled st -> last_settled st'.
Proof.
  intros [_ Hkeep] [Hn Hmax]. split; [by rewrite Hkeep|]. intros m x Hm Hx. apply (Hmax m); [done|].
  unfold dist in *. by rewrite <-Hkeep.
Qed.

Definition closer_dist (a : string) : Z := (hop_dist h + node_cost n + edge_cost a n)%Z.

Lemma relax_update_inv st q a :
  spf_inv S st -> last_settled st -> a ∈ in_neighbours n -> edge_enabled a n = true ->
  examined multihop_node wanted a = true -> closer (closer_dist a) (next_hops st !! a) = true ->
  pm_wf q -> pm_map q = <[a := closer_dist a]> (pm_map (priority_q st)) ->
  let st' := MkSpf q (<[a := MkHop (closer_dist a) (Some n)]> (next_hops st)) (refused st) in
  spf_inv S st' /\ improves st st' /\ relaxed [a] n st'.
Proof.
  intros Hinv [Hn Hmax] Ha Hen Hex Hcl Hwf Hm st'.
  pose proof (node_cost_pos n). pose proof (edge_cost_pos a n).
  destruct (si_sound _ _ Hinv n h Hn) as [Hrn Hpos].
  assert (a ∉ S) as Has.
  { intros HaS. destruct (si_settled _ _ Hinv a HaS) as [ha Hha]. rewrite Hha in Hcl. simpl in Hcl.
    apply bool_decide_eq_true in Hcl. unfold closer_dist in Hcl.
    assert (hop_dist ha <= hop_dist h)%Z; [|lia]. apply (Hmax a); [done|]. unfold dist. by rewrite Hha. }
  assert (a <> dst) as Had.
  { intros ->. rewrite (si_dst _ _ Hinv) in Hcl. simpl in Hcl. apply bool_decide_eq_true in Hcl.
    unfold closer_dist in Hcl. lia. }
  assert (forall m, m <> a -> next_hops st' !! m = next_hops st !! m) as Hne.
  { intros m Hma. simpl. by rewrite lookup_insert_ne. }
  assert (forall m, m <> a -> dist (next_hops st') m = dist (next_hops st) m) as Hnd.
  { intros m Hma. unfold dist. by rewrite Hne. }
  assert (next_hops st' !! a = Some (MkHop (closer_dist a) (Some n))) as Ha' by apply lookup_insert_eq.
  assert (dist (next_hops st') a = Some (closer_dist a)) as Hda by (unfold dist; by rewrite Ha').
  assert (forall m, m ∈ S -> m <> a) as HSa by (intros m Hm' ->; done).
  split; [|split].
  - split; try done.
    + intros m x. change (pm_map (priority_q st')) with (pm_map q). rewrite Hm.
      destruct (decide (m = a)) as [->|Hma].
      * rewrite lookup_insert_eq, Hda. naive_solver.
      * rewrite lookup_insert_ne, Hnd by done. apply (si_queue _ _ Hinv).
    + intros m Hm'. rewrite Hne by auto. by apply (si_settled _ _ Hinv).
    + rewrite Hne by done. apply (si_dst _ _ Hinv).
    + intros m h' Hm'. destruct (decide (m = a)) as [->|Hma].
      * rewrite Ha' in Hm'. injection Hm' as <-. simpl. split; [by apply route_hop|unfold closer_dist; lia].
      * rewrite Hne in Hm' by done. by apply (si_sound _ _ Hinv).
    + intros m h' v Hm' Hv. destruct (decide (m = a)) as [->|Hma].
      * rewrite Ha' in Hm'. injection Hm' as <-. simpl in Hv. injection Hv as <-.
        split_and!; try done. exists (hop_dist h). rewrite Hnd by auto. unfold dist. by rewrite Hn.
      * rewrite Hne in Hm' by done. destruct (si_hop _ _ Hinv m h' v Hm' Hv) as (Hv' & ? & ? & ?).
        rewrite Hnd by auto. by split_and!.
    + intros m h' Hm' Hnone. destruct (decide (m = a)) as [->|Hma]; [rewrite Ha' in Hm'; by injection Hm' as <-|].
      rewrite Hne in Hm' by done. by eapply (si_first _ _ Hinv).
    + intros m m' x y Hm' Hm'' Hx Hy. rewrite Hnd in Hx by auto. destruct (decide (m' = a)) as [->|Hma].
      * rewrite Hda in Hy. injection Hy as <-. specialize (Hmax m x Hm' Hx). unfold closer_dist. lia.
      * rewrite Hnd in Hy by done. by apply (si_order _ _ Hinv m m').
  - split; [|intros m Hm'; by apply Hne, HSa]. intros m x Hx. destruct (decide (m = a)) as [->|Hma].
    + exists (closer_dist a). split; [done|]. unfold dist in Hx. apply fmap_Some in Hx as (h' & Hh' & ->).
      rewrite Hh' in Hcl. simpl in Hcl. apply bool_decide_eq_true in Hcl. lia.
    + exists x. rewrite Hnd by done. split; [done|lia].
  - intros u d ->%list_elem_of_singleton _ _ Hd. exists (closer_dist a). split; [done|].
    rewrite Hnd in Hd by auto. unfold dist in Hd. rewrite Hn in Hd. injection Hd as <-. unfold closer_dist. lia.
Qed.

(** An edge that is not followed needs not be. *)
Lemma relax_skip st a :
  spf_inv S st -> last_settled st ->
  (edge_enabled a n = true -> examined multihop_node ntf a = true ->
     exists h', next_hops st !! a = Some h' /\ (hop_dist h' <= closer_dist a)%Z) ->
  relaxed [a] n st.
Proof.
  intros Hinv [Hn Hmax] Hskip u d ->%list_elem_of_singleton He Hx Hd.
  unfold dist in Hd. rewrite Hn in Hd. injection Hd as <-.
  pose proof (node_cost_pos n). pose proof (edge_cost_pos a n).
  destruct (decide (a ∈ S)) as [HaS|HaS].
  - destruct (si_settled _ _ Hinv a HaS) as [h' Hh']. exists (hop_dist h'). unfold dist. rewrite Hh'. split; [done|].
    assert (hop_dist h' <= hop_dist h)%Z; [|lia]. apply (Hmax a); [done|]. unfold dist. by rewrite Hh'.
  - destruct (Hskip He (wanted_ntf a HaS Hx)) as (h' & Hh' & Hle). exists (hop_dist h'). unfold dist. rewrite Hh'.
    by split.
Qed.

Lemma relax_ok st a :
  spf_inv S st -> last_settled st -> refused_ok st -> a ∈ in_neighbours n ->
  exists st', relax multihop_node node_cost edge_cost edge_enabled ntf n h st a = Ok st' /\
    spf_inv S st' /\ improves st st' /\ relaxed [a] n st' /\ refused_ok st'.
Proof.
  intros Hinv Hlast Href Ha. unfold relax. fold (closer_dist a).
  destruct (examined multihop_node ntf a) eqn:Hex.
  - destruct (closer (closer_dist a) (next_hops st !! a)) eqn:Hcl.
    + destruct (edge_enabled a n) eqn:Hen.
      * destruct (pm_set_ok (priority_q st) a (closer_dist a) (si_wf _ _ Hinv)) as (q & Hq & Hwf & Hm).
        rewrite Hq. run. eexists. split; [done|].
        destruct (relax_update_inv st q a Hinv Hlast Ha Hen (ntf_wanted a Hex) Hcl Hwf Hm) as (? & ? & ?).
        by split_and!.
      * eexists. split; [done|].
        set (st' := MkSpf (priority_q st) (next_hops st) ({[ a ]} ∪ refused st)).
        assert (spf_inv S st') as Hinv' by (destruct Hinv; by split).
        split_and!; [done|apply (improves_refl st)| |].
        -- apply relax_skip; [done|done|]. congruence.
        -- intros u Hu. change (refused st') with ({[ a ]} ∪ refused st) in Hu.
           apply elem_of_union in Hu as [->%elem_of_singleton|Hu]; [by exists n|by apply Href].
    + exists st. split_and!; [done|done|apply improves_refl| |done]. apply relax_skip; [done|done|]. intros _ _.
      destruct (next_hops st !! a) as [h'|]; [|done]. exists h'. split; [done|]. simpl in Hcl.
      apply bool_decide_eq_false in Hcl. lia.
  - exists st. split_and!; [done|done|apply improves_refl| |done]. apply relax_skip; [done|done|]. congruence.
Qed.

Lemma relax_all st l :
  spf_inv S st -> last_settled st -> refused_ok st -> l ⊆ in_neighbours n ->
  exists st', foldM (relax multihop_node node_cost edge_cost edge_enabled ntf n h) st l = Ok st' /\
    spf_inv S st' /\ improves st st' /\ relaxed l n st' /\ refused_ok st'.
Proof.
  revert st. induction l as [|a l IH]; intros st Hinv Hlast Href Hl; simpl.
  - exists st. split_and!; [done|done|apply improves_refl| |done]. intros u d Hu. by apply not_elem_of_nil in Hu.
  - destruct (relax_ok st a Hinv Hlast Href) as (st1 & -> & Hinv1 & Himp1 & Hrel1 & Href1); [apply Hl; by left|].
    run. destruct (IH st1 Hinv1 (last_settled_improves _ _ Himp1 Hlast) Href1) as (st2 & -> & Hinv2 & Himp2 & Hrel2 & Href2);
      [intros x Hx; apply Hl; by right|].
    exists st2. split_and!; [done|done|by eapply improves_trans| |done].
    intros u d [->|Hu]%elem_of_cons He Hx Hd; [|by apply Hrel2].
    apply (relaxed_improves [a] n st1 st2 n_settled Himp2 Hrel1); try done. by apply list_elem_of_singleton.
Qed.

End expanding.

(** *** The loop with its consumer *)

Section loop.
Context {A : Type} (consume : A -> string -> Hop -> string -> result (A * bool)) (ntf : A -> option (gset string)).
(** What the consumer keeps, knowing the settled nodes and their entries *)
Variable (P : gset string -> Spf Q -> A -> Prop).
(** All nodes *)
Variable (U : gset string).
Hypothesis dst_in : dst ∈ U.
Hypothesis neighbours_in : forall v, list_to_set (in_neighbours v) ⊆ U.
Hypothesis P_improves : forall S st st' a, improves S st st' -> P S st a -> P S st' a.
Hypothesis P_first : forall S st a, P S st a -> P ({[ dst ]} ∪ S) st a.
Hypothesis consume_ok : forall S st0 st a n h v,
  P S st a -> spf_inv S st0 -> spf_inv ({[ n ]} ∪ S) st -> n ∉ S -> next_hops st0 !! n = Some h ->
  next_hops st = next_hops st0 -> hop_edge h = Some v ->
  exists a' b, consume a n h v = Ok (a', b) /\ P ({[ n ]} ∪ S) st a'.
Hypothesis P_wanted : forall S st a u, P S st a ->
  examined multihop_node (ntf a) u = true -> examined multihop_node wanted u = true.
Hypothesis P_ntf : forall S st a u, P S st a -> u ∉ S ->
  examined multihop_node wanted u = true -> examined multihop_node (ntf a) u = true.

(** Settled nodes are at their shortest distance. *)
Definition settled_min (S : gset string) (st : Spf Q) : Prop :=
  forall n x d, n ∈ S -> dist (next_hops st) n = Some x -> route n d -> (x <= d)%Z.

(** Why the loop ended: every route is settled, or the consumer said so. *)
Definition finished (S : gset string) (a : A) : Prop :=
  (forall n d, route n d -> n ∈ S) \/
  (exists a0 n h v, consume a0 n h v = Ok (a, false)).

Lemma reached_in S st n : spf_inv S st -> is_Some (next_hops st !! n) -> n ∈ U.
Proof.
  intros Hinv [h Hh]. destruct (hop_edge h) as [v|] eqn:He.
  - destruct (si_hop _ _ Hinv n h v Hh He) as (_ & Hin & _). apply (neighbours_in v). by apply elem_of_list_to_set.
  - by rewrite (si_first _ _ Hinv n h Hh He).
Qed.

Lemma closed_improves S n st st' :
  closed S st -> improves ({[ n ]} ∪ S) st st' -> (n = dst \/ multihop = true -> relaxed (in_neighbours n) n st') ->
  closed ({[ n ]} ∪ S) st'.
Proof.
  intros Hc Himp Hn v [->%elem_of_singleton|Hv]%elem_of_union Hexp; [by apply Hn|].
  eapply (relaxed_improves ({[ n ]} ∪ S)); [by apply elem_of_union_r|done|by apply Hc].
Qed.

Lemma improves_dist S st st' n : improves S st st' -> n ∈ S -> dist (next_hops st') n = dist (next_hops st) n.
Proof. intros [_ Hk] Hn. unfold dist. by rewrite Hk. Qed.

Lemma settled_min_improves S st st' : improves S st st' -> settled_min S st -> settled_min S st'.
Proof. intros Himp Hm n x d Hn Hx. apply Hm; [done|]. by rewrite <-(improves_dist S st st' n Himp Hn). Qed.

(** Expanding the node just settled, or not. *)
Lemma expand_ok S st n h a :
  spf_inv ({[ n ]} ∪ S) st -> closed S st -> refused_ok st ->
  last_settled ({[ n ]} ∪ S) n h st -> P ({[ n ]} ∪ S) st a ->
  exists st', expand multihop in_neighbours multihop_node node_cost edge_cost edge_enabled (ntf a) n h st = Ok st' /\
    spf_inv ({[ n ]} ∪ S) st' /\ improves ({[ n ]} ∪ S) st st' /\ closed ({[ n ]} ∪ S) st' /\ refused_ok st'.
Proof.
  intros Hinv Hc Href Hlast HP. unfold expand. destruct Hlast as [Hn Hmax].
  assert (n ∈ ({[ n ]} ∪ S : gset string)) as Hns by set_solver.
  destruct (decide (n = dst \/ multihop = true)) as [Hexp|Hexp].
  - assert (multihop || bool_decide (hop_edge h = None) = true) as ->.
    { destruct Hexp as [->| ->]; [|done]. rewrite (si_dst _ _ Hinv) in Hn. injection Hn as <-.
      rewrite bool_decide_true by done. by rewrite orb_true_r. }
    destruct (relax_all ({[ n ]} ∪ S) (ntf a) n h Hns Hexp (fun u => P_wanted _ _ _ u HP) (fun u => P_ntf _ _ _ u HP)
                st (in_neighbours n)) as (st' & Hst' & Hinv' & Himp & Hrel & Href'); try done.
    exists st'. split_and!; try done. by eapply closed_improves.
  - assert (multihop || bool_decide (hop_edge h = None) = false) as ->.
    { apply orb_false_iff. split; [apply not_true_iff_false; naive_solver|].
      apply bool_decide_eq_false. intros He. apply Hexp. left. by eapply (si_first _ _ Hinv). }
    exists st. split_and!; try done; [apply improves_refl|]. eapply closed_improves; [done|apply improves_refl|]. naive_solver.
Qed.

Lemma consumed_after S st st1 n h a :
  P S st a -> spf_inv S st -> spf_inv ({[ n ]} ∪ S) st1 -> n ∉ S -> next_hops st !! n = Some h ->
  next_hops st1 = next_hops st ->
  exists a' b, match hop_edge h with Some v => consume a n h v | None => Ok (a, true) end = Ok (a', b) /\
    P ({[ n ]} ∪ S) st1 a' /\ (b = false -> exists v, consume a n h v = Ok (a', false)).
Proof.
  intros HP Hinv Hinv' Hn Hh Hnh. assert (P S st1 a) as HP1.
  { apply (P_improves S st); [|done]. split; [|by rewrite Hnh]. intros m x Hx. exists x. rewrite Hnh. split; [done|lia]. }
  destruct (hop_edge h) as [v|] eqn:He.
  - destruct (consume_ok S st st1 a n h v HP1 Hinv Hinv' Hn Hh Hnh He) as (a' & b & Hc & HP').
    exists a', b. split_and!; try done. intros ->. by exists v.
  - exists a, true. split_and!; try done. assert (n = dst) as -> by by eapply (si_first _ _ Hinv). by apply P_first.
Qed.

(** The loop ends within the fuel, every settled node at its shortest distance. *)
Lemma spf_run_ok fuel S st a :
  size (U ∖ S) < fuel -> spf_inv S st -> closed S st -> refused_ok st -> settled_min S st -> P S st a ->
  exists a' st' S', spf_run multihop in_neighbours multihop_node node_cost edge_cost edge_enabled fuel consume ntf a st = Ok (a', st') /\
    spf_inv S' st' /\ refused_ok st' /\ settled_min S' st' /\ P S' st' a' /\ finished S' a'.
Proof.
  revert S st a. induction fuel as [|fuel IH]; intros S st a Hfuel Hinv Hc Href Hmin HP; [lia|]. simpl.
  destruct (spf_pop_ok S st Hinv Hc Href) as [[-> Hall]|
    (n & h & st1 & -> & Hn & Hh & Hnh & Hr1 & Hinv1 & Hshort & Hleast)].
  { run. exists a, st, S. split_and!; try done. by left. }
  run. assert (improves S st st1) as Himp1.
  { split; [|by rewrite Hnh]. intros m x Hx. exists x. rewrite Hnh. split; [done|lia]. }
  assert (P S st1 a) as HP1 by by eapply P_improves.
  assert (spf_inv S st) as Hinv0 by done.
  assert (next_hops st1 !! n = Some h) as Hh1 by by rewrite Hnh.
  destruct (consumed_after S st st1 n h a HP Hinv Hinv1 Hn Hh Hnh) as (a' & b & Hcons & HP' & Hstop).
  rewrite Hcons. run.
  assert (settled_min ({[ n ]} ∪ S) st1) as Hmin1.
  { intros m x d [->%elem_of_singleton|Hm]%elem_of_union Hx Hr; rewrite Hnh in Hx.
    - unfold dist in Hx. rewrite Hh in Hx. injection Hx as <-. by apply Hshort.
    - by eapply Hmin. }
  assert (refused_ok st1) as Href1 by (unfold refused_ok; by rewrite Hr1).
  destruct b.
  - destruct (expand_ok S st1 n h a') as (st2 & -> & Hinv2 & Himp2 & Hc2 & Href2); try done.
    { intros v Hv Hexp u d. rewrite Hnh. by apply Hc. }
    { split; [done|]. intros m x [->%elem_of_singleton|Hm]%elem_of_union Hx; rewrite Hnh in Hx.
      - unfold dist in Hx. rewrite Hh in Hx. injection Hx as <-. lia.
      - apply (si_order _ _ Hinv m n); try done. unfold dist. by rewrite Hh. }
    run. apply (IH ({[ n ]} ∪ S)); try done.
    + assert (n ∈ U ∖ S) as HnU by (apply elem_of_difference; split; [by eapply reached_in; [exact Hinv|]|done]).
      replace (U ∖ ({[ n ]} ∪ S)) with ((U ∖ S) ∖ {[ n ]}) by set_solver.
      rewrite size_difference_alt. replace ((U ∖ S) ∩ {[ n ]}) with ({[ n ]} : gset string) by set_solver.
      rewrite size_singleton. assert (size ({[ n ]} : gset string) <= size (U ∖ S)) as Hs by (apply subseteq_size; set_solver).
      rewrite size_singleton in Hs. lia.
    + by eapply settled_min_improves.
    + by eapply P_improves.
  - exists a', st1, ({[ n ]} ∪ S). split_and!; try done. right. destruct (Hstop eq_refl) as [v Hv]. by exists a, n, h, v.
Qed.

End loop.

End dijkstra.
