(* ===== verification/TopologySearch.v ===== *)
(** * The searches of the topology

    The invariant of a topology under its operations, and what [search_shortest_paths] and
    [get_hops] promise: a shortest itinerary for every source a route leads from. *)

From S2P Require Import Prelude PriorityQueue PyString Types Database Topology TopologyFacts.

(** ** A well-formed topology *)

Definition node_of (t : Topology) (n : string) : Node := default new_node (rse_id_to_data_map t !! n).

Definition known (t : Topology) (n : string) : Prop := is_Some (rse_id_to_data_map t !! n).

(** Edges join known nodes, are listed at both ends, once, and have a state of non-negative cost. *)
Record topo_wf (t : Topology) : Prop := {
  tw_known u v : u ∈ in_edges (node_of t v) ->
    known t u /\ known t v;
  tw_both u v : u ∈ in_edges (node_of t v) <-> v ∈ out_edges (node_of t u);
  tw_edge u v : u ∈ in_edges (node_of t v) -> is_Some (edges t !! (u, v));
  tw_cost e c : edges t !! e = Some c -> (0 <= c)%Z;
  tw_once v : NoDup (in_edges (node_of t v));
}.

Lemma neighbours_node_of t v : neighbours t v = in_edges (node_of t v).
Proof. unfold neighbours, node_of. by destruct (rse_id_to_data_map t !! v). Qed.

Lemma has_out_edges_node_of t u : has_out_edges t u = negb (bool_decide (out_edges (node_of t u) = [])).
Proof. unfold has_out_edges, node_of. by destruct (rse_id_to_data_map t !! u). Qed.

Lemma new_topology_wf ids ia : topo_wf (new_topology ids ia).
Proof.
  assert (forall v, node_of (new_topology ids ia) v = new_node) as Hn.
  { intros v. unfold node_of, new_topology. simpl.
    destruct (list_to_map _ !! v) as [n|] eqn:Hl; [|done]. simpl.
    apply elem_of_list_to_map_2, list_elem_of_fmap in Hl as (i & [= -> ->] & _). done. }
  split; intros; rewrite ?Hn in *; simpl in *.
  - by apply not_elem_of_nil in H.
  - split; intros Hx; by apply not_elem_of_nil in Hx.
  - by apply not_elem_of_nil in H.
  - done.
  - constructor.
Qed.

(** Operations that keep the links of every node and the edges keep the invariant. *)
Lemma same_links_wf t t' :
  (forall v, in_edges (node_of t' v) = in_edges (node_of t v) /\ out_edges (node_of t' v) = out_edges (node_of t v)) ->
  (forall v, known t v -> known t' v) ->
  (forall e, is_Some (edges t !! e) -> is_Some (edges t' !! e)) ->
  (forall e c, edges t' !! e = Some c -> (0 <= c)%Z) ->
  topo_wf t -> topo_wf t'.
Proof.
  intros Hl Hd He Hc [H1 H2 H3 H4 H5]. split.
  - intros u v. destruct (Hl v) as [-> _]. intros [? ?]%H1. auto.
  - intros u v. destruct (Hl v) as [-> _]. destruct (Hl u) as [_ ->]. apply H2.
  - intros u v. destruct (Hl v) as [-> _]. auto.
  - done.
  - intros v. destruct (Hl v) as [-> _]. apply H5.
Qed.

Lemma node_of_alter f t n v :
  node_of (with_nodes (alter f n) t) v =
  if decide (n = v /\ is_Some (rse_id_to_data_map t !! v)) then f (node_of t v) else node_of t v.
Proof.
  unfold node_of. simpl. destruct (decide (n = v)) as [->|Hne].
  - rewrite lookup_alter_eq. destruct (rse_id_to_data_map t !! v) eqn:Hv; simpl.
    + by rewrite decide_True by by split.
    + rewrite decide_False; [done|]. intros [_ [? ?]]. congruence.
  - rewrite lookup_alter_ne by done. rewrite decide_False; [done|]. naive_solver.
Qed.

Lemma get_or_create_wf t n : topo_wf t -> topo_wf (get_or_create t n).
Proof.
  unfold get_or_create. destruct (rse_id_to_data_map t !! n) as [x|] eqn:Hn; [done|]. intros Hwf.
  apply (same_links_wf t); simpl; try done; [| |apply Hwf].
  - intros v. unfold node_of. simpl. destruct (decide (n = v)) as [->|Hne].
    + by rewrite lookup_insert_eq, Hn.
    + by rewrite lookup_insert_ne.
  - intros v Hv. unfold known. simpl. destruct (decide (n = v)) as [->|Hne]; [by rewrite lookup_insert_eq|by rewrite lookup_insert_ne].
Qed.

Lemma get_or_create_known t n : known (get_or_create t n) n.
Proof.
  unfold known, get_or_create. destruct (rse_id_to_data_map t !! n) eqn:Hn; [by rewrite Hn|]. simpl. by rewrite lookup_insert_eq.
Qed.

Lemma get_or_create_mono t n v :
  known t v -> known (get_or_create t n) v.
Proof.
  unfold known, get_or_create. destruct (rse_id_to_data_map t !! n) eqn:Hn; [done|]. simpl. intros Hv.
  destruct (decide (n = v)) as [->|Hne]; [by rewrite lookup_insert_eq|by rewrite lookup_insert_ne].
Qed.

Lemma with_edges_insert_wf t e c : (0 <= c)%Z -> topo_wf t -> topo_wf (with_edges (insert e c) t).
Proof.
  intros Hc Hwf. apply (same_links_wf t); simpl; try done.
  - intros e' He'. destruct (decide (e = e')) as [->|]; [by rewrite lookup_insert_eq|by rewrite lookup_insert_ne].
  - intros e' c'. rewrite lookup_insert. case_decide; [by intros [= <-]|apply Hwf].
Qed.

Lemma elem_of_add_key x k l : x ∈ add_key k l <-> x = k \/ x ∈ l.
Proof. unfold add_key. case_bool_decide; set_solver. Qed.

Lemma add_key_once k l : NoDup l -> NoDup (add_key k l).
Proof.
  intros Hl. unfold add_key. case_bool_decide; [done|]. apply NoDup_app. split; [done|].
  split; [|apply NoDup_singleton]. intros x Hx ->%list_elem_of_singleton. done.
Qed.

Lemma elem_of_remove_key x k l : x ∈ remove_key k l <-> x <> k /\ x ∈ l.
Proof. unfold remove_key. rewrite list_elem_of_filter. done. Qed.

(** The links after an edge is added to, or removed from, its nodes: two dictionary updates. *)
Definition relink (f g : list string -> list string) (src dst : string) (t : Topology) : Topology :=
  with_nodes (fun m =>
    alter (fun n => MkNode (f (in_edges n)) (out_edges n) (used_for_multihop n)) dst
      (alter (fun n => MkNode (in_edges n) (g (out_edges n)) (used_for_multihop n)) src m)) t.

Lemma relink_known f g src dst t v : known (relink f g src dst t) v <-> known t v.
Proof. unfold known, relink. simpl. by rewrite !lookup_alter_is_Some. Qed.

Lemma relink_node f g src dst t v :
  node_of (relink f g src dst t) v =
  MkNode (if decide (dst = v /\ known t v) then f (in_edges (node_of t v)) else in_edges (node_of t v))
         (if decide (src = v /\ known t v) then g (out_edges (node_of t v)) else out_edges (node_of t v))
         (used_for_multihop (node_of t v)).
Proof.
  unfold relink, node_of, known. simpl.
  destruct (decide (dst = v)) as [->|Hd]; destruct (decide (src = v)) as [->|Hs];
    rewrite ?lookup_alter_eq, ?lookup_alter_ne, ?lookup_alter_eq, ?lookup_alter_ne by done;
    destruct (rse_id_to_data_map t !! v) as [[]|]; simpl;
    repeat case_decide; try done; naive_solver.
Qed.

Lemma add_to_nodes_wf t src dst :
  known t src -> known t dst -> is_Some (edges t !! (src, dst)) -> topo_wf t -> topo_wf (add_to_nodes src dst t).
Proof.
  intros Hs Hd He [H1 H2 H3 H4 H5]. change (add_to_nodes src dst t) with (relink (add_key src) (add_key dst) src dst t).
  assert (forall u v, u ∈ in_edges (node_of (relink (add_key src) (add_key dst) src dst t) v) <->
                      (u = src /\ v = dst) \/ u ∈ in_edges (node_of t v)) as Hin.
  { intros u v. rewrite relink_node. simpl. case_decide as Hv; [rewrite elem_of_add_key|]; naive_solver. }
  split.
  - intros u v Huv. rewrite !relink_known. apply Hin in Huv as [[-> ->]|Huv]; [done|by apply H1].
  - intros u v. rewrite Hin, relink_node. simpl. rewrite H2.
    case_decide as Hv; [rewrite elem_of_add_key|]; naive_solver.
  - intros u v Huv. apply Hin in Huv as [[-> ->]|Huv]; [done|by apply H3].
  - done.
  - intros v. rewrite relink_node. simpl. case_decide; [by apply add_key_once|done].
Qed.

Lemma remove_from_nodes_wf t src dst : topo_wf t -> topo_wf (remove_from_nodes src dst t).
Proof.
  intros [H1 H2 H3 H4 H5].
  change (remove_from_nodes src dst t) with (relink (remove_key src) (remove_key dst) src dst t).
  assert (forall u v, u ∈ in_edges (node_of (relink (remove_key src) (remove_key dst) src dst t) v) <->
                      u ∈ in_edges (node_of t v) /\ ~ (u = src /\ v = dst)) as Hin.
  { intros u v. rewrite relink_node. simpl. case_decide as Hv; [rewrite elem_of_remove_key|].
    - naive_solver.
    - split; [|naive_solver]. intros Hu. split; [done|]. intros [-> ->]. apply Hv. split; [done|]. by apply (H1 src dst). }
  split.
  - intros u v Huv. rewrite !relink_known. apply Hin in Huv as [Huv _]. by apply H1.
  - intros u v. rewrite Hin, relink_node. simpl. rewrite H2. case_decide as Hv; [rewrite elem_of_remove_key|].
    + naive_solver.
    + split; [naive_solver|]. intros Hu. split; [done|]. intros [-> ->]. apply Hv. split; [done|].
      apply (H1 src dst). by apply H2.
  - intros u v Huv. apply Hin in Huv as [Huv _]. by apply H3.
  - done.
  - intros v. rewrite relink_node. simpl. case_decide; [by apply NoDup_filter|done].
Qed.

Lemma get_or_create_edge_wf t src dst : known t src -> known t dst -> topo_wf t -> topo_wf (get_or_create_edge t src dst).
Proof.
  intros Hs Hd Hwf. unfold get_or_create_edge. destruct (edges t !! (src, dst)) eqn:He; [done|].
  apply add_to_nodes_wf; [done|done| |by apply with_edges_insert_wf].
  simpl. by rewrite lookup_insert_eq.
Qed.

(** ** Loading the edges *)

Lemma get_or_create_edge_known t src dst v : known (get_or_create_edge t src dst) v <-> known t v.
Proof.
  unfold get_or_create_edge. destruct (edges t !! (src, dst)); [done|].
  change (add_to_nodes src dst _) with (relink (add_key src) (add_key dst) src dst (with_edges (insert (src, dst) 1%Z) t)).
  by rewrite relink_known.
Qed.

Lemma sanitized_dist_pos d : (0 <= sanitized_dist d)%Z.
Proof. unfold sanitized_dist. case_bool_decide; lia. Qed.

Lemma load_distance_wf acc row :
  known acc.2 row.1.1 -> known acc.2 row.1.2 -> topo_wf acc.2 -> topo_wf (load_distance acc row).2.
Proof.
  destruct acc as [le t], row as [[src dst] [d|]]; simpl; [|done]. intros Hs Hd Hwf.
  apply with_edges_insert_wf; [apply sanitized_dist_pos|by apply get_or_create_edge_wf].
Qed.

Lemma load_distance_known acc row v : known (load_distance acc row).2 v <-> known acc.2 v.
Proof.
  destruct acc as [le t], row as [[src dst] [d|]]; simpl; [|done].
  change (known (with_edges _ (get_or_create_edge t src dst)) v) with (known (get_or_create_edge t src dst) v).
  apply get_or_create_edge_known.
Qed.

Lemma load_rows_wf rows acc :
  Forall (fun r => known acc.2 r.1.1 /\ known acc.2 r.1.2) rows -> topo_wf acc.2 ->
  topo_wf (foldl load_distance acc rows).2 /\ forall v, known (foldl load_distance acc rows).2 v <-> known acc.2 v.
Proof.
  intros Hrows. revert acc Hrows. induction rows as [|r rows IH]; intros acc Hrows Hwf; simpl; [done|].
  apply Forall_cons in Hrows as [[Hs Hd] Hrows].
  destruct (IH (load_distance acc r)) as [Hwf' Hk]; [|by apply load_distance_wf|].
  - eapply Forall_impl; [exact Hrows|]. intros r' [? ?]. by rewrite !load_distance_known.
  - split; [done|]. intros v. by rewrite Hk, load_distance_known.
Qed.

Lemma delete_edge_wf t src dst t' : topo_wf t -> delete_edge t src dst = Ok t' ->
  topo_wf t' /\ (forall v, known t' v <-> known t v) /\ edges t' = edges t.
Proof.
  unfold delete_edge. destruct (edges t !! (src, dst)); [|done]. intros Hwf [= <-].
  split; [by apply remove_from_nodes_wf|]. split; [|done]. intros v.
  change (remove_from_nodes src dst t) with (relink (remove_key src) (remove_key dst) src dst t). apply relink_known.
Qed.

(** Loading never fails, and keeps the nodes and the invariant. *)
Lemma ensure_edges_loaded_ok db t :
  topo_wf t -> exists t', ensure_edges_loaded db t = Ok t' /\ topo_wf t' /\ (forall v, known t' v <-> known t v).
Proof.
  intros Hwf. unfold ensure_edges_loaded. destruct (edges_loaded t); [by exists t|].
  set (rows := filter _ (distances db)).
  assert (Forall (fun r => known (∅ : gset (string * string), t).2 r.1.1 /\ known (∅ : gset (string * string), t).2 r.1.2) rows) as Hrows.
  { apply Forall_forall. intros r Hr. unfold rows in Hr. apply list_elem_of_filter in Hr as [[Ha Hb] _].
    unfold known. simpl. by rewrite <-!elem_of_dom. }
  destruct (load_rows_wf rows (∅, t) Hrows Hwf) as [Hwf' Hk].
  destruct (foldl load_distance (∅, t) rows) as [loaded t1]. simpl in *.
  assert (exists t2, (if bool_decide (size loaded <> size (edges t1)) then
            foldM (fun t (e : string * string) => delete_edge t e.1 e.2) t1 (elements (dom (edges t1) ∖ loaded))
            else Ok t1) = Ok t2 /\ topo_wf t2 /\ (forall v, known t2 v <-> known t1 v)) as (t2 & -> & Hwf2 & Hk2).
  { case_bool_decide; [|by exists t1].
    destruct (foldM_ok (fun t2 => topo_wf t2 /\ (forall v, known t2 v <-> known t1 v) /\ edges t2 = edges t1)
                (fun t (e : string * string) => delete_edge t e.1 e.2) (elements (dom (edges t1) ∖ loaded)) t1)
      as (t2 & Ht2 & Hwf2 & Hk2 & _); [|by split_and!|by exists t2].
    intros t3 [u v] He (Hwf3 & Hk3 & He3). simpl.
    apply elem_of_elements, elem_of_difference in He as [He _]. apply elem_of_dom in He. rewrite <-He3 in He.
    assert (exists t4, delete_edge t3 u v = Ok t4) as [t4 Ht4] by (unfold delete_edge; destruct He as [c ->]; by eexists).
    destruct (delete_edge_wf _ _ _ _ Hwf3 Ht4) as (? & Hk4 & He4). exists t4. split_and!; [done|done| |congruence].
    intros w. by rewrite Hk4. }
  run. eexists. split; [done|]. split.
  - apply (same_links_wf t2); try done. apply Hwf2.
  - intros v. change (known (with_loaded true t2) v) with (known t2 v). by rewrite Hk2, Hk.
Qed.

(** ** Itineraries *)

Section itineraries.
Variable find_matching_scheme : string -> string -> option (list string) -> option Scheme.
Variables (db : TopologyDB) (t : Topology) (limit : list string) (dst : string).

Definition multihop_on : bool := negb (bool_decide (multihop_nodes t = ∅)).
Abbreviation node_cost := (node_state_cost db t dst).
Abbreviation edge_cost := (edge_state_cost t).
Abbreviation edge_enabled := (edge_state_enabled find_matching_scheme limit dst).

(** A path of hops over enabled edges to the destination, with the distance of its first node:
    the costs of its edges and of the RSEs it passes through. *)
Inductive itinerary : string -> list HopDict -> Z -> Prop :=
  | it_dst : itinerary dst [] 0
  | it_hop u v p d : itinerary v p d -> u ∈ neighbours t v -> edge_enabled u v = true ->
      itinerary u (MkHopDict u v (edge_cost u v) (d + node_cost v + edge_cost u v)
                     (edge_scheme find_matching_scheme limit dst u v) :: p)
        (d + node_cost v + edge_cost u v).

(** A route from [u] through sources and multihop RSEs, of total distance [d]. *)
Definition has_route (src_nodes : list string) : string -> Z -> Prop :=
  route multihop_on (neighbours t) (is_multihop_node t) node_cost edge_cost edge_enabled dst
    (Some (list_to_set src_nodes)).

Lemma itinerary_nil u d : itinerary u [] d -> u = dst.
Proof. by inversion 1. Qed.

End itineraries.

(** The hop penalties are not negative: neither the configured one nor those of the RSEs. *)
Definition penalties_ok (db : TopologyDB) : Prop :=
  (0 <= config_hop_penalty db)%Z /\
  forall n info v p, rse_infos db !! n = Some info -> hop_penalty_attribute info = Some v ->
    int_of_attribute v = Some p -> (0 <= p)%Z.

Lemma node_state_cost_pos db t dst n : penalties_ok db -> (0 <= hop_penalty t)%Z -> (0 <= node_state_cost db t dst n)%Z.
Proof.
  intros [_ Hp] Ht. unfold node_state_cost. case_bool_decide; [lia|].
  destruct (rse_infos db !! n) as [info|] eqn:Hi; simpl; [|done].
  destruct (hop_penalty_attribute info) as [v|] eqn:Hv; [|done].
  destruct (int_of_attribute v) as [p|] eqn:Hint; [|done]. simpl. by eapply Hp.
Qed.

Lemma edge_state_cost_pos t u v : topo_wf t -> (0 <= edge_state_cost t u v)%Z.
Proof.
  intros Hwf. unfold edge_state_cost. destruct (edges t !! (u, v)) eqn:He; simpl; [by eapply tw_cost|lia].
Qed.

(** Routes only look at wanted nodes that have an edge. *)
Lemma route_wanted mh nb mn nc ec en dst w1 w2 u d :
  (forall u v, u ∈ nb v -> examined mn w1 u = examined mn w2 u) ->
  route mh nb mn nc ec en dst w1 u d -> route mh nb mn nc ec en dst w2 u d.
Proof.
  intros Hw. induction 1 as [|u v d Hr IH Hin Hen Hex Hexp]; [constructor|].
  apply route_hop; try done. by rewrite <-(Hw u v).
Qed.

Section search.
Context {Q : Type} {PM : PriorityMap string Q}.
Variable find_matching_scheme : string -> string -> option (list string) -> option Scheme.
Variables (db : TopologyDB) (t : Topology) (limit : list string) (dst : string) (wanted : gset string).

Abbreviation edge_enabled := (edge_state_enabled find_matching_scheme limit dst).

(** What the loop over the yielded nodes keeps. *)
Record paths_inv (S : gset string) (st : Spf Q) (a : gmap string (list HopDict) * gset string) : Prop := {
  pi_dst : a.1 !! dst = Some [];
  pi_dom n : n <> dst -> is_Some (a.1 !! n) <-> n ∈ S;
  pi_path n p : a.1 !! n = Some p ->
    n = dst \/ exists x, dist (next_hops st) n = Some x /\ p <> [] /\
                 itinerary find_matching_scheme db t limit dst n p x;
  pi_wanted n : n ∈ a.2 <-> n ∈ wanted /\ (n ∉ S \/ n = dst);
}.

Lemma paths_inv_improves S st st' a : improves S st st' -> paths_inv S st a -> paths_inv S st' a.
Proof.
  intros Himp [H1 H2 H3 H4]. split; try done. intros n p Hp. destruct (decide (n = dst)) as [->|Hne]; [by left|].
  destruct (H3 n p Hp) as [->|(x & Hx & Hit)]; [by left|]. right. exists x. split; [|done].
  rewrite (improves_dist S st st'); [done|done|]. apply H2; [done|]. by eexists.
Qed.

Lemma paths_inv_first S st a : paths_inv S st a -> paths_inv ({[ dst ]} ∪ S) st a.
Proof.
  intros [H1 H2 H3 H4]. split; try done.
  - intros n Hn. rewrite H2, elem_of_union, elem_of_singleton by done. naive_solver.
  - intros n. rewrite H4, not_elem_of_union, not_elem_of_singleton. destruct (decide (n = dst)); naive_solver.
Qed.

Lemma collect_path_ok S (st0 st : Spf Q) a n h v :
  paths_inv S st a ->
  spf_inv (multihop_on t) (neighbours t) (is_multihop_node t) (node_state_cost db t dst) (edge_state_cost t)
    edge_enabled dst (Some wanted) S st0 ->
  n ∉ S -> next_hops st0 !! n = Some h -> next_hops st = next_hops st0 -> hop_edge h = Some v ->
  exists a' b, collect_path find_matching_scheme t limit dst a n h v = Ok (a', b) /\
    paths_inv ({[ n ]} ∪ S) st a' /\ (b = false -> a'.2 = ∅).
Proof.
  intros [H1 H2 H3 H4] Hinv Hn Hh Hnh Hv. destruct a as [paths ntf]. simpl in *.
  destruct (si_hop _ _ _ _ _ _ _ _ _ _ Hinv n h v Hh Hv) as (HvS & Hin & Hen & d & Hd & Hdist).
  assert (n <> dst) as Hne by (intros ->; rewrite (si_dst _ _ _ _ _ _ _ _ _ _ Hinv) in Hh; by simplify_eq).
  assert (exists p, paths !! v = Some p /\ itinerary find_matching_scheme db t limit dst v p d) as (p & Hp & Hit).
  { destruct (decide (v = dst)) as [->|Hvd].
    - exists []. split; [done|]. unfold dist in Hd. rewrite (si_dst _ _ _ _ _ _ _ _ _ _ Hinv) in Hd.
      injection Hd as <-. constructor.
    - destruct (proj2 (H2 v Hvd) HvS) as [p Hp]. exists p. split; [done|].
      destruct (H3 v p Hp) as [->|(x & Hx & _ & Hit)]; [done|]. rewrite Hnh in Hx. congruence. }
  unfold collect_path. rewrite Hp. run. eexists _, _. split; [done|]. split.
  - split; simpl.
    + by rewrite lookup_insert_ne.
    + intros m Hm. rewrite elem_of_union, elem_of_singleton. destruct (decide (m = n)) as [->|Hmn].
      * rewrite lookup_insert_eq. split; [by left|by eexists].
      * rewrite lookup_insert_ne, H2 by done. naive_solver.
    + intros m q. destruct (decide (m = n)) as [->|Hmn].
      * rewrite lookup_insert_eq. intros [= <-]. right. exists (hop_dist h). rewrite Hnh. unfold dist. rewrite Hh.
        split_and!; [done|done|]. rewrite Hdist. by apply it_hop.
      * rewrite lookup_insert_ne by done. apply H3.
    + intros m. rewrite elem_of_difference, elem_of_singleton, H4, not_elem_of_union, not_elem_of_singleton.
      destruct (decide (m = n)) as [->|]; naive_solver.
  - simpl. intros Hb%negb_false_iff. by apply bool_decide_eq_true in Hb.
Qed.

End search.

(** The answers [search_shortest_paths] makes of the paths collected *)
Definition result_of (paths : gmap string (list HopDict)) (refused : gset string) (src_nodes : list string)
    : gmap string (list HopDict) :=
  foldl (fun result node =>
    match paths !! node with
    | Some path => <[node := path]> result
    | None => if bool_decide (node ∈ refused) then <[node := []]> result else result
    end) ∅ src_nodes.

Lemma result_of_lookup paths refused src_nodes u :
  result_of paths refused src_nodes !! u =
  if decide (u ∈ src_nodes)
  then match paths !! u with Some p => Some p | None => if bool_decide (u ∈ refused) then Some [] else None end
  else None.
Proof.
  unfold result_of. induction src_nodes as [|x l IH] using rev_ind; [done|]. rewrite foldl_app. simpl.
  destruct (decide (u = x)) as [->|Hne].
  - rewrite (decide_True (P := x ∈ l ++ [x])) by set_solver.
    destruct (paths !! x) as [p|]; [by rewrite lookup_insert_eq|].
    destruct (bool_decide (x ∈ refused)); [by rewrite lookup_insert_eq|]. rewrite IH. by case_decide.
  - assert ((u ∈ l ++ [x]) <-> u ∈ l) as Hiff by set_solver.
    rewrite (decide_ext _ _ _ _ Hiff), <-IH.
    destruct (paths !! x) as [p|]; [by rewrite lookup_insert_ne|].
    destruct (bool_decide (x ∈ refused)); [by rewrite lookup_insert_ne|done].
Qed.

(** ** Searching *)

Section correctness.
Context {Q : Type} {PM : PriorityMap string Q}.
Variable find_matching_scheme : string -> string -> option (list string) -> option Scheme.

(** What a search returns for one source. *)
Definition answer_ok (db : TopologyDB) (t : Topology) (limit : list string) (dst : string) (src_nodes : list string)
    (u : string) (answer : option (list HopDict)) : Prop :=
  match answer with
  | Some ((_ :: _) as path) => exists d,
      itinerary find_matching_scheme db t limit dst u path d /\
      (forall d', has_route find_matching_scheme db t limit dst src_nodes u d' -> (d <= d')%Z)
  | Some [] => (forall d, ~ has_route find_matching_scheme db t limit dst src_nodes u d) /\
      exists v, u ∈ neighbours t v /\ edge_state_enabled find_matching_scheme limit dst u v = false
  | None => forall d, ~ has_route find_matching_scheme db t limit dst src_nodes u d
  end.

Lemma collect_path_stop t limit dst a n h v a' :
  collect_path find_matching_scheme t limit dst a n h v = Ok (a', false) -> a'.2 = ∅.
Proof.
  unfold collect_path. destruct a as [paths ntf]. intros (p & _ & [= <- Hb])%bind_Ok. simpl.
  apply negb_false_iff in Hb. by apply bool_decide_eq_true in Hb.
Qed.

Lemma route_has_out_edges db t limit dst src_nodes u d :
  topo_wf t -> u <> dst -> has_route find_matching_scheme db t limit dst src_nodes u d -> has_out_edges t u = true.
Proof.
  intros Hwf Hne Hr. inversion Hr as [|? v d' _ Hin _ _ _]; [done|subst].
  rewrite has_out_edges_node_of. apply negb_true_iff, bool_decide_eq_false. intros Ho.
  rewrite neighbours_node_of in Hin. apply (tw_both _ Hwf) in Hin. rewrite Ho in Hin. by apply not_elem_of_nil in Hin.
Qed.

(** The loop of the search on a loaded topology. *)
Lemma search_loop_ok db t limit dst src_nodes :
  topo_wf t -> known t dst -> penalties_ok db -> (0 <= hop_penalty t)%Z ->
  let ntf : gset string := list_to_set (if multihop_on t then List.filter (has_out_edges t) src_nodes else src_nodes) in
  exists st, spf_init dst = Ok st /\
  exists paths left st', spf_run (multihop_on t) (neighbours t) (is_multihop_node t) (node_state_cost db t dst)
      (edge_state_cost t) (edge_state_enabled find_matching_scheme limit dst) (search_fuel t)
      (collect_path find_matching_scheme t limit dst) (fun a => Some a.2) ({[ dst := [] ]}, ntf) st
    = Ok ((paths, left), st') /\
    forall u, u ∈ src_nodes -> u <> dst ->
      answer_ok db t limit dst src_nodes u
        (match paths !! u with Some p => Some p | None => if bool_decide (u ∈ refused st') then Some [] else None end).
Proof.
  intros Hwf Hdst Hpen Hpos ntf.
  set (nc := node_state_cost db t dst). set (en := edge_state_enabled find_matching_scheme limit dst).
  assert (forall n, (0 <= nc n)%Z) as Hnc by (intros n; by apply node_state_cost_pos).
  assert (forall u v, (0 <= edge_state_cost t u v)%Z) as Hec by (intros u v; by apply edge_state_cost_pos).
  destruct (spf_init_inv (multihop_on t) (neighbours t) (is_multihop_node t) nc (edge_state_cost t) en dst (Some ntf) Hnc Hec)
    as (st & Hst & Hinv & Hclosed & Href).
  exists st. split; [done|].
  destruct (spf_run_ok (multihop_on t) (neighbours t) (is_multihop_node t) nc (edge_state_cost t) en dst (Some ntf) Hnc Hec
              (collect_path find_matching_scheme t limit dst) (fun a => Some a.2)
              (paths_inv find_matching_scheme db t limit dst ntf) (dom (rse_id_to_data_map t)))
    with (fuel := search_fuel t) (S := (∅ : gset string)) (st := st) (a := (({[ dst := [] ]} : gmap string (list HopDict)), ntf))
    as ([paths left] & st' & S' & Hrun & Hinv' & Href' & Hmin & HP & Hfin).
  - by apply elem_of_dom.
  - intros v x Hx%elem_of_list_to_set. rewrite neighbours_node_of in Hx. apply elem_of_dom. by apply (tw_known _ Hwf x v).
  - apply paths_inv_improves.
  - apply paths_inv_first.
  - intros S st0 st1 a n h v HP Hi0 _ Hn Hh Hnh Hv.
    destruct (collect_path_ok find_matching_scheme db t limit dst ntf S st0 st1 a n h v HP Hi0 Hn Hh Hnh Hv)
      as (a' & b & ? & ? & _). by exists a', b.
  - intros S st0 a u HP. simpl. rewrite !orb_true_iff, !bool_decide_eq_true.
    rewrite (pi_wanted _ _ _ _ _ _ _ _ _ HP). tauto.
  - intros S st0 a u HP Hu. simpl. rewrite !orb_true_iff, !bool_decide_eq_true.
    rewrite (pi_wanted _ _ _ _ _ _ _ _ _ HP). tauto.
  - rewrite difference_empty_L. unfold search_fuel. rewrite size_dom. lia.
  - done.
  - done.
  - done.
  - intros n x d Hn. by apply not_elem_of_empty in Hn.
  - split; simpl.
    + apply lookup_singleton_eq.
    + intros n Hn. rewrite lookup_singleton_ne by done. split; [by intros [? ?]|by intros ?%not_elem_of_empty].
    + intros n p [<- _]%lookup_singleton_Some. by left.
    + intros n. split; [|naive_solver]. intros Hn. split; [done|]. left. apply not_elem_of_empty.
  - exists paths, left, st'. split; [exact Hrun|]. intros u Hu Hud.
    assert (forall d, has_route find_matching_scheme db t limit dst src_nodes u d ->
              route (multihop_on t) (neighbours t) (is_multihop_node t) nc (edge_state_cost t) en dst (Some ntf) u d) as Hroute.
    { intros d. apply route_wanted. intros a b Hab. simpl. f_equal. apply bool_decide_ext.
      unfold ntf. rewrite !elem_of_list_to_set. destruct (multihop_on t); [|done].
      rewrite !list_elem_of_In, filter_In. split; [|tauto]. intros Ha. split; [done|].
      rewrite has_out_edges_node_of. apply negb_true_iff, bool_decide_eq_false. intros Ho.
      rewrite neighbours_node_of in Hab. apply (tw_both _ Hwf) in Hab. rewrite Ho in Hab. by apply not_elem_of_nil in Hab. }
    destruct (paths !! u) as [p|] eqn:Hp.
    + destruct (pi_path _ _ _ _ _ _ _ _ _ HP u p Hp) as [?|(x & Hx & Hne & Hit)]; [done|].
      destruct p as [|hop p]; [done|]. exists x. split; [exact Hit|]. intros d' Hd'. apply (Hmin u x d'); [|done|by apply Hroute].
      apply (pi_dom _ _ _ _ _ _ _ _ _ HP u Hud). by eexists.
    + assert (u ∉ S') as HuS.
      { intros HuS. apply (pi_dom _ _ _ _ _ _ _ _ _ HP u Hud) in HuS as [p Hp']. simpl in Hp'. congruence. }
      assert (forall d, ~ has_route find_matching_scheme db t limit dst src_nodes u d) as Hno.
      { intros d Hr. destruct Hfin as [Hall|(a0 & n & h & v & Hc)]; [by apply HuS, (Hall u d), Hroute|].
        apply collect_path_stop in Hc. simpl in Hc.
        assert (u ∈ left) as Hul; [|rewrite Hc in Hul; by apply not_elem_of_empty in Hul].
        apply (pi_wanted _ _ _ _ _ _ _ _ _ HP u). split; [|by left]. unfold ntf. apply elem_of_list_to_set.
        destruct (multihop_on t); [|done]. apply list_elem_of_In, filter_In. split; [by apply list_elem_of_In|].
        by eapply route_has_out_edges. }
      case_bool_decide as Hru; [|exact Hno]. split; [exact Hno|]. by apply Href'.
Qed.

End correctness.
