(* ===== verification/TopologyHops.v ===== *)
(** * Loading edges, shortest paths and hops

    The promises of [Topology]: the edges loaded are the distances of the database, every
    source gets a shortest itinerary, and [get_hops] returns one or says why there is none. *)

From S2P Require Import Prelude PriorityQueue PyString Types Database Topology TopologyFacts TopologySearch.

(** ** Loaded edges *)

(** No edge has been taken off its nodes. *)
Definition linked (t : Topology) : Prop := forall u v, is_Some (edges t !! (u, v)) -> u ∈ neighbours t v.

Definition listed (rows : list (string * string * option Z)) (u v : string) : Prop := exists d, (u, v, Some d) ∈ rows.

Lemma listed_cons r rows u v :
  listed (r :: rows) u v <-> (r.1 = (u, v) /\ is_Some r.2) \/ listed rows u v.
Proof.
  unfold listed. destruct r as [[a b] od]; simpl. split.
  - intros [d [[= <- <- <-]|Hin]%elem_of_cons]; [left; by split; [|eexists]|right; by eexists].
  - intros [[[= <- <-] [d ->]]|[d Hin]]; exists d; [left|by right].
Qed.

Lemma add_to_nodes_neighbours src dst t u v :
  known t dst -> u ∈ neighbours (add_to_nodes src dst t) v <-> (u = src /\ v = dst) \/ u ∈ neighbours t v.
Proof.
  intros Hd. change (add_to_nodes src dst t) with (relink (add_key src) (add_key dst) src dst t).
  rewrite !neighbours_node_of, relink_node. simpl. case_decide; [rewrite elem_of_add_key|]; naive_solver.
Qed.

Lemma get_or_create_edge_links t src dst :
  known t dst -> linked t ->
  linked (get_or_create_edge t src dst) /\
  (forall u v, u ∈ neighbours (get_or_create_edge t src dst) v <-> (u = src /\ v = dst) \/ u ∈ neighbours t v) /\
  (forall e, is_Some (edges (get_or_create_edge t src dst) !! e) <-> e = (src, dst) \/ is_Some (edges t !! e)).
Proof.
  intros Hd Hl. unfold get_or_create_edge. destruct (edges t !! (src, dst)) as [c|] eqn:He.
  - split_and!; [done| |].
    + intros u v. split; [tauto|]. intros [[-> ->]|?]; [|done]. apply Hl. by eexists.
    + intros e. split; [tauto|]. intros [->|?]; [by eexists|done].
  - assert (known (with_edges (insert (src, dst) 1%Z) t) dst) as Hd' by exact Hd.
    split_and!.
    + intros u v Huv. rewrite add_to_nodes_neighbours by done. simpl in Huv.
      rewrite lookup_insert in Huv. case_decide as He'; [left; by simplify_eq|]. right. by apply Hl.
    + intros u v. by rewrite add_to_nodes_neighbours.
    + intros e. simpl. rewrite lookup_insert. case_decide as He'; naive_solver.
Qed.

Lemma load_rows_links rows acc :
  Forall (fun r => known acc.2 r.1.1 /\ known acc.2 r.1.2) rows -> linked acc.2 ->
  linked (foldl load_distance acc rows).2 /\
  (forall u v, u ∈ neighbours (foldl load_distance acc rows).2 v <-> listed rows u v \/ u ∈ neighbours acc.2 v) /\
  (forall u v, (u, v) ∈ (foldl load_distance acc rows).1 <-> listed rows u v \/ (u, v) ∈ acc.1) /\
  (forall u v, is_Some (edges (foldl load_distance acc rows).2 !! (u, v)) <-> listed rows u v \/ is_Some (edges acc.2 !! (u, v))).
Proof.
  revert acc. induction rows as [|r rows IH]; intros acc Hrows Hl; simpl.
  - assert (forall u v, ~ listed [] u v) as Hno by (intros u v [d Hd]; by apply not_elem_of_nil in Hd). naive_solver.
  - apply Forall_cons in Hrows as [[Hs Hd] Hrows].
    assert (Forall (fun r' => known (load_distance acc r).2 r'.1.1 /\ known (load_distance acc r).2 r'.1.2) rows) as Hrows'.
    { eapply Forall_impl; [exact Hrows|]. intros r' [? ?]. by rewrite !load_distance_known. }
    destruct acc as [le t], r as [[src dst] [d|]]; simpl in Hs, Hd, Hl.
    + destruct (get_or_create_edge_links t src dst Hd Hl) as (H1 & H2 & H3).
      set (t1 := with_edges (insert (src, dst) (sanitized_dist d)) (get_or_create_edge t src dst)).
      change (load_distance (le, t) (src, dst, Some d)) with ({[ (src, dst) ]} ∪ le, t1) in *.
      assert (forall e, is_Some (edges t1 !! e) <-> e = (src, dst) \/ is_Some (edges t !! e)) as He1.
      { intros e. unfold t1. simpl. rewrite lookup_insert. case_decide; [naive_solver|]. rewrite H3. naive_solver. }
      assert (linked t1) as Hl1.
      { intros u v Huv. change (u ∈ neighbours (get_or_create_edge t src dst) v). apply H2.
        apply He1 in Huv as [[= -> ->]|Huv]; [by left|right; by apply Hl]. }
      destruct (IH ({[ (src, dst) ]} ∪ le, t1) Hrows' Hl1) as (I1 & I2 & I3 & I4). cbn [fst snd] in *.
      split_and!; [done|..]; intros u v; rewrite listed_cons; cbn [fst snd].
      * rewrite I2. change (neighbours t1 v) with (neighbours (get_or_create_edge t src dst) v). rewrite H2. naive_solver.
      * rewrite I3, elem_of_union, elem_of_singleton. naive_solver.
      * rewrite I4, He1. naive_solver.
    + destruct (IH (le, t) Hrows' Hl) as (I1 & I2 & I3 & I4). simpl in *.
      assert (~ is_Some (@None Z)) as Hno by by intros [? ?].
      split_and!; [done|..]; intros u v; rewrite listed_cons; naive_solver.
Qed.

Lemma load_rows_costs rows acc u v d :
  NoDup rows.*1 -> (u, v, Some d) ∈ rows ->
  edges (foldl load_distance acc rows).2 !! (u, v) = Some (sanitized_dist d).
Proof.
  intros Hnd Hin. induction rows as [|r rows IH] using rev_ind; [by apply not_elem_of_nil in Hin|].
  rewrite foldl_app. simpl. rewrite fmap_app in Hnd. apply NoDup_app in Hnd as (Hnd & Hsep & _).
  destruct (foldl load_distance acc rows) as [le t]. simpl in *.
  apply elem_of_app in Hin as [Hin|Hr%list_elem_of_singleton]; simpl; [|subst r].
  - assert (r.1 <> (u, v)) as Hne.
    { intros Hr. apply (Hsep (u, v)); [by apply (list_elem_of_fmap_2 fst _ (u, v, Some d))|]. rewrite <-Hr. apply list_elem_of_here. }
    destruct r as [[a b] [d'|]]; simpl in *; [|by apply IH]. rewrite lookup_insert_ne by congruence.
    specialize (IH Hnd Hin). unfold get_or_create_edge. destruct (edges t !! (a, b)); [done|].
    change (<[(a, b) := 1%Z]> (edges t) !! (u, v) = Some (sanitized_dist d)). by rewrite lookup_insert_ne by congruence.
  - simpl. by rewrite lookup_insert_eq.
Qed.

Lemma remove_from_nodes_neighbours src dst t u v :
  topo_wf t -> u ∈ neighbours (remove_from_nodes src dst t) v <-> u ∈ neighbours t v /\ (u, v) <> (src, dst).
Proof.
  intros Hwf. change (remove_from_nodes src dst t) with (relink (remove_key src) (remove_key dst) src dst t).
  rewrite !neighbours_node_of, relink_node. simpl. case_decide as Hv; [rewrite elem_of_remove_key; naive_solver|].
  split; [|tauto]. intros Hu. split; [done|]. intros [= -> ->]. apply Hv. split; [done|]. by apply (tw_known _ Hwf src dst).
Qed.

Lemma delete_edges_links l t :
  topo_wf t -> (forall e, e ∈ l -> is_Some (edges t !! e)) ->
  exists t', foldM (fun t (e : string * string) => delete_edge t e.1 e.2) t l = Ok t' /\ edges t' = edges t /\
    forall u v, u ∈ neighbours t' v <-> u ∈ neighbours t v /\ (u, v) ∉ l.
Proof.
  revert t. induction l as [|[a b] l IH]; intros t Hwf Hl.
  - exists t. split_and!; [done|done|]. intros u v. split; [|tauto]. intros ?. split; [done|]. apply not_elem_of_nil.
  - destruct (Hl (a, b)) as [c Hc]; [left|].
    assert (delete_edge t a b = Ok (remove_from_nodes a b t)) as Hde by (unfold delete_edge; by rewrite Hc).
    destruct (IH (remove_from_nodes a b t)) as (t' & Ht' & He & Hn).
    { by apply remove_from_nodes_wf. }
    { intros e He. apply Hl. by right. }
    exists t'. simpl. rewrite Hde. split_and!; [done|done|].
    intros u v. rewrite Hn, remove_from_nodes_neighbours, not_elem_of_cons by done. tauto.
Qed.

(** A topology loaded from the distances of the database. *)
Definition loaded_from (db : TopologyDB) (nodes : string -> Prop) (t : Topology) : Prop :=
  (forall u v, u ∈ neighbours t v <-> nodes u /\ nodes v /\ listed (distances db) u v) /\
  (forall u v d, nodes u -> nodes v -> (u, v, Some d) ∈ distances db -> edge_state_cost t u v = sanitized_dist d).

Lemma known_rows db t u v d :
  (u, v, d) ∈ filter (fun r : string * string * option Z => r.1.1 ∈ dom (rse_id_to_data_map t) /\ r.1.2 ∈ dom (rse_id_to_data_map t))
                (distances db) <-> known t u /\ known t v /\ (u, v, d) ∈ distances db.
Proof. rewrite list_elem_of_filter. simpl. rewrite !elem_of_dom. unfold known. tauto. Qed.

Lemma ensure_edges_loaded_from db t :
  topo_wf t -> linked t -> edges_loaded t = false -> NoDup (distances db).*1 ->
  exists t', ensure_edges_loaded db t = Ok t' /\ edges_loaded t' = true /\ loaded_from db (known t) t'.
Proof.
  intros Hwf Hl He Hnd. unfold ensure_edges_loaded. rewrite He.
  set (rows := filter _ (distances db)).
  assert (forall u v, listed rows u v <-> known t u /\ known t v /\ listed (distances db) u v) as Hlisted.
  { intros u v. unfold listed, rows. setoid_rewrite known_rows. naive_solver. }
  assert (Forall (fun r : string * string * option Z => known (∅ : gset (string * string), t).2 r.1.1 /\ known (∅ : gset (string * string), t).2 r.1.2) rows) as Hrows.
  { apply Forall_forall. intros [[u v] d] Hr. unfold rows in Hr. apply known_rows in Hr. simpl. tauto. }
  assert (NoDup rows.*1) as Hnd' by (eapply sublist_NoDup; [exact Hnd|]; apply fmap_sublist, sublist_filter).
  pose proof (fun u v d => load_rows_costs rows (∅, t) u v d Hnd') as Hcost.
  destruct (load_rows_wf rows (∅, t) Hrows Hwf) as [Hwf' _].
  destruct (load_rows_links rows (∅, t) Hrows Hl) as (Hl1 & Hn1 & Hd1 & He1).
  destruct (foldl load_distance (∅, t) rows) as [loaded t1]. cbn [fst snd] in *.
  assert (loaded ⊆ dom (edges t1)) as Hsub.
  { intros [u v]. rewrite elem_of_dom, He1, Hd1. intros [?|Hno]; [by left|by apply not_elem_of_empty in Hno]. }
  assert (exists t2, (if bool_decide (size loaded <> size (edges t1)) then
            foldM (fun t (e : string * string) => delete_edge t e.1 e.2) t1 (elements (dom (edges t1) ∖ loaded))
            else Ok t1) = Ok t2 /\ edges t2 = edges t1 /\
            forall u v, u ∈ neighbours t2 v <-> (u, v) ∈ loaded) as (t2 & -> & He2 & Hn2).
  { assert (forall u v, (u, v) ∈ loaded -> u ∈ neighbours t1 v) as Hln.
    { intros u v Huv. apply Hl1, elem_of_dom, Hsub, Huv. }
    assert (forall u v, u ∈ neighbours t1 v -> (u, v) ∈ dom (edges t1)) as Hnd1.
    { intros u v Huv. rewrite neighbours_node_of in Huv. apply elem_of_dom. by apply (tw_edge _ Hwf'). }
    case_bool_decide as Hsz.
    - destruct (delete_edges_links (elements (dom (edges t1) ∖ loaded)) t1 Hwf') as (t2 & Ht2 & He2 & Hn2).
      { intros e. rewrite elem_of_elements, elem_of_difference, elem_of_dom. tauto. }
      exists t2. split_and!; [done|done|]. intros u v. rewrite Hn2, elem_of_elements, not_elem_of_difference.
      split; [|naive_solver]. intros [Hu [Hno|?]]; [|done]. by destruct Hno; apply Hnd1.
    - exists t1. split_and!; [done|done|]. intros u v. split; [|apply Hln]. intros Hu%Hnd1.
      rewrite <-(size_dom (edges t1)) in Hsz.
      assert (loaded ≡ dom (edges t1)) as Heq by (apply set_subseteq_size_equiv; [done|lia]). by apply Heq. }
  run. eexists. split; [done|]. split; [done|]. split.
  - intros u v. change (u ∈ neighbours t2 v <-> known t u /\ known t v /\ listed (distances db) u v).
    rewrite Hn2, Hd1, Hlisted. split; [|tauto]. intros [?|Hno]; [done|by apply not_elem_of_empty in Hno].
  - intros u v d Hu Hv Hin. unfold edge_state_cost. change (edges (with_loaded true t2)) with (edges t2).
    rewrite He2, (Hcost u v d); [done|]. by apply known_rows.
Qed.

(** Loading touches neither the multihop RSEs nor the hop penalty. *)
Definition same_multihop (t t' : Topology) : Prop :=
  multihop_nodes t' = multihop_nodes t /\ hop_penalty t' = hop_penalty t /\
  forall n, is_multihop_node t' n = is_multihop_node t n.

#[export] Instance same_multihop_preorder : PreOrder same_multihop.
Proof.
  split; [by intros t|]. intros t1 t2 t3 (H1 & H2 & H3) (I1 & I2 & I3). split_and!; [congruence..|].
  intros n. by rewrite I3.
Qed.

Lemma is_multihop_node_of t n : is_multihop_node t n = used_for_multihop (node_of t n).
Proof. unfold is_multihop_node, node_of. by destruct (rse_id_to_data_map t !! n). Qed.

Lemma relink_same_multihop f g src dst t : same_multihop t (relink f g src dst t).
Proof. split_and!; [done..|]. intros n. by rewrite !is_multihop_node_of, relink_node. Qed.

Lemma get_or_create_edge_same_multihop src dst t : same_multihop t (get_or_create_edge t src dst).
Proof.
  unfold get_or_create_edge. destruct (edges t !! (src, dst)); [reflexivity|].
  etransitivity; [|apply (relink_same_multihop (add_key src) (add_key dst))]. done.
Qed.

Lemma load_rows_same_multihop rows acc : same_multihop acc.2 (foldl load_distance acc rows).2.
Proof.
  revert acc. induction rows as [|[[src dst] [d|]] rows IH]; intros [le t]; simpl; [reflexivity| |apply IH].
  etransitivity; [|apply IH]. apply get_or_create_edge_same_multihop.
Qed.

Lemma ensure_edges_loaded_same_multihop db t t' : ensure_edges_loaded db t = Ok t' -> same_multihop t t'.
Proof.
  unfold ensure_edges_loaded. destruct (edges_loaded t); [intros [= <-]; reflexivity|].
  set (rows := filter _ (distances db)). pose proof (load_rows_same_multihop rows (∅, t)) as Hmh.
  destruct (foldl load_distance (∅, t) rows) as [loaded t1]. simpl in Hmh.
  intros (t2 & Ht2 & [= <-])%bind_Ok. trans t1; [done|]. change (same_multihop t1 t2).
  case_bool_decide; [|injection Ht2 as <-; reflexivity].
  revert Ht2. generalize (elements (dom (edges t1) ∖ loaded)). intros l. clear. revert t1.
  induction l as [|[a b] l IH]; simpl; intros t1; [intros [= <-]; reflexivity|].
  intros (t3 & Hd & Hf)%bind_Ok. etransitivity; [|by apply IH].
  unfold delete_edge in Hd. destruct (edges t1 !! _); [|done]. injection Hd as <-.
  apply (relink_same_multihop (remove_key a) (remove_key b)).
Qed.

(** ** Configuring multihop *)

(** [t'] is [t] with more nodes and other multihop flags. *)
Record extends (t t' : Topology) : Prop := {
  ex_links v : in_edges (node_of t' v) = in_edges (node_of t v) /\ out_edges (node_of t' v) = out_edges (node_of t v);
  ex_edges : edges t' = edges t;
  ex_known v : known t v -> known t' v;
  ex_loaded : edges_loaded t = false -> edges_loaded t' = false;
  ex_ignore : ignore_availability t' = ignore_availability t;
}.

#[export] Instance extends_preorder : PreOrder extends.
Proof.
  split; [by intros t; split|]. intros t1 t2 t3 [A1 A2 A3 A4 A5] [B1 B2 B3 B4 B5].
  split; [|congruence|auto|auto|congruence].
  intros v. destruct (A1 v), (B1 v). split; congruence.
Qed.

Lemma extends_wf t t' : extends t t' -> topo_wf t -> topo_wf t'.
Proof.
  intros [H1 H2 H3 H4 H5] Hwf. apply (same_links_wf t); [done|done| |rewrite H2; apply Hwf|done].
  intros e. by rewrite H2.
Qed.

Lemma extends_linked t t' : extends t t' -> linked t -> linked t'.
Proof.
  intros [H1 H2 H3 H4 H5] Hl u v. rewrite H2, neighbours_node_of. destruct (H1 v) as [-> _].
  rewrite <-neighbours_node_of. apply Hl.
Qed.

Lemma get_or_create_node t n v : node_of (get_or_create t n) v = node_of t v.
Proof.
  unfold get_or_create. destruct (rse_id_to_data_map t !! n) eqn:Hn; [done|]. unfold node_of. simpl.
  rewrite lookup_insert. case_decide; [|done]. subst. by rewrite Hn.
Qed.

Lemma get_or_create_extends t n : extends t (get_or_create t n).
Proof.
  split.
  - intros v. by rewrite get_or_create_node.
  - unfold get_or_create. by destruct (_ !! n).
  - intros v. apply get_or_create_mono.
  - unfold get_or_create. by destruct (_ !! n).
  - unfold get_or_create. by destruct (_ !! n).
Qed.

Lemma get_or_create_known_iff t n v : known (get_or_create t n) v <-> v = n \/ known t v.
Proof.
  split.
  - unfold known, get_or_create. destruct (rse_id_to_data_map t !! n) eqn:Hn; [tauto|]. simpl.
    rewrite lookup_insert. case_decide; naive_solver.
  - intros [->|?]; [apply get_or_create_known|by apply get_or_create_mono].
Qed.

Lemma set_multihop_flag_node b n t v :
  node_of (set_multihop_flag b n t) v =
  MkNode (in_edges (node_of t v)) (out_edges (node_of t v))
    (if decide (n = v /\ known t v) then b else used_for_multihop (node_of t v)).
Proof. unfold set_multihop_flag. rewrite node_of_alter. unfold known. case_decide; [done|]. by destruct (node_of t v). Qed.

Lemma set_multihop_flag_known b n t v : known (set_multihop_flag b n t) v <-> known t v.
Proof. unfold known, set_multihop_flag. simpl. by rewrite lookup_alter_is_Some. Qed.

Lemma set_multihop_flag_extends b n t : extends t (set_multihop_flag b n t).
Proof.
  split; try done; intros v; [by rewrite set_multihop_flag_node|]. by rewrite set_multihop_flag_known.
Qed.

(** The flags of the nodes agree with the set of multihop nodes. *)
Definition multihop_ok (t : Topology) : Prop := forall n, is_multihop_node t n = true <-> n ∈ multihop_nodes t.

(** Whether an RSE may relay transfers. *)
Definition relays (db : TopologyDB) (ignore : bool) (n : string) : Prop :=
  exists info, rse_infos db !! n = Some info /\ (ignore = true \/ (availability_read info = true /\ availability_write info = true)).

Lemma clear_flags l t :
  let t' := foldr (set_multihop_flag false) t l in
  extends t t' /\ (forall v, known t' v <-> known t v) /\
  forall n, is_multihop_node t' n = true <-> is_multihop_node t n = true /\ n ∉ l.
Proof.
  induction l as [|a l (IH1 & IH2 & IH3)]; simpl.
  - split_and!; [reflexivity|done|]. intros n. split; [|tauto]. intros ?. split; [done|apply not_elem_of_nil].
  - split_and!.
    + etransitivity; [exact IH1|apply set_multihop_flag_extends].
    + intros v. by rewrite set_multihop_flag_known.
    + intros n. rewrite not_elem_of_cons, is_multihop_node_of, set_multihop_flag_node. simpl.
      specialize (IH3 n). rewrite !is_multihop_node_of in IH3 |- *.
      case_decide as Hd; [naive_solver|]. rewrite IH3. rewrite is_multihop_node_of. split; [|tauto]. intros [Hf Hn]. split_and!; [done| |done].
      intros ->. apply Hd. split; [done|]. apply IH2. unfold known.
      unfold node_of in Hf. destruct (rse_id_to_data_map t !! a); [by eexists|done].
Qed.

(** One RSE of the loop that marks the multihop nodes *)
Definition mark_multihop (db : TopologyDB) (t : Topology) (rse_id : string) : result Topology :=
  let t := get_or_create t rse_id in
  let* info := rse_info db rse_id in
  if ignore_availability t || (availability_read info && availability_write info)
  then Ok (with_multihop ({[ rse_id ]} ∪ multihop_nodes t) (set_multihop_flag true rse_id t))
  else Ok t.

Lemma mark_multihop_ok db t n :
  multihop_ok t -> is_Some (rse_infos db !! n) ->
  exists t', mark_multihop db t n = Ok t' /\ extends t t' /\ multihop_ok t' /\
    (forall v, known t' v <-> v = n \/ known t v) /\
    (forall v, v ∈ multihop_nodes t' <-> (v = n /\ relays db (ignore_availability t) n) \/ v ∈ multihop_nodes t).
Proof.
  intros Hmh [info Hinfo]. unfold mark_multihop, rse_info. rewrite Hinfo. run.
  assert (multihop_nodes (get_or_create t n) = multihop_nodes t) as Hms by (unfold get_or_create; by destruct (rse_id_to_data_map t !! n)).
  assert (ignore_availability (get_or_create t n) = ignore_availability t) as Hia by apply get_or_create_extends.
  assert (relays db (ignore_availability t) n <->
          ignore_availability t || (availability_read info && availability_write info) = true) as Hrel.
  { rewrite orb_true_iff, andb_true_iff. unfold relays. naive_solver. }
  assert (multihop_ok (get_or_create t n)) as Hmh'.
  { intros v. rewrite is_multihop_node_of, get_or_create_node, Hms, <-is_multihop_node_of. apply Hmh. }
  rewrite Hia. destruct (ignore_availability t || _).
  - eexists. split; [done|].
    assert (extends (get_or_create t n) (with_multihop ({[ n ]} ∪ multihop_nodes (get_or_create t n))
              (set_multihop_flag true n (get_or_create t n)))) as Hext.
    { etransitivity; [apply (set_multihop_flag_extends true n)|]. by split. }
    split_and!.
    + etransitivity; [apply get_or_create_extends|exact Hext].
    + intros v. rewrite is_multihop_node_of. simpl.
      change (node_of (with_multihop ?m ?t)) with (node_of t). rewrite set_multihop_flag_node. simpl.
      rewrite elem_of_union, elem_of_singleton, <-(Hmh' v), is_multihop_node_of.
      pose proof (get_or_create_known t n). case_decide; naive_solver.
    + intros v. change (known (with_multihop ?m ?t) v) with (known t v).
      by rewrite set_multihop_flag_known, get_or_create_known_iff.
    + intros v. simpl. rewrite elem_of_union, elem_of_singleton, Hms. naive_solver.
  - eexists. split; [done|]. split_and!; [apply get_or_create_extends|done|apply get_or_create_known_iff|].
    intros v. rewrite Hms. naive_solver.
Qed.

Lemma mark_multihops_ok db ids t :
  multihop_ok t -> (forall n, n ∈ ids -> is_Some (rse_infos db !! n)) ->
  exists t', foldM (mark_multihop db) t ids = Ok t' /\ extends t t' /\ multihop_ok t' /\
    (forall v, known t' v <-> v ∈ ids \/ known t v) /\
    (forall v, v ∈ multihop_nodes t' <-> (v ∈ ids /\ relays db (ignore_availability t) v) \/ v ∈ multihop_nodes t).
Proof.
  revert t. induction ids as [|n ids IH]; intros t Hmh Hi; simpl.
  - exists t. split_and!; try done; intros v; rewrite elem_of_nil; tauto.
  - destruct (mark_multihop_ok db t n Hmh) as (t1 & Ht1 & Hx1 & Hm1 & Hk1 & Hn1); [apply Hi; left|].
    destruct (IH t1 Hm1) as (t2 & Ht2 & Hx2 & Hm2 & Hk2 & Hn2); [intros v Hv; apply Hi; by right|].
    exists t2. rewrite Ht1. split_and!; [done|by etransitivity|done| |]; intros v; rewrite elem_of_cons.
    + rewrite Hk2, Hk1. tauto.
    + rewrite Hn2, Hn1, (ex_ignore _ _ Hx1). naive_solver.
Qed.

Lemma configure_multihop_ok db ids t :
  multihop_ok t -> (forall n, n ∈ default (config_multihop_rses db) ids -> is_Some (rse_infos db !! n)) ->
  exists t', configure_multihop db ids t = Ok t' /\ extends t t' /\ multihop_ok t' /\
    hop_penalty t' = config_hop_penalty db /\
    (forall v, known t' v <-> v ∈ default (config_multihop_rses db) ids \/ known t v) /\
    (forall v, v ∈ multihop_nodes t' <-> v ∈ default (config_multihop_rses db) ids /\ relays db (ignore_availability t) v).
Proof.
  intros Hmh Hi. set (l := default (config_multihop_rses db) ids) in *.
  destruct (clear_flags (elements (multihop_nodes t)) t) as (Hx0 & Hk0 & Hf0).
  set (t0 := with_multihop ∅ (foldr (set_multihop_flag false) t (elements (multihop_nodes t)))) in *.
  assert (extends t t0) as Hx by (etransitivity; [exact Hx0|by split]).
  destruct (mark_multihops_ok db l t0) as (t1 & Ht1 & Hx1 & Hm1 & Hk1 & Hn1); [|done|].
  { intros n. change (is_multihop_node t0 n) with (is_multihop_node (foldr (set_multihop_flag false) t (elements (multihop_nodes t))) n).
    rewrite Hf0, elem_of_elements, (Hmh n). simpl. rewrite elem_of_empty. tauto. }
  exists (with_penalty (config_hop_penalty db) t1).
  assert (configure_multihop db ids t = (let* t := foldM (mark_multihop db) t0 l in Ok (with_penalty (config_hop_penalty db) t))) as -> by done.
  rewrite Ht1. run. split_and!; [done| |done|done| |].
  - etransitivity; [exact Hx|]. etransitivity; [exact Hx1|]. by split.
  - intros v. change (known t1 v <-> v ∈ l \/ known t v). rewrite Hk1.
    change (known t0 v) with (known (foldr (set_multihop_flag false) t (elements (multihop_nodes t))) v). by rewrite Hk0.
  - intros v. change (v ∈ multihop_nodes t1 <-> v ∈ l /\ relays db (ignore_availability t) v).
    rewrite Hn1. change (multihop_nodes t0) with (∅ : gset string). rewrite elem_of_empty, (ex_ignore _ _ Hx). tauto.
Qed.

(** ** What the topology promises *)

(** C31: [Topology.ensure_edges_loaded], on a topology from which no edge was deleted before, makes the edges into each
    RSE, along which routes are searched, exactly the distances to it from RSEs of the topology, and their costs these
    distances, negative ones counted as 0, whatever edges there were before; the edges out of
    RSEs mirror them.  It keeps the nodes, the multihop RSEs and the hop penalty, and loading
    again does nothing.  (An edge that was deleted is not found again: [restored_distance_ignored].) *)
Theorem loaded_edges_are_distances db t :
  topo_wf t -> linked t -> edges_loaded t = false -> NoDup (distances db).*1 ->
  exists t', ensure_edges_loaded db t = Ok t' /\ topo_wf t' /\ loaded_from db (known t) t' /\
    (forall n, known t' n <-> known t n) /\ same_multihop t t' /\ ensure_edges_loaded db t' = Ok t'.
Proof.
  intros Hwf Hl He Hnd.
  destruct (ensure_edges_loaded_from db t Hwf Hl He Hnd) as (t' & Ht' & Hload & Hfrom).
  destruct (ensure_edges_loaded_ok db t Hwf) as (t'' & Ht'' & Hwf' & Hk). rewrite Ht' in Ht''. injection Ht'' as <-.
  exists t'. split_and!; [done..|by eapply ensure_edges_loaded_same_multihop|].
  unfold ensure_edges_loaded. by rewrite Hload.
Qed.

Section search.
Context {Q : Type} {PM : PriorityMap string Q}.
Variable find_matching_scheme : string -> string -> option (list string) -> option Scheme.

Lemma rse_infos_checked db l : (forall n, n ∈ l -> is_Some (rse_infos db !! n)) ->
  foldM (fun u rse_id => mapR (fun _ => u) (rse_info db rse_id)) tt l = Ok tt.
Proof.
  induction l as [|n l IH]; intros Hl; simpl; [done|].
  destruct (Hl n) as [info Hi]; [left|]. unfold rse_info at 1. rewrite Hi. simpl. apply IH. intros m Hm. apply Hl. by right.
Qed.

Lemma search_shortest_paths_ok db t src_nodes dst limit :
  topo_wf t -> known t dst -> penalties_ok db -> (0 <= hop_penalty t)%Z ->
  (forall n, n ∈ src_nodes ++ [dst] ++ elements (multihop_nodes t) -> is_Some (rse_infos db !! n)) ->
  exists result t', ensure_edges_loaded db t = Ok t' /\
    search_shortest_paths find_matching_scheme db t src_nodes dst limit = Ok (result, t') /\
    (forall u, u ∉ src_nodes -> result !! u = None) /\
    forall u, u ∈ src_nodes -> u <> dst -> answer_ok find_matching_scheme db t' limit dst src_nodes u (result !! u).
Proof.
  intros Hwf Hdst Hpen Hpos Hinfo. destruct (ensure_edges_loaded_ok db t Hwf) as (t' & Ht' & Hwf' & Hk).
  pose proof (ensure_edges_loaded_same_multihop _ _ _ Ht') as (Hmn & Hhp & _).
  destruct (search_loop_ok find_matching_scheme db t' limit dst src_nodes) as (st & Hst & paths & left & st' & Hrun & Hans);
    [done|by apply Hk|done|by rewrite Hhp|].
  exists (result_of paths (refused st') src_nodes), t'. split_and!; [done| | |].
  - unfold search_shortest_paths. rewrite (rse_infos_checked db _ Hinfo). run. rewrite Ht'. run.
    rewrite Hst. run. unfold multihop_on in Hrun. by rewrite Hrun.
  - intros u Hu. rewrite result_of_lookup. by rewrite decide_False.
  - intros u Hu Hud. rewrite result_of_lookup, decide_True by done. by apply Hans.
Qed.

(** C29: [Topology.search_shortest_paths] ends without error on a well-formed topology and
    answers for every source: with an itinerary over enabled edges whose distance (edges and hop
    penalties) is the least of all routes; with an empty path if no route exists and an edge out of
    the source has no common protocol; and not at all if no route exists.  Only sources are in
    the result. *)
Theorem shortest_paths_found db t src_nodes dst limit :
  topo_wf t -> known t dst -> penalties_ok db -> (0 <= hop_penalty t)%Z ->
  (forall n, n ∈ src_nodes ++ [dst] ++ elements (multihop_nodes t) -> is_Some (rse_infos db !! n)) ->
  exists result t', ensure_edges_loaded db t = Ok t' /\
    search_shortest_paths find_matching_scheme db t src_nodes dst limit = Ok (result, t') /\
    (forall u, u ∉ src_nodes -> result !! u = None) /\
    forall u, u ∈ src_nodes -> u <> dst ->
      match result !! u with
      | Some [] => (forall d, ~ has_route find_matching_scheme db t' limit dst src_nodes u d) /\
          exists v, u ∈ neighbours t' v /\ edge_scheme find_matching_scheme limit dst u v = None
      | Some path => exists d, itinerary find_matching_scheme db t' limit dst u path d /\
          (forall d', has_route find_matching_scheme db t' limit dst src_nodes u d' -> (d <= d')%Z)
      | None => forall d, ~ has_route find_matching_scheme db t' limit dst src_nodes u d
      end.
Proof.
  intros Hwf Hdst Hpen Hpos Hinfo.
  destruct (search_shortest_paths_ok db t src_nodes dst limit) as (result & t' & Ht' & Hs & Hout & Hans); [done..|].
  exists result, t'. split_and!; [done..|]. intros u Hu Hud. specialize (Hans u Hu Hud). unfold answer_ok in Hans.
  destruct (result !! u) as [[|hop path]|]; [|done..].
  destruct Hans as (Hno & v & Hv & Hen). split; [done|]. exists v. split; [done|].
  unfold edge_state_enabled in Hen. by destruct (edge_scheme _ _ _ u v).
Qed.

(** The topology [get_hops] builds, before the search. *)
Lemma get_hops_topology db src dst ids :
  (forall n, n ∈ default (config_multihop_rses db) ids -> is_Some (rse_infos db !! n)) ->
  exists t0 t, configure_multihop db ids (new_topology [] false) = Ok t0 /\
    t = get_or_create (get_or_create t0 src) dst /\
    topo_wf t /\ linked t /\ edges_loaded t = false /\ hop_penalty t = config_hop_penalty db /\
    (forall n, known t n <-> n ∈ src :: dst :: default (config_multihop_rses db) ids) /\
    (forall n, n ∈ multihop_nodes t <-> n ∈ default (config_multihop_rses db) ids /\ relays db false n) /\
    multihop_ok t.
Proof.
  intros Hi. destruct (configure_multihop_ok db ids (new_topology [] false)) as (t0 & Ht0 & Hx & Hm & Hp & Hk & Hn); [|done|].
  { intros n. split; [done|]. by intros ?%not_elem_of_empty. }
  assert (extends t0 (get_or_create (get_or_create t0 src) dst)) as Hx2.
  { etransitivity; apply get_or_create_extends. }
  assert (forall n t, multihop_nodes (get_or_create t n) = multihop_nodes t /\ hop_penalty (get_or_create t n) = hop_penalty t) as Hms.
  { intros n t. unfold get_or_create. by destruct (rse_id_to_data_map t !! n). }
  eexists t0, _. split; [done|]. split; [done|]. split_and!.
  - apply (extends_wf t0); [done|]. by apply (extends_wf _ _ Hx), new_topology_wf.
  - apply (extends_linked t0); [done|]. apply (extends_linked _ _ Hx). by intros u v [? ?].
  - by apply (ex_loaded _ _ Hx2), (ex_loaded _ _ Hx).
  - by rewrite !(proj2 (Hms _ _)).
  - intros n. rewrite !get_or_create_known_iff, Hk, !elem_of_cons.
    assert (~ known (new_topology [] false) n) as Hno by (by intros [x Hx']). tauto.
  - intros n. rewrite !(proj1 (Hms _ _)). apply Hn.
  - intros n. rewrite !(proj1 (Hms _ _)), is_multihop_node_of, !get_or_create_node, <-is_multihop_node_of. apply Hm.
Qed.

(** C30: [get_hops] between two RSEs searches the distances between them and the multihop RSEs
    available for reading and writing (one hop only if there is none): it returns an itinerary of
    least distance, or raises [NoDistance] when no route exists, or [RSEProtocolNotSupported]
    when no route exists and a distance from the source has no common protocol; no other error. *)
Theorem get_hops_shortest db src dst ids limit :
  penalties_ok db -> NoDup (distances db).*1 -> src <> dst ->
  (forall n, n ∈ src :: dst :: default (config_multihop_rses db) ids -> is_Some (rse_infos db !! n)) ->
  exists t, loaded_from db (fun n => n ∈ src :: dst :: default (config_multihop_rses db) ids) t /\
    (forall n, is_multihop_node t n = true <-> n ∈ default (config_multihop_rses db) ids /\ relays db false n) /\
    (multihop_on t = true <-> exists n, is_multihop_node t n = true) /\
    hop_penalty t = config_hop_penalty db /\
    let route_from_src := has_route find_matching_scheme db t (default [] limit) dst [src] src in
    match get_hops find_matching_scheme db src dst ids limit with
    | Ok path => path <> [] /\ exists d, itinerary find_matching_scheme db t (default [] limit) dst src path d /\
                   forall d', route_from_src d' -> (d <= d')%Z
    | Err NoDistance => forall d, ~ route_from_src d
    | Err RSEProtocolNotSupported => (forall d, ~ route_from_src d) /\
        exists v, src ∈ neighbours t v /\ edge_scheme find_matching_scheme (default [] limit) dst src v = None
    | Err _ => False
    end.
Proof.
  intros Hpen Hnd Hne Hi.
  destruct (get_hops_topology db src dst ids) as (t0 & t & Ht0 & Ht & Hwf & Hl & He & Hp & Hk & Hn & Hm).
  { intros n Hin. apply Hi. by do 2 right. }
  destruct (ensure_edges_loaded_from db t Hwf Hl He Hnd) as (t' & Ht' & _ & Hfrom & Hcost).
  pose proof (ensure_edges_loaded_same_multihop _ _ _ Ht') as (Hmn & Hhp & Hmh).
  destruct (search_shortest_paths_ok db t [src] dst (default [] limit)) as (result & t1 & Ht1 & Hs & _ & Hans).
  { done. } { apply Hk. right. left. } { done. } { rewrite Hp. apply Hpen. }
  { intros n. rewrite !elem_of_app, !list_elem_of_singleton, elem_of_elements, Hn. intros Hin.
    apply Hi. rewrite !elem_of_cons. tauto. }
  rewrite Ht' in Ht1. injection Ht1 as <-. exists t'. split_and!.
  - split; [intros u v; rewrite Hfrom, !Hk; done|]. intros u v d Hu Hv. by apply Hcost; apply Hk.
  - intros n. by rewrite Hmh, (Hm n), Hn.
  - unfold multihop_on. rewrite negb_true_iff, bool_decide_eq_false, Hmn. split.
    + intros [n Hin]%set_choose_L. exists n. by rewrite Hmh, (Hm n).
    + intros [n Hin] Hempty. rewrite Hmh, (Hm n), Hempty in Hin. by apply not_elem_of_empty in Hin.
  - by rewrite Hhp.
  - simpl. unfold get_hops. rewrite Ht0. run. rewrite <-Ht, Hs. run.
    specialize (Hans src (list_elem_of_here _ _) Hne). unfold answer_ok in Hans.
    destruct (result !! src) as [[|hop path]|]; simpl; [|by split|done].
    destruct Hans as (Hno & v & Hv & Hen). split; [done|]. exists v. split; [done|].
    unfold edge_state_enabled in Hen. by destruct (edge_scheme _ _ _ src v).
Qed.

End search.

(** ** Examples *)

Open Scope string_scope.

Definition demo_info : RSEInfo := MkRSEInfo true true None.
Definition demo_distances : list (string * string * option Z) :=
  [("A", "B", Some 20%Z); ("A", "C", Some (-1)%Z); ("C", "B", Some 2%Z); ("D", "B", Some 1%Z); ("B", "A", None)].
Definition demo_topology_db : TopologyDB :=
  MkTopologyDB demo_distances
    {[ "A" := demo_info; "B" := demo_info; "C" := demo_info; "D" := MkRSEInfo true false (Some (AStr "3")) ]} 5 ["C"; "D"].
(** Every pair of RSEs shares https, but for the RSE D. *)
Definition demo_schemes (src dst : string) (limit : option (list string)) : option Scheme :=
  if bool_decide (src = "D") then None
  else if match limit with Some l => bool_decide ("https" ∈ l) | None => true end
       then Some (MkScheme "https" "https" 1 1) else None.

Lemma demo_penalties : penalties_ok demo_topology_db.
Proof.
  split; [done|]. intros n info v p Hi Hv Hp. simpl in Hi.
  repeat (rewrite lookup_insert in Hi; case_decide; [simplify_eq|]); rewrite ?lookup_singleton in Hi;
    try case_decide; simplify_eq; simpl in *; simplify_eq; vm_compute in Hp; by simplify_eq.
Qed.

Definition demo_start : Topology := get_or_create (get_or_create (get_or_create (new_topology [] false) "A") "B") "D".

Lemma demo_start_wf : topo_wf demo_start.
Proof. unfold demo_start. repeat apply get_or_create_wf. apply new_topology_wf. Qed.

Lemma loaded_edges_are_distances_witness :
  exists t', ensure_edges_loaded demo_topology_db demo_start = Ok t' /\ topo_wf t' /\
    loaded_from demo_topology_db (known demo_start) t' /\
    (forall n, known t' n <-> known demo_start n) /\ same_multihop demo_start t' /\
    ensure_edges_loaded demo_topology_db t' = Ok t'.
Proof.
  apply loaded_edges_are_distances.
  - apply demo_start_wf.
  - intros u v [c Hc]. vm_compute in Hc. discriminate.
  - reflexivity.
  - apply (bool_decide_unpack _). by vm_compute.
Defined.

Lemma shortest_paths_found_witness :
  exists result t', ensure_edges_loaded demo_topology_db demo_start = Ok t' /\
    search_shortest_paths (Q := PriorityQueue string) demo_schemes demo_topology_db demo_start ["A"; "D"] "B" [] = Ok (result, t') /\
    (forall u, u ∉ ["A"; "D"] -> result !! u = None) /\
    forall u, u ∈ ["A"; "D"] -> u <> "B" ->
      match result !! u with
      | Some [] => (forall d, ~ has_route demo_schemes demo_topology_db t' [] "B" ["A"; "D"] u d) /\
          exists v, u ∈ neighbours t' v /\ edge_scheme demo_schemes [] "B" u v = None
      | Some path => exists d, itinerary demo_schemes demo_topology_db t' [] "B" u path d /\
          (forall d', has_route demo_schemes demo_topology_db t' [] "B" ["A"; "D"] u d' -> (d <= d')%Z)
      | None => forall d, ~ has_route demo_schemes demo_topology_db t' [] "B" ["A"; "D"] u d
      end.
Proof.
  apply shortest_paths_found.
  - apply demo_start_wf.
  - apply (bool_decide_unpack _). by vm_compute.
  - apply demo_penalties.
  - done.
  - intros n Hn. vm_compute in Hn.
    repeat (apply elem_of_cons in Hn as [->|Hn]; [apply (bool_decide_unpack _); by vm_compute|]).
    by apply not_elem_of_nil in Hn.
Defined.

(** Going through C costs 0 + 5 + 2, less than the distance from A to B. *)
Example demo_hops : get_hops (Q := PriorityQueue string) demo_schemes demo_topology_db "A" "B" None (Some ["https"]) =
  Ok [MkHopDict "A" "C" 0 7 (Some (MkScheme "https" "https" 1 1)); MkHopDict "C" "B" 2 2 (Some (MkScheme "https" "https" 1 1))].
Proof. by vm_compute. Qed.
Example demo_hops_direct :
  get_hops (Q := PriorityQueue string) demo_schemes demo_topology_db "A" "B" (Some []) None =
    Ok [MkHopDict "A" "B" 20 20 (Some (MkScheme "https" "https" 1 1))] /\
  get_hops (Q := PriorityQueue string) demo_schemes demo_topology_db "D" "B" (Some []) None = Err RSEProtocolNotSupported /\
  get_hops (Q := PriorityQueue string) demo_schemes demo_topology_db "B" "A" None None = Err NoDistance.
Proof. by vm_compute. Qed.

Lemma get_hops_shortest_witness :
  exists t, loaded_from demo_topology_db (fun n => n ∈ ["A"; "B"; "C"; "D"]) t /\
    (forall n, is_multihop_node t n = true <-> n ∈ ["C"; "D"] /\ relays demo_topology_db false n) /\
    (multihop_on t = true <-> exists n, is_multihop_node t n = true) /\
    hop_penalty t = 5%Z /\
    let route_from_src := has_route demo_schemes demo_topology_db t [] "B" ["A"] "A" in
    match get_hops (Q := PriorityQueue string) demo_schemes demo_topology_db "A" "B" None None with
    | Ok path => path <> [] /\ exists d, itinerary demo_schemes demo_topology_db t [] "B" "A" path d /\
                   forall d', route_from_src d' -> (d <= d')%Z
    | Err NoDistance => forall d, ~ route_from_src d
    | Err RSEProtocolNotSupported => (forall d, ~ route_from_src d) /\
        exists v, "A" ∈ neighbours t v /\ edge_scheme demo_schemes [] "B" "A" v = None
    | Err _ => False
    end.
Proof.
  apply (get_hops_shortest demo_schemes demo_topology_db "A" "B" None None).
  - apply demo_penalties.
  - apply (bool_decide_unpack _). by vm_compute.
  - done.
  - intros n Hn. simpl in Hn.
    repeat (apply elem_of_cons in Hn as [->|Hn]; [apply (bool_decide_unpack _); by vm_compute|]).
    by apply not_elem_of_nil in Hn.
Defined.

(** An edge once deleted stays in [_edges] without being listed by its nodes: when its distance
    comes back, loading finds the old edge and does not list it again. *)
Theorem restored_distance_ignored :
  exists t, (let* t := ensure_edges_loaded demo_topology_db demo_start in
             let* t := ensure_edges_loaded (MkTopologyDB [] (rse_infos demo_topology_db) 5 []) (get_or_create t "C") in
             ensure_edges_loaded demo_topology_db (get_or_create t "E")) = Ok t /\
    ("D", "B", Some 1%Z) ∈ distances demo_topology_db /\ known t "D" /\ known t "B" /\ neighbours t "B" = ["C"] /\
    edges t !! ("D", "B") = Some 1%Z.
Proof.
  eexists. split; [vm_compute; reflexivity|].
  split_and!; apply (bool_decide_unpack _); by vm_compute.
Qed.
