(* ===== verification/Protocols.v ===== *)
(** * Choosing protocols: [lib/rucio/rse/rsemanager.py]

    The protocols an RSE offers for an operation, and the pair of protocols two RSEs use for a transfer
    between them. *)

From S2P Require Import Prelude PyString PyFloat Database RseSelector Topology.

(** A protocol of an RSE, with its priority for each domain and operation; no priority: not supported *)
Record Protocol := MkProtocol {
  pr_scheme : string;
  pr_impl : string;
  pr_domains : gmap string (gmap string (option Z));
}.

(** [SCHEME_MAP] and [SUPPORTED_PROTOCOLS] of [common/constants.py] *)
Definition web_schemes : list string := ["https"; "davs"; "srm+https"; "cs3s"]%string.
Definition SCHEME_MAP (scheme : string) : list string :=
  if bool_decide (scheme ∈ web_schemes) then web_schemes
  else if bool_decide (scheme ∈ ["root"; "scp"; "rsync"; "rclone"]%string) then [scheme]
  else [].
Definition SUPPORTED_PROTOCOLS : list string :=
  ["root"; "davs"; "http"; "https"; "file"; "storm"; "srm+https"; "scp"; "rsync"; "rclone"; "magnet"]%string.

(** [__check_compatible_scheme] *)
Definition check_compatible_scheme (dest_scheme src_scheme : string) : bool :=
  bool_decide (dest_scheme = src_scheme) || bool_decide (src_scheme ∈ SCHEME_MAP dest_scheme).

(** [k['domains'][domain][operation]] *)
Definition priority_of (domain operation : string) (p : Protocol) : result (option Z) :=
  let* d := or_raise KeyError (pr_domains p !! domain) in
  or_raise KeyError (d !! operation).

(** Sorting by a key: a priority [None] cannot be compared with another key. *)
Definition lower_key {A} (a b : Z * A) : Prop := (a.1 <= b.1)%Z.
#[export] Instance lower_key_dec {A} : RelDecision (@lower_key A).
Proof. intros a b. unfold lower_key. apply _. Defined.
Definition keyed {A} (key : A -> result (option Z)) (l : list A) : result (list (Z * A)) :=
  foldr (fun a r =>
    let* k := key a in
    let* rest := r in
    match k with Some k => Ok ((k, a) :: rest) | None => Err TypeError end) (Ok []) l.
Definition sorted_by {A} (key : A -> result (option Z)) (l : list A) : result (list (Z * A)) :=
  mapR (stable_sort lower_key) (keyed key l).

(** ** A protocol for an operation *)

(** [_get_possible_protocols]; [scheme], [domain] and [impl] filter when they are given. *)
Definition offers (operation domain : string) (p : Protocol) : bool :=
  match pr_domains p !! domain ≫= lookup operation with Some (Some _) => true | _ => false end.
Definition refuses (operation : string) (scheme : list string) (domain impl : option string) (p : Protocol) : result bool :=
  if bool_decide (is_Some (impl ≫= or_none)) && negb (bool_decide (impl = Some (pr_impl p))) then Ok true
  else if negb (bool_decide (scheme = [])) && negb (bool_decide (pr_scheme p ∈ scheme)) then Ok true
  else match domain ≫= or_none with
       | Some d => Ok (negb (offers operation d p))
       | None =>
           if forallb (fun x : string * gmap string (option Z) => bool_decide (is_Some (x.2 !! operation))) (map_to_list (pr_domains p))
           then Ok (negb (existsb (fun x : string * gmap string (option Z) => offers operation x.1 p) (map_to_list (pr_domains p))))
           else Err KeyError
       end.
Fixpoint possible (operation : string) (scheme : list string) (domain impl : option string) (ps : list Protocol) : result (list Protocol) :=
  match ps with
  | [] => Ok []
  | p :: ps =>
      let* refused := refuses operation scheme domain impl p in
      let* rest := possible operation scheme domain impl ps in
      Ok (if refused : bool then rest else p :: rest)
  end.
Definition get_possible_protocols (protocols : list Protocol) (operation : string) (scheme : list string) (domain impl : option string)
    : result (list Protocol) :=
  let* candidates := possible (str_lower operation) scheme domain impl protocols in
  if bool_decide (candidates = []) then Err RSEProtocolNotSupported else Ok candidates.

Definition RSE_ALL_SUPPORTED_PROTOCOL_OPERATIONS : list string :=
  ["read"; "write"; "delete"; "third_party_copy_read"; "third_party_copy_write"]%string.
Definition rse_supported_protocol_domains : list string := ["lan"; "wan"]%string.
Definition check_operation (operation domain : string) : result unit :=
  if negb (bool_decide (operation ∈ RSE_ALL_SUPPORTED_PROTOCOL_OPERATIONS)) then Err RSEOperationNotSupported
  else if negb (bool_decide (domain = ""%string)) && negb (bool_decide (domain ∈ rse_supported_protocol_domains))
  then Err RSEProtocolDomainNotSupported
  else Ok tt.

Section choosing.
Context `{Random}.

(** [get_protocols_ordered] and [select_protocol] *)
Definition get_protocols_ordered (protocols : list Protocol) (operation : string) (scheme : list string) (domain : string) (impl : option string)
    : result (list Protocol) :=
  let* u := check_operation operation domain in
  let* candidates := get_possible_protocols protocols operation scheme (Some domain) impl in
  mapR (fmap snd) (sorted_by (priority_of domain operation) candidates).
Definition select_protocol (seed : nat) (protocols : list Protocol) (operation : string) (scheme : list string) (domain : string) : result Protocol :=
  let* u := check_operation operation domain in
  let* candidates := get_possible_protocols protocols operation scheme (Some domain) None in
  let* best_first := sorted_by (priority_of domain operation) (shuffle seed candidates) in
  or_raise ValueError (snd <$> head best_first).

(** ** A pair of protocols *)

(** A protocol without the domain or the operation stays. *)
Definition candidate (domain operation : string) (scheme : list string) (p : Protocol) : bool :=
  (bool_decide (scheme = []) || bool_decide (pr_scheme p ∈ scheme))
  && match pr_domains p !! domain ≫= lookup operation with Some None => false | _ => true end.
Definition first_match (dest src : list (Z * Protocol)) : option Scheme :=
  head (concat ((fun d : Z * Protocol =>
    (fun p : Z * Protocol => MkScheme (pr_scheme p.2) (pr_scheme d.2) p.1 d.1) <$>
      List.filter (fun p : Z * Protocol => check_compatible_scheme (pr_scheme d.2) (pr_scheme p.2)) src) <$> dest)).

(** [find_matching_scheme]; no scheme means any. *)
Definition find_matching_scheme (seed : nat) (dest src : list Protocol) (operation_src operation_dest domain : string) (scheme : list string)
    : result Scheme :=
  let operation_src := str_lower operation_src in
  let operation_dest := str_lower operation_dest in
  let src_candidates := List.filter (candidate domain operation_src scheme) src in
  let dest_candidates := List.filter (candidate domain operation_dest scheme) dest in
  if bool_decide (src_candidates = []) || bool_decide (dest_candidates = []) then Err RSEProtocolNotSupported
  else
    let* dest_candidates := sorted_by (priority_of domain operation_dest) (shuffle seed dest_candidates) in
    let* src_candidates := sorted_by (priority_of domain operation_src) (shuffle (S seed) src_candidates) in
    or_raise RSEProtocolNotSupported (first_match dest_candidates src_candidates).
End choosing.
