(* ===== verification/ProtocolsFacts.v ===== *)
(** * What the choice of protocols promises

    Whatever is shuffled, a pair of protocols is found exactly when there is one, and no other pair has
    higher priorities. *)

From S2P Require Import Prelude PyString PyFloat Database RseSelector RseSelectorFacts Topology Protocols.

#[local] Open Scope list_scope.

(** A protocol of one of the schemes asked for, with a priority for the operation *)
Definition supports (domain operation : string) (scheme : list string) (k : Z) (p : Protocol) : Prop :=
  (scheme = [] \/ pr_scheme p ∈ scheme) /\ pr_domains p !! domain ≫= lookup operation = Some (Some k).
(** The rows of the database have a column for each operation. *)
Definition has_operation (domain operation : string) (p : Protocol) : Prop := is_Some (pr_domains p !! domain ≫= lookup operation).

Lemma candidate_supports domain operation scheme p : has_operation domain operation p ->
  candidate domain operation scheme p = true <-> exists k, supports domain operation scheme k p.
Proof.
  intros [o Ho]. unfold candidate, supports. rewrite Ho, andb_true_iff, orb_true_iff, !bool_decide_eq_true.
  destruct o as [k|]; naive_solver.
Qed.
Lemma priority_of_supports domain operation p k : priority_of domain operation p = Ok (Some k) <-> pr_domains p !! domain ≫= lookup operation = Some (Some k).
Proof.
  unfold priority_of. destruct (pr_domains p !! domain) as [d|]; simpl; [|done]. destruct (d !! operation) as [o|]; simpl; [|done]. naive_solver.
Qed.

Lemma lower_key_total {A} (a b : Z * A) : ~ lower_key a b -> lower_key b a.
Proof. unfold lower_key. lia. Qed.
Lemma lower_key_trans {A} (a b c : Z * A) : lower_key a b -> lower_key b c -> lower_key a c.
Proof. unfold lower_key. lia. Qed.
Lemma stable_sort_keys {A} (l : list (Z * A)) : StronglySorted lower_key (stable_sort lower_key l).
Proof. apply stable_sort_sorted; [apply lower_key_total|apply lower_key_trans]. Qed.

Lemma keyed_ok {A} (key : A -> result (option Z)) l : (forall a, a ∈ l -> exists k, key a = Ok (Some k)) ->
  exists kl, keyed key l = Ok kl /\ snd <$> kl = l /\ forall k a, (k, a) ∈ kl -> key a = Ok (Some k).
Proof.
  induction l as [|a l IH]; intros Hl; simpl; [exists []; split_and!; [done..|by intros ? ? ?%elem_of_nil]|].
  destruct (Hl a) as [k Hk]; [by left|]. destruct IH as (kl & Hkl & Hsnd & Hkeys); [intros b Hb; apply Hl; by right|].
  rewrite Hk. unfold keyed in Hkl |- *. simpl. rewrite Hkl. exists ((k, a) :: kl). simpl. split_and!; [done|by f_equal|].
  intros k' b [[= -> ->]|Hb]%elem_of_cons; [done|by apply Hkeys].
Qed.
Lemma sorted_by_ok {A} (key : A -> result (option Z)) l : (forall a, a ∈ l -> exists k, key a = Ok (Some k)) ->
  exists kl, sorted_by key l = Ok kl /\ StronglySorted lower_key kl /\ forall k a, (k, a) ∈ kl <-> a ∈ l /\ key a = Ok (Some k).
Proof.
  intros Hl. destruct (keyed_ok key l Hl) as (kl & Hkl & Hsnd & Hkeys). exists (stable_sort lower_key kl). unfold sorted_by. rewrite Hkl.
  split_and!; [done|apply stable_sort_keys|]. intros k a. rewrite stable_sort_Permutation. split.
  - intros Hin. split; [|by apply Hkeys]. rewrite <-Hsnd. apply list_elem_of_fmap. by exists (k, a).
  - intros [Hin Hk]. rewrite <-Hsnd in Hin. apply list_elem_of_fmap in Hin as ([k' a'] & -> & Hin). simpl in Hk. pose proof (Hkeys _ _ Hin) as Hk'.
    rewrite Hk in Hk'. by injection Hk' as ->.
Qed.

(** The first element of the first list that has one *)
Lemma head_concat {A B} (f : A -> list B) l x : head (concat (f <$> l)) = Some x ->
  exists l1 a l2, l = l1 ++ a :: l2 /\ (forall b, b ∈ l1 -> f b = []) /\ head (f a) = Some x.
Proof.
  induction l as [|a l IH]; simpl; [done|]. destruct (f a) as [|y ys] eqn:Hf; simpl.
  - intros (l1 & b & l2 & -> & Hl1 & Hb)%IH. exists (a :: l1), b, l2. split_and!; [done| |done]. intros c [->|Hc]%elem_of_cons; [done|by apply Hl1].
  - intros [= ->]. exists [], a, l. split_and!; [done|by intros ? ?%elem_of_nil|by rewrite Hf].
Qed.
Lemma head_concat_none {A B} (f : A -> list B) l : head (concat (f <$> l)) = None -> forall a, a ∈ l -> f a = [].
Proof.
  induction l as [|a l IH]; simpl; [by intros _ ? ?%elem_of_nil|]. destruct (f a) as [|y ys] eqn:Hf; simpl; [|done].
  intros Hl b [->|Hb]%elem_of_cons; [done|by apply IH].
Qed.
Lemma head_filter_sorted {A} (p : Z * A -> bool) l x : StronglySorted lower_key l -> head (List.filter p l) = Some x ->
  x ∈ l /\ p x = true /\ forall y, y ∈ l -> p y = true -> (x.1 <= y.1)%Z.
Proof.
  induction 1 as [|y l Hl IH Hy]; simpl; [done|]. destruct (p y) eqn:Hp.
  - intros [= ->]. split_and!; [by left|done|]. intros z [->|Hz]%elem_of_cons _; [done|]. by eapply Forall_forall in Hy.
  - intros (Hx & Hpx & Hmin)%IH. split_and!; [by right|done|]. intros z [->|Hz]%elem_of_cons Hpz; [congruence|by apply Hmin].
Qed.

Section matching.
Context `{Random}.

(** C32: Two RSEs always use the best protocols they share: whatever is shuffled, [find_matching_scheme] gives a
    protocol of the destination and a compatible one of the source, each of the schemes asked for and with
    a priority for its operation, such that no protocol of the destination with a compatible partner has a
    higher priority, and no partner of it; and it raises [RSEProtocolNotSupported], and nothing else,
    exactly when there is no such pair. *)
Theorem matching_scheme_best seed dest src operation_src operation_dest domain scheme :
  let read := supports domain (str_lower operation_src) scheme in
  let write := supports domain (str_lower operation_dest) scheme in
  (forall p, p ∈ src -> has_operation domain (str_lower operation_src) p) ->
  (forall p, p ∈ dest -> has_operation domain (str_lower operation_dest) p) ->
  match find_matching_scheme seed dest src operation_src operation_dest domain scheme with
  | Ok m => exists d p kd kp, d ∈ dest /\ write kd d /\ p ∈ src /\ read kp p /\ check_compatible_scheme (pr_scheme d) (pr_scheme p) = true /\
      m = MkScheme (pr_scheme p) (pr_scheme d) kp kd /\
      (forall d' kd' p' kp', d' ∈ dest -> write kd' d' -> p' ∈ src -> read kp' p' -> check_compatible_scheme (pr_scheme d') (pr_scheme p') = true -> (kd <= kd')%Z) /\
      (forall p' kp', p' ∈ src -> read kp' p' -> check_compatible_scheme (pr_scheme d) (pr_scheme p') = true -> (kp <= kp')%Z)
  | Err e => e = RSEProtocolNotSupported /\
      forall d kd p kp, d ∈ dest -> write kd d -> p ∈ src -> read kp p -> check_compatible_scheme (pr_scheme d) (pr_scheme p) = false
  end.
Proof.
  intros read write Hsrc Hdest. unfold find_matching_scheme.
  set (opr := str_lower operation_src) in *. set (opw := str_lower operation_dest) in *.
  assert (forall op ps seed, (forall p, p ∈ ps -> has_operation domain op p) ->
    exists kl, sorted_by (priority_of domain op) (shuffle seed (List.filter (candidate domain op scheme) ps)) = Ok kl /\ StronglySorted lower_key kl /\
      forall k p, (k, p) ∈ kl <-> p ∈ ps /\ supports domain op scheme k p) as Hsorted.
  { intros op ps sd Hps. destruct (sorted_by_ok (priority_of domain op) (shuffle sd (List.filter (candidate domain op scheme) ps))) as (kl & Hkl & Hs & Hin).
    - intros p. rewrite shuffle_perm, elem_of_filter_bool. intros [Hp Hc]. apply candidate_supports in Hc as (k & _ & Hk); [|by apply Hps].
      exists k. by apply priority_of_supports.
    - exists kl. split_and!; [done..|]. intros k p. rewrite Hin, shuffle_perm, elem_of_filter_bool, priority_of_supports. split.
      + intros ((Hp & Hc) & Hk). split; [done|]. split; [|done]. apply candidate_supports in Hc as (? & Hsch & _); [done|by apply Hps].
      + intros (Hp & Hsup). split; [split; [done|]|by apply Hsup]. apply candidate_supports; [by apply Hps|by exists k]. }
  destruct (Hsorted opw dest seed Hdest) as (dl & Hdl & Hds & Hd). destruct (Hsorted opr src (S seed) Hsrc) as (sl & Hsl & Hss & Hs).
  destruct (bool_decide (_ = []) || bool_decide (_ = [])) eqn:Hempty.
  { split; [done|]. intros d kd p kp Hdin Hw Hpin Hr. exfalso. apply orb_true_iff in Hempty as [He%bool_decide_eq_true|He%bool_decide_eq_true].
    - assert (p ∈ List.filter (candidate domain opr scheme) src) as Hf; [|rewrite He in Hf; by apply elem_of_nil in Hf].
      apply elem_of_filter_bool. split; [done|]. apply candidate_supports; [by apply Hsrc|by exists kp].
    - assert (d ∈ List.filter (candidate domain opw scheme) dest) as Hf; [|rewrite He in Hf; by apply elem_of_nil in Hf].
      apply elem_of_filter_bool. split; [done|]. apply candidate_supports; [by apply Hdest|by exists kd]. }
  rewrite Hdl, Hsl. cbn [bindR]. unfold first_match. destruct (head (concat _)) as [m|] eqn:Hm; cbn [or_raise].
  - apply head_concat in Hm as (l1 & [kd d] & l2 & Hl & Hl1 & Hm). cbn [fst snd] in Hm.
    destruct (List.filter (fun p => check_compatible_scheme (pr_scheme d) (pr_scheme p.2)) sl) as [|[kp p] ps] eqn:Hf; [done|]. injection Hm as <-.
    destruct (head_filter_sorted (fun p => check_compatible_scheme (pr_scheme d) (pr_scheme p.2)) sl (kp, p) Hss) as (Hp & Hc & Hmin); [by rewrite Hf|].
    apply Hs in Hp as [Hp Hrp]. destruct (proj1 (Hd kd d)) as [Hdin Hwd]; [rewrite Hl; set_solver|].
    exists d, p, kd, kp. split_and!; [done..| |].
    + intros d' kd' p' kp' Hd' Hw' Hp' Hr' Hc'. assert ((kd', d') ∈ dl) as Hin by (by apply Hd). rewrite Hl in Hin, Hds.
      apply elem_of_app in Hin as [Hin|[[= -> ->]|Hin]%elem_of_cons]; [|done|].
      * apply Hl1 in Hin. simpl in Hin. exfalso. assert ((kp', p') ∈ List.filter (fun p => check_compatible_scheme (pr_scheme d') (pr_scheme p.2)) sl) as Hin'.
        { apply elem_of_filter_bool. split; [by apply Hs|done]. }
        apply fmap_nil_inv in Hin. rewrite Hin in Hin'. by apply elem_of_nil in Hin'.
      * revert Hds Hin. clear. induction l1 as [|x l1 IH]; simpl.
        -- intros [_ Hall]%StronglySorted_inv Hin. eapply Forall_forall in Hall; [|exact Hin]. exact Hall.
        -- intros [Hss _]%StronglySorted_inv Hin. by apply IH.
    + intros p' kp' Hp' Hr' Hc'. apply (Hmin (kp', p')); [by apply Hs|done].
  - split; [done|]. intros d kd p kp Hdin Hw Hpin Hr. pose proof (head_concat_none _ _ Hm (kd, d)) as Hno. simpl in Hno.
    destruct (check_compatible_scheme (pr_scheme d) (pr_scheme p)) eqn:Hc; [|done]. exfalso.
    assert ((kp, p) ∈ List.filter (fun p => check_compatible_scheme (pr_scheme d) (pr_scheme p.2)) sl) as Hin'.
    { apply elem_of_filter_bool. split; [by apply Hs|done]. }
    assert ((kd, d) ∈ dl) as Hin by (by apply Hd). specialize (Hno Hin). apply fmap_nil_inv in Hno. rewrite Hno in Hin'. by apply elem_of_nil in Hin'.
Qed.
End matching.

(** The destination prefers WebDAV, which the source only speaks as HTTPS. *)
Definition web (scheme : string) (priority : Z) : Protocol :=
  MkProtocol scheme "rucio.rse.protocols.gfal.Default" {[ "wan" := {[ "third_party_copy_read" := Some priority; "third_party_copy_write" := Some priority ]} ]}%string.
Lemma matching_scheme_best_witness :
  match @find_matching_scheme low_draws 0 [web "root" 2; web "davs" 1] [web "root" 1; web "https" 2] "third_party_copy_read" "third_party_copy_write" "wan" []
  with Ok m => m = MkScheme "https" "davs" 2 1 /\ exists kp kd, source_scheme_priority m = kp /\ dest_scheme_priority m = kd | Err _ => False end.
Proof.
  pose proof (@matching_scheme_best low_draws 0 [web "root" 2; web "davs" 1]%string [web "root" 1; web "https" 2]%string
    "third_party_copy_read" "third_party_copy_write" "wan" []) as Hm. simpl in Hm.
  destruct (find_matching_scheme _ _ _ _ _ _ _) as [m|e] eqn:He; [|by vm_compute in He]. vm_compute in He. injection He as <-.
  destruct Hm as (d & p & kd & kp & _ & _ & _ & _ & _ & -> & _); [| |split; [done|by eexists _, _]].
  all: intros q Hq; rewrite !elem_of_cons, elem_of_nil in Hq; destruct Hq as [->|[->|[]]]; by eexists.
Defined.
