(* ===== verification/StateError.v ===== *)
(** * Code that changes a state and may raise

    A computation takes a state and gives a result or an exception, with the state at that point:
    an exception that is caught leaves the changes made before it.  [wp] is the weakest condition
    for a computation to end in given states, and [preserves] states invariants. *)

From S2P Require Import Prelude.

Definition ST (S A : Type) : Type := S -> result A * S.

Definition retS {S A} (a : A) : ST S A := fun s => (Ok a, s).
Definition bindS {S A B} (m : ST S A) (f : A -> ST S B) : ST S B := fun s =>
  match m s with
  | (Ok a, s') => f a s'
  | (Err e, s') => (Err e, s')
  end.
Definition raiseS {S A} (e : exn) : ST S A := fun s => (Err e, s).
Definition liftS {S A} (r : result A) : ST S A := fun s => (r, s).
Definition getsS {S A} (f : S -> A) : ST S A := fun s => (Ok (f s), s).
Definition modifyS {S} (f : S -> S) : ST S unit := fun s => (Ok tt, f s).
Definition skipS {S} : ST S unit := retS tt.
Definition whenS {S} (b : bool) (m : ST S unit) : ST S unit := if b then m else skipS.

(** [try: m] with the handlers of the exceptions it catches *)
Definition tryS {S A} (m : ST S A) (handler : exn -> option (ST S A)) : ST S A := fun s =>
  match m s with
  | (Ok a, s') => (Ok a, s')
  | (Err e, s') => match handler e with Some h => h s' | None => (Err e, s') end
  end.

(** [for a in l: f(a)] *)
Fixpoint forS {S A} (f : A -> ST S unit) (l : list A) : ST S unit :=
  match l with
  | [] => skipS
  | a :: l => bindS (f a) (fun _ => forS f l)
  end.

(** The lists [f(a)] for [a] in [l], one after the other *)
Fixpoint concatS {S A B} (f : A -> ST S (list B)) (l : list A) : ST S (list B) :=
  match l with
  | [] => retS []
  | a :: l => bindS (f a) (fun x => bindS (concatS f l) (fun y => retS (x ++ y)))
  end.

(** A computation on a part of the state *)
Definition zoomS {S T A} (get : S -> T) (set : T -> S -> S) (m : ST T A) : ST S A := fun s =>
  let '(r, t) := m (get s) in (r, set t s).

Declare Scope st_scope.
Delimit Scope st_scope with st.
Notation "'let!' x ':=' e 'in' k" := (bindS e (fun x => k))
  (at level 10, x name, e at level 200, k at level 200,
   format "'[v' 'let!'  x  ':='  e  'in' '/' k ']'") : st_scope.
Notation "'let!' ' p ':=' e 'in' k" := (bindS e (fun x => match x with p => k end))
  (at level 10, p strict pattern, e at level 200, k at level 200) : st_scope.
Notation "'do!' e 'in' k" := (bindS e (fun _ => k))
  (at level 10, e at level 200, k at level 200, format "'[v' 'do!'  e  'in' '/' k ']'") : st_scope.
#[global] Open Scope st_scope.

(** ** Where a computation ends *)

Definition wp {S A} (m : ST S A) (Q : A -> S -> Prop) (E : exn -> S -> Prop) (s : S) : Prop :=
  match m s with
  | (Ok a, s') => Q a s'
  | (Err e, s') => E e s'
  end.

Section wp.
Context {S : Type}.
Implicit Types (s : S).

Lemma wp_ret {A} (a : A) Q E s : wp (retS a) Q E s <-> Q a s.
Proof. done. Qed.

Lemma wp_raise {A} e (Q : A -> S -> Prop) E s : wp (raiseS e) Q E s <-> E e s.
Proof. done. Qed.

Lemma wp_gets {A} (f : S -> A) Q E s : wp (getsS f) Q E s <-> Q (f s) s.
Proof. done. Qed.

Lemma wp_modify (f : S -> S) Q E s : wp (modifyS f) Q E s <-> Q tt (f s).
Proof. done. Qed.

Lemma wp_bind {A B} (m : ST S A) (f : A -> ST S B) Q E s :
  wp (bindS m f) Q E s <-> wp m (fun a => wp (f a) Q E) E s.
Proof. unfold wp, bindS. destruct (m s) as [[a|e] s']; done. Qed.

Lemma wp_lift {A} (r : result A) Q E s :
  (forall a, r = Ok a -> Q a s) -> (forall e, r = Err e -> E e s) -> wp (liftS r) Q E s.
Proof. unfold wp, liftS. destruct r; auto. Qed.

Lemma wp_mono {A} (m : ST S A) (Q Q' : A -> S -> Prop) (E E' : exn -> S -> Prop) s :
  wp m Q E s -> (forall a s', Q a s' -> Q' a s') -> (forall e s', E e s' -> E' e s') -> wp m Q' E' s.
Proof. unfold wp. destruct (m s) as [[a|e] s']; auto. Qed.

Lemma wp_and {A} (m : ST S A) (Q Q' : A -> S -> Prop) (E E' : exn -> S -> Prop) s :
  wp m Q E s -> wp m Q' E' s -> wp m (fun a s' => Q a s' /\ Q' a s') (fun e s' => E e s' /\ E' e s') s.
Proof. unfold wp. destruct (m s) as [[a|e] s']; auto. Qed.

Lemma wp_try {A} (m : ST S A) h Q E s :
  wp m Q (fun e s' => match h e with Some k => wp k Q E s' | None => E e s' end) s -> wp (tryS m h) Q E s.
Proof. unfold wp, tryS. destruct (m s) as [[a|e] s']; [done|]. by destruct (h e). Qed.

(** A loop invariant over the elements done and to do *)
Lemma wp_for {A} (f : A -> ST S unit) (l : list A) (I : list A -> list A -> S -> Prop) E s :
  (forall d a r s', l = d ++ a :: r -> I d (a :: r) s' -> wp (f a) (fun _ => I (d ++ [a]) r) E s') ->
  I [] l s -> wp (forS f l) (fun _ => I l []) E s.
Proof.
  enough (forall r d s, l = d ++ r ->
    (forall d a r s', l = d ++ a :: r -> I d (a :: r) s' -> wp (f a) (fun _ => I (d ++ [a]) r) E s') ->
    I d r s -> wp (forS f r) (fun _ => I l []) E s) as Hgen by (intros; by apply (Hgen l [] s)).
  clear s. induction r as [|a r IH]; intros d s Hl Hf HI; simpl.
  - rewrite app_nil_r in Hl. by subst d.
  - apply wp_bind. eapply wp_mono; [apply (Hf d a r s Hl HI)| |done].
    intros [] s' HI'. apply (IH (d ++ [a])); [by rewrite <-app_assoc|done|done].
Qed.

Lemma wp_concat {A B} (f : A -> ST S (list B)) (l : list A) (I : list A -> list A -> S -> Prop) E s :
  (forall d a r s', l = d ++ a :: r -> I d (a :: r) s' -> wp (f a) (fun _ => I (d ++ [a]) r) E s') ->
  I [] l s -> wp (concatS f l) (fun _ => I l []) E s.
Proof.
  enough (forall r d s, l = d ++ r ->
    (forall d a r s', l = d ++ a :: r -> I d (a :: r) s' -> wp (f a) (fun _ => I (d ++ [a]) r) E s') ->
    I d r s -> wp (concatS f r) (fun _ => I l []) E s) as Hgen by (intros; by apply (Hgen l [] s)).
  clear s. induction r as [|a r IH]; intros d s Hl Hf HI; simpl.
  - rewrite app_nil_r in Hl. by subst d.
  - apply wp_bind. eapply wp_mono; [apply (Hf d a r s Hl HI)| |done].
    intros x s' HI'. apply wp_bind. eapply wp_mono; [apply (IH (d ++ [a])); [by rewrite <-app_assoc|done|done]|done|done].
Qed.

Lemma wp_ok {A} (m : ST S A) Q E s a s' : wp m Q E s -> m s = (Ok a, s') -> Q a s'.
Proof. unfold wp. intros Hw Hm. by rewrite Hm in Hw. Qed.

Lemma wp_intro {A} (m : ST S A) s : wp m (fun a s' => m s = (Ok a, s')) (fun e s' => m s = (Err e, s')) s.
Proof. unfold wp. by destruct (m s) as [[a|e] s'] eqn:Hm. Qed.

Lemma wp_err {A} (m : ST S A) Q E s e s' : wp m Q E s -> m s = (Err e, s') -> E e s'.
Proof. unfold wp. intros Hw Hm. by rewrite Hm in Hw. Qed.

(** ** Invariants *)

(** [I] holds after the computation, even when it raises. *)
Definition preserves (I : S -> Prop) {A} (m : ST S A) : Prop :=
  forall s, I s -> wp m (fun _ => I) (fun _ => I) s.

Lemma preserves_ret (I : S -> Prop) {A} (a : A) : preserves I (retS a).
Proof. by intros s. Qed.

Lemma preserves_raise (I : S -> Prop) {A} e : preserves I (@raiseS S A e).
Proof. by intros s. Qed.

Lemma preserves_gets (I : S -> Prop) {A} (f : S -> A) : preserves I (getsS f).
Proof. by intros s. Qed.

Lemma preserves_lift (I : S -> Prop) {A} (r : result A) : preserves I (liftS r).
Proof. intros s Hs. by apply wp_lift. Qed.

Lemma preserves_modify (I : S -> Prop) f : (forall s, I s -> I (f s)) -> preserves I (modifyS f).
Proof. intros Hf s Hs. by apply wp_modify, Hf. Qed.

Lemma preserves_bind (I : S -> Prop) {A B} (m : ST S A) (f : A -> ST S B) :
  preserves I m -> (forall a, preserves I (f a)) -> preserves I (bindS m f).
Proof.
  intros Hm Hf s Hs. apply wp_bind. eapply wp_mono; [by apply Hm|intros a s' Hs'; by apply Hf|done].
Qed.

Lemma preserves_when (I : S -> Prop) (b : bool) m : preserves I m -> preserves I (whenS b m).
Proof. destruct b; [done|]. intros _. apply preserves_ret. Qed.

Lemma preserves_if (I : S -> Prop) {A} (b : bool) (m1 m2 : ST S A) :
  preserves I m1 -> preserves I m2 -> preserves I (if b then m1 else m2).
Proof. by destruct b. Qed.

Lemma preserves_for (I : S -> Prop) {A} (f : A -> ST S unit) l :
  (forall a, a ∈ l -> preserves I (f a)) -> preserves I (forS f l).
Proof.
  induction l as [|a l IH]; intros Hf; simpl; [apply preserves_ret|].
  apply preserves_bind; [apply Hf; by left|]. intros _. apply IH. intros b Hb. apply Hf. by right.
Qed.

Lemma preserves_concat (I : S -> Prop) {A B} (f : A -> ST S (list B)) l :
  (forall a, a ∈ l -> preserves I (f a)) -> preserves I (concatS f l).
Proof.
  induction l as [|a l IH]; intros Hf; simpl; [apply preserves_ret|].
  apply preserves_bind; [apply Hf; by left|]. intros x. apply preserves_bind; [|intros y; apply preserves_ret].
  apply IH. intros b Hb. apply Hf. by right.
Qed.

Lemma preserves_try (I : S -> Prop) {A} (m : ST S A) h :
  preserves I m -> (forall e k, h e = Some k -> preserves I k) -> preserves I (tryS m h).
Proof.
  intros Hm Hh s Hs. apply wp_try. eapply wp_mono; [by apply Hm|done|].
  intros e s' Hs'. destruct (h e) as [k|] eqn:He; [|done]. by eapply Hh.
Qed.

Lemma preserves_and (I J : S -> Prop) {A} (m : ST S A) :
  preserves I m -> preserves J m -> preserves (fun s => I s /\ J s) m.
Proof. intros Hi Hj s [Hs1 Hs2]. apply wp_and; auto. Qed.

Lemma preserves_True {A} (m : ST S A) : preserves (fun _ => True) m.
Proof. intros s _. unfold wp. by destruct (m s) as [[]]. Qed.

End wp.

Lemma wp_zoom {S T A} (get : S -> T) set (m : ST T A) Q E s :
  wp m (fun a t => Q a (set t s)) (fun e t => E e (set t s)) (get s) -> wp (zoomS get set m) Q E s.
Proof. unfold wp, zoomS. by destruct (m (get s)) as [[a|e] t]. Qed.

Create HintDb st.
#[export] Hint Resolve preserves_ret preserves_raise preserves_gets preserves_lift preserves_modify preserves_bind
  preserves_when preserves_if preserves_for preserves_concat preserves_try : st.

(** Walk through a computation whose goal is a [wp]. *)
Ltac wp_step :=
  lazymatch goal with
  | |- wp (bindS _ _) _ _ _ => apply wp_bind
  | |- wp (retS _) _ _ _ => apply wp_ret
  | |- wp skipS _ _ _ => apply wp_ret
  | |- wp (raiseS _) _ _ _ => apply wp_raise
  | |- wp (getsS _) _ _ _ => apply wp_gets
  | |- wp (modifyS _) _ _ _ => apply wp_modify
  end.
Ltac wp_steps := repeat (wp_step; cbn beta).

(** ** Walking through the code of a computation *)

(** The head of a computation *)
Ltac unfold_head m :=
  lazymatch m with
  | ?f _ => unfold_head f
  | ?f => unfold f
  end.

(** What a computation leaves as it is, even when it raises *)
Definition leaves {S T A} (g : S -> T) (m : ST S A) : Prop := forall c, preserves (fun s => g s = c) m.

Lemma leaves_modify {S T} (g : S -> T) f : (forall s, g (f s) = g s) -> leaves g (modifyS f).
Proof. intros Hf c. apply preserves_modify. intros s <-. apply Hf. Qed.
Lemma leaves_bind {S T A B} (g : S -> T) (m : ST S A) (f : A -> ST S B) : leaves g m -> (forall a, leaves g (f a)) -> leaves g (bindS m f).
Proof. intros Hm Hf c. apply preserves_bind; [apply Hm|]. intros a. apply Hf. Qed.
Lemma leaves_for {S T A} (g : S -> T) (f : A -> ST S unit) l : (forall a, leaves g (f a)) -> leaves g (forS f l).
Proof. intros Hf c. apply preserves_for. intros a _. apply Hf. Qed.
Lemma leaves_concat {S T A B} (g : S -> T) (f : A -> ST S (list B)) l : (forall a, leaves g (f a)) -> leaves g (concatS f l).
Proof. intros Hf c. apply preserves_concat. intros a _. apply Hf. Qed.
Lemma leaves_when {S T} (g : S -> T) b m : leaves g m -> leaves g (whenS b m).
Proof. intros Hm c. apply preserves_when, Hm. Qed.
Lemma leaves_try {S T A} (g : S -> T) (m : ST S A) h : leaves g m -> (forall e k, h e = Some k -> leaves g k) -> leaves g (tryS m h).
Proof. intros Hm Hh c. apply preserves_try; [apply Hm|]. intros e k Hk. by eapply Hh. Qed.
Lemma leaves_pure {S T A} (g : S -> T) (m : ST S A) : (forall s, (m s).2 = s) -> leaves g m.
Proof. intros Hm c s Hs. unfold wp. specialize (Hm s). destruct (m s) as [[]]; simpl in *; by subst. Qed.
Lemma leaves_via {S T T' A} (g : S -> T) (h : S -> T') (m : ST S A) : leaves g m -> (forall s s', g s = g s' -> h s = h s') -> leaves h m.
Proof. intros Hm Hh c s <-. eapply wp_mono; [by apply (Hm (g s))|intros ? s' Hs'|intros ? s' Hs']; by apply Hh. Qed.
Lemma leaves_pair {S T T' A} (g : S -> T) (h : S -> T') (m : ST S A) : leaves g m -> leaves h m -> leaves (fun s => (g s, h s)) m.
Proof.
  intros Hg Hh [a b] s [= Ha Hb]. eapply wp_mono; [apply wp_and; [by apply (Hg a)|by apply (Hh b)]|..]; cbn; intros ? ? [-> ->]; done.
Qed.

Create HintDb leaves.
Ltac leaves_step :=
  lazymatch goal with
  | |- leaves _ (bindS _ _) => apply leaves_bind; [|intros ?]
  | |- leaves _ (retS _) => by apply leaves_pure
  | |- leaves _ skipS => by apply leaves_pure
  | |- leaves _ (raiseS _) => by apply leaves_pure
  | |- leaves _ (getsS _) => by apply leaves_pure
  | |- leaves _ (liftS _) => by apply leaves_pure
  | |- leaves _ (whenS _ _) => apply leaves_when
  | |- leaves _ (forS _ _) => apply leaves_for; intros ?
  | |- leaves _ (concatS _ _) => apply leaves_concat; intros ?
  | |- leaves _ (tryS _ _) => apply leaves_try; [|let e := fresh in intros e ? ?; destruct e; simplify_eq/=]
  | |- leaves _ (modifyS _) => first [apply leaves_modify; intros ?; solve [reflexivity|by repeat case_match]|solve [auto 2 with leaves nocore]]
  | |- leaves _ (let '_ := ?x in _) => destruct x
  | |- leaves _ (if ?b then _ else _) => destruct b
  | |- leaves _ (match ?x with _ => _ end) => destruct x
  | |- leaves _ (fun _ => _) => apply leaves_pure; intros ?; by repeat case_match
  | |- leaves _ ?m => first [solve [auto 2 with leaves nocore] | unfold_head m; cbv beta zeta]
  end.
Ltac leaves := cbv beta zeta; repeat (leaves_step; cbv beta zeta).

(** Exceptions a computation does not raise *)
Definition never {S A} (e : exn) (m : ST S A) : Prop := forall s, wp m (fun _ _ => True) (fun e' _ => e' <> e) s.

Lemma never_ok {S A} e (m : ST S A) : (forall s a, (m s).1 = Err a -> a <> e) -> never e m.
Proof. intros Hm s. unfold wp. specialize (Hm s). destruct (m s) as [[a|e'] s']; [done|]. by apply Hm. Qed.
Lemma never_bind {S A B} e (m : ST S A) (f : A -> ST S B) : never e m -> (forall a, never e (f a)) -> never e (bindS m f).
Proof. intros Hm Hf s. apply wp_bind. eapply wp_mono; [apply Hm|intros a s' _; apply Hf|done]. Qed.
Lemma never_for {S A} e (f : A -> ST S unit) l : (forall a, never e (f a)) -> never e (forS f l).
Proof. intros Hf. induction l as [|a l IH]; simpl; [by apply never_ok|]. by apply never_bind. Qed.
Lemma never_when {S} e b (m : ST S unit) : never e m -> never e (whenS b m).
Proof. intros Hm. destruct b; [done|]. by apply never_ok. Qed.
Lemma never_try {S A} e (m : ST S A) h : never e m -> (forall e' k, h e' = Some k -> never e k) -> never e (tryS m h).
Proof.
  intros Hm Hh s. apply wp_try. eapply wp_mono; [apply Hm|done|]. intros e' s' He. destruct (h e') as [k|] eqn:Hk; [by eapply Hh|done].
Qed.

Create HintDb never.
Ltac never_step :=
  lazymatch goal with
  | |- never _ (bindS _ _) => apply never_bind; [|intros ?]
  | |- never _ (retS _) => by apply never_ok
  | |- never _ skipS => by apply never_ok
  | |- never _ (raiseS _) => apply never_ok; intros ? ? [= <-]; discriminate
  | |- never _ (getsS _) => by apply never_ok
  | |- never _ (modifyS _) => by apply never_ok
  | |- never _ (liftS (or_raise _ ?o)) => apply never_ok; intros ? ?; destruct o; simpl; [done|intros [= <-]; discriminate]
  | |- never _ (whenS _ _) => apply never_when
  | |- never _ (forS _ _) => apply never_for; intros ?
  | |- never _ (tryS _ _) => apply never_try; [|let e := fresh in intros e ? ?; destruct e; simplify_eq/=]
  | |- never _ (let '_ := ?x in _) => destruct x
  | |- never _ (if ?b then _ else _) => destruct b
  | |- never _ (match ?x with _ => _ end) => destruct x
  | |- never _ (fun _ => _) => first [solve [auto 2 with never nocore] | apply never_ok; intros ? ?; simpl; repeat case_match; naive_solver]
  | |- never _ ?m => first [solve [auto 2 with never nocore] | unfold_head m; cbv beta zeta]
  end.
Ltac never := cbv beta zeta; repeat (never_step; cbv beta zeta).
