(* ===== verification/Counting.v ===== *)
(** * Counting the elements of a list

    How many elements of a list satisfy a condition on their position and value, and how the
    number changes when one element does. *)

From S2P Require Import Prelude.

Section counting.
Context {A : Type}.
Implicit Types (P Q : nat -> A -> bool) (l : list A).

Fixpoint count P l : Z :=
  match l with
  | [] => 0
  | x :: l => Z.b2z (P 0%nat x) + count (fun i => P (S i)) l
  end.

#[global] Arguments count : simpl never.

Lemma count_cons P x l : count P (x :: l) = (Z.b2z (P 0%nat x) + count (fun i => P (S i)) l)%Z.
Proof. done. Qed.

Lemma count_nil P : count P [] = 0%Z.
Proof. done. Qed.

Lemma count_app P l1 l2 : count P (l1 ++ l2) = (count P l1 + count (fun i => P (length l1 + i)%nat) l2)%Z.
Proof.
  revert P. induction l1 as [|x l1 IH]; intros P; [done|]. cbn [app length]. rewrite !count_cons, IH. cbn. lia.
Qed.

Lemma count_snoc P l x : count P (l ++ [x]) = (count P l + Z.b2z (P (length l) x))%Z.
Proof. rewrite count_app, count_cons, count_nil, Nat.add_0_r. lia. Qed.

Lemma count_nonneg P l : (0 <= count P l)%Z.
Proof.
  revert P. induction l as [|x l IH]; intros P; [done|]. rewrite count_cons.
  specialize (IH (fun i => P (S i))). destruct (P 0%nat x); simpl; lia.
Qed.

Lemma count_le P Q l l' :
  length l = length l' ->
  (forall i x x', l !! i = Some x -> l' !! i = Some x' -> P i x = true -> Q i x' = true) -> (count P l <= count Q l')%Z.
Proof.
  revert P Q l'. induction l as [|x l IH]; intros P Q [|x' l'] Hlen H; simplify_eq/=; [done|].
  rewrite !count_cons. pose proof (H 0%nat x x' eq_refl eq_refl) as H0.
  assert (count (fun i => P (S i)) l <= count (fun i => Q (S i)) l')%Z by (apply IH; [done|]; intros i; apply (H (S i))).
  destruct (P 0%nat x); [rewrite H0 by done; lia|]. destruct (Q 0%nat x'); cbn [Z.b2z]; lia.
Qed.

Lemma count_ext P Q l l' :
  length l = length l' ->
  (forall i x x', l !! i = Some x -> l' !! i = Some x' -> P i x = Q i x') -> count P l = count Q l'.
Proof.
  intros Hlen H. apply Z.le_antisymm; apply count_le; [done| |done|]; intros i x x' Hx Hx' Hp.
  - by rewrite <-(H i x x').
  - by rewrite (H i x' x).
Qed.

Lemma count_ext_same P Q l : (forall i x, l !! i = Some x -> P i x = Q i x) -> count P l = count Q l.
Proof. intros H. apply count_ext; [done|]. intros i x x' Hx Hx'. rewrite Hx in Hx'. injection Hx' as <-. by apply H. Qed.

(** Only the element at [i], or the condition on it, changes. *)
Lemma count_update P Q l l' i x x' :
  length l = length l' -> l !! i = Some x -> l' !! i = Some x' ->
  (forall j y y', j <> i -> l !! j = Some y -> l' !! j = Some y' -> P j y = Q j y') ->
  count Q l' = (count P l - Z.b2z (P i x) + Z.b2z (Q i x'))%Z.
Proof.
  revert P Q l' i. induction l as [|y l IH]; intros P Q [|y' l'] i Hlen Hi Hi' H; simplify_eq/=.
  rewrite !count_cons. destruct i as [|i]; simplify_eq/=.
  - rewrite (count_ext (fun i => P (S i)) (fun i => Q (S i)) l l'); [lia|done|]. intros j z z' Hz Hz'. by apply (H (S j)).
  - rewrite (IH (fun i => P (S i)) (fun i => Q (S i)) l' i); [|done..|].
    + rewrite (H 0%nat y y'); [lia|done..].
    + intros j z z' Hj Hz Hz'. apply (H (S j)); [congruence|done..].
Qed.

Lemma count_alter P l i x f :
  l !! i = Some x -> count P (alter f i l) = (count P l - Z.b2z (P i x) + Z.b2z (P i (f x)))%Z.
Proof.
  intros Hi. apply count_update; [by rewrite length_alter|done|by rewrite list_lookup_alter_eq, Hi|].
  intros j y y' Hj Hy. rewrite list_lookup_alter_ne, Hy by done. by intros [= <-].
Qed.

Lemma count_pos P l i x : l !! i = Some x -> P i x = true -> (1 <= count P l)%Z.
Proof.
  revert P i. induction l as [|y l IH]; intros P i; [done|]. rewrite count_cons.
  pose proof (count_nonneg (fun i => P (S i)) l). destruct i as [|i]; intros Hi Hp; simplify_eq/=.
  - rewrite Hp. simpl. lia.
  - assert (1 <= count (fun i => P (S i)) l)%Z by (by eapply IH). destruct (P 0%nat y); simpl; lia.
Qed.

Lemma count_zero P l : (count P l <= 0)%Z <-> forall i x, l !! i = Some x -> P i x = false.
Proof.
  split.
  - intros Hz i x Hx. destruct (P i x) eqn:Hp; [|done]. pose proof (count_pos P l i x Hx Hp). lia.
  - intros H. rewrite (count_ext_same P (fun _ _ => false)); [|done].
    clear. induction l as [|x l IH]; [done|]. rewrite count_cons. cbn [Z.b2z]. lia.
Qed.

Lemma count_exists P l : (0 < count P l)%Z -> exists i x, l !! i = Some x /\ P i x = true.
Proof.
  revert P. induction l as [|y l IH]; intros P; [done|]. rewrite count_cons. destruct (P 0%nat y) eqn:Hy.
  - intros _. by exists 0%nat, y.
  - cbn [Z.b2z]. intros (i & x & Hi & Hx)%IH. by exists (S i), x.
Qed.

Lemma count_filter (f : A -> bool) l : count (fun _ => f) l = Z.of_nat (length (List.filter f l)).
Proof.
  induction l as [|x l IH]; [done|]. rewrite count_cons, IH. cbn [List.filter]. destruct (f x); cbn [Z.b2z length]; lia.
Qed.

End counting.
#[global] Arguments count : simpl never.

(** No element at [i] to change *)
Lemma alter_outside {A} (f : A -> A) i (l : list A) : l !! i = None -> alter f i l = l.
Proof. revert i. induction l as [|x l IH]; intros [|i] Hi; simplify_eq/=; [done|done|]. f_equal. by apply IH. Qed.
