(* ===== verification/LockTables.v ===== *)
(** * The tables of rules, locks and replicas

    The rows the rule engine works on ([lib/rucio/db/sqla/models.py]).  A lock or a replica is
    an object of the session: it lives at an address, the same wherever it is referred to, and
    is in the database while it is [Persistent].  A change of an object is a change of its row,
    since every query flushes the session.  Scopes are in their internal representation and
    dates are numbers of seconds. *)

From S2P Require Import Prelude StateError Counting Types Database RseSelector.

(** ** Enumerations *)

Inductive LockState := L_REPLICATING | L_OK | L_STUCK.
#[export] Instance LockState_eq_dec : EqDecision LockState.
Proof. solve_decision. Defined.

Inductive RuleState := RS_REPLICATING | RS_OK | RS_STUCK | RS_SUSPENDED | RS_WAITING_APPROVAL | RS_INJECT.
#[export] Instance RuleState_eq_dec : EqDecision RuleState.
Proof. solve_decision. Defined.

Inductive RuleGrouping := G_ALL | G_DATASET | G_NONE.
#[export] Instance RuleGrouping_eq_dec : EqDecision RuleGrouping.
Proof. solve_decision. Defined.

Inductive RuleNotification := N_YES | N_NO | N_CLOSE | N_PROGRESS.
#[export] Instance RuleNotification_eq_dec : EqDecision RuleNotification.
Proof. solve_decision. Defined.

Inductive DIDType := FILE | DATASET | CONTAINER | ARCHIVE | DELETED_FILE | DELETED_DATASET | DELETED_CONTAINER.
#[export] Instance DIDType_eq_dec : EqDecision DIDType.
Proof. solve_decision. Defined.

Inductive RequestType := TRANSFER | UPLOAD | DOWNLOAD | STAGEIN | STAGEOUT.
#[export] Instance RequestType_eq_dec : EqDecision RequestType.
Proof. solve_decision. Defined.

Inductive BadFilesStatus := B_BAD | B_DELETED | B_LOST | B_RECOVERED | B_SUSPICIOUS | B_TEMPORARY_UNAVAILABLE.
#[export] Instance BadFilesStatus_eq_dec : EqDecision BadFilesStatus.
Proof. solve_decision. Defined.

Inductive DIDReEvaluation := ATTACH | DETACH.

(** The tombstone of replicas to delete as soon as possible: 1970-01-01 *)
Definition OBSOLETE : Z := 0.

(** ** Rows *)

(** The scope, in its internal representation, and the name *)
Definition DID : Type := string * string.

(** Where an object stands: made but not added to the session, in the database, deleted *)
Inductive Status := Transient | Persistent | Deleted.
#[export] Instance Status_eq_dec : EqDecision Status.
Proof. solve_decision. Defined.

(** [ReplicationRule] *)
Record Rule := MkRule {
  ru_id : string;
  ru_subscription_id : option string;
  ru_account : InternalType;
  ru_did : DID;
  ru_did_type : DIDType;
  ru_state : RuleState;
  ru_error : option string;
  ru_rse_expression : string;
  ru_copies : Z;
  ru_expires_at : option Z;
  ru_weight : option string;
  ru_locked : bool;
  ru_locks_ok_cnt : Z;
  ru_locks_replicating_cnt : Z;
  ru_locks_stuck_cnt : Z;
  ru_source_replica_expression : option string;
  ru_activity : option string;
  ru_grouping : RuleGrouping;
  ru_notification : RuleNotification;
  ru_stuck_at : option Z;
  ru_purge_replicas : bool;
  ru_ignore_availability : bool;
  ru_ignore_account_limit : bool;
  ru_priority : option Z;
  ru_comments : option string;
  ru_child_rule_id : option string;
  ru_eol_at : option Z;
  ru_split_container : bool;
  ru_meta : option string;
  ru_created_at : Z;
  ru_updated_at : Z;
}.
Definition upd_ru_account (g : InternalType -> InternalType) (x : Rule) : Rule :=
  MkRule (ru_id x) (ru_subscription_id x) (g (ru_account x)) (ru_did x) (ru_did_type x) (ru_state x)
    (ru_error x) (ru_rse_expression x) (ru_copies x) (ru_expires_at x) (ru_weight x) (ru_locked x)
    (ru_locks_ok_cnt x) (ru_locks_replicating_cnt x) (ru_locks_stuck_cnt x) (ru_source_replica_expression x)
    (ru_activity x) (ru_grouping x) (ru_notification x) (ru_stuck_at x) (ru_purge_replicas x)
    (ru_ignore_availability x) (ru_ignore_account_limit x) (ru_priority x) (ru_comments x) (ru_child_rule_id x)
    (ru_eol_at x) (ru_split_container x) (ru_meta x) (ru_created_at x) (ru_updated_at x).
Definition upd_ru_state (g : RuleState -> RuleState) (x : Rule) : Rule :=
  MkRule (ru_id x) (ru_subscription_id x) (ru_account x) (ru_did x) (ru_did_type x) (g (ru_state x))
    (ru_error x) (ru_rse_expression x) (ru_copies x) (ru_expires_at x) (ru_weight x) (ru_locked x)
    (ru_locks_ok_cnt x) (ru_locks_replicating_cnt x) (ru_locks_stuck_cnt x) (ru_source_replica_expression x)
    (ru_activity x) (ru_grouping x) (ru_notification x) (ru_stuck_at x) (ru_purge_replicas x)
    (ru_ignore_availability x) (ru_ignore_account_limit x) (ru_priority x) (ru_comments x) (ru_child_rule_id x)
    (ru_eol_at x) (ru_split_container x) (ru_meta x) (ru_created_at x) (ru_updated_at x).
Definition upd_ru_error (g : (option string) -> (option string)) (x : Rule) : Rule :=
  MkRule (ru_id x) (ru_subscription_id x) (ru_account x) (ru_did x) (ru_did_type x) (ru_state x)
    (g (ru_error x)) (ru_rse_expression x) (ru_copies x) (ru_expires_at x) (ru_weight x) (ru_locked x)
    (ru_locks_ok_cnt x) (ru_locks_replicating_cnt x) (ru_locks_stuck_cnt x) (ru_source_replica_expression x)
    (ru_activity x) (ru_grouping x) (ru_notification x) (ru_stuck_at x) (ru_purge_replicas x)
    (ru_ignore_availability x) (ru_ignore_account_limit x) (ru_priority x) (ru_comments x) (ru_child_rule_id x)
    (ru_eol_at x) (ru_split_container x) (ru_meta x) (ru_created_at x) (ru_updated_at x).
Definition upd_ru_expires_at (g : (option Z) -> (option Z)) (x : Rule) : Rule :=
  MkRule (ru_id x) (ru_subscription_id x) (ru_account x) (ru_did x) (ru_did_type x) (ru_state x) (ru_error x)
    (ru_rse_expression x) (ru_copies x) (g (ru_expires_at x)) (ru_weight x) (ru_locked x) (ru_locks_ok_cnt x)
    (ru_locks_replicating_cnt x) (ru_locks_stuck_cnt x) (ru_source_replica_expression x) (ru_activity x)
    (ru_grouping x) (ru_notification x) (ru_stuck_at x) (ru_purge_replicas x) (ru_ignore_availability x)
    (ru_ignore_account_limit x) (ru_priority x) (ru_comments x) (ru_child_rule_id x) (ru_eol_at x)
    (ru_split_container x) (ru_meta x) (ru_created_at x) (ru_updated_at x).
Definition upd_ru_locked (g : bool -> bool) (x : Rule) : Rule :=
  MkRule (ru_id x) (ru_subscription_id x) (ru_account x) (ru_did x) (ru_did_type x) (ru_state x) (ru_error x)
    (ru_rse_expression x) (ru_copies x) (ru_expires_at x) (ru_weight x) (g (ru_locked x)) (ru_locks_ok_cnt x)
    (ru_locks_replicating_cnt x) (ru_locks_stuck_cnt x) (ru_source_replica_expression x) (ru_activity x)
    (ru_grouping x) (ru_notification x) (ru_stuck_at x) (ru_purge_replicas x) (ru_ignore_availability x)
    (ru_ignore_account_limit x) (ru_priority x) (ru_comments x) (ru_child_rule_id x) (ru_eol_at x)
    (ru_split_container x) (ru_meta x) (ru_created_at x) (ru_updated_at x).
Definition upd_ru_locks_ok_cnt (g : Z -> Z) (x : Rule) : Rule :=
  MkRule (ru_id x) (ru_subscription_id x) (ru_account x) (ru_did x) (ru_did_type x) (ru_state x) (ru_error x)
    (ru_rse_expression x) (ru_copies x) (ru_expires_at x) (ru_weight x) (ru_locked x) (g (ru_locks_ok_cnt x))
    (ru_locks_replicating_cnt x) (ru_locks_stuck_cnt x) (ru_source_replica_expression x) (ru_activity x)
    (ru_grouping x) (ru_notification x) (ru_stuck_at x) (ru_purge_replicas x) (ru_ignore_availability x)
    (ru_ignore_account_limit x) (ru_priority x) (ru_comments x) (ru_child_rule_id x) (ru_eol_at x)
    (ru_split_container x) (ru_meta x) (ru_created_at x) (ru_updated_at x).
Definition upd_ru_locks_replicating_cnt (g : Z -> Z) (x : Rule) : Rule :=
  MkRule (ru_id x) (ru_subscription_id x) (ru_account x) (ru_did x) (ru_did_type x) (ru_state x) (ru_error x)
    (ru_rse_expression x) (ru_copies x) (ru_expires_at x) (ru_weight x) (ru_locked x) (ru_locks_ok_cnt x)
    (g (ru_locks_replicating_cnt x)) (ru_locks_stuck_cnt x) (ru_source_replica_expression x) (ru_activity x)
    (ru_grouping x) (ru_notification x) (ru_stuck_at x) (ru_purge_replicas x) (ru_ignore_availability x)
    (ru_ignore_account_limit x) (ru_priority x) (ru_comments x) (ru_child_rule_id x) (ru_eol_at x)
    (ru_split_container x) (ru_meta x) (ru_created_at x) (ru_updated_at x).
Definition upd_ru_locks_stuck_cnt (g : Z -> Z) (x : Rule) : Rule :=
  MkRule (ru_id x) (ru_subscription_id x) (ru_account x) (ru_did x) (ru_did_type x) (ru_state x) (ru_error x)
    (ru_rse_expression x) (ru_copies x) (ru_expires_at x) (ru_weight x) (ru_locked x) (ru_locks_ok_cnt x)
    (ru_locks_replicating_cnt x) (g (ru_locks_stuck_cnt x)) (ru_source_replica_expression x) (ru_activity x)
    (ru_grouping x) (ru_notification x) (ru_stuck_at x) (ru_purge_replicas x) (ru_ignore_availability x)
    (ru_ignore_account_limit x) (ru_priority x) (ru_comments x) (ru_child_rule_id x) (ru_eol_at x)
    (ru_split_container x) (ru_meta x) (ru_created_at x) (ru_updated_at x).
Definition upd_ru_source_replica_expression (g : (option string) -> (option string)) (x : Rule) : Rule :=
  MkRule (ru_id x) (ru_subscription_id x) (ru_account x) (ru_did x) (ru_did_type x) (ru_state x) (ru_error x)
    (ru_rse_expression x) (ru_copies x) (ru_expires_at x) (ru_weight x) (ru_locked x) (ru_locks_ok_cnt x)
    (ru_locks_replicating_cnt x) (ru_locks_stuck_cnt x) (g (ru_source_replica_expression x)) (ru_activity x)
    (ru_grouping x) (ru_notification x) (ru_stuck_at x) (ru_purge_replicas x) (ru_ignore_availability x)
    (ru_ignore_account_limit x) (ru_priority x) (ru_comments x) (ru_child_rule_id x) (ru_eol_at x)
    (ru_split_container x) (ru_meta x) (ru_created_at x) (ru_updated_at x).
Definition upd_ru_activity (g : (option string) -> (option string)) (x : Rule) : Rule :=
  MkRule (ru_id x) (ru_subscription_id x) (ru_account x) (ru_did x) (ru_did_type x) (ru_state x) (ru_error x)
    (ru_rse_expression x) (ru_copies x) (ru_expires_at x) (ru_weight x) (ru_locked x) (ru_locks_ok_cnt x)
    (ru_locks_replicating_cnt x) (ru_locks_stuck_cnt x) (ru_source_replica_expression x) (g (ru_activity x))
    (ru_grouping x) (ru_notification x) (ru_stuck_at x) (ru_purge_replicas x) (ru_ignore_availability x)
    (ru_ignore_account_limit x) (ru_priority x) (ru_comments x) (ru_child_rule_id x) (ru_eol_at x)
    (ru_split_container x) (ru_meta x) (ru_created_at x) (ru_updated_at x).
Definition upd_ru_stuck_at (g : (option Z) -> (option Z)) (x : Rule) : Rule :=
  MkRule (ru_id x) (ru_subscription_id x) (ru_account x) (ru_did x) (ru_did_type x) (ru_state x) (ru_error x)
    (ru_rse_expression x) (ru_copies x) (ru_expires_at x) (ru_weight x) (ru_locked x) (ru_locks_ok_cnt x)
    (ru_locks_replicating_cnt x) (ru_locks_stuck_cnt x) (ru_source_replica_expression x) (ru_activity x)
    (ru_grouping x) (ru_notification x) (g (ru_stuck_at x)) (ru_purge_replicas x) (ru_ignore_availability x)
    (ru_ignore_account_limit x) (ru_priority x) (ru_comments x) (ru_child_rule_id x) (ru_eol_at x)
    (ru_split_container x) (ru_meta x) (ru_created_at x) (ru_updated_at x).
Definition upd_ru_purge_replicas (g : bool -> bool) (x : Rule) : Rule :=
  MkRule (ru_id x) (ru_subscription_id x) (ru_account x) (ru_did x) (ru_did_type x) (ru_state x) (ru_error x)
    (ru_rse_expression x) (ru_copies x) (ru_expires_at x) (ru_weight x) (ru_locked x) (ru_locks_ok_cnt x)
    (ru_locks_replicating_cnt x) (ru_locks_stuck_cnt x) (ru_source_replica_expression x) (ru_activity x)
    (ru_grouping x) (ru_notification x) (ru_stuck_at x) (g (ru_purge_replicas x)) (ru_ignore_availability x)
    (ru_ignore_account_limit x) (ru_priority x) (ru_comments x) (ru_child_rule_id x) (ru_eol_at x)
    (ru_split_container x) (ru_meta x) (ru_created_at x) (ru_updated_at x).
Definition upd_ru_ignore_account_limit (g : bool -> bool) (x : Rule) : Rule :=
  MkRule (ru_id x) (ru_subscription_id x) (ru_account x) (ru_did x) (ru_did_type x) (ru_state x) (ru_error x)
    (ru_rse_expression x) (ru_copies x) (ru_expires_at x) (ru_weight x) (ru_locked x) (ru_locks_ok_cnt x)
    (ru_locks_replicating_cnt x) (ru_locks_stuck_cnt x) (ru_source_replica_expression x) (ru_activity x)
    (ru_grouping x) (ru_notification x) (ru_stuck_at x) (ru_purge_replicas x) (ru_ignore_availability x)
    (g (ru_ignore_account_limit x)) (ru_priority x) (ru_comments x) (ru_child_rule_id x) (ru_eol_at x)
    (ru_split_container x) (ru_meta x) (ru_created_at x) (ru_updated_at x).
Definition upd_ru_priority (g : (option Z) -> (option Z)) (x : Rule) : Rule :=
  MkRule (ru_id x) (ru_subscription_id x) (ru_account x) (ru_did x) (ru_did_type x) (ru_state x) (ru_error x)
    (ru_rse_expression x) (ru_copies x) (ru_expires_at x) (ru_weight x) (ru_locked x) (ru_locks_ok_cnt x)
    (ru_locks_replicating_cnt x) (ru_locks_stuck_cnt x) (ru_source_replica_expression x) (ru_activity x)
    (ru_grouping x) (ru_notification x) (ru_stuck_at x) (ru_purge_replicas x) (ru_ignore_availability x)
    (ru_ignore_account_limit x) (g (ru_priority x)) (ru_comments x) (ru_child_rule_id x) (ru_eol_at x)
    (ru_split_container x) (ru_meta x) (ru_created_at x) (ru_updated_at x).
Definition upd_ru_comments (g : (option string) -> (option string)) (x : Rule) : Rule :=
  MkRule (ru_id x) (ru_subscription_id x) (ru_account x) (ru_did x) (ru_did_type x) (ru_state x) (ru_error x)
    (ru_rse_expression x) (ru_copies x) (ru_expires_at x) (ru_weight x) (ru_locked x) (ru_locks_ok_cnt x)
    (ru_locks_replicating_cnt x) (ru_locks_stuck_cnt x) (ru_source_replica_expression x) (ru_activity x)
    (ru_grouping x) (ru_notification x) (ru_stuck_at x) (ru_purge_replicas x) (ru_ignore_availability x)
    (ru_ignore_account_limit x) (ru_priority x) (g (ru_comments x)) (ru_child_rule_id x) (ru_eol_at x)
    (ru_split_container x) (ru_meta x) (ru_created_at x) (ru_updated_at x).
Definition upd_ru_child_rule_id (g : (option string) -> (option string)) (x : Rule) : Rule :=
  MkRule (ru_id x) (ru_subscription_id x) (ru_account x) (ru_did x) (ru_did_type x) (ru_state x) (ru_error x)
    (ru_rse_expression x) (ru_copies x) (ru_expires_at x) (ru_weight x) (ru_locked x) (ru_locks_ok_cnt x)
    (ru_locks_replicating_cnt x) (ru_locks_stuck_cnt x) (ru_source_replica_expression x) (ru_activity x)
    (ru_grouping x) (ru_notification x) (ru_stuck_at x) (ru_purge_replicas x) (ru_ignore_availability x)
    (ru_ignore_account_limit x) (ru_priority x) (ru_comments x) (g (ru_child_rule_id x)) (ru_eol_at x)
    (ru_split_container x) (ru_meta x) (ru_created_at x) (ru_updated_at x).
Definition upd_ru_eol_at (g : (option Z) -> (option Z)) (x : Rule) : Rule :=
  MkRule (ru_id x) (ru_subscription_id x) (ru_account x) (ru_did x) (ru_did_type x) (ru_state x) (ru_error x)
    (ru_rse_expression x) (ru_copies x) (ru_expires_at x) (ru_weight x) (ru_locked x) (ru_locks_ok_cnt x)
    (ru_locks_replicating_cnt x) (ru_locks_stuck_cnt x) (ru_source_replica_expression x) (ru_activity x)
    (ru_grouping x) (ru_notification x) (ru_stuck_at x) (ru_purge_replicas x) (ru_ignore_availability x)
    (ru_ignore_account_limit x) (ru_priority x) (ru_comments x) (ru_child_rule_id x) (g (ru_eol_at x))
    (ru_split_container x) (ru_meta x) (ru_created_at x) (ru_updated_at x).
Definition upd_ru_meta (g : (option string) -> (option string)) (x : Rule) : Rule :=
  MkRule (ru_id x) (ru_subscription_id x) (ru_account x) (ru_did x) (ru_did_type x) (ru_state x) (ru_error x)
    (ru_rse_expression x) (ru_copies x) (ru_expires_at x) (ru_weight x) (ru_locked x) (ru_locks_ok_cnt x)
    (ru_locks_replicating_cnt x) (ru_locks_stuck_cnt x) (ru_source_replica_expression x) (ru_activity x)
    (ru_grouping x) (ru_notification x) (ru_stuck_at x) (ru_purge_replicas x) (ru_ignore_availability x)
    (ru_ignore_account_limit x) (ru_priority x) (ru_comments x) (ru_child_rule_id x) (ru_eol_at x)
    (ru_split_container x) (g (ru_meta x)) (ru_created_at x) (ru_updated_at x).
Definition upd_ru_created_at (g : Z -> Z) (x : Rule) : Rule :=
  MkRule (ru_id x) (ru_subscription_id x) (ru_account x) (ru_did x) (ru_did_type x) (ru_state x) (ru_error x)
    (ru_rse_expression x) (ru_copies x) (ru_expires_at x) (ru_weight x) (ru_locked x) (ru_locks_ok_cnt x)
    (ru_locks_replicating_cnt x) (ru_locks_stuck_cnt x) (ru_source_replica_expression x) (ru_activity x)
    (ru_grouping x) (ru_notification x) (ru_stuck_at x) (ru_purge_replicas x) (ru_ignore_availability x)
    (ru_ignore_account_limit x) (ru_priority x) (ru_comments x) (ru_child_rule_id x) (ru_eol_at x)
    (ru_split_container x) (ru_meta x) (g (ru_created_at x)) (ru_updated_at x).
Definition upd_ru_updated_at (g : Z -> Z) (x : Rule) : Rule :=
  MkRule (ru_id x) (ru_subscription_id x) (ru_account x) (ru_did x) (ru_did_type x) (ru_state x) (ru_error x)
    (ru_rse_expression x) (ru_copies x) (ru_expires_at x) (ru_weight x) (ru_locked x) (ru_locks_ok_cnt x)
    (ru_locks_replicating_cnt x) (ru_locks_stuck_cnt x) (ru_source_replica_expression x) (ru_activity x)
    (ru_grouping x) (ru_notification x) (ru_stuck_at x) (ru_purge_replicas x) (ru_ignore_availability x)
    (ru_ignore_account_limit x) (ru_priority x) (ru_comments x) (ru_child_rule_id x) (ru_eol_at x)
    (ru_split_container x) (ru_meta x) (ru_created_at x) (g (ru_updated_at x)).

(** [ReplicaLock] *)
Record Lock := MkLock {
  lk_did : DID;
  lk_rule_id : string;
  lk_rse_id : string;
  lk_account : InternalType;
  lk_bytes : Z;
  lk_state : LockState;
  lk_repair_cnt : option Z;
  lk_created_at : option Z;
  lk_updated_at : option Z;
  lk_status : Status;
}.
Definition upd_lk_account (g : InternalType -> InternalType) (x : Lock) : Lock :=
  MkLock (lk_did x) (lk_rule_id x) (lk_rse_id x) (g (lk_account x)) (lk_bytes x) (lk_state x) (lk_repair_cnt x)
    (lk_created_at x) (lk_updated_at x) (lk_status x).
Definition upd_lk_state (g : LockState -> LockState) (x : Lock) : Lock :=
  MkLock (lk_did x) (lk_rule_id x) (lk_rse_id x) (lk_account x) (lk_bytes x) (g (lk_state x)) (lk_repair_cnt x)
    (lk_created_at x) (lk_updated_at x) (lk_status x).
Definition upd_lk_repair_cnt (g : (option Z) -> (option Z)) (x : Lock) : Lock :=
  MkLock (lk_did x) (lk_rule_id x) (lk_rse_id x) (lk_account x) (lk_bytes x) (lk_state x) (g (lk_repair_cnt x))
    (lk_created_at x) (lk_updated_at x) (lk_status x).
Definition upd_lk_created_at (g : (option Z) -> (option Z)) (x : Lock) : Lock :=
  MkLock (lk_did x) (lk_rule_id x) (lk_rse_id x) (lk_account x) (lk_bytes x) (lk_state x) (lk_repair_cnt x)
    (g (lk_created_at x)) (lk_updated_at x) (lk_status x).
Definition upd_lk_updated_at (g : (option Z) -> (option Z)) (x : Lock) : Lock :=
  MkLock (lk_did x) (lk_rule_id x) (lk_rse_id x) (lk_account x) (lk_bytes x) (lk_state x) (lk_repair_cnt x)
    (lk_created_at x) (g (lk_updated_at x)) (lk_status x).
Definition upd_lk_status (g : Status -> Status) (x : Lock) : Lock :=
  MkLock (lk_did x) (lk_rule_id x) (lk_rse_id x) (lk_account x) (lk_bytes x) (lk_state x) (lk_repair_cnt x)
    (lk_created_at x) (lk_updated_at x) (g (lk_status x)).

(** [RSEFileAssociation] *)
Record Replica := MkReplica {
  rp_rse_id : string;
  rp_did : DID;
  rp_bytes : Z;
  rp_md5 : option string;
  rp_adler32 : option string;
  rp_state : ReplicaState;
  rp_lock_cnt : Z;
  rp_accessed_at : option Z;
  rp_tombstone : option Z;
  rp_created_at : option Z;
  rp_status : Status;
}.
Definition upd_rp_state (g : ReplicaState -> ReplicaState) (x : Replica) : Replica :=
  MkReplica (rp_rse_id x) (rp_did x) (rp_bytes x) (rp_md5 x) (rp_adler32 x) (g (rp_state x)) (rp_lock_cnt x)
    (rp_accessed_at x) (rp_tombstone x) (rp_created_at x) (rp_status x).
Definition upd_rp_lock_cnt (g : Z -> Z) (x : Replica) : Replica :=
  MkReplica (rp_rse_id x) (rp_did x) (rp_bytes x) (rp_md5 x) (rp_adler32 x) (rp_state x) (g (rp_lock_cnt x))
    (rp_accessed_at x) (rp_tombstone x) (rp_created_at x) (rp_status x).
Definition upd_rp_tombstone (g : (option Z) -> (option Z)) (x : Replica) : Replica :=
  MkReplica (rp_rse_id x) (rp_did x) (rp_bytes x) (rp_md5 x) (rp_adler32 x) (rp_state x) (rp_lock_cnt x)
    (rp_accessed_at x) (g (rp_tombstone x)) (rp_created_at x) (rp_status x).
Definition upd_rp_created_at (g : (option Z) -> (option Z)) (x : Replica) : Replica :=
  MkReplica (rp_rse_id x) (rp_did x) (rp_bytes x) (rp_md5 x) (rp_adler32 x) (rp_state x) (rp_lock_cnt x)
    (rp_accessed_at x) (rp_tombstone x) (g (rp_created_at x)) (rp_status x).
Definition upd_rp_status (g : Status -> Status) (x : Replica) : Replica :=
  MkReplica (rp_rse_id x) (rp_did x) (rp_bytes x) (rp_md5 x) (rp_adler32 x) (rp_state x) (rp_lock_cnt x)
    (rp_accessed_at x) (rp_tombstone x) (rp_created_at x) (g (rp_status x)).

(** [DatasetLock] *)
Record DatasetLock := MkDatasetLock {
  dl_state : LockState;
  dl_account : InternalType;
  dl_length : option Z;
  dl_bytes : option Z;
}.
Definition upd_dl_account (g : InternalType -> InternalType) (x : DatasetLock) : DatasetLock :=
  MkDatasetLock (dl_state x) (g (dl_account x)) (dl_length x) (dl_bytes x).
Definition upd_dl_state (g : LockState -> LockState) (x : DatasetLock) : DatasetLock :=
  MkDatasetLock (g (dl_state x)) (dl_account x) (dl_length x) (dl_bytes x).

(** [DataIdentifier] *)
Record DIDRow := MkDID {
  d_type : DIDType;
  d_open : option bool;
  d_bytes : option Z;
  d_length : option Z;
  d_md5 : option string;
  d_adler32 : option string;
  d_lost : bool;  (* availability is LOST *)
  d_account : InternalType;
  d_expired_at : option Z;
  d_is_new : bool;
  d_is_archive : bool;
  d_constituent : bool;
  d_complete : option bool;
}.
Definition upd_d_open (g : (option bool) -> (option bool)) (x : DIDRow) : DIDRow :=
  MkDID (d_type x) (g (d_open x)) (d_bytes x) (d_length x) (d_md5 x) (d_adler32 x) (d_lost x) (d_account x)
    (d_expired_at x) (d_is_new x) (d_is_archive x) (d_constituent x) (d_complete x).
Definition upd_d_bytes (g : (option Z) -> (option Z)) (x : DIDRow) : DIDRow :=
  MkDID (d_type x) (d_open x) (g (d_bytes x)) (d_length x) (d_md5 x) (d_adler32 x) (d_lost x) (d_account x)
    (d_expired_at x) (d_is_new x) (d_is_archive x) (d_constituent x) (d_complete x).
Definition upd_d_length (g : (option Z) -> (option Z)) (x : DIDRow) : DIDRow :=
  MkDID (d_type x) (d_open x) (d_bytes x) (g (d_length x)) (d_md5 x) (d_adler32 x) (d_lost x) (d_account x)
    (d_expired_at x) (d_is_new x) (d_is_archive x) (d_constituent x) (d_complete x).
Definition upd_d_lost (g : bool -> bool) (x : DIDRow) : DIDRow :=
  MkDID (d_type x) (d_open x) (d_bytes x) (d_length x) (d_md5 x) (d_adler32 x) (g (d_lost x)) (d_account x)
    (d_expired_at x) (d_is_new x) (d_is_archive x) (d_constituent x) (d_complete x).
Definition upd_d_expired_at (g : (option Z) -> (option Z)) (x : DIDRow) : DIDRow :=
  MkDID (d_type x) (d_open x) (d_bytes x) (d_length x) (d_md5 x) (d_adler32 x) (d_lost x) (d_account x)
    (g (d_expired_at x)) (d_is_new x) (d_is_archive x) (d_constituent x) (d_complete x).
Definition upd_d_is_new (g : bool -> bool) (x : DIDRow) : DIDRow :=
  MkDID (d_type x) (d_open x) (d_bytes x) (d_length x) (d_md5 x) (d_adler32 x) (d_lost x) (d_account x)
    (d_expired_at x) (g (d_is_new x)) (d_is_archive x) (d_constituent x) (d_complete x).
Definition upd_d_is_archive (g : bool -> bool) (x : DIDRow) : DIDRow :=
  MkDID (d_type x) (d_open x) (d_bytes x) (d_length x) (d_md5 x) (d_adler32 x) (d_lost x) (d_account x)
    (d_expired_at x) (d_is_new x) (g (d_is_archive x)) (d_constituent x) (d_complete x).
Definition upd_d_constituent (g : bool -> bool) (x : DIDRow) : DIDRow :=
  MkDID (d_type x) (d_open x) (d_bytes x) (d_length x) (d_md5 x) (d_adler32 x) (d_lost x) (d_account x)
    (d_expired_at x) (d_is_new x) (d_is_archive x) (g (d_constituent x)) (d_complete x).
Definition upd_d_complete (g : (option bool) -> (option bool)) (x : DIDRow) : DIDRow :=
  MkDID (d_type x) (d_open x) (d_bytes x) (d_length x) (d_md5 x) (d_adler32 x) (d_lost x) (d_account x)
    (d_expired_at x) (d_is_new x) (d_is_archive x) (d_constituent x) (g (d_complete x)).

(** [DataIdentifierAssociation] *)
Record Content := MkContent {
  c_parent : DID;
  c_parent_type : DIDType;
  c_child : DID;
  c_child_type : DIDType;
  c_bytes : Z;
  c_md5 : option string;
  c_adler32 : option string;
  c_rule_evaluation : bool;
}.

(** A pin: a number of seconds, or the value of an RSE attribute *)
Inductive Pin := PinSeconds (s : Z) | PinAttribute (v : AttrValue).

(** The dictionary of a transfer, and the columns of the [Request] made of it *)
Record Transfer := MkTransfer {
  t_dest_rse_id : string;
  t_did : DID;
  t_rule_id : string;
  t_request_type : RequestType;
  t_retry_count : option Z;
  t_account : InternalType;
  t_requested_at : option Z;
  t_activity : string;
  t_source_replica_expression : option string;
  t_lifetime : option Pin;
  t_ds : option DID;
  t_bytes : Z;
  t_md5 : option string;
  t_adler32 : option string;
  t_priority : option Z;
}.
Definition upd_t_retry_count (g : (option Z) -> (option Z)) (x : Transfer) : Transfer :=
  MkTransfer (t_dest_rse_id x) (t_did x) (t_rule_id x) (t_request_type x) (g (t_retry_count x)) (t_account x)
    (t_requested_at x) (t_activity x) (t_source_replica_expression x) (t_lifetime x) (t_ds x) (t_bytes x)
    (t_md5 x) (t_adler32 x) (t_priority x).
Definition upd_t_priority (g : (option Z) -> (option Z)) (x : Transfer) : Transfer :=
  MkTransfer (t_dest_rse_id x) (t_did x) (t_rule_id x) (t_request_type x) (t_retry_count x) (t_account x)
    (t_requested_at x) (t_activity x) (t_source_replica_expression x) (t_lifetime x) (t_ds x) (t_bytes x)
    (t_md5 x) (t_adler32 x) (g (t_priority x)).

(** [RequestState] *)
Inductive RequestState :=
  | Q_QUEUED | Q_SUBMITTING | Q_SUBMITTED | Q_FAILED | Q_DONE | Q_LOST | Q_NO_SOURCES | Q_ONLY_TAPE_SOURCES
  | Q_SUBMISSION_FAILED | Q_MISMATCH_SCHEME | Q_SUSPEND | Q_WAITING | Q_PREPARING.
#[export] Instance RequestState_eq_dec : EqDecision RequestState.
Proof. solve_decision. Defined.

(** [Request]: what was asked for, and how far it is.  Requests live at addresses, which are their ids;
    an attempt that failed is the previous one of its successor. *)
Record Request := MkRequest {
  rq_transfer : Transfer;
  rq_state : RequestState;
  rq_source_rse_id : option string;
  rq_external_id : option string;
  rq_external_host : option string;
  rq_err_msg : option string;
  rq_previous_attempt_id : option nat;
  rq_intermediate_hop : bool;  (* of its attributes *)
  rq_priority : option Z;  (* the column; that of the transfer is in its attributes *)
  rq_last_processed_by : option string;
  rq_last_processed_at : option Z;
  rq_created_at : Z;
  rq_updated_at : Z;
  rq_status : Status;
}.
Definition upd_rq_transfer (g : Transfer -> Transfer) (x : Request) : Request :=
  MkRequest (g (rq_transfer x)) (rq_state x) (rq_source_rse_id x) (rq_external_id x) (rq_external_host x)
    (rq_err_msg x) (rq_previous_attempt_id x) (rq_intermediate_hop x) (rq_priority x) (rq_last_processed_by x) (rq_last_processed_at x)
    (rq_created_at x) (rq_updated_at x) (rq_status x).
Definition upd_rq_state (g : RequestState -> RequestState) (x : Request) : Request :=
  MkRequest (rq_transfer x) (g (rq_state x)) (rq_source_rse_id x) (rq_external_id x) (rq_external_host x)
    (rq_err_msg x) (rq_previous_attempt_id x) (rq_intermediate_hop x) (rq_priority x) (rq_last_processed_by x) (rq_last_processed_at x)
    (rq_created_at x) (rq_updated_at x) (rq_status x).
Definition upd_rq_source_rse_id (g : (option string) -> (option string)) (x : Request) : Request :=
  MkRequest (rq_transfer x) (rq_state x) (g (rq_source_rse_id x)) (rq_external_id x) (rq_external_host x)
    (rq_err_msg x) (rq_previous_attempt_id x) (rq_intermediate_hop x) (rq_priority x) (rq_last_processed_by x) (rq_last_processed_at x)
    (rq_created_at x) (rq_updated_at x) (rq_status x).
Definition upd_rq_external_id (g : (option string) -> (option string)) (x : Request) : Request :=
  MkRequest (rq_transfer x) (rq_state x) (rq_source_rse_id x) (g (rq_external_id x)) (rq_external_host x)
    (rq_err_msg x) (rq_previous_attempt_id x) (rq_intermediate_hop x) (rq_priority x) (rq_last_processed_by x) (rq_last_processed_at x)
    (rq_created_at x) (rq_updated_at x) (rq_status x).
Definition upd_rq_external_host (g : (option string) -> (option string)) (x : Request) : Request :=
  MkRequest (rq_transfer x) (rq_state x) (rq_source_rse_id x) (rq_external_id x) (g (rq_external_host x))
    (rq_err_msg x) (rq_previous_attempt_id x) (rq_intermediate_hop x) (rq_priority x) (rq_last_processed_by x) (rq_last_processed_at x)
    (rq_created_at x) (rq_updated_at x) (rq_status x).
Definition upd_rq_err_msg (g : (option string) -> (option string)) (x : Request) : Request :=
  MkRequest (rq_transfer x) (rq_state x) (rq_source_rse_id x) (rq_external_id x) (rq_external_host x)
    (g (rq_err_msg x)) (rq_previous_attempt_id x) (rq_intermediate_hop x) (rq_priority x)
    (rq_last_processed_by x) (rq_last_processed_at x) (rq_created_at x) (rq_updated_at x) (rq_status x).
Definition upd_rq_priority (g : (option Z) -> (option Z)) (x : Request) : Request :=
  MkRequest (rq_transfer x) (rq_state x) (rq_source_rse_id x) (rq_external_id x) (rq_external_host x)
    (rq_err_msg x) (rq_previous_attempt_id x) (rq_intermediate_hop x) (g (rq_priority x))
    (rq_last_processed_by x) (rq_last_processed_at x) (rq_created_at x) (rq_updated_at x) (rq_status x).
Definition upd_rq_last_processed (by_ : string) (at_ : Z) (x : Request) : Request :=
  MkRequest (rq_transfer x) (rq_state x) (rq_source_rse_id x) (rq_external_id x) (rq_external_host x)
    (rq_err_msg x) (rq_previous_attempt_id x) (rq_intermediate_hop x) (rq_priority x) (Some by_) (Some at_)
    (rq_created_at x) (rq_updated_at x) (rq_status x).
Definition upd_rq_updated_at (g : Z -> Z) (x : Request) : Request :=
  MkRequest (rq_transfer x) (rq_state x) (rq_source_rse_id x) (rq_external_id x) (rq_external_host x)
    (rq_err_msg x) (rq_previous_attempt_id x) (rq_intermediate_hop x) (rq_priority x) (rq_last_processed_by x) (rq_last_processed_at x)
    (rq_created_at x) (g (rq_updated_at x)) (rq_status x).
Definition upd_rq_status (g : Status -> Status) (x : Request) : Request :=
  MkRequest (rq_transfer x) (rq_state x) (rq_source_rse_id x) (rq_external_id x) (rq_external_host x)
    (rq_err_msg x) (rq_previous_attempt_id x) (rq_intermediate_hop x) (rq_priority x) (rq_last_processed_by x) (rq_last_processed_at x)
    (rq_created_at x) (rq_updated_at x) (g (rq_status x)).

(** [Source]: a replica a request may be served from *)
Record Source := MkSource {
  so_request_id : nat;
  so_did : DID;
  so_rse_id : string;
  so_dest_rse_id : string;
  so_ranking : option Z;
  so_bytes : option Z;
  so_url : option string;
  so_is_using : bool;
}.
Definition upd_so_ranking (g : (option Z) -> (option Z)) (x : Source) : Source :=
  MkSource (so_request_id x) (so_did x) (so_rse_id x) (so_dest_rse_id x) (g (so_ranking x)) (so_bytes x)
    (so_url x) (so_is_using x).
Definition upd_so_is_using (g : bool -> bool) (x : Source) : Source :=
  MkSource (so_request_id x) (so_did x) (so_rse_id x) (so_dest_rse_id x) (so_ranking x) (so_bytes x) (so_url x)
    (g (so_is_using x)).

Inductive Message :=
  | RULE_OK (rule_id : string)
  | RULE_PROGRESS (rule_id : string) (progress : Z)
  | DATASETLOCK_OK (did : DID) (rse_id rule_id : string)
  | LOST (did dataset : DID)
  | DETACHED (parent child : DID)
  | ERASED (parent child : DID)
  | CREATED (did : DID) (t : DIDType) (expired_at : option Z)
  | REGISTERED (parent child : DID) (t : DIDType)
  | OPENED (did : DID)
  | CLOSED (did : DID) (bytes length : Z)
  | INCOMPLETE (did : DID) (t : DIDType)
  | ERASED_DATASET (did : DID)
  | RULE_OK_EMAIL (rule_id to : string)
  | RULE_APPROVAL_EMAIL (rule_id to : string)
  | RULE_APPROVED_EMAIL (rule_id to : string)
  | RULE_DENIED_EMAIL (rule_id to : string)
  | REQUEST_QUEUED (t : Transfer)
  | REQUEST_SUBMITTED (id : nat) (state : RequestState) (source_rse_id : string)
  | REQUEST_STATE (id : nat) (state : option RequestState).

(** ** The database and the session *)

Record World := MkWorld {
  w_session : Session;  (* the time, the RSEs and their attributes, the accounts *)
  w_quotas : QuotaDB;
  w_postgresql : bool;  (* the dialect of the database *)
  w_use_preparer : bool;  (* the setting conveyor/use_preparer *)
  w_rules : gmap string Rule;
  w_locks : list Lock;  (* lock objects, by address *)
  w_replicas : list Replica;  (* replica objects, by address *)
  w_dataset_locks : gmap (DID * string * string) DatasetLock;  (* DID, rule and RSE *)
  w_collection_replicas : gmap (DID * string) DIDType;  (* the rows made here, all UNAVAILABLE and empty *)
  w_updated_col_rep : list (DID * DIDType * option string);
  w_account_updates : list (string * InternalType * Z * Z);  (* UpdatedAccountCounter: RSE, account, files, bytes *)
  w_rse_updates : list (string * Z * Z);  (* UpdatedRSECounter *)
  w_requests : list Request;  (* request rows; the address is the id *)
  w_sources : list Source;
  w_hops : list (nat * nat * nat);  (* TransferHop: request, next request and initial request *)
  w_request_history : list (nat * Request);  (* RequestHistory *)
  w_dids : gmap DID DIDRow;
  w_contents : list Content;
  w_content_history : list Content;  (* DataIdentifierAssociationHistory *)
  w_archive_contents : list (DID * DID);  (* ConstituentAssociation: archive and constituent *)
  w_archive_history : list (DID * DID);  (* ConstituentAssociationHistory *)
  w_updated_dids : list (DID * DIDReEvaluation);
  w_bad_replicas : list (DID * string * BadFilesStatus);  (* DID and RSE *)
  w_history_recent : list Rule;
  w_history : list Rule;
  w_messages : list Message;
  w_emails : gmap string string;  (* the e-mail address of an account *)
  w_mail_template : bool;  (* whether the templates of e-mails can be read *)
}.
Definition upd_w_session (g : Session -> Session) (x : World) : World :=
  MkWorld (g (w_session x)) (w_quotas x) (w_postgresql x) (w_use_preparer x) (w_rules x) (w_locks x)
    (w_replicas x) (w_dataset_locks x) (w_collection_replicas x) (w_updated_col_rep x) (w_account_updates x)
    (w_rse_updates x) (w_requests x) (w_sources x) (w_hops x) (w_request_history x) (w_dids x) (w_contents x)
    (w_content_history x) (w_archive_contents x) (w_archive_history x) (w_updated_dids x) (w_bad_replicas x)
    (w_history_recent x) (w_history x) (w_messages x) (w_emails x) (w_mail_template x).
Definition upd_w_quotas (g : QuotaDB -> QuotaDB) (x : World) : World :=
  MkWorld (w_session x) (g (w_quotas x)) (w_postgresql x) (w_use_preparer x) (w_rules x) (w_locks x)
    (w_replicas x) (w_dataset_locks x) (w_collection_replicas x) (w_updated_col_rep x) (w_account_updates x)
    (w_rse_updates x) (w_requests x) (w_sources x) (w_hops x) (w_request_history x) (w_dids x) (w_contents x)
    (w_content_history x) (w_archive_contents x) (w_archive_history x) (w_updated_dids x) (w_bad_replicas x)
    (w_history_recent x) (w_history x) (w_messages x) (w_emails x) (w_mail_template x).
Definition upd_w_rules (g : (gmap string Rule) -> (gmap string Rule)) (x : World) : World :=
  MkWorld (w_session x) (w_quotas x) (w_postgresql x) (w_use_preparer x) (g (w_rules x)) (w_locks x)
    (w_replicas x) (w_dataset_locks x) (w_collection_replicas x) (w_updated_col_rep x) (w_account_updates x)
    (w_rse_updates x) (w_requests x) (w_sources x) (w_hops x) (w_request_history x) (w_dids x) (w_contents x)
    (w_content_history x) (w_archive_contents x) (w_archive_history x) (w_updated_dids x) (w_bad_replicas x)
    (w_history_recent x) (w_history x) (w_messages x) (w_emails x) (w_mail_template x).
Definition upd_w_locks (g : (list Lock) -> (list Lock)) (x : World) : World :=
  MkWorld (w_session x) (w_quotas x) (w_postgresql x) (w_use_preparer x) (w_rules x) (g (w_locks x))
    (w_replicas x) (w_dataset_locks x) (w_collection_replicas x) (w_updated_col_rep x) (w_account_updates x)
    (w_rse_updates x) (w_requests x) (w_sources x) (w_hops x) (w_request_history x) (w_dids x) (w_contents x)
    (w_content_history x) (w_archive_contents x) (w_archive_history x) (w_updated_dids x) (w_bad_replicas x)
    (w_history_recent x) (w_history x) (w_messages x) (w_emails x) (w_mail_template x).
Definition upd_w_replicas (g : (list Replica) -> (list Replica)) (x : World) : World :=
  MkWorld (w_session x) (w_quotas x) (w_postgresql x) (w_use_preparer x) (w_rules x) (w_locks x)
    (g (w_replicas x)) (w_dataset_locks x) (w_collection_replicas x) (w_updated_col_rep x) (w_account_updates x)
    (w_rse_updates x) (w_requests x) (w_sources x) (w_hops x) (w_request_history x) (w_dids x) (w_contents x)
    (w_content_history x) (w_archive_contents x) (w_archive_history x) (w_updated_dids x) (w_bad_replicas x)
    (w_history_recent x) (w_history x) (w_messages x) (w_emails x) (w_mail_template x).
Definition upd_w_dataset_locks (g : (gmap (DID * string * string) DatasetLock) -> (gmap (DID * string * string) DatasetLock)) (x : World) : World :=
  MkWorld (w_session x) (w_quotas x) (w_postgresql x) (w_use_preparer x) (w_rules x) (w_locks x) (w_replicas x)
    (g (w_dataset_locks x)) (w_collection_replicas x) (w_updated_col_rep x) (w_account_updates x)
    (w_rse_updates x) (w_requests x) (w_sources x) (w_hops x) (w_request_history x) (w_dids x) (w_contents x)
    (w_content_history x) (w_archive_contents x) (w_archive_history x) (w_updated_dids x) (w_bad_replicas x)
    (w_history_recent x) (w_history x) (w_messages x) (w_emails x) (w_mail_template x).
Definition upd_w_collection_replicas (g : (gmap (DID * string) DIDType) -> (gmap (DID * string) DIDType)) (x : World) : World :=
  MkWorld (w_session x) (w_quotas x) (w_postgresql x) (w_use_preparer x) (w_rules x) (w_locks x) (w_replicas x)
    (w_dataset_locks x) (g (w_collection_replicas x)) (w_updated_col_rep x) (w_account_updates x)
    (w_rse_updates x) (w_requests x) (w_sources x) (w_hops x) (w_request_history x) (w_dids x) (w_contents x)
    (w_content_history x) (w_archive_contents x) (w_archive_history x) (w_updated_dids x) (w_bad_replicas x)
    (w_history_recent x) (w_history x) (w_messages x) (w_emails x) (w_mail_template x).
Definition upd_w_updated_col_rep (g : (list (DID * DIDType * option string)) -> (list (DID * DIDType * option string))) (x : World) : World :=
  MkWorld (w_session x) (w_quotas x) (w_postgresql x) (w_use_preparer x) (w_rules x) (w_locks x) (w_replicas x)
    (w_dataset_locks x) (w_collection_replicas x) (g (w_updated_col_rep x)) (w_account_updates x)
    (w_rse_updates x) (w_requests x) (w_sources x) (w_hops x) (w_request_history x) (w_dids x) (w_contents x)
    (w_content_history x) (w_archive_contents x) (w_archive_history x) (w_updated_dids x) (w_bad_replicas x)
    (w_history_recent x) (w_history x) (w_messages x) (w_emails x) (w_mail_template x).
Definition upd_w_account_updates (g : (list (string * InternalType * Z * Z)) -> (list (string * InternalType * Z * Z))) (x : World) : World :=
  MkWorld (w_session x) (w_quotas x) (w_postgresql x) (w_use_preparer x) (w_rules x) (w_locks x) (w_replicas x)
    (w_dataset_locks x) (w_collection_replicas x) (w_updated_col_rep x) (g (w_account_updates x))
    (w_rse_updates x) (w_requests x) (w_sources x) (w_hops x) (w_request_history x) (w_dids x) (w_contents x)
    (w_content_history x) (w_archive_contents x) (w_archive_history x) (w_updated_dids x) (w_bad_replicas x)
    (w_history_recent x) (w_history x) (w_messages x) (w_emails x) (w_mail_template x).
Definition upd_w_rse_updates (g : (list (string * Z * Z)) -> (list (string * Z * Z))) (x : World) : World :=
  MkWorld (w_session x) (w_quotas x) (w_postgresql x) (w_use_preparer x) (w_rules x) (w_locks x) (w_replicas x)
    (w_dataset_locks x) (w_collection_replicas x) (w_updated_col_rep x) (w_account_updates x)
    (g (w_rse_updates x)) (w_requests x) (w_sources x) (w_hops x) (w_request_history x) (w_dids x)
    (w_contents x) (w_content_history x) (w_archive_contents x) (w_archive_history x) (w_updated_dids x)
    (w_bad_replicas x) (w_history_recent x) (w_history x) (w_messages x) (w_emails x) (w_mail_template x).
Definition upd_w_requests (g : (list Request) -> (list Request)) (x : World) : World :=
  MkWorld (w_session x) (w_quotas x) (w_postgresql x) (w_use_preparer x) (w_rules x) (w_locks x) (w_replicas x)
    (w_dataset_locks x) (w_collection_replicas x) (w_updated_col_rep x) (w_account_updates x) (w_rse_updates x)
    (g (w_requests x)) (w_sources x) (w_hops x) (w_request_history x) (w_dids x) (w_contents x)
    (w_content_history x) (w_archive_contents x) (w_archive_history x) (w_updated_dids x) (w_bad_replicas x)
    (w_history_recent x) (w_history x) (w_messages x) (w_emails x) (w_mail_template x).
Definition upd_w_sources (g : (list Source) -> (list Source)) (x : World) : World :=
  MkWorld (w_session x) (w_quotas x) (w_postgresql x) (w_use_preparer x) (w_rules x) (w_locks x) (w_replicas x)
    (w_dataset_locks x) (w_collection_replicas x) (w_updated_col_rep x) (w_account_updates x) (w_rse_updates x)
    (w_requests x) (g (w_sources x)) (w_hops x) (w_request_history x) (w_dids x) (w_contents x)
    (w_content_history x) (w_archive_contents x) (w_archive_history x) (w_updated_dids x) (w_bad_replicas x)
    (w_history_recent x) (w_history x) (w_messages x) (w_emails x) (w_mail_template x).
Definition upd_w_hops (g : (list (nat * nat * nat)) -> (list (nat * nat * nat))) (x : World) : World :=
  MkWorld (w_session x) (w_quotas x) (w_postgresql x) (w_use_preparer x) (w_rules x) (w_locks x) (w_replicas x)
    (w_dataset_locks x) (w_collection_replicas x) (w_updated_col_rep x) (w_account_updates x) (w_rse_updates x)
    (w_requests x) (w_sources x) (g (w_hops x)) (w_request_history x) (w_dids x) (w_contents x)
    (w_content_history x) (w_archive_contents x) (w_archive_history x) (w_updated_dids x) (w_bad_replicas x)
    (w_history_recent x) (w_history x) (w_messages x) (w_emails x) (w_mail_template x).
Definition upd_w_request_history (g : (list (nat * Request)) -> (list (nat * Request))) (x : World) : World :=
  MkWorld (w_session x) (w_quotas x) (w_postgresql x) (w_use_preparer x) (w_rules x) (w_locks x) (w_replicas x)
    (w_dataset_locks x) (w_collection_replicas x) (w_updated_col_rep x) (w_account_updates x) (w_rse_updates x)
    (w_requests x) (w_sources x) (w_hops x) (g (w_request_history x)) (w_dids x) (w_contents x)
    (w_content_history x) (w_archive_contents x) (w_archive_history x) (w_updated_dids x) (w_bad_replicas x)
    (w_history_recent x) (w_history x) (w_messages x) (w_emails x) (w_mail_template x).
Definition upd_w_dids (g : (gmap DID DIDRow) -> (gmap DID DIDRow)) (x : World) : World :=
  MkWorld (w_session x) (w_quotas x) (w_postgresql x) (w_use_preparer x) (w_rules x) (w_locks x) (w_replicas x)
    (w_dataset_locks x) (w_collection_replicas x) (w_updated_col_rep x) (w_account_updates x) (w_rse_updates x)
    (w_requests x) (w_sources x) (w_hops x) (w_request_history x) (g (w_dids x)) (w_contents x)
    (w_content_history x) (w_archive_contents x) (w_archive_history x) (w_updated_dids x) (w_bad_replicas x)
    (w_history_recent x) (w_history x) (w_messages x) (w_emails x) (w_mail_template x).
Definition upd_w_contents (g : (list Content) -> (list Content)) (x : World) : World :=
  MkWorld (w_session x) (w_quotas x) (w_postgresql x) (w_use_preparer x) (w_rules x) (w_locks x) (w_replicas x)
    (w_dataset_locks x) (w_collection_replicas x) (w_updated_col_rep x) (w_account_updates x) (w_rse_updates x)
    (w_requests x) (w_sources x) (w_hops x) (w_request_history x) (w_dids x) (g (w_contents x))
    (w_content_history x) (w_archive_contents x) (w_archive_history x) (w_updated_dids x) (w_bad_replicas x)
    (w_history_recent x) (w_history x) (w_messages x) (w_emails x) (w_mail_template x).
Definition upd_w_content_history (g : (list Content) -> (list Content)) (x : World) : World :=
  MkWorld (w_session x) (w_quotas x) (w_postgresql x) (w_use_preparer x) (w_rules x) (w_locks x) (w_replicas x)
    (w_dataset_locks x) (w_collection_replicas x) (w_updated_col_rep x) (w_account_updates x) (w_rse_updates x)
    (w_requests x) (w_sources x) (w_hops x) (w_request_history x) (w_dids x) (w_contents x)
    (g (w_content_history x)) (w_archive_contents x) (w_archive_history x) (w_updated_dids x) (w_bad_replicas x)
    (w_history_recent x) (w_history x) (w_messages x) (w_emails x) (w_mail_template x).
Definition upd_w_archive_contents (g : (list (DID * DID)) -> (list (DID * DID))) (x : World) : World :=
  MkWorld (w_session x) (w_quotas x) (w_postgresql x) (w_use_preparer x) (w_rules x) (w_locks x) (w_replicas x)
    (w_dataset_locks x) (w_collection_replicas x) (w_updated_col_rep x) (w_account_updates x) (w_rse_updates x)
    (w_requests x) (w_sources x) (w_hops x) (w_request_history x) (w_dids x) (w_contents x)
    (w_content_history x) (g (w_archive_contents x)) (w_archive_history x) (w_updated_dids x) (w_bad_replicas x)
    (w_history_recent x) (w_history x) (w_messages x) (w_emails x) (w_mail_template x).
Definition upd_w_archive_history (g : (list (DID * DID)) -> (list (DID * DID))) (x : World) : World :=
  MkWorld (w_session x) (w_quotas x) (w_postgresql x) (w_use_preparer x) (w_rules x) (w_locks x) (w_replicas x)
    (w_dataset_locks x) (w_collection_replicas x) (w_updated_col_rep x) (w_account_updates x) (w_rse_updates x)
    (w_requests x) (w_sources x) (w_hops x) (w_request_history x) (w_dids x) (w_contents x)
    (w_content_history x) (w_archive_contents x) (g (w_archive_history x)) (w_updated_dids x) (w_bad_replicas x)
    (w_history_recent x) (w_history x) (w_messages x) (w_emails x) (w_mail_template x).
Definition upd_w_updated_dids (g : (list (DID * DIDReEvaluation)) -> (list (DID * DIDReEvaluation))) (x : World) : World :=
  MkWorld (w_session x) (w_quotas x) (w_postgresql x) (w_use_preparer x) (w_rules x) (w_locks x) (w_replicas x)
    (w_dataset_locks x) (w_collection_replicas x) (w_updated_col_rep x) (w_account_updates x) (w_rse_updates x)
    (w_requests x) (w_sources x) (w_hops x) (w_request_history x) (w_dids x) (w_contents x)
    (w_content_history x) (w_archive_contents x) (w_archive_history x) (g (w_updated_dids x)) (w_bad_replicas x)
    (w_history_recent x) (w_history x) (w_messages x) (w_emails x) (w_mail_template x).
Definition upd_w_bad_replicas (g : (list (DID * string * BadFilesStatus)) -> (list (DID * string * BadFilesStatus))) (x : World) : World :=
  MkWorld (w_session x) (w_quotas x) (w_postgresql x) (w_use_preparer x) (w_rules x) (w_locks x) (w_replicas x)
    (w_dataset_locks x) (w_collection_replicas x) (w_updated_col_rep x) (w_account_updates x) (w_rse_updates x)
    (w_requests x) (w_sources x) (w_hops x) (w_request_history x) (w_dids x) (w_contents x)
    (w_content_history x) (w_archive_contents x) (w_archive_history x) (w_updated_dids x) (g (w_bad_replicas x))
    (w_history_recent x) (w_history x) (w_messages x) (w_emails x) (w_mail_template x).
Definition upd_w_history_recent (g : (list Rule) -> (list Rule)) (x : World) : World :=
  MkWorld (w_session x) (w_quotas x) (w_postgresql x) (w_use_preparer x) (w_rules x) (w_locks x) (w_replicas x)
    (w_dataset_locks x) (w_collection_replicas x) (w_updated_col_rep x) (w_account_updates x) (w_rse_updates x)
    (w_requests x) (w_sources x) (w_hops x) (w_request_history x) (w_dids x) (w_contents x)
    (w_content_history x) (w_archive_contents x) (w_archive_history x) (w_updated_dids x) (w_bad_replicas x)
    (g (w_history_recent x)) (w_history x) (w_messages x) (w_emails x) (w_mail_template x).
Definition upd_w_history (g : (list Rule) -> (list Rule)) (x : World) : World :=
  MkWorld (w_session x) (w_quotas x) (w_postgresql x) (w_use_preparer x) (w_rules x) (w_locks x) (w_replicas x)
    (w_dataset_locks x) (w_collection_replicas x) (w_updated_col_rep x) (w_account_updates x) (w_rse_updates x)
    (w_requests x) (w_sources x) (w_hops x) (w_request_history x) (w_dids x) (w_contents x)
    (w_content_history x) (w_archive_contents x) (w_archive_history x) (w_updated_dids x) (w_bad_replicas x)
    (w_history_recent x) (g (w_history x)) (w_messages x) (w_emails x) (w_mail_template x).
Definition upd_w_messages (g : (list Message) -> (list Message)) (x : World) : World :=
  MkWorld (w_session x) (w_quotas x) (w_postgresql x) (w_use_preparer x) (w_rules x) (w_locks x) (w_replicas x)
    (w_dataset_locks x) (w_collection_replicas x) (w_updated_col_rep x) (w_account_updates x) (w_rse_updates x)
    (w_requests x) (w_sources x) (w_hops x) (w_request_history x) (w_dids x) (w_contents x)
    (w_content_history x) (w_archive_contents x) (w_archive_history x) (w_updated_dids x) (w_bad_replicas x)
    (w_history_recent x) (w_history x) (g (w_messages x)) (w_emails x) (w_mail_template x).

(** ** Access *)

(** The addresses of the objects that satisfy [P] *)
Fixpoint select_from {A} (P : A -> bool) (k : nat) (l : list A) : list nat :=
  match l with
  | [] => []
  | x :: l => if P x then k :: select_from P (S k) l else select_from P (S k) l
  end.
Definition select {A} (P : A -> bool) (l : list A) : list nat := select_from P 0 l.

Lemma elem_of_select {A} (P : A -> bool) l i :
  i ∈ select P l <-> exists x, l !! i = Some x /\ P x = true.
Proof.
  enough (forall k, i ∈ select_from P k l <-> (k <= i)%nat /\ exists x, l !! (i - k)%nat = Some x /\ P x = true) as Hk.
  { rewrite (Hk 0%nat), Nat.sub_0_r. intuition lia. }
  induction l as [|y l IH]; intros k; simpl.
  - rewrite elem_of_nil. split; [done|]. by intros (_ & x & Hx & _).
  - assert ((k <= i)%nat -> (i = k /\ (y :: l) !! (i - k)%nat = Some y) \/ (S k <= i)%nat /\ (y :: l) !! (i - k)%nat = l !! (i - S k)%nat) as Hi.
    { intros Hle. destruct (decide (i = k)) as [->|]; [left; by rewrite Nat.sub_diag|]. right. split; [lia|].
      by replace (i - k)%nat with (S (i - S k)) by lia. }
    destruct (P y) eqn:HP; rewrite ?elem_of_cons, IH; split.
    + intros [->|(Hle & x & Hx & Hpx)]; [rewrite Nat.sub_diag; eauto|]. split; [lia|].
      destruct Hi as [[? _]|[_ Hi]]; [lia|lia|]. rewrite Hi. eauto.
    + intros (Hle & x & Hx & Hpx). destruct (Hi Hle) as [[-> _]|[Hlt Hi']]; [by left|right]. rewrite Hi' in Hx. eauto.
    + intros (Hle & x & Hx & Hpx). split; [lia|]. destruct Hi as [[? _]|[_ Hi]]; [lia|lia|]. rewrite Hi. eauto.
    + intros (Hle & x & Hx & Hpx). destruct (Hi Hle) as [[-> Hy]|[Hlt Hi']]; [congruence|]. rewrite Hi' in Hx. eauto.
Qed.

Lemma select_NoDup {A} (P : A -> bool) l : NoDup (select P l).
Proof.
  unfold select. generalize 0%nat. induction l as [|x l IH]; intros k; simpl; [constructor|].
  destruct (P x); [|done]. constructor; [|done].
  enough (forall i k, i ∈ select_from P k l -> (k <= i)%nat) as Hle by (intros Hk%Hle; lia).
  clear. induction l as [|y l IH]; intros i k; simpl; [by intros ?%elem_of_nil|].
  destruct (P y); rewrite ?elem_of_cons; [intros [->|Hi]|intros Hi]; [lia| |]; apply IH in Hi; lia.
Qed.

Definition persistent_lock (l : Lock) : bool := bool_decide (lk_status l = Persistent).
Definition persistent_replica (r : Replica) : bool := bool_decide (rp_status r = Persistent).

Definition persistent_request (r : Request) : bool := bool_decide (rq_status r = Persistent).

(** [select(ReplicaLock).where(...)] and [select(RSEFileAssociation).where(...)] *)
Definition select_locks (P : Lock -> bool) : ST World (list nat) :=
  getsS (fun w => select (fun l => persistent_lock l && P l) (w_locks w)).
Definition select_replicas (P : Replica -> bool) : ST World (list nat) :=
  getsS (fun w => select (fun r => persistent_replica r && P r) (w_replicas w)).

Definition select_requests (P : Request -> bool) : ST World (list nat) :=
  getsS (fun w => select (fun r => persistent_request r && P r) (w_requests w)).

(** The attributes of an object; an address always has an object. *)
Definition lock_at (i : nat) : ST World Lock := fun w =>
  match w_locks w !! i with Some l => (Ok l, w) | None => (Err SystemError, w) end.
Definition replica_at (i : nat) : ST World Replica := fun w =>
  match w_replicas w !! i with Some r => (Ok r, w) | None => (Err SystemError, w) end.
(** A row that is written gets the time of the write. *)
Definition written (t : Z) (l : Lock) : Lock :=
  if persistent_lock l then upd_lk_updated_at (fun _ => Some t) l else l.
Definition alter_lock (f : Lock -> Lock) (i : nat) : ST World unit :=
  modifyS (fun w => upd_w_locks (alter (fun l => written (now (w_session w)) (f l)) i) w).
Definition alter_replica (f : Replica -> Replica) (i : nat) : ST World unit := modifyS (upd_w_replicas (alter f i)).

(** A new object, not in the session *)
Definition make_lock (l : Lock) : ST World nat := fun w => (Ok (length (w_locks w)), upd_w_locks (fun ls => ls ++ [l]) w).
Definition make_replica (r : Replica) : ST World nat :=
  fun w => (Ok (length (w_replicas w)), upd_w_replicas (fun rs => rs ++ [r]) w).

(** Primary keys *)
Definition lock_key (l : Lock) : DID * string * string := (lk_did l, lk_rule_id l, lk_rse_id l).
Definition replica_key (r : Replica) : DID * string := (rp_did r, rp_rse_id r).

(** [session.add] and the flush: the object becomes a row, unless a row has its primary key; the
    dates of the row are those of the insertion. *)
Definition add_lock (i : nat) : ST World unit :=
  let! l := lock_at i in
  let! same := select_locks (fun l' => bool_decide (lock_key l' = lock_key l)) in
  let! t := getsS (fun w => now (w_session w)) in
  match same with
  | [] => alter_lock (fun l => upd_lk_status (fun _ => Persistent)
                         (upd_lk_created_at (fun _ => Some t) (upd_lk_updated_at (fun _ => Some t) l))) i
  | _ => raiseS IntegrityError
  end.
Definition add_replica (i : nat) : ST World unit :=
  let! r := replica_at i in
  let! same := select_replicas (fun r' => bool_decide (replica_key r' = replica_key r)) in
  let! t := getsS (fun w => now (w_session w)) in
  match same with
  | [] => alter_replica (fun r => upd_rp_status (fun _ => Persistent) (upd_rp_created_at (fun _ => Some t) r)) i
  | _ => raiseS IntegrityError
  end.

(** [session.delete(lock)] *)
Definition delete_lock (i : nat) : ST World unit := alter_lock (upd_lk_status (fun _ => Deleted)) i.

(** The row of a rule *)
Definition rule_row (rule_id : string) : ST World (option Rule) := getsS (fun w => w_rules w !! rule_id).
Definition alter_rule (f : Rule -> Rule) (rule_id : string) : ST World unit := modifyS (upd_w_rules (alter f rule_id)).

(** [scalar_one()] *)
Definition scalar_one {A} (o : option A) : ST World A := liftS (or_raise NoResultFound o).
Definition the_rule (rule_id : string) : ST World Rule := let! o := rule_row rule_id in scalar_one o.
Definition count_locks (P : Lock -> bool) : ST World Z :=
  getsS (fun w => count (fun _ l => persistent_lock l && P l) (w_locks w)).
