(* ===== verification/RuleGrouping.v ===== *)
(** * Locks, replicas and transfers of a rule: [lib/rucio/core/rule_grouping.py]

    A rule is applied to files by choosing RSEs for them and making the locks, the replicas and
    the transfers that are missing; the locks of failed transfers are repaired.  Both work on
    the lock and replica objects of the files, in dictionaries by DID, and collect what is to be
    created and deleted; the counters of the rule are changed on its row. *)

From S2P Require Import Prelude StateError Counting PyString Types Database RseSelector LockTables.

(** A file, as [{'scope':, 'name':, 'bytes':, 'md5':, 'adler32':}] *)
Record FileInfo := MkFile { f_did : DID; f_bytes : Z; f_md5 : option string; f_adler32 : option string }.

(** [{'scope':, 'name':, 'files': []}]; a single file is in no dataset. *)
Record DatasetFiles := MkDatasetFiles { ds_did : option DID; ds_files : list FileInfo }.

(** *** The state of a run *)

Record Grouping := MkGrouping {
  g_world : World;
  g_selector : RSESelector;
  g_draws : nat;                              (* random draws made *)
  g_locks : gmap DID (list nat);              (* the dictionary [locks] *)
  g_replicas : gmap DID (list nat);           (* the dictionary [replicas] *)
  g_locks_to_create : list (string * list nat);
  g_replicas_to_create : list (string * list nat);
  g_locks_to_delete : list (string * list nat);
  g_transfers : list Transfer;
}.
Definition upd_g_world (g : World -> World) (x : Grouping) : Grouping :=
  MkGrouping (g (g_world x)) (g_selector x) (g_draws x) (g_locks x) (g_replicas x) (g_locks_to_create x)
    (g_replicas_to_create x) (g_locks_to_delete x) (g_transfers x).
Definition upd_g_selector (g : RSESelector -> RSESelector) (x : Grouping) : Grouping :=
  MkGrouping (g_world x) (g (g_selector x)) (g_draws x) (g_locks x) (g_replicas x) (g_locks_to_create x)
    (g_replicas_to_create x) (g_locks_to_delete x) (g_transfers x).
Definition upd_g_draws (g : nat -> nat) (x : Grouping) : Grouping :=
  MkGrouping (g_world x) (g_selector x) (g (g_draws x)) (g_locks x) (g_replicas x) (g_locks_to_create x)
    (g_replicas_to_create x) (g_locks_to_delete x) (g_transfers x).
Definition upd_g_locks (g : (gmap DID (list nat)) -> (gmap DID (list nat))) (x : Grouping) : Grouping :=
  MkGrouping (g_world x) (g_selector x) (g_draws x) (g (g_locks x)) (g_replicas x) (g_locks_to_create x)
    (g_replicas_to_create x) (g_locks_to_delete x) (g_transfers x).
Definition upd_g_replicas (g : (gmap DID (list nat)) -> (gmap DID (list nat))) (x : Grouping) : Grouping :=
  MkGrouping (g_world x) (g_selector x) (g_draws x) (g_locks x) (g (g_replicas x)) (g_locks_to_create x)
    (g_replicas_to_create x) (g_locks_to_delete x) (g_transfers x).
Definition upd_g_locks_to_create (g : (list (string * list nat)) -> (list (string * list nat))) (x : Grouping) : Grouping :=
  MkGrouping (g_world x) (g_selector x) (g_draws x) (g_locks x) (g_replicas x) (g (g_locks_to_create x))
    (g_replicas_to_create x) (g_locks_to_delete x) (g_transfers x).
Definition upd_g_replicas_to_create (g : (list (string * list nat)) -> (list (string * list nat))) (x : Grouping) : Grouping :=
  MkGrouping (g_world x) (g_selector x) (g_draws x) (g_locks x) (g_replicas x) (g_locks_to_create x)
    (g (g_replicas_to_create x)) (g_locks_to_delete x) (g_transfers x).
Definition upd_g_locks_to_delete (g : (list (string * list nat)) -> (list (string * list nat))) (x : Grouping) : Grouping :=
  MkGrouping (g_world x) (g_selector x) (g_draws x) (g_locks x) (g_replicas x) (g_locks_to_create x)
    (g_replicas_to_create x) (g (g_locks_to_delete x)) (g_transfers x).
Definition upd_g_transfers (g : (list Transfer) -> (list Transfer)) (x : Grouping) : Grouping :=
  MkGrouping (g_world x) (g_selector x) (g_draws x) (g_locks x) (g_replicas x) (g_locks_to_create x)
    (g_replicas_to_create x) (g_locks_to_delete x) (g (g_transfers x)).

Definition on_world {A} : ST World A -> ST Grouping A := zoomS g_world (fun w => upd_g_world (fun _ => w)).

(** [d[k].append(v)], on a dictionary in order of insertion that has a list for every key *)
Fixpoint od_alter {V} (k : string) (f : option V -> V) (d : list (string * V)) : list (string * V) :=
  match d with
  | [] => [(k, f None)]
  | (k', v) :: d => if bool_decide (k = k') then (k', f (Some v)) :: d else (k', v) :: od_alter k f d
  end.
Definition od_append {V} (k : string) (v : V) : list (string * list V) -> list (string * list V) :=
  od_alter k (fun o => default [] o ++ [v]).

(** The objects of a file, with their addresses *)
Definition objects {A} (heap : list A) (addrs : list nat) : list (nat * A) :=
  omap (fun i => (fun o => (i, o)) <$> heap !! i) addrs.
Definition file_locks (did : DID) : ST Grouping (list (nat * Lock)) := fun g =>
  (mapR (objects (w_locks (g_world g))) (or_raise KeyError (g_locks g !! did)), g).
Definition file_replicas (did : DID) : ST Grouping (list (nat * Replica)) := fun g =>
  (mapR (objects (w_replicas (g_world g))) (or_raise KeyError (g_replicas g !! did)), g).

(** The locks of the rule among those of a file *)
Definition of_rule (rule : Rule) (l : nat * Lock) : bool := bool_decide (lk_rule_id l.2 = ru_id rule).
Definition rule_locks (rule : Rule) (did : DID) : ST Grouping (list (nat * Lock)) :=
  let! ls := file_locks did in retS (List.filter (of_rule rule) ls).

(** ** Transfers *)

Definition create_transfer_dict (dest_rse_id : string) (request_type : RequestType) (did : DID) (rule : Rule)
    (lock : option Lock) (bytes : Z) (md5 adler32 : option string) (ds : option DID) (copy_pin_lifetime : option Pin)
    (activity : option string) (retry_count : option Z) : Transfer :=
  let or_else (a b : option string) := match a with Some (String _ _) => a | _ => b end in
  MkTransfer dest_rse_id did (ru_id rule) request_type retry_count (ru_account rule)
    (match lock with Some l => lk_created_at l | None => Some (ru_created_at rule) end)
    (default "default"%string (or_else activity (or_else (ru_activity rule) None)))
    (ru_source_replica_expression rule) copy_pin_lifetime ds bytes md5 adler32 (ru_priority rule).

Definition add_transfer (t : Transfer) : ST Grouping unit := modifyS (upd_g_transfers (fun ts => ts ++ [t])).

(** ** Objects *)

(** [__create_lock] *)
Definition create_lock (rule : Rule) (rse_id : string) (did : DID) (bytes : Z) (state : LockState) (existing_replica : nat)
    : ST World nat :=
  let! i := make_lock (MkLock did (ru_id rule) rse_id (ru_account rule) bytes state None None None Transient) in
  let locked r := upd_rp_tombstone (fun _ => None) (upd_rp_lock_cnt (Z.add 1) r) in
  do! match state with
      | L_OK =>
          do! alter_replica locked existing_replica in
          alter_rule (upd_ru_locks_ok_cnt (Z.add 1)) (ru_id rule)
      | L_REPLICATING =>
          do! alter_replica (fun r => locked (upd_rp_state (fun _ => R_COPYING) r)) existing_replica in
          alter_rule (upd_ru_locks_replicating_cnt (Z.add 1)) (ru_id rule)
      | L_STUCK =>
          do! alter_replica locked existing_replica in
          alter_rule (upd_ru_locks_stuck_cnt (Z.add 1)) (ru_id rule)
      end in
  retS i.

(** [__create_replica] *)
Definition create_replica (rse_id : string) (file : FileInfo) (state : ReplicaState) : ST World nat :=
  make_replica (MkReplica rse_id (f_did file) (f_bytes file) (f_md5 file) (f_adler32 file) state 0 None None None Transient).

(** The new lock is to be created, and is a lock of its file from now on. *)
Definition record_lock (rse_id : string) (did : DID) (i : nat) : ST Grouping unit := fun g =>
  let g := upd_g_locks_to_create (od_append rse_id i) g in
  match g_locks g !! did with
  | Some l => (Ok tt, upd_g_locks (<[did := l ++ [i]]>) g)
  | None => (Err KeyError, g)
  end.
Definition record_replica (rse_id : string) (did : DID) (i : nat) : ST Grouping unit := fun g =>
  let g := upd_g_replicas_to_create (od_append rse_id i) g in
  match g_replicas g !! did with
  | Some l => (Ok tt, upd_g_replicas (<[did := l ++ [i]]>) g)
  | None => (Err KeyError, g)
  end.

(** ** A lock and its replica *)

Definition rse_attr (rse_id key : string) : ST Grouping (option AttrValue) :=
  getsS (fun g => rse_attribute (w_session (g_world g)) rse_id key).

(** [get_rse_name] and [get_rse] of [core/rse.py] *)
Definition get_rse_name (rse_id : string) : ST World string :=
  let! found := getsS (fun w => List.find (fun r => bool_decide (Database.rse_id r = rse_id)) (rses (w_session w))) in
  liftS (or_raise RSENotFound (rse_name <$> found)).
Definition get_rse (rse_id : string) : ST World RSERow :=
  let! found := getsS (fun w => List.find (fun r => bool_decide (Database.rse_id r = rse_id) && negb (rse_deleted r))
                                  (rses (w_session w))) in
  liftS (or_raise RSENotFound found).

(** [copy_pin_lifetime] on an RSE that requires staging: at least its maximum pin lifetime *)
Definition staging_pin (copy_pin_lifetime : option Z) (maximum_pin_lifetime : option AttrValue) : result (option Pin) :=
  let keep := PinSeconds <$> copy_pin_lifetime in
  match maximum_pin_lifetime with
  | Some m =>
      if attribute_true (Some m) then
        match copy_pin_lifetime with
        | None | Some 0%Z => Ok (Some (PinAttribute m))
        | Some c => let* n := or_raise ValueError (int_of_attribute m) in
                    Ok (if bool_decide (c < n)%Z then Some (PinAttribute m) else keep)
        end
      else Ok keep
  | None => Ok keep
  end.

(** A replica of the file is on an RSE the rule may read from, or it may read from any. *)
Definition source_available (source_rses : list string) (source_replicas : gmap DID (list string)) (did : DID) : bool :=
  match source_rses with
  | [] => true
  | _ => existsb (fun r => bool_decide (r ∈ source_rses)) (default [] (source_replicas !! did))
  end.

Definition is_available (s : ReplicaState) : bool :=
  match s with R_AVAILABLE | R_TEMPORARY_UNAVAILABLE => true | _ => false end.

Section grouping.
Context `{Random}.

(** [__create_lock_and_replica] *)
Definition create_lock_and_replica (rule : Rule) (source_rses : list string) (source_replicas : gmap DID (list string))
    (dataset : option DID) (file : FileInfo) (rse : Chosen) : ST Grouping bool :=
  let '(rse_id, staging_area, availability_write) := rse in
  let did := f_did file in
  let! t := getsS (fun g => now (w_session (g_world g))) in
  let copy_pin_lifetime := (fun e => e - t)%Z <$> ru_expires_at rule in
  let transfer type lock pin :=
    add_transfer (create_transfer_dict rse_id type did rule lock (f_bytes file) (f_md5 file) (f_adler32 file) dataset
                    pin None None) in
  do! whenS staging_area (transfer STAGEIN None (PinSeconds <$> copy_pin_lifetime)) in
  let! attr := rse_attr rse_id "staging_required" in
  let! maximum_pin_lifetime := rse_attr rse_id "maximum_pin_lifetime" in
  let staging_required := attribute_true attr in
  let! pin := if staging_required then
                let! p := liftS (staging_pin copy_pin_lifetime maximum_pin_lifetime) in
                do! on_world (get_rse_name rse_id) in retS p
              else retS (PinSeconds <$> copy_pin_lifetime) in
  let new_lock state replica :=
    let! i := on_world (create_lock rule rse_id did (f_bytes file) state replica) in
    do! record_lock rse_id did i in
    on_world (lock_at i) in
  let! all := file_replicas did in
  let may_transfer := source_available source_rses source_replicas did && availability_write in
  match List.filter (fun r => bool_decide (rp_rse_id r.2 = rse_id)) all with
  | (replica, r) :: _ =>
      match rp_state r with
      | R_AVAILABLE | R_TEMPORARY_UNAVAILABLE =>
          let! l := new_lock (if staging_required then L_REPLICATING else L_OK) replica in
          if staging_required then do! transfer STAGEIN (Some l) pin in retS false   (* [None] *)
          else retS false
      | R_UNAVAILABLE =>
          let! l := new_lock (if may_transfer then L_REPLICATING else L_STUCK) replica in
          if negb staging_area && negb staging_required && may_transfer
          then do! transfer TRANSFER (Some l) None in retS true
          else retS false
      | _ => do! new_lock L_REPLICATING replica in retS true
      end
  | [] =>
      let! replica := on_world (create_replica rse_id file (if may_transfer then R_COPYING else R_UNAVAILABLE)) in
      do! record_replica rse_id did replica in
      let! l := new_lock (if may_transfer then L_REPLICATING else L_STUCK) replica in
      if (negb staging_area && negb staging_required && may_transfer) || staging_required
      then do! transfer TRANSFER (Some l) None in retS true
      else retS false
  end.

(** ** Choosing RSEs *)

(** [rseselector.select_rse(...)] *)
Definition select_rses (size : Z) (preferred_rse_ids : list string) (copies : Z) (blocklist : list string) (prioritize : bool)
    (existing : list (string * Z)) : ST Grouping (list Chosen) := fun g =>
  match select_rse (g_selector g) (g_draws g) size preferred_rse_ids copies blocklist prioritize (list_to_map existing) with
  | Ok (chosen, sel) => (Ok chosen, upd_g_selector (fun _ => sel) (upd_g_draws (Nat.add (length chosen)) g))
  | Err e => (Err e, g)
  end.

Definition covers (s : ReplicaState) : bool :=
  match s with R_AVAILABLE | R_COPYING | R_TEMPORARY_UNAVAILABLE => true | _ => false end.

(** The bytes of the files on each RSE, and the RSEs a file is being deleted from *)
Definition rse_coverage (files : list (FileInfo * list (nat * Replica))) : list (string * Z) :=
  foldl (fun cov fr =>
    foldl (fun cov r => if covers (rp_state r.2)
                        then od_alter (rp_rse_id r.2) (fun o => default 0 o + f_bytes fr.1)%Z cov else cov) cov fr.2) [] files.
Definition being_deleted (rs : list (nat * Replica)) : list string :=
  rp_rse_id ∘ snd <$> List.filter (fun r => bool_decide (rp_state r.2 = R_BEING_DELETED)) rs.

(** The coverage of one file: [{rse_id: file['bytes'] ...}] *)
Definition file_coverage (file : FileInfo) (rs : list (nat * Replica)) : list (string * Z) :=
  foldl (fun cov r => od_alter (rp_rse_id r.2) (fun _ => f_bytes file) cov) [] (List.filter (fun r => covers (rp_state r.2)) rs).

(** The RSEs with most bytes first *)
Definition more_bytes (a b : string * Z) : Prop := (b.2 <= a.2)%Z.
#[export] Instance more_bytes_dec : RelDecision more_bytes := fun a b => Z_le_dec b.2 a.2.
Definition by_coverage (cov : list (string * Z)) : list string := fst <$> stable_sort more_bytes cov.

Definition with_replicas (file : FileInfo) : ST Grouping (list (FileInfo * list (nat * Replica))) :=
  let! rs := file_replicas (f_did file) in retS [(file, rs)].

(** The RSEs for a group of files *)
Definition select_for_group (files : list FileInfo) (preferred_rse_ids : list string) : ST Grouping (list Chosen) :=
  let! frs := concatS with_replicas files in
  let bytes := foldr Z.add 0%Z (f_bytes <$> files) in
  let cov := rse_coverage frs in
  let blocklist := being_deleted (concat frs.*2) in
  match preferred_rse_ids with
  | [] => select_rses bytes (by_coverage cov) 0 blocklist true cov
  | _ => select_rses bytes preferred_rse_ids 0 blocklist false cov
  end.

(** ** Datasets *)

(** The lock of the rule on a dataset at an RSE, unless it is there *)
Definition add_dataset_lock (rule : Rule) (dataset : option DID) (no_length : option Z) (rse_id : string) : ST World unit :=
  match dataset with
  | None => skipS
  | Some did =>
      let key := (did, ru_id rule, rse_id) in
      modifyS (fun w =>
        match w_dataset_locks w !! key with
        | Some _ => w
        | None =>
            let '(is_open, bytes, length) :=
              match w_dids w !! did with
              | Some d => (bool_decide (d_open d = Some true), d_bytes d, d_length d)
              | None => (true, no_length, no_length)
              end in
            upd_w_dataset_locks (<[key := MkDatasetLock L_REPLICATING (ru_account rule)
                                            (if is_open then None else length) (if is_open then None else bytes)]>) w
        end)
  end.

(** The replica of a dataset at an RSE, unless it is there *)
Definition add_collection_replica (dataset : option DID) (rse_id : string) : ST World unit :=
  match dataset with
  | None => skipS
  | Some did =>
      modifyS (fun w =>
        match w_collection_replicas w !! (did, rse_id) with
        | Some _ => w
        | None => upd_w_updated_col_rep (fun l => l ++ [(did, DATASET, None)])
                    (upd_w_collection_replicas (<[(did, rse_id) := DATASET]>) w)
        end)
  end.

(** ** Applying a rule *)

Definition reset_lists : ST Grouping unit :=
  modifyS (fun g => upd_g_locks_to_create (fun _ => []) (upd_g_replicas_to_create (fun _ => [])
                      (upd_g_locks_to_delete (fun _ => []) (upd_g_transfers (fun _ => []) g)))).

Section apply.
Variables (rule : Rule) (source_rses : list string) (source_replicas : gmap DID (list string)) (preferred_rse_ids : list string).

Definition has_all_copies (did : DID) : ST Grouping bool :=
  let! ls := rule_locks rule did in retS (bool_decide (Z.of_nat (length ls) = ru_copies rule)).

(** A lock on the RSE, unless the rule has one there *)
Definition lock_on (dataset : option DID) (file : FileInfo) (rse : Chosen) : ST Grouping unit :=
  let! ls := rule_locks rule (f_did file) in
  if bool_decide (length (List.filter (fun l => bool_decide (lk_rse_id l.2 = rse.1.1)) ls) = 1%nat) then skipS
  else do! create_lock_and_replica rule source_rses source_replicas dataset file rse in skipS.

(** [__apply_rule_to_files_none_grouping]: the RSEs a file is put on are chosen for it alone. *)
Definition apply_to_file_none (dataset : option DID) (file : FileInfo) : ST Grouping (list string) :=
  let! full := has_all_copies (f_did file) in
  if full then retS []
  else
    let! rs := file_replicas (f_did file) in
    let cov := file_coverage file rs in
    let prefer := match preferred_rse_ids with [] => cov.*1 | _ => preferred_rse_ids end in
    let! rse_tuples := select_rses (f_bytes file) prefer 0 (being_deleted rs) false cov in
    concatS (fun rse =>
      let! ls := rule_locks rule (f_did file) in
      if bool_decide (length (List.filter (fun l => bool_decide (lk_rse_id l.2 = rse.1.1)) ls) = 1%nat) then retS []
      else do! create_lock_and_replica rule source_rses source_replicas dataset file rse in retS [rse.1.1]) rse_tuples.

Definition apply_rule_to_files_none_grouping (datasetfiles : list DatasetFiles) : ST Grouping unit :=
  forS (fun ds =>
    let! selected := concatS (apply_to_file_none (ds_did ds)) (ds_files ds) in
    forS (fun rse_id => on_world (add_collection_replica (ds_did ds) rse_id)) selected) datasetfiles.

(** The files of a dataset on an RSE *)
Definition lock_files (rse : Chosen) (ds : DatasetFiles) : ST Grouping unit :=
  forS (fun file =>
    let! full := has_all_copies (f_did file) in
    if full then skipS else lock_on (ds_did ds) file rse) (ds_files ds).

(** [__apply_rule_to_files_all_grouping]: all files go to the same RSEs. *)
Definition apply_rule_to_files_all_grouping (datasetfiles : list DatasetFiles) : ST Grouping unit :=
  let! rse_tuples := select_for_group (concat (ds_files <$> datasetfiles)) preferred_rse_ids in
  forS (fun rse =>
    forS (fun ds =>
      do! lock_files rse ds in
      do! on_world (add_dataset_lock rule (ds_did ds) (Some 0%Z) rse.1.1) in
      on_world (add_collection_replica (ds_did ds) rse.1.1)) datasetfiles) rse_tuples.

(** [__apply_rule_to_files_dataset_grouping]: the files of a dataset go to the same RSEs. *)
Definition apply_rule_to_files_dataset_grouping (datasetfiles : list DatasetFiles) : ST Grouping unit :=
  forS (fun ds =>
    let! rse_tuples := select_for_group (ds_files ds) preferred_rse_ids in
    forS (fun rse =>
      do! lock_files rse ds in
      do! on_world (add_dataset_lock rule (ds_did ds) None rse.1.1) in
      on_world (add_collection_replica (ds_did ds) rse.1.1)) rse_tuples) datasetfiles.

Definition apply_rule_grouping (datasetfiles : list DatasetFiles) : ST Grouping unit :=
  do! reset_lists in
  match ru_grouping rule with
  | G_NONE => apply_rule_to_files_none_grouping datasetfiles
  | G_ALL => apply_rule_to_files_all_grouping datasetfiles
  | G_DATASET => apply_rule_to_files_dataset_grouping datasetfiles
  end.

End apply.

(** ** Repairing a rule *)

(** [__is_retry_required]: the older a lock, the longer since its last change. *)
Definition is_retry_required (t : Z) (lock : Lock) (activity : option string) : result bool :=
  let* created := or_raise TypeError (lk_created_at lock) in
  let* updated := or_raise TypeError (lk_updated_at lock) in
  let created_at_diff := (t - created)%Z in
  let updated_at_diff := (t - updated)%Z in
  Ok (if bool_decide (activity = Some "Express"%string) then bool_decide (3600 * 2 < updated_at_diff)%Z
      else if bool_decide (activity = Some "DebugJudge"%string) then true
      else if bool_decide (created_at_diff < 24 * 3600)%Z then bool_decide (3600 * 2 < updated_at_diff)%Z
      else if bool_decide (created_at_diff < 2 * 24 * 3600)%Z then bool_decide (3600 * 4 < updated_at_diff)%Z
      else if bool_decide (created_at_diff < 3 * 24 * 3600)%Z then bool_decide (3600 * 6 < updated_at_diff)%Z
      else bool_decide (3600 * 8 < updated_at_diff)%Z).

(** [__update_lock_replica_and_create_transfer] *)
Definition update_lock_replica_and_create_transfer (rule : Rule) (dataset : option DID) (lock replica : nat) : ST Grouping unit :=
  do! on_world (alter_lock (upd_lk_state (fun _ => L_REPLICATING)) lock) in
  do! on_world (alter_rule (fun r => upd_ru_locks_replicating_cnt (Z.add 1) (upd_ru_locks_stuck_cnt (fun n => n - 1)%Z r)) (ru_id rule)) in
  do! on_world (alter_replica (upd_rp_state (fun _ => R_COPYING)) replica) in
  do! on_world (alter_lock (upd_lk_repair_cnt (fun c => Some (default 0 c + 1)%Z)) lock) in
  let! l := on_world (lock_at lock) in
  let! r := on_world (replica_at replica) in
  let! rse := on_world (get_rse (lk_rse_id l)) in
  let transfer type pin retry :=
    add_transfer (create_transfer_dict (lk_rse_id l) type (lk_did l) rule (Some l) (rp_bytes r) (rp_md5 r) (rp_adler32 r)
                    dataset pin None retry) in
  if rse_staging_area rse then
    let! e := liftS (or_raise TypeError (ru_expires_at rule)) in
    let! t := getsS (fun g => now (w_session (g_world g))) in
    transfer STAGEIN (Some (PinSeconds (e - t))) None
  else transfer TRANSFER None (Some 1%Z).

(** [__set_replica_unavailable] *)
Definition set_replica_unavailable (replica : nat) : ST World unit :=
  alter_replica (fun r =>
    let r := upd_rp_lock_cnt (fun n => n - 1)%Z r in
    if bool_decide (rp_lock_cnt r = 0)%Z
    then upd_rp_state (fun _ => R_UNAVAILABLE) (upd_rp_tombstone (fun _ => Some OBSOLETE) r) else r) replica.

Section repair.
Variables (rule : Rule) (source_rses : list string) (source_replicas : gmap DID (list string)).
(** [selector_rse_dict], as it was when the repair began *)
Variable rse_dict : gmap string Candidate.

Definition is_stuck (l : nat * Lock) : bool := bool_decide (lk_state l.2 = L_STUCK).

Definition writable (rse_id : string) : bool :=
  match rse_dict !! rse_id with Some c => c_availability_write c | None => true end || ru_ignore_availability rule.

Definition mark_for_deletion (lock : nat) (rse_id : string) : ST Grouping unit :=
  modifyS (upd_g_locks_to_delete (od_append rse_id lock)).

(** The first replica of the file on an RSE: [[replica for ...][0]] *)
Definition replica_on (did : DID) (rse_id : string) : ST Grouping nat :=
  let! rs := file_replicas did in
  liftS (or_raise IndexError (fst <$> List.find (fun r => bool_decide (rp_rse_id r.2 = rse_id)) rs)).

Definition retry_lock (dataset : option DID) (file : FileInfo) (lock : nat) (rse_id : string) : ST Grouping unit :=
  let! replica := replica_on (f_did file) rse_id in
  update_lock_replica_and_create_transfer rule dataset lock replica.

(** Retry the lock if it is time and the RSE is writable. *)
Definition retry_when_due (dataset : option DID) (file : FileInfo) (lock : nat) (l : Lock) : ST Grouping unit :=
  let! t := getsS (fun g => now (w_session (g_world g))) in
  let! due := liftS (is_retry_required t l (ru_activity rule)) in
  whenS (due && writable (lk_rse_id l)) (retry_lock dataset file lock (lk_rse_id l)).

(** What a repair begins with, for every grouping: too many locks, or a replica that is available by
    now; otherwise [otherwise], or the sources if these are why the lock is stuck. *)
Definition repair_lock (otherwise : option DID -> FileInfo -> nat -> Lock -> ST Grouping unit)
    (dataset : option DID) (file : FileInfo) (lock : nat) : ST Grouping unit :=
  let did := f_did file in
  let! l := on_world (lock_at lock) in
  let rse_id := lk_rse_id l in
  let! ls := rule_locks rule did in
  if bool_decide (ru_copies rule <= Z.of_nat (length (List.filter (fun l => negb (is_stuck l)) ls)))%Z then
    do! mark_for_deletion lock rse_id in
    on_world (alter_rule (upd_ru_locks_stuck_cnt (fun n => n - 1)%Z) (ru_id rule))
  else
    let! rs := file_replicas did in
    match List.find (fun r => is_available (rp_state r.2) && bool_decide (rp_rse_id r.2 = rse_id)) rs with
    | Some (replica, r) =>
        do! on_world (alter_lock (upd_lk_state (fun _ => L_OK)) lock) in
        do! on_world (alter_rule (fun r => upd_ru_locks_ok_cnt (Z.add 1) (upd_ru_locks_stuck_cnt (fun n => n - 1)%Z r)) (ru_id rule)) in
        let! n := on_world (count_locks (fun l => bool_decide (lk_did l = rp_did r) && bool_decide (lk_rse_id l = rse_id))) in
        on_world (alter_replica (fun r => upd_rp_lock_cnt (fun _ => n) (upd_rp_tombstone (fun _ => None) r)) replica)
    | None =>
        if negb (bool_decide (source_rses = [])) && bool_decide (default 0%Z (lk_repair_cnt l) = 0%Z) then
          do! replica_on did rse_id in
          whenS (source_available source_rses source_replicas did && writable rse_id) (retry_lock dataset file lock rse_id)
        else otherwise dataset file lock l
    end.

(** A lock elsewhere instead of the stuck one, or a retry if there is no other RSE *)
Definition replace_lock (dataset : option DID) (file : FileInfo) (lock : nat) (l : Lock) : ST Grouping unit :=
  let did := f_did file in
  let rse_id := lk_rse_id l in
  let! ls := rule_locks rule did in
  tryS
    (let! rs := file_replicas did in
     let cov := file_coverage file rs in
     let blocklist := being_deleted rs ++ (lk_rse_id ∘ snd <$> ls) ++ [rse_id] in
     let! rse_tuples := select_rses (f_bytes file) cov.*1 1 blocklist false cov in
     forS (fun rse =>
       do! create_lock_and_replica rule source_rses source_replicas dataset file rse in
       do! on_world (alter_rule (upd_ru_locks_stuck_cnt (fun n => n - 1)%Z) (ru_id rule)) in
       let! replica := replica_on did rse_id in
       do! on_world (set_replica_unavailable replica) in
       mark_for_deletion lock rse_id) rse_tuples)
    (fun e => match e with InsufficientTargetRSEs => Some (retry_when_due dataset file lock l) | _ => None end).

(** The STUCK locks of the rule on each file, in turn *)
Definition repair_files (otherwise : option DID -> FileInfo -> nat -> Lock -> ST Grouping unit) (datasetfiles : list DatasetFiles)
    : ST Grouping unit :=
  forS (fun ds =>
    forS (fun file =>
      let! ls := rule_locks rule (f_did file) in
      forS (repair_lock otherwise (ds_did ds) file) (List.filter is_stuck ls).*1) (ds_files ds)) datasetfiles.

Definition repair_stuck_locks_with_none_grouping : list DatasetFiles -> ST Grouping unit := repair_files replace_lock.
Definition repair_stuck_locks_with_all_grouping : list DatasetFiles -> ST Grouping unit := repair_files retry_when_due.
Definition repair_stuck_locks_with_dataset_grouping : list DatasetFiles -> ST Grouping unit := repair_files retry_when_due.

End repair.

Definition repair_stuck_locks_and_apply_rule_grouping (rule : Rule) (source_rses : list string)
    (source_replicas : gmap DID (list string)) (datasetfiles : list DatasetFiles) : ST Grouping unit :=
  do! reset_lists in
  let! rse_dict := getsS (fun g => get_rse_dictionary (g_selector g)) in
  match ru_grouping rule with
  | G_NONE => repair_stuck_locks_with_none_grouping rule source_rses source_replicas rse_dict datasetfiles
  | G_ALL => repair_stuck_locks_with_all_grouping rule source_rses source_replicas rse_dict datasetfiles
  | G_DATASET => repair_stuck_locks_with_dataset_grouping rule source_rses source_replicas rse_dict datasetfiles
  end.

End grouping.
