(* ===== verification/RuleEngine.v ===== *)
(** * Rules and the life of their locks: [lib/rucio/core/rule.py] and [lib/rucio/core/lock.py]

    What the end of a transfer, the loss of a replica and the deletion of a rule do to locks,
    replicas and rules, with the counters, notifications and histories they keep. *)

From S2P Require Import Prelude StateError Counting PyString PyFloat Types Database RseSelector LockTables RuleGrouping.

(** ** Counters and histories *)

(** [increase] and [decrease] of [core/account_counter.py] and [core/rse_counter.py] *)
Definition account_increase (rse_id : string) (account : InternalType) (files bytes : Z) : ST World unit :=
  modifyS (upd_w_account_updates (fun l => l ++ [(rse_id, account, files, bytes)])).
Definition account_decrease (rse_id : string) (account : InternalType) (files bytes : Z) : ST World unit :=
  account_increase rse_id account (- files) (- bytes).
Definition rse_increase (rse_id : string) (files bytes : Z) : ST World unit :=
  modifyS (upd_w_rse_updates (fun l => l ++ [(rse_id, files, bytes)])).

Definition insert_rule_history (rule_id : string) (recent longterm : bool) : ST World unit :=
  let! rule := the_rule rule_id in
  do! whenS recent (modifyS (upd_w_history_recent (fun l => l ++ [rule]))) in
  whenS longterm (modifyS (upd_w_history (fun l => l ++ [rule]))).

Definition add_message (m : Message) : ST World unit := modifyS (upd_w_messages (fun l => l ++ [m])).

(** [update(DatasetLock).where(rule_id).values(state)] *)
Definition set_dataset_locks (rule_id : string) (state : LockState) : ST World unit :=
  modifyS (upd_w_dataset_locks (map_imap (fun key d =>
    Some (if bool_decide (key.1.2 = rule_id) then upd_dl_state (fun _ => state) d else d)))).

Definition set_rule_state (rule_id : string) (state : RuleState) : ST World unit :=
  alter_rule (upd_ru_state (fun _ => state)) rule_id.

(** The counter of the locks in a state *)
Definition upd_cnt (state : LockState) (f : Z -> Z) (r : Rule) : Rule :=
  match state with
  | L_OK => upd_ru_locks_ok_cnt f r
  | L_REPLICATING => upd_ru_locks_replicating_cnt f r
  | L_STUCK => upd_ru_locks_stuck_cnt f r
  end.
Definition cnt (state : LockState) (r : Rule) : Z :=
  match state with
  | L_OK => ru_locks_ok_cnt r
  | L_REPLICATING => ru_locks_replicating_cnt r
  | L_STUCK => ru_locks_stuck_cnt r
  end.

(** ** Data identifiers *)

(** [get_did(...)['open']] of [core/did.py]: the dictionary of a file has no such key. *)
Definition did_open (w : World) (did : DID) : result bool :=
  let* d := or_raise DataIdentifierNotFound (w_dids w !! did) in
  if bool_decide (d_type d = FILE) then Err KeyError else Ok (bool_decide (d_open d = Some true)).

(** The rows of the children of containers, on every level up to [fuel] *)
Fixpoint container_contents (fuel : nat) (w : World) (parents : list DID) : list Content :=
  match fuel with
  | O => []
  | S fuel =>
      match List.filter (fun c => bool_decide (c_parent c ∈ parents) && bool_decide (c_parent_type c = CONTAINER)) (w_contents w) with
      | [] => []
      | rows => rows ++ container_contents fuel w (c_child <$> rows)
      end
  end.

(** [list_child_datasets] of [core/did.py]; no chain of containers is longer than the table. *)
Definition list_child_datasets (w : World) (did : DID) : list DID :=
  remove_dups (c_child <$> List.filter (fun c => bool_decide (c_child_type c = DATASET))
                             (container_contents (S (length (w_contents w))) w [did])).

(** [list_parent_dids] of [core/did.py] *)
Definition list_parent_dids (w : World) (did : DID) : list DID :=
  c_parent <$> List.filter (fun c => bool_decide (c_child c = did) && bool_decide (is_Some (w_dids w !! c_parent c)))
                 (w_contents w).

(** [detach_dids] of [core/did.py], for one child *)
Definition is_content (parent child : DID) (c : Content) : bool :=
  bool_decide (c_parent c = parent) && bool_decide (c_child c = child).
Definition detach_did (parent child : DID) : ST World unit :=
  let! row := getsS (fun w => w_dids w !! parent) in
  match row with
  | Some d =>
      if bool_decide (d_type d = CONTAINER) || bool_decide (d_type d = DATASET) then
        do! modifyS (upd_w_updated_dids (fun l => l ++ [(parent, DETACH)])) in
        if bool_decide (parent = child) then raiseS UnsupportedOperation
        else
          let! found := getsS (fun w => List.find (is_content parent child) (w_contents w)) in
          match found with
          | None => raiseS DataIdentifierNotFound
          | Some c =>
              let less_one o := match o with Some 0%Z | None => o | Some n => Some (n - 1)%Z end in
              let less_bytes o := match o with Some 0%Z | None => o | Some n => Some (n - c_bytes c)%Z end in
              do! modifyS (upd_w_dids (alter (fun d => upd_d_length less_one (upd_d_bytes less_bytes d)) parent)) in
              do! modifyS (upd_w_contents (List.filter (fun c => negb (is_content parent child c)))) in
              do! modifyS (upd_w_content_history (fun l => l ++ [c])) in
              do! whenS (bool_decide (d_type d = CONTAINER)) (add_message (ERASED parent child)) in
              add_message (DETACHED parent child)
          end
      else raiseS DataIdentifierNotFound
  | None => raiseS DataIdentifierNotFound
  end.

(** ** Requests *)

Definition is_transfer (t : Transfer) : bool := bool_decide (t_request_type t = TRANSFER).
Definition same_target (a b : Transfer) : bool :=
  bool_decide (t_did a = t_did b) && bool_decide (t_dest_rse_id a = t_dest_rse_id b).

(** The transfers the rows of requests ask for *)
Definition requested (w : World) : list Transfer := rq_transfer <$> List.filter persistent_request (w_requests w).

(** What a request is made of: besides the transfer, the state when it is given, and what a new attempt
    keeps of the one before *)
Record NewRequest := MkNewRequest {
  nq_transfer : Transfer;
  nq_state : option RequestState;
  nq_source_rse_id : option string;
  nq_previous_attempt_id : option nat;
  nq_intermediate_hop : bool;
  nq_sources : list Source;
}.
Definition queued (state : RequestState) (t : Z) (x : NewRequest) : Request :=
  MkRequest (nq_transfer x) (default state (nq_state x)) (nq_source_rse_id x) None None None (nq_previous_attempt_id x)
    (nq_intermediate_hop x) (t_priority (nq_transfer x)) None None t t Persistent.
Definition queued_sources (id : nat) (x : NewRequest) : list Source :=
  (fun so => MkSource id (t_did (nq_transfer x)) (so_rse_id so) (t_dest_rse_id (nq_transfer x)) (so_ranking so) (so_bytes so) (so_url so) (so_is_using so))
  <$> nq_sources x.

(** [queue_requests] of [core/request.py], and the new rows: a transfer that is requested already is
    ignored; those in the database are looked up once, before any is added.  The index on them is not unique any
    more (migration [25821a8a45a3]), so that one list may ask twice for the same transfer. *)
Definition queue_all (requests : list NewRequest) : ST World (list nat) :=
  do! forS (fun r => do! get_rse_name (t_dest_rse_id (nq_transfer r)) in skipS) requests in
  let! existing := getsS (fun w => List.filter is_transfer (requested w)) in
  let! first := getsS (fun w => length (w_requests w)) in
  let new := List.filter (fun r => negb (is_transfer (nq_transfer r) && existsb (same_target (nq_transfer r)) existing)) requests in
  do! modifyS (fun w =>
    let state := if w_use_preparer w then Q_PREPARING else Q_QUEUED in
    upd_w_sources (fun l => l ++ concat (imap (fun i => queued_sources (first + i)) new))
      (upd_w_requests (fun l => l ++ (queued state (now (w_session w)) <$> new)) w)) in
  do! modifyS (upd_w_messages (fun l => l ++ (REQUEST_QUEUED ∘ nq_transfer <$> new))) in
  retS (seq first (length new)).
Definition queue_requests (requests : list Transfer) : ST World unit :=
  do! queue_all ((fun t => MkNewRequest t None None None false []) <$> requests) in skipS.

(** [archive_request]: the row goes to the history; its sources and hops go. *)
Definition archive_request (id : nat) : ST World unit :=
  modifyS (fun w =>
    match w_requests w !! id with
    | Some r =>
        if persistent_request r then
          upd_w_request_history (fun l => l ++ [(id, r)])
            (upd_w_sources (List.filter (fun so => negb (bool_decide (so_request_id so = id))))
            (upd_w_hops (List.filter (fun h : nat * nat * nat =>
                negb (bool_decide (h.1.1 = id) || bool_decide (h.1.2 = id) || bool_decide (h.2 = id))))
            (upd_w_requests (alter (upd_rq_status (fun _ => Deleted)) id) w)))
        else w
    | None => w
    end).

(** [cancel_request_did]: the transfers to the RSE are archived; that the transfer tool is told to
    cancel them is outside. *)
Definition is_request (did : DID) (rse_id : string) (r : Request) : bool :=
  bool_decide (t_did (rq_transfer r) = did) && bool_decide (t_dest_rse_id (rq_transfer r) = rse_id).
Definition cancel_request_did (did : DID) (rse_id : string) : ST World unit :=
  let! found := select_requests (fun r => is_request did rse_id r && is_transfer (rq_transfer r)) in
  do! (if bool_decide (found = []) then do! get_rse_name rse_id in skipS else skipS) in
  forS archive_request found.

(** ** Notifications *)

(** [__progress_class]: the tens of percents of the locks that do not replicate *)
Definition progress_class (replicating total : Z) : Z :=
  if bool_decide (total = 0)%Z then 0%Z
  else match ftrunc (fmul (fdiv (of_Z (total - replicating)) (of_Z total)) (of_Z 10)) with
       | Some n => (n * 10)%Z
       | None => 0%Z
       end.

(** [try: ... except DataIdentifierNotFound: pass] *)
Definition if_found (m : ST World unit) : ST World unit :=
  tryS m (fun e => match e with DataIdentifierNotFound => Some skipS | _ => None end).
Definition when_closed (did : DID) (m : ST World unit) : ST World unit :=
  if_found (let! is_open := (fun w => (did_open w did, w)) in whenS (negb is_open) m).

(** The notification of each dataset lock of a closed dataset that is complete; a dataset without
    length ends them all. *)
Fixpoint notify_closed_datasets (rule : Rule) (keys : list (DID * string)) : ST World unit :=
  match keys with
  | [] => skipS
  | (did, rse_id) :: keys =>
      let! w := getsS id in
      match did_open w did with
      | Err DataIdentifierNotFound => notify_closed_datasets rule keys
      | Err e => raiseS e
      | Ok true => notify_closed_datasets rule keys
      | Ok false =>
          match w_dids w !! did ≫= d_length with
          | None => skipS
          | Some n =>
              do! whenS (bool_decide (n * ru_copies rule = ru_locks_ok_cnt rule)%Z)
                    (do! get_rse_name rse_id in add_message (DATASETLOCK_OK did rse_id (ru_id rule))) in
              notify_closed_datasets rule keys
          end
      end
  end.

Definition dataset_locks_of (w : World) (rule_id : string) : list (DID * string) :=
  omap (fun kv : DID * string * string * DatasetLock =>
          if bool_decide (kv.1.1.2 = rule_id) then Some (kv.1.1.1, kv.1.2) else None) (map_to_list (w_dataset_locks w)).

Definition generate_rule_notifications (rule_id : string) (replicating_locks_before : option Z) : ST World unit :=
  let! rule := the_rule rule_id in
  let total_locks := (ru_locks_replicating_cnt rule + ru_locks_ok_cnt rule)%Z in
  let progress := progress_class (ru_locks_replicating_cnt rule) total_locks in
  match ru_state rule with
  | RS_OK =>
      do! match ru_notification rule with
          | N_YES => add_message (RULE_OK rule_id)
          | N_CLOSE => when_closed (ru_did rule) (add_message (RULE_OK rule_id))
          | N_PROGRESS => when_closed (ru_did rule)
                            (do! add_message (RULE_OK rule_id) in add_message (RULE_PROGRESS rule_id progress))
          | N_NO => skipS
          end in
      if bool_decide (ru_grouping rule = G_NONE) then skipS
      else
        let! keys := getsS (fun w => dataset_locks_of w rule_id) in
        match ru_notification rule with
        | N_YES => forS (fun k : DID * string => do! get_rse_name k.2 in add_message (DATASETLOCK_OK k.1 k.2 rule_id)) keys
        | N_CLOSE => notify_closed_datasets rule keys
        | _ => skipS
        end
  | RS_REPLICATING =>
      match ru_notification rule, replicating_locks_before with
      | N_PROGRESS, Some n =>
          whenS (negb (bool_decide (n = 0)%Z) && negb (bool_decide (progress_class n total_locks = progress)))
            (when_closed (ru_did rule) (add_message (RULE_PROGRESS rule_id progress)))
      | _, _ => skipS
      end
  | _ => skipS
  end.

(** [generate_email_for_rule_ok_notification]: an e-mail to the account, if it has an address *)
Definition generate_email_for_rule_ok_notification (rule_id : string) : ST World unit :=
  let! rule := the_rule rule_id in
  if bool_decide (ru_state rule = RS_OK) && bool_decide (ru_notification rule = N_YES) then
    let! template := getsS w_mail_template in
    if template then
      let! known := getsS (fun w => bool_decide (is_Some (a ← internal (ru_account rule); accounts (w_session w) !! a))) in
      if known then
        let! email := getsS (fun w => a ← internal (ru_account rule); w_emails w !! a) in
        match email with
        | Some ((String _ _) as e) => add_message (RULE_OK_EMAIL rule_id e)
        | _ => skipS
        end
      else raiseS AccountNotFound
    else skipS
  else skipS.

(** [release_parent_rule] *)
Definition release_parent_rule (child_rule_id : string) (remove_parent_expiration : bool) : ST World unit :=
  let! parents := getsS (fun w => omap (fun kv : string * Rule =>
                     if bool_decide (ru_child_rule_id kv.2 = Some child_rule_id) then Some kv.1 else None) (map_to_list (w_rules w))) in
  forS (fun rule_id =>
    do! whenS remove_parent_expiration (alter_rule (upd_ru_expires_at (fun _ => None)) rule_id) in
    do! alter_rule (upd_ru_child_rule_id (fun _ => None)) rule_id in
    insert_rule_history rule_id true false) parents.

(** The locks on the datasets of a rule that groups files are marked as the rule is. *)
Definition mark_dataset_locks (rule : Rule) (state : LockState) : ST World unit :=
  whenS (negb (bool_decide (ru_grouping rule = G_NONE))) (set_dataset_locks (ru_id rule) state).

(** ** Transfers that end *)

Definition on_file (did : DID) (rse_id : string) (l : Lock) : bool :=
  bool_decide (lk_did l = did) && bool_decide (lk_rse_id l = rse_id).

(** [successful_transfer] for one lock *)
Definition lock_succeeds (rse_id : string) (lock : nat) : ST World unit :=
  let! l := lock_at lock in
  if bool_decide (lk_state l = L_OK) then skipS
  else
    do! get_rse_name (lk_rse_id l) in
    let rule_id := lk_rule_id l in
    do! the_rule rule_id in
    do! alter_rule (upd_cnt (lk_state l) (fun n => n - 1)%Z) rule_id in
    do! alter_rule (upd_cnt L_OK (Z.add 1)) rule_id in
    do! alter_lock (upd_lk_state (fun _ => L_OK)) lock in
    let! rule := the_rule rule_id in
    let updated did := modifyS (upd_w_updated_col_rep (fun rows => rows ++ [(did, DATASET, Some rse_id)])) in
    do! match ru_did_type rule with
        | DATASET => updated (ru_did rule)
        | CONTAINER =>
            let! children := getsS (fun w => list_child_datasets w (ru_did rule)) in forS updated children
        | _ => skipS
        end in
    let before := Some (ru_locks_replicating_cnt rule + 1)%Z in
    do! (if bool_decide (ru_state rule = RS_SUSPENDED) then skipS
         else if bool_decide (0 < ru_locks_stuck_cnt rule)%Z then skipS
         else if bool_decide (ru_locks_replicating_cnt rule = 0)%Z && bool_decide (ru_state rule = RS_REPLICATING) then
           do! set_rule_state rule_id RS_OK in
           do! mark_dataset_locks rule L_OK in
           do! generate_rule_notifications rule_id before in
           do! whenS (bool_decide (ru_notification rule = N_YES)) (generate_email_for_rule_ok_notification rule_id) in
           release_parent_rule rule_id false
         else if bool_decide (0 < ru_locks_replicating_cnt rule)%Z && bool_decide (ru_state rule = RS_REPLICATING)
                 && bool_decide (ru_notification rule = N_PROGRESS)
         then generate_rule_notifications rule_id before
         else skipS) in
    insert_rule_history rule_id true false.

Definition successful_transfer (did : DID) (rse_id : string) : ST World unit :=
  let! locks := select_locks (on_file did rse_id) in
  forS (lock_succeeds rse_id) locks.

(** Errors are stored in 255 characters. *)
Definition shorten (message : string) : string :=
  if bool_decide (245 < String.length message)%nat then (String.substring 0 245 message +:+ "...")%string else message.
Definition set_rule_error (rule_id : string) (error : option string) : ST World unit :=
  alter_rule (upd_ru_error (fun _ => error)) rule_id.

(** [failed_transfer] for one lock *)
Definition lock_fails (error_message broken_rule_id broken_message : option string) (lock : nat) : ST World unit :=
  let! l := lock_at lock in
  if bool_decide (lk_state l = L_STUCK) then skipS
  else
    do! get_rse_name (lk_rse_id l) in
    let rule_id := lk_rule_id l in
    do! the_rule rule_id in
    do! alter_rule (upd_cnt (lk_state l) (fun n => n - 1)%Z) rule_id in
    do! alter_rule (upd_cnt L_STUCK (Z.add 1)) rule_id in
    do! alter_lock (upd_lk_state (fun _ => L_STUCK)) lock in
    let! rule := the_rule rule_id in
    do! (if bool_decide (ru_state rule = RS_SUSPENDED) then skipS
         else if bool_decide (Some rule_id = broken_rule_id) then
           do! set_rule_state rule_id RS_SUSPENDED in
           do! set_rule_error rule_id (shorten <$> broken_message) in
           mark_dataset_locks rule L_STUCK
         else if bool_decide (0 < ru_locks_stuck_cnt rule)%Z then
           do! whenS (negb (bool_decide (ru_state rule = RS_STUCK)))
                 (do! set_rule_state rule_id RS_STUCK in mark_dataset_locks rule L_STUCK) in
           whenS (negb (bool_decide (ru_error rule = error_message))) (set_rule_error rule_id (shorten <$> error_message))
         else skipS) in
    insert_rule_history rule_id true false.

(** [failed_transfer]; where files are staged, only the locks that wait for one are concerned. *)
Definition failed_transfer (did : DID) (rse_id : string) (error_message broken_rule_id broken_message : option string)
    : ST World unit :=
  let! staging := getsS (fun w => attribute_true (rse_attribute (w_session w) rse_id "staging_required")) in
  do! (if staging then do! get_rse_name rse_id in skipS else skipS) in
  let! locks := select_locks (fun l => on_file did rse_id l && (negb staging || bool_decide (lk_state l = L_REPLICATING))) in
  forS (lock_fails error_message broken_rule_id broken_message) locks.

(** ** Locks that go *)

Definition on_replica (did : DID) (rse_id : string) (r : Replica) : bool :=
  bool_decide (rp_did r = did) && bool_decide (rp_rse_id r = rse_id).

(** The replica after a lock on it went *)
Definition unlocked (state : LockState) (purge_replicas : bool) (r : Replica) : Replica :=
  let r := upd_rp_lock_cnt (fun n => n - 1)%Z r in
  if bool_decide (rp_lock_cnt r = 0)%Z then
    let tombstone := if purge_replicas then Some OBSOLETE
                     else if bool_decide (rp_state r = R_UNAVAILABLE) then Some OBSOLETE
                     else match rp_accessed_at r with Some t => Some t | None => rp_created_at r end in
    if bool_decide (state = L_REPLICATING)
    then upd_rp_tombstone (fun _ => Some OBSOLETE) (upd_rp_state (fun _ => R_UNAVAILABLE) r)
    else upd_rp_tombstone (fun _ => tombstone) r
  else r.

(** [__delete_lock_and_update_replica]: whether the transfer of the lock is to be cancelled *)
Definition delete_lock_and_update_replica (purge_replicas : bool) (lock : nat) : ST World bool :=
  let! l := lock_at lock in
  do! delete_lock lock in
  let! found := select_replicas (on_replica (lk_did l) (lk_rse_id l)) in
  match found with
  | replica :: _ =>
      do! alter_replica (unlocked (lk_state l) purge_replicas) replica in
      let! r := replica_at replica in
      retS (bool_decide (rp_lock_cnt r = 0)%Z && bool_decide (lk_state l = L_REPLICATING))
  | [] => do! get_rse_name (lk_rse_id l) in retS false
  end.

(** Locks are deleted one by one: the transfers to cancel, and the sizes of the files by RSE *)
Definition delete_rule_lock (purge_replicas : bool) (lock : nat) : ST World (list (DID * string * bool * Z)) :=
  let! l := lock_at lock in
  let! cancel := delete_lock_and_update_replica purge_replicas lock in
  retS [(lk_did l, lk_rse_id l, cancel, lk_bytes l)].

(** [{'rse_id': [file_size, ...]}] *)
Definition sizes_by_rse (gone : list (DID * string * bool * Z)) : list (string * list Z) :=
  foldl (fun d x => od_append x.1.1.2 x.2 d) [] gone.
Definition decrease_accounts (account : InternalType) (sizes : list (string * list Z)) : ST World unit :=
  forS (fun s => account_decrease s.1 account (Z.of_nat (length s.2)) (foldr Z.add 0%Z s.2)) sizes.
Definition cancel_transfers (gone : list (DID * string * bool * Z)) : ST World unit :=
  forS (fun x : DID * string * bool * Z => cancel_request_did x.1.1.1 x.1.1.2) (List.filter (fun x => x.1.2) gone).

(** [delete_rule] *)
Definition delete_rule (rule_id : string) (purge_replicas : option bool) (soft delete_parent ignore_rule_lock : bool)
    : ST World unit :=
  let! row := rule_row rule_id in
  let! rule := liftS (or_raise RuleNotFound row) in
  if ru_locked rule && negb ignore_rule_lock then raiseS UnsupportedOperation
  else if bool_decide (is_Some (ru_child_rule_id rule)) && negb delete_parent then raiseS UnsupportedOperation
  else
    do! match purge_replicas with
        | Some b => alter_rule (upd_ru_purge_replicas (fun _ => b)) rule_id
        | None => skipS
        end in
    if soft then
      let! t := getsS (fun w => now (w_session w)) in
      do! alter_rule (upd_ru_expires_at (fun e => Some (match e with Some e => Z.min (t + 3600) e | None => t + 3600 end)%Z)) rule_id in
      do! whenS (bool_decide (is_Some (ru_child_rule_id rule)) && delete_parent)
            (alter_rule (upd_ru_child_rule_id (fun _ => None)) rule_id) in
      insert_rule_history rule_id true false
    else
      let! locks := select_locks (fun l => bool_decide (lk_rule_id l = rule_id)) in
      let! gone := concatS (delete_rule_lock (default (ru_purge_replicas rule) purge_replicas)) locks in
      do! modifyS (upd_w_dataset_locks (filter (fun kv => kv.1.1.2 <> rule_id))) in
      do! decrease_accounts (ru_account rule) (sizes_by_rse gone) in
      do! release_parent_rule rule_id true in
      do! insert_rule_history rule_id false true in
      do! modifyS (upd_w_rules (delete rule_id)) in
      cancel_transfers gone.

(** ** Replicas that are lost or bad *)

(** A rule is done when it has no lock that replicates or is stuck, unless it is suspended or stuck. *)
Definition settle_rule (rule_id : string) (m : ST World unit) : ST World unit :=
  let! rule := the_rule rule_id in
  if bool_decide (ru_state rule = RS_SUSPENDED) || bool_decide (ru_state rule = RS_STUCK) then skipS
  else if bool_decide (ru_locks_replicating_cnt rule = 0)%Z && bool_decide (ru_locks_stuck_cnt rule = 0)%Z then
    do! set_rule_state rule_id RS_OK in
    do! mark_dataset_locks rule L_OK in
    do! m in
    release_parent_rule rule_id false
  else skipS.

(** [update_rules_for_lost_replica] for one lock *)
Definition lose_lock (rse_id : string) (replica lock : nat) : ST World unit :=
  let! l := lock_at lock in
  let rule_id := lk_rule_id l in
  let! rule := the_rule rule_id in
  do! alter_replica (upd_rp_lock_cnt (fun n => n - 1)%Z) replica in
  do! alter_rule (upd_cnt (lk_state l) (fun n => n - 1)%Z) rule_id in
  do! (if bool_decide (lk_bytes l = 0)%Z then raiseS ValueError
       else account_decrease rse_id (ru_account rule) 1 (lk_bytes l)) in
  do! settle_rule rule_id (whenS (negb (bool_decide (ru_state rule = RS_OK)))
        (do! generate_rule_notifications rule_id None in generate_email_for_rule_ok_notification rule_id)) in
  do! insert_rule_history rule_id true false in
  delete_lock lock.

Definition lose_bad_replica (did : DID) (rse_id : string) (b : DID * string * BadFilesStatus) : DID * string * BadFilesStatus :=
  if bool_decide (b = (did, rse_id, B_BAD)) then (did, rse_id, B_LOST) else b.

(** The first row of a query for one *)
Definition one_of (l : list nat) : ST World nat := scalar_one (head l).

(** [session.delete(request)]: a request that has sources or hops cannot be deleted. *)
Definition delete_requests (did : DID) (rse_id : string) : ST World unit :=
  let! found := select_requests (is_request did rse_id) in
  let! w := getsS id in
  if existsb (fun so => bool_decide (so_request_id so ∈ found)) (w_sources w)
     || existsb (fun h : nat * nat * nat => bool_decide (h.1.1 ∈ found) || bool_decide (h.1.2 ∈ found) || bool_decide (h.2 ∈ found)) (w_hops w)
  then raiseS IntegrityError
  else forS (fun i => modifyS (upd_w_requests (alter (upd_rq_status (fun _ => Deleted)) i))) found.

Definition update_rules_for_lost_replica (did : DID) (rse_id : string) : ST World unit :=
  let! locks := select_locks (on_file did rse_id) in
  let! found := select_replicas (on_replica did rse_id) in
  let! replica := one_of found in
  do! get_rse_name rse_id in
  let! datasets := getsS (fun w => remove_dups (list_parent_dids w did)) in
  do! delete_requests did rse_id in
  do! forS (lose_lock rse_id replica) locks in
  do! alter_replica (fun r => upd_rp_state (fun _ => R_UNAVAILABLE)
                       (upd_rp_tombstone (fun _ => Some OBSOLETE) (upd_rp_lock_cnt (fun _ => 0%Z) r))) replica in
  do! modifyS (upd_w_dids (alter (upd_d_lost (fun _ => true)) did)) in
  do! modifyS (upd_w_bad_replicas (fmap (lose_bad_replica did rse_id))) in
  forS (fun dataset => do! detach_did dataset did in add_message (LOST did dataset)) datasets.

(** [update_rules_for_bad_replica] for one lock *)
Definition recover_lock (did : DID) (rse_id : string) (replica lock : nat) : ST World unit :=
  let! l := lock_at lock in
  let rule_id := lk_rule_id l in
  do! the_rule rule_id in
  do! alter_rule (upd_ru_source_replica_expression (fun e => match e with Some (String _ _) => None | _ => e end)) rule_id in
  let! rule := the_rule rule_id in
  do! get_rse_name rse_id in
  do! modifyS (upd_w_updated_col_rep (fun rows => rows ++ [(ru_did rule, ru_did_type rule, Some (lk_rse_id l))])) in
  do! alter_rule (upd_cnt (lk_state l) (fun n => n - 1)%Z) rule_id in
  do! alter_rule (upd_cnt L_REPLICATING (Z.add 1)) rule_id in
  let! requests := select_requests (is_request did rse_id) in
  let! r := replica_at replica in
  do! whenS (bool_decide (requests = []))
        (queue_requests [create_transfer_dict rse_id TRANSFER did rule (Some l) (rp_bytes r) (rp_md5 r) (rp_adler32 r)
                           (Some (ru_did rule)) None (Some "Recovery"%string) None]) in
  do! alter_lock (upd_lk_state (fun _ => L_REPLICATING)) lock in
  do! (if bool_decide (ru_state rule = RS_SUSPENDED) || bool_decide (ru_state rule = RS_STUCK) then skipS
       else do! set_rule_state rule_id RS_REPLICATING in mark_dataset_locks rule L_REPLICATING) in
  insert_rule_history rule_id true false.

Definition update_rules_for_bad_replica (did : DID) (rse_id : string) : ST World unit :=
  let! locks := select_locks (on_file did rse_id) in
  let! found := select_replicas (on_replica did rse_id) in
  let! replica := one_of found in
  do! forS (recover_lock did rse_id replica) locks in
  match locks with
  | [] =>
      do! get_rse_name rse_id in
      alter_replica (fun r => upd_rp_tombstone (fun _ => Some OBSOLETE) (upd_rp_state (fun _ => R_UNAVAILABLE) r)) replica
  | _ => alter_replica (upd_rp_state (fun _ => R_COPYING)) replica
  end.
