(* ===== verification/Requests.v ===== *)
(** * Transfer requests: [lib/rucio/core/request.py]

    A request goes from state to state until it is archived; when it failed it is queued again, as a
    new request that remembers the one before.  Requests that wait are released by the throttler, in
    the order they were made or dataset by dataset. *)

From S2P Require Import Prelude StateError Counting PyString Types Database RseSelector LockTables RuleGrouping RuleEngine.

(** ** Reading and changing rows *)

(** [update(Request).where(...).values(...)] with the number of rows; [updated_at] is set by default. *)
Definition hit (P : nat -> Request -> bool) (i : nat) (r : Request) : bool := persistent_request r && P i r.
Definition update_where (P : nat -> Request -> bool) (f : Request -> Request) : ST World nat := fun w =>
  (Ok (length (List.filter (fun x : nat * Request => hit P x.1 x.2) (imap pair (w_requests w)))),
   upd_w_requests (imap (fun i r => if hit P i r then f (upd_rq_updated_at (fun _ => now (w_session w)) r) else r)) w).
Definition has_id (id : nat) (i : nat) (_ : Request) : bool := bool_decide (i = id).

Definition request_row (w : World) (id : nat) : option Request :=
  match w_requests w !! id with Some r => if persistent_request r then Some r else None | None => None end.
Definition get_request (id : nat) : ST World (option Request) := getsS (fun w => request_row w id).

(** [get_sources]: an empty RSE is none. *)
Definition get_sources (w : World) (id : nat) (rse_id : option string) : list Source :=
  List.filter (fun so => bool_decide (so_request_id so = id)
    && match rse_id with Some (String _ _ as r) => bool_decide (so_rse_id so = r) | _ => true end) (w_sources w).

Definition get_request_by_did (did : DID) (rse_id : string) (request_type : option RequestType) : ST World nat :=
  let! found := select_requests (fun r => is_request did rse_id r
                  && match request_type with Some t => bool_decide (t_request_type (rq_transfer r) = t) | None => true end) in
  match found with
  | [] => raiseS RequestNotFound
  | id :: _ =>
      let! r := getsS (fun w => request_row w id) in
      do! match r ≫= rq_source_rse_id with Some s => do! get_rse_name s in skipS | None => skipS end in
      do! get_rse_name rse_id in
      retS id
  end.

(** [update_request] *)
Definition opt_set {A} (o : option A) (set : A -> Request -> Request) (r : Request) : Request :=
  match o with Some a => set a r | None => r end.
Definition update_request (id : nat) (state : option RequestState) (source_rse_id err_msg : option string) (priority : option Z)
    (raise_on_missing : bool) : ST World bool :=
  let! n := update_where (has_id id) (fun r =>
    opt_set priority (fun p => upd_rq_priority (fun _ => Some p))
      (opt_set err_msg (fun m => upd_rq_err_msg (fun _ => Some m))
      (opt_set source_rse_id (fun s => upd_rq_source_rse_id (fun _ => Some s))
      (opt_set state (fun s => upd_rq_state (fun _ => s)) r)))) in
  if bool_decide (n = 0%nat) && raise_on_missing then raiseS UnsupportedOperation else retS (negb (bool_decide (n = 0%nat))).

(** [transition_request_state], of a request that may have been read before *)
Definition final_state (s : RequestState) : bool := match s with Q_FAILED | Q_DONE | Q_LOST => true | _ => false end.
Definition transition_request_state (id : nat) (state : option RequestState) (external_id source_rse_id err_msg : option string)
    (request : option Request) : ST World bool :=
  let! request := match request with Some r => retS (Some r) | None => get_request id end in
  match request with
  | None => retS false
  | Some r =>
      if bool_decide (Some (rq_state r) = state) then retS false
      else if match state with Some s => final_state s | None => false end && negb (bool_decide (rq_external_id r = external_id)) then retS false
      else do! update_request id state source_rse_id err_msg None true in retS true
  end.

Definition transition_requests_state_if_possible (request_ids : list nat) (new_state : RequestState) : ST World unit :=
  forS (fun id => tryS (do! transition_request_state id (Some new_state) None None None None in skipS)
                       (fun e => match e with UnsupportedOperation => Some skipS | _ => None end)) request_ids.

(** [touch_requests_by_rule]: twenty minutes into the future *)
Definition touched_state (s : RequestState) : bool :=
  match s with Q_FAILED | Q_DONE | Q_LOST | Q_NO_SOURCES | Q_ONLY_TAPE_SOURCES => true | _ => false end.
Definition touch_requests_by_rule (rule_id : string) : ST World unit :=
  let! t := getsS (fun w => now (w_session w)) in
  do! update_where (fun _ r => bool_decide (t_rule_id (rq_transfer r) = rule_id) && touched_state (rq_state r) && bool_decide (rq_updated_at r < t)%Z)
                   (upd_rq_updated_at (fun _ => t + 20 * 60)%Z) in skipS.

(** [reset_stale_waiting_requests] *)
Definition reset_stale_waiting_requests (time_limit : Z) : ST World unit :=
  let! t := getsS (fun w => now (w_session w)) in
  do! update_where (fun _ r => bool_decide (rq_state r = Q_WAITING)
                      && match rq_last_processed_at r with Some p => bool_decide (p < t - time_limit)%Z | None => false end)
                   (fun r => upd_rq_source_rse_id (fun _ => None) (upd_rq_state (fun _ => Q_PREPARING) r)) in skipS.

(** [get_transfer_error] *)
Definition state_text (s : RequestState) : string := String.append "RequestState."
  match s with
  | Q_QUEUED => "QUEUED" | Q_SUBMITTING => "SUBMITTING" | Q_SUBMITTED => "SUBMITTED" | Q_FAILED => "FAILED" | Q_DONE => "DONE"
  | Q_LOST => "LOST" | Q_NO_SOURCES => "NO_SOURCES" | Q_ONLY_TAPE_SOURCES => "ONLY_TAPE_SOURCES"
  | Q_SUBMISSION_FAILED => "SUBMISSION_FAILED" | Q_MISMATCH_SCHEME => "MISMATCH_SCHEME" | Q_SUSPEND => "SUSPEND"
  | Q_WAITING => "WAITING" | Q_PREPARING => "PREPARING"
  end.
Definition get_transfer_error (state : RequestState) (reason : option string) : option string :=
  let because kind text := Some (String.concat "" ["RequestErrMsg."; kind; ":"; text])%string in
  match state with
  | Q_NO_SOURCES | Q_ONLY_TAPE_SOURCES => because "NO_SOURCES" (state_text state)
  | Q_SUBMISSION_FAILED => because "SUBMISSION_FAILED" (state_text state)
  | Q_SUBMITTING => because "SUBMISSION_FAILED" "Too long time in submitting state"
  | Q_LOST => because "TRANSFER_FAILED" "Transfer job on FTS is lost"
  | Q_FAILED => because "TRANSFER_FAILED" (default "None" reason)
  | Q_MISMATCH_SCHEME => because "MISMATCH_SCHEME" (state_text state)
  | _ => None
  end%string.

(** ** Attempts *)

Definition should_retry_request (r : Request) (retry_protocol_mismatches : bool) : bool :=
  if rq_intermediate_hop r then false
  else match rq_state r with
       | Q_SUBMITTING => true
       | Q_NO_SOURCES | Q_ONLY_TAPE_SOURCES => false
       | s =>
           if match t_retry_count (rq_transfer r) with None => true | Some n => bool_decide (n < 3)%Z end
           then (if bool_decide (s = Q_MISMATCH_SCHEME) then retry_protocol_mismatches else true)
           else false
       end.

(** A source that was used and failed ranks lower. *)
Definition demoted (so : Source) : Source :=
  if so_is_using so
  then upd_so_is_using (fun _ => false) (upd_so_ranking (fun r => Some match r with None => (-1) | Some n => n - 1 end)%Z so)
  else so.
Definition next_retry (r : Request) : option Z :=
  match t_retry_count (rq_transfer r) with
  | None => Some 1%Z
  | Some n => if bool_decide (rq_state r = Q_SUBMITTING) then Some n else Some (n + 1)%Z
  end.
Definition next_attempt (id : nat) (r : Request) (sources : list Source) (source_ranking_update : bool) : NewRequest :=
  MkNewRequest (upd_t_retry_count (fun _ => next_retry r) (rq_transfer r)) None (rq_source_rse_id r) (Some id) (rq_intermediate_hop r)
    (if source_ranking_update then demoted <$> sources else sources).

Definition requeue_and_archive (id : nat) (source_ranking_update retry_protocol_mismatches : bool) : ST World (option NewRequest) :=
  let! new_req := get_request id in
  match new_req with
  | None => raiseS RequestNotFound
  | Some r =>
      let! sources := getsS (fun w => get_sources w id None) in
      do! archive_request id in
      if should_retry_request r retry_protocol_mismatches then
        let new := next_attempt id r sources source_ranking_update in
        do! queue_all [new] in retS (Some new)
      else retS None
  end.

(** ** Hops *)

(** The hops of the paths that have the request on them *)
Definition concerned (w : World) (id : nat) (h : nat * nat * nat) : bool :=
  existsb (fun a : nat * nat * nat => bool_decide (a.2 = h.2) && (bool_decide (a.1.1 = id) || bool_decide (a.2 = id))) (w_hops w).
Fixpoint walk_back (fuel : nat) (parents : gmap nat nat) (cur : nat) : result (list nat) :=
  match fuel with
  | 0%nat => Err OutOfFuel
  | S fuel => match parents !! cur with
              | Some p => let* path := walk_back fuel parents p in Ok (path ++ [cur])
              | None => Ok [cur]
              end
  end.
Definition fetch_paths (w : World) (id : nat) : result (list (nat * list nat)) :=
  let hops := List.filter (concerned w id) (w_hops w) in
  traverse (fun initial =>
    let parents := list_to_map (rev ((fun h : nat * nat * nat => (h.1.2, h.1.1)) <$> List.filter (fun h => bool_decide (h.2 = initial)) hops)) in
    let* path := walk_back (S (S (length hops))) parents initial in Ok (initial, path)) (remove_dups hops.*2).

(** [path[path.index(id) + 1:]] *)
Fixpoint after (id : nat) (path : list nat) : result (list nat) :=
  match path with
  | [] => Err ValueError
  | x :: path => if bool_decide (x = id) then Ok path else after id path
  end.
Definition handle_failed_intermediate_hop (id : nat) : ST World nat :=
  let! paths := (fun w => (fetch_paths w id, w)) in
  let! dependent := liftS (traverse (fun p : nat * list nat => after id p.2) paths) in
  let dependent_requests := concat dependent in
  do! match dependent_requests with
      | [] => skipS
      | _ =>
          do! update_where (fun i r => bool_decide (i ∈ dependent_requests) && (bool_decide (rq_state r = Q_QUEUED) || bool_decide (rq_state r = Q_SUBMITTED)))
                (fun r => upd_rq_err_msg (fun _ => get_transfer_error Q_FAILED (Some "Unused hop in multi-hop"%string)) (upd_rq_state (fun _ => Q_FAILED) r))
          in skipS
      end in
  retS (length dependent_requests).

(** ** Priorities *)

Record PriorityFilter := MkPriorityFilter {
  pf_rule_id : option string; pf_request_id : option nat; pf_older_than : option Z; pf_activities : option (list string)
}.
Definition passes (f : PriorityFilter) (i : nat) (r : Request) (l : Lock) : bool :=
  match pf_rule_id f with Some id => bool_decide (lk_rule_id l = id) | None => true end
  && match pf_request_id f with Some id => bool_decide (i = id) | None => true end
  && match pf_older_than f with Some t => bool_decide (rq_created_at r < t)%Z | None => true end
  && match pf_activities f with Some l => bool_decide (t_activity (rq_transfer r) ∈ l) | None => true end.

(** The requests with their locks, and the transfers to tell the transfer tool about: host and external id *)
Definition prioritised (w : World) (f : PriorityFilter) : list (nat * Request * Lock) :=
  concat (imap (fun i r =>
    if persistent_request r then
      (fun l => (i, r, l)) <$> List.filter (fun l => persistent_lock l && on_file (t_did (rq_transfer r)) (t_dest_rse_id (rq_transfer r)) l && passes f i r l) (w_locks w)
    else []) (w_requests w)).
Definition update_requests_priority (priority : Z) (f : PriorityFilter) : ST World (list (option string * option string)) :=
  let! w := getsS id in
  do! forS (fun x : nat * Request * Lock => do! update_request x.1.1 None None None (Some priority) false in skipS) (prioritised w f) in
  retS (remove_dups (omap (fun x : nat * Request * Lock =>
    if bool_decide (rq_state x.1.2 = Q_SUBMITTED) && bool_decide (lk_state x.2 = L_REPLICATING)
    then Some (rq_external_host x.1.2, rq_external_id x.1.2) else None) (prioritised w f))).

(** ** The throttler *)

(** [ORDER BY]: where the database puts what is null *)
Definition not_after (nulls_first : bool) (a b : option Z) : bool :=
  match a, b with
  | Some x, Some y => bool_decide (x <= y)%Z
  | None, None => true
  | None, Some _ => nulls_first
  | Some _, None => negb nulls_first
  end.
Definition nulls_first (w : World) : bool := negb (w_postgresql w).

Definition matches (source_rse_id dest_rse_id : option string) (r : Request) : bool :=
  match source_rse_id with Some s => bool_decide (rq_source_rse_id r = Some s) | None => true end
  && match dest_rse_id with Some d => bool_decide (t_dest_rse_id (rq_transfer r) = d) | None => true end.
Definition waiting (source_rse_id dest_rse_id : option string) (r : Request) : bool :=
  bool_decide (rq_state r = Q_WAITING) && matches source_rse_id dest_rse_id r.
Definition of_activity (activity : option string) (account : option InternalType) (r : Request) : bool :=
  match activity with Some a => bool_decide (t_activity (rq_transfer r) = a) | None => true end
  && match account with Some a => ieq (t_account (rq_transfer r)) a | None => true end.

Definition release (P : nat -> Request -> bool) : ST World nat := update_where P (upd_rq_state (fun _ => Q_QUEUED)).

(** Those requested first *)
Definition requested_at (w : World) (i : nat) : option Z := w_requests w !! i ≫= (t_requested_at ∘ rq_transfer).
Definition requested_before (w : World) (i j : nat) : Prop := not_after (nulls_first w) (requested_at w i) (requested_at w j) = true.
#[export] Instance requested_before_dec w : RelDecision (requested_before w).
Proof. intros i j. unfold requested_before. apply _. Defined.
Definition oldest_waiting (w : World) (P : Request -> bool) (count : nat) : list nat :=
  take count (merge_sort (requested_before w) (select (fun r => persistent_request r && P r) (w_requests w))).
Definition release_waiting_requests_fifo (dest_rse_id source_rse_id activity : option string) (count : nat) (account : option InternalType)
    : ST World nat :=
  let! w := getsS id in
  let ids := oldest_waiting w (fun r => waiting source_rse_id dest_rse_id r && of_activity activity account r) count in
  release (fun i _ => bool_decide (i ∈ ids)).
Definition release_all_waiting_requests (dest_rse_id source_rse_id activity : option string) (account : option InternalType) : ST World nat :=
  release (fun _ r => waiting source_rse_id dest_rse_id r && of_activity activity account r).

(** The waiting requests by dataset, [create_base_query_grouped_fifo]: the dataset a file was attached
    to first, or the file itself *)
Definition dataset_of (w : World) (did : DID) : DID :=
  default did (c_parent <$> List.find (fun c => bool_decide (c_child c = did)) (w_contents w)).
Definition in_dataset (w : World) (ds : DID) (r : Request) : bool := bool_decide (dataset_of w (t_did (rq_transfer r)) = ds).
Section groups.
Variables (w : World) (source_rse_id dest_rse_id : option string).
Definition waiting_rows : list Request := List.filter (fun r => persistent_request r && waiting source_rse_id dest_rse_id r) (w_requests w).
Definition datasets_waiting : list DID := remove_dups (dataset_of w ∘ t_did ∘ rq_transfer <$> waiting_rows).
Definition group_of (ds : DID) : list Request := List.filter (in_dataset w ds) waiting_rows.
Definition bytes_of (rs : list Request) : Z := foldr Z.add 0%Z (t_bytes ∘ rq_transfer <$> rs).
Definition volume_of (ds : DID) : Z := bytes_of (group_of ds).
Definition amount_of (ds : DID) : Z := Z.of_nat (length (group_of ds)).
Definition oldest_in (ds : DID) : option Z :=
  foldr (fun a b => match a, b with Some x, Some y => Some (Z.min x y) | Some x, None => Some x | None, b => b end) None
        (t_requested_at ∘ rq_transfer <$> group_of ds).
(** [sum(...) over (order_by oldest_requested_at)], with the peers *)
Definition cumulated (f : DID -> Z) (among : list DID) (ds : DID) : Z :=
  foldr Z.add 0%Z (f <$> List.filter (fun g => not_after (nulls_first w) (oldest_in g) (oldest_in ds)) among).
End groups.

(** All waiting requests of datasets *)
Definition release_datasets (source_rse_id dest_rse_id : option string) (w : World) (chosen : DID -> bool) : ST World nat :=
  release (fun _ r => waiting source_rse_id dest_rse_id r && chosen (dataset_of w (t_did (rq_transfer r)))).

(** [release_waiting_requests_per_deadline]: without a deadline there is no statement to execute. *)
Definition release_waiting_requests_per_deadline (dest_rse_id source_rse_id : option string) (deadline : Z) : ST World nat :=
  let! w := getsS id in
  if bool_decide (deadline = 0)%Z then raiseS ArgumentError
  else release_datasets source_rse_id dest_rse_id w (fun ds =>
         match oldest_in w source_rse_id dest_rse_id ds with Some o => bool_decide (o < now (w_session w) - deadline * 3600)%Z | None => false end).

Definition active (source_rse_id dest_rse_id : option string) (r : Request) : bool :=
  (bool_decide (rq_state r = Q_SUBMITTED) || bool_decide (rq_state r = Q_QUEUED)) && matches source_rse_id dest_rse_id r.
Definition active_volume (w : World) (source_rse_id dest_rse_id : option string) : Z :=
  bytes_of (List.filter (fun r => persistent_request r && active source_rse_id dest_rse_id r) (w_requests w)).
Definition release_waiting_requests_per_free_volume (dest_rse_id source_rse_id : option string) (volume : Z) : ST World nat :=
  let! w := getsS id in
  let free := (volume - active_volume w source_rse_id dest_rse_id)%Z in
  let small := List.filter (fun ds => bool_decide (volume_of w source_rse_id dest_rse_id ds <= free)%Z) (datasets_waiting w source_rse_id dest_rse_id) in
  release_datasets source_rse_id dest_rse_id w (fun ds => bool_decide (ds ∈ small)
    && bool_decide (cumulated w source_rse_id dest_rse_id (volume_of w source_rse_id dest_rse_id) small ds <= free)%Z).

Definition release_waiting_requests_grouped_fifo (dest_rse_id source_rse_id : option string) (count deadline volume : Z) : ST World nat :=
  let! late := if negb (bool_decide (deadline = 0)%Z) && bool_decide (is_Some source_rse_id)
               then release_waiting_requests_per_deadline dest_rse_id source_rse_id deadline else retS 0%nat in
  let count := (count - Z.of_nat late)%Z in
  let! w := getsS id in
  let amount := amount_of w source_rse_id dest_rse_id in
  let! released := release_datasets source_rse_id dest_rse_id w (fun ds =>
    bool_decide (cumulated w source_rse_id dest_rse_id amount (datasets_waiting w source_rse_id dest_rse_id) ds - amount ds < count)%Z) in
  let! fitting := if negb (bool_decide (volume = 0)%Z) && bool_decide (is_Some dest_rse_id)
                  then release_waiting_requests_per_free_volume dest_rse_id None volume else retS 0%nat in
  retS (late + released + fitting)%nat.
