(* ===== verification/ReplicaWrites.v ===== *)
(** * Writing replicas: [lib/rucio/core/replica.py]

    New replicas, with the data identifiers of new files ([add_replicas]), and the states of replicas,
    which settle the locks on them ([update_replicas_states]). *)

From S2P Require Import Prelude StateError Counting PyString Types Database RseSelector LockTables RuleGrouping RuleEngine.

(** A transaction: what was done is undone when it raises. *)
Definition transaction {A} (m : ST World A) : ST World A := fun w =>
  match m w with (Ok a, w') => (Ok a, w') | (Err e, _) => (Err e, w) end.

(** [except Exception] that only logs *)
Definition swallow (m : ST World unit) : ST World unit := tryS m (fun _ => Some skipS).

(** ** The states of replicas *)

Record ReplicaUpdate := MkReplicaUpdate {
  ru_replica : DID * string;
  ru_new_state : ReplicaState;
  ru_error_message : option string;
  ru_broken_rule_id : option string;
  ru_broken_message : option string;
}.

(** [update_replicas_states] for one replica.  The conditions that a replica to be deleted is neither
    locked nor a source, and that only an available one becomes temporarily unavailable, are put on a
    statement that is not executed again. *)
Definition repaired (did : DID) (rse_id : string) (b : DID * string * BadFilesStatus) : DID * string * BadFilesStatus :=
  if bool_decide (b.1.1 = did) && bool_decide (b.1.2 = rse_id) && bool_decide (b.2 = B_BAD) then (b.1, B_RECOVERED) else b.
Definition in_state (s : ReplicaState) (r : Replica) : Replica :=
  let r := upd_rp_state (fun _ => s) r in
  if bool_decide (s = R_BEING_DELETED) then upd_rp_tombstone (fun _ => Some OBSOLETE) r else r.
Definition update_replica_state (u : ReplicaUpdate) : ST World unit :=
  let '(did, rse_id) := ru_replica u in
  let! found := select_replicas (on_replica did rse_id) in
  match found with
  | [] => do! get_rse_name rse_id in raiseS ReplicaNotFound
  | replica :: _ =>
      do! match ru_new_state u with
          | R_AVAILABLE =>
              do! successful_transfer did rse_id in
              modifyS (upd_w_bad_replicas (fmap (repaired did rse_id)))
          | R_UNAVAILABLE => failed_transfer did rse_id (ru_error_message u) (ru_broken_rule_id u) (ru_broken_message u)
          | _ => skipS
          end in
      alter_replica (in_state (ru_new_state u)) replica
  end.
Definition update_replicas_states (replicas : list ReplicaUpdate) : ST World unit := forS update_replica_state replicas.

(** ** New replicas *)

Record NewFile := MkNewFile {
  nf_did : DID;
  nf_bytes : Z;
  nf_md5 : option string;
  nf_adler32 : option string;
  nf_account : option InternalType;
  nf_pfn : option string;
  nf_state : option ReplicaState;
  nf_lock_cnt : Z;
  nf_tombstone : option Z;
}.

(** [__bulk_add_new_file_dids], and [__bulk_add_file_dids]: the files that are known are left out. *)
Definition add_file_did (account : InternalType) (f : NewFile) : ST World unit :=
  let! w := getsS id in
  match w_dids w !! nf_did f, scopes (w_session w) !! (nf_did f).1 with
  | Some _, _ => raiseS RucioException
  | None, None => raiseS ScopeNotFound
  | None, Some _ =>
      modifyS (upd_w_dids (<[nf_did f := MkDID FILE None (Some (nf_bytes f)) None (nf_md5 f) (nf_adler32 f) false
                                           (default account (nf_account f)) None false false false None]>))
  end.
Definition is_file (w : World) (did : DID) : bool :=
  match w_dids w !! did with Some d => bool_decide (d_type d = FILE) | None => false end.
Definition bulk_add_file_dids (files : list NewFile) (account : InternalType) : ST World unit :=
  let! w := getsS id in
  forS (add_file_did account) (List.filter (fun f => negb (is_file w (nf_did f))) files).

(** [tombstone_from_delay]; a delay is a number of seconds or the value of an attribute. *)
Definition tombstone_after (t delay : Z) : option Z :=
  if bool_decide (delay = 0)%Z then None else if bool_decide (delay < 0)%Z then Some 0%Z else Some (t + delay)%Z.
Definition tombstone_from_delay (t : Z) (tombstone_delay : option AttrValue) : result (option Z) :=
  match tombstone_delay with
  | None | Some (AStr "") | Some (ABool false) => Ok None
  | Some v => let* delay := or_raise ValueError (int_of_attribute v) in Ok (tombstone_after t delay)
  end.

(** [__bulk_add_replicas]: the replicas there are already are left out; how many replicas, and bytes, are new *)
Definition insert_replica (rse_id : string) (default_tombstone : option Z) (f : NewFile) : ST World unit :=
  let! i := make_replica (MkReplica rse_id (nf_did f) (nf_bytes f) (nf_md5 f) (nf_adler32 f) (default R_AVAILABLE (nf_state f))
                            (nf_lock_cnt f) None (match nf_tombstone f with Some t => Some t | None => default_tombstone end) None Transient) in
  tryS (add_replica i) (fun e => match e with IntegrityError => Some (raiseS Duplicate) | _ => None end).
Definition replica_exists (w : World) (did : DID) (rse_id : string) : bool :=
  existsb (fun r => persistent_replica r && on_replica did rse_id r) (w_replicas w).
Definition bulk_add_replicas (rse_id : string) (files : list NewFile) : ST World (Z * Z) :=
  let! w := getsS id in
  let! default_tombstone := liftS (tombstone_from_delay (now (w_session w)) (rse_attribute (w_session w) rse_id "tombstone_delay")) in
  let new := List.filter (fun f => negb (replica_exists w (nf_did f) rse_id)) files in
  do! forS (insert_replica rse_id default_tombstone) new in
  retS (Z.of_nat (length new), foldr Z.add 0%Z (nf_bytes <$> new)).

Section adding.
(** Columns of the RSEs the tables leave out, and the protocols of an RSE: why the physical names of
    files are not those it expects *)
Variables (volatile deterministic : Session -> string -> bool).
Variable pfn_error : Session -> string -> list (DID * string) -> option exn.

(** [add_replicas] *)
Definition has_pfn (f : NewFile) : bool := bool_decide (is_Some (nf_pfn f)).
Definition with_pfn (f : NewFile) : option (DID * string) := (pair (nf_did f)) <$> nf_pfn f.
Definition add_replicas (rse_id : string) (files : list NewFile) (account : InternalType) (ignore_availability : bool) : ST World unit :=
  let! rse := get_rse rse_id in
  let! w := getsS id in
  if volatile (w_session w) rse_id then raiseS UnsupportedOperation
  else if negb (rse_availability_write rse) && negb ignore_availability then raiseS ResourceTemporaryUnavailable
  else if negb (deterministic (w_session w) rse_id) && existsb (fun f => negb (has_pfn f)) files then raiseS UnsupportedOperation
  else
    do! bulk_add_file_dids files account in
    do! if existsb has_pfn files then
          if negb (forallb has_pfn files) then raiseS KeyError
          else match pfn_error (w_session w) rse_id (omap with_pfn files) with Some e => raiseS e | None => skipS end
        else skipS in
    let! '(nbfiles, bytes) := bulk_add_replicas rse_id files in
    rse_increase rse_id nbfiles bytes.
End adding.
