(* ===== verification/RuleInvariant.v ===== *)
(** * The invariant of the rule engine

    What the counters and states of rules say of their locks, and what the lock counts and
    tombstones of replicas say of the locks on them; and the operations that leave all of this
    alone. *)

From S2P Require Import Prelude StateError Counting Types Database RseSelector LockTables RuleGrouping RuleEngine.

(** ** What the invariant is about *)

Record View := MkView { v_state : RuleState; v_ok : Z; v_replicating : Z; v_stuck : Z }.
Definition view (r : Rule) : View :=
  MkView (ru_state r) (ru_locks_ok_cnt r) (ru_locks_replicating_cnt r) (ru_locks_stuck_cnt r).
Definition v_cnt (st : LockState) (v : View) : Z :=
  match st with L_OK => v_ok v | L_REPLICATING => v_replicating v | L_STUCK => v_stuck v end.

Record Core := MkCore { k_rules : gmap string View; k_locks : list Lock; k_replicas : list Replica }.
Definition core (w : World) : Core := MkCore (view <$> w_rules w) (w_locks w) (w_replicas w).

(** ** The invariant *)

Definition lock_of (rule_id : string) (st : LockState) (l : Lock) : bool :=
  persistent_lock l && bool_decide (lk_rule_id l = rule_id) && bool_decide (lk_state l = st).
Definition lock_on_key (key : DID * string) (l : Lock) : bool :=
  persistent_lock l && on_file key.1 key.2 l.

(** The state of a rule that is neither stuck nor suspended is the one of its locks. *)
Definition state_ok (v : View) : Prop :=
  match v_state v with
  | RS_OK => v_replicating v = 0%Z /\ v_stuck v = 0%Z
  | RS_REPLICATING => (0 < v_replicating v)%Z /\ v_stuck v = 0%Z
  | RS_WAITING_APPROVAL | RS_INJECT => v_ok v = 0%Z /\ v_replicating v = 0%Z /\ v_stuck v = 0%Z
  | RS_STUCK | RS_SUSPENDED => True
  end.

Definition counters_ok (c : Core) : Prop :=
  forall id v st, k_rules c !! id = Some v -> v_cnt st v = count (fun _ => lock_of id st) (k_locks c).
Definition states_ok (c : Core) : Prop := forall id v, k_rules c !! id = Some v -> state_ok v.
Definition rules_exist (c : Core) : Prop :=
  forall i l, k_locks c !! i = Some l -> persistent_lock l = true -> is_Some (k_rules c !! lk_rule_id l).
Definition lock_keys_ok (c : Core) : Prop :=
  forall i j l l', k_locks c !! i = Some l -> k_locks c !! j = Some l' -> persistent_lock l = true -> persistent_lock l' = true ->
    lock_key l = lock_key l' -> i = j.
Definition replica_keys_ok (c : Core) : Prop :=
  forall i j r r', k_replicas c !! i = Some r -> k_replicas c !! j = Some r' -> persistent_replica r = true ->
    persistent_replica r' = true -> replica_key r = replica_key r' -> i = j.

(** The locks on a replica are at most its lock count, and none when it has a tombstone. *)
Definition replica_ok (locks : list Lock) (r : Replica) : Prop :=
  let n := count (fun _ => lock_on_key (replica_key r)) locks in
  (n <= rp_lock_cnt r)%Z /\ (is_Some (rp_tombstone r) -> n = 0%Z).
Definition replicas_ok (c : Core) : Prop :=
  forall j r, k_replicas c !! j = Some r -> persistent_replica r = true -> replica_ok (k_locks c) r.

(** The file of a lock has a replica where it is locked. *)
Definition homes_ok (c : Core) : Prop :=
  forall i l, k_locks c !! i = Some l -> persistent_lock l = true ->
    exists j r, k_replicas c !! j = Some r /\ persistent_replica r = true /\ replica_key r = (lk_did l, lk_rse_id l).

Record core_ok (c : Core) : Prop := {
  core_counters : counters_ok c;
  core_states : states_ok c;
  core_rules : rules_exist c;
  core_lock_keys : lock_keys_ok c;
  core_replica_keys : replica_keys_ok c;
  core_replicas : replicas_ok c;
  core_homes : homes_ok c;
}.

Definition engine_ok (w : World) : Prop := core_ok (core w).

(** ** Operations that do not touch it *)

Definition frames {A} (m : ST World A) : Prop := forall c, preserves (fun w => core w = c) m.

Lemma frames_ret {A} (a : A) : frames (retS a).
Proof. intros c. apply preserves_ret. Qed.
Lemma frames_raise {A} e : frames (@raiseS World A e).
Proof. intros c. apply preserves_raise. Qed.
Lemma frames_gets {A} (f : World -> A) : frames (getsS f).
Proof. intros c. apply preserves_gets. Qed.
Lemma frames_lift {A} (r : result A) : frames (liftS r).
Proof. intros c. apply preserves_lift. Qed.
Lemma frames_bind {A B} (m : ST World A) (f : A -> ST World B) : frames m -> (forall a, frames (f a)) -> frames (bindS m f).
Proof. intros Hm Hf c. apply preserves_bind; [apply Hm|]. intros a. apply Hf. Qed.
Lemma frames_when b m : frames m -> frames (whenS b m).
Proof. intros Hm c. apply preserves_when, Hm. Qed.
Lemma frames_for {A} (f : A -> ST World unit) l : (forall a, frames (f a)) -> frames (forS f l).
Proof. intros Hf c. apply preserves_for. intros a _. apply Hf. Qed.
Lemma frames_try {A} (m : ST World A) h : frames m -> (forall e k, h e = Some k -> frames k) -> frames (tryS m h).
Proof. intros Hm Hh c. apply preserves_try; [apply Hm|]. intros e k Hk. by eapply Hh. Qed.
Lemma frames_modify f : (forall w, core (f w) = core w) -> frames (modifyS f).
Proof. intros Hf c. apply preserves_modify. intros w <-. apply Hf. Qed.

Lemma frames_alter_rule f id : (forall r, view (f r) = view r) -> frames (alter_rule f id).
Proof.
  intros Hf. apply frames_modify. intros w. unfold core. simpl. f_equal. apply map_eq. intros i.
  rewrite !lookup_fmap. destruct (decide (i = id)) as [->|Hi].
  - rewrite lookup_alter_eq. destruct (w_rules w !! id); simpl; [by rewrite Hf|done].
  - by rewrite lookup_alter_ne.
Qed.

Lemma frames_lock_at i : frames (lock_at i).
Proof. intros c w <-. unfold wp, lock_at. by destruct (w_locks w !! i). Qed.
Lemma frames_replica_at i : frames (replica_at i).
Proof. intros c w <-. unfold wp, replica_at. by destruct (w_replicas w !! i). Qed.

Lemma frames_select_locks P : frames (select_locks P).
Proof. apply frames_gets. Qed.
Lemma frames_select_replicas P : frames (select_replicas P).
Proof. apply frames_gets. Qed.

Create HintDb frames.
Lemma frames_select_requests P : frames (select_requests P).
Proof. apply frames_gets. Qed.
#[export] Hint Resolve frames_select_requests : frames.
#[export] Hint Resolve frames_ret frames_raise frames_gets frames_lift frames_when frames_for frames_lock_at
  frames_select_locks frames_select_replicas
  frames_replica_at : frames.

(** Prove [frames m] along the structure of [m]. *)
Ltac frames_step :=
  lazymatch goal with
  | |- frames (bindS _ _) => apply frames_bind; [|intros ?]
  | |- frames skipS => apply frames_ret
  | |- frames (whenS _ _) => apply frames_when
  | |- frames (forS _ _) => apply frames_for; intros ?
  | |- frames (modifyS _) => apply frames_modify; intros ?; first [reflexivity|by repeat case_match]
  | |- frames (alter_rule _ _) => apply frames_alter_rule; intros ?; reflexivity
  | |- frames (if ?b then _ else _) => destruct b
  | |- frames (match ?x with _ => _ end) => destruct x
  | |- frames _ => solve [auto with frames]
  end.
Ltac frames := intros; repeat frames_step.

Lemma frames_the_rule id : frames (the_rule id).
Proof. unfold the_rule, rule_row, scalar_one. frames. Qed.
#[export] Hint Resolve frames_the_rule : frames.
Lemma frames_history id a b : frames (insert_rule_history id a b).
Proof. unfold insert_rule_history. frames. Qed.
Lemma frames_message m : frames (add_message m).
Proof. unfold add_message. frames. Qed.
Lemma frames_dataset_locks id st : frames (set_dataset_locks id st).
Proof. unfold set_dataset_locks. frames. Qed.
Lemma frames_rse_name rse : frames (get_rse_name rse).
Proof. unfold get_rse_name. frames. Qed.
#[export] Hint Resolve frames_history frames_message frames_dataset_locks frames_rse_name : frames.
Lemma frames_mark r st : frames (mark_dataset_locks r st).
Proof. unfold mark_dataset_locks. frames. Qed.
Lemma frames_error id e : frames (set_rule_error id e).
Proof. unfold set_rule_error. frames. Qed.
Lemma frames_account_increase rse a f b : frames (account_increase rse a f b).
Proof. unfold account_increase. frames. Qed.
Lemma frames_account_decrease rse a f b : frames (account_decrease rse a f b).
Proof. apply frames_account_increase. Qed.
Lemma frames_rse_increase rse f b : frames (rse_increase rse f b).
Proof. unfold rse_increase. frames. Qed.
Lemma frames_detach p c : frames (detach_did p c).
Proof. unfold detach_did. frames. Qed.
Lemma frames_queue_all l : frames (queue_all l).
Proof. unfold queue_all. frames. Qed.
Lemma frames_queue l : frames (queue_requests l).
Proof. unfold queue_requests. apply frames_bind; [apply frames_queue_all|]. intros _. apply frames_ret. Qed.
Lemma frames_archive i : frames (archive_request i).
Proof. unfold archive_request. frames. Qed.
Lemma frames_delete_requests d r : frames (delete_requests d r).
Proof. unfold delete_requests. frames. Qed.
#[export] Hint Resolve frames_queue_all frames_archive frames_delete_requests : frames.
Lemma frames_cancel d r : frames (cancel_request_did d r).
Proof. unfold cancel_request_did. frames. Qed.
#[export] Hint Resolve frames_mark frames_error frames_account_increase frames_account_decrease frames_rse_increase
  frames_detach frames_queue frames_cancel : frames.

Lemma frames_run {A} (f : World -> result A) : frames (fun w => (f w, w)).
Proof. intros c w Hw. unfold wp. by destruct (f w). Qed.

Lemma frames_when_closed d m : frames m -> frames (when_closed d m).
Proof.
  intros Hm. unfold when_closed, if_found. apply frames_try.
  - apply frames_bind; [apply frames_run|]. intros []; by apply frames_when.
  - intros [] k Hk; simplify_eq; apply frames_ret.
Qed.

Lemma frames_notify_closed r ks : frames (notify_closed_datasets r ks).
Proof.
  induction ks as [|[d rse] ks IH]; simpl; [apply frames_ret|]. apply frames_bind; [apply frames_gets|]. intros w.
  destruct (did_open w d) as [[]|[]]; try done; try apply frames_raise.
  destruct (w_dids w !! d ≫= d_length); [|apply frames_ret]. frames.
Qed.
#[export] Hint Resolve frames_when_closed frames_notify_closed : frames.

Lemma frames_notifications id n : frames (generate_rule_notifications id n).
Proof. unfold generate_rule_notifications. frames; apply frames_when_closed; frames. Qed.
Lemma frames_email id : frames (generate_email_for_rule_ok_notification id).
Proof. unfold generate_email_for_rule_ok_notification. frames. Qed.
Lemma frames_release id b : frames (release_parent_rule id b).
Proof. unfold release_parent_rule. frames. Qed.
Lemma frames_decrease_accounts a l : frames (decrease_accounts a l).
Proof. unfold decrease_accounts. frames. Qed.
Lemma frames_cancel_transfers l : frames (cancel_transfers l).
Proof. unfold cancel_transfers. frames. Qed.
#[export] Hint Resolve frames_notifications frames_email frames_release frames_decrease_accounts frames_cancel_transfers : frames.
