(* ===== verification/RuleEvents.v ===== *)
(** * Rules tell the truth about their locks

    Every event of the rule engine keeps the invariant: transfers that end, replicas that are lost
    or bad, rules that are deleted. *)

From S2P Require Import Prelude StateError Counting Types Database RseSelector LockTables RuleGrouping RuleEngine RuleInvariant.

#[local] Arguments Z.add : simpl never.
#[local] Arguments Z.sub : simpl never.

(** ** Computations that may raise: an exception rolls back *)

Definition wpo {A} (m : ST World A) (Q : A -> World -> Prop) (w : World) : Prop := wp m Q (fun _ _ => True) w.

Lemma wpo_frames {A} (m : ST World A) Q w : frames m -> (forall a w', core w' = core w -> Q a w') -> wpo m Q w.
Proof. intros Hm HQ. eapply wp_mono; [by apply (Hm (core w))| |done]. intros a w'. apply HQ. Qed.

Lemma wpo_bind {A B} (m : ST World A) (f : A -> ST World B) Q w : wpo m (fun a => wpo (f a) Q) w -> wpo (bindS m f) Q w.
Proof. apply wp_bind. Qed.

Lemma wpo_mono {A} (m : ST World A) (Q Q' : A -> World -> Prop) w :
  wpo m Q w -> (forall a w', Q a w' -> Q' a w') -> wpo m Q' w.
Proof. intros Hm HQ. by eapply wp_mono. Qed.

(** A framed step before the rest *)
Lemma wpo_skip {A B} (m : ST World A) (f : A -> ST World B) Q w :
  frames m -> (forall a w', core w' = core w -> wpo (f a) Q w') -> wpo (bindS m f) Q w.
Proof. intros Hm HQ. apply wpo_bind, wpo_frames; auto. Qed.

Lemma wpo_the_rule {B} id (f : Rule -> ST World B) Q w :
  (forall r, w_rules w !! id = Some r -> wpo (f r) Q w) -> wpo (let! r := the_rule id in f r) Q w.
Proof.
  intros Hr. apply wpo_bind. unfold wpo, wp, the_rule, rule_row, scalar_one, bindS, getsS, liftS.
  destruct (w_rules w !! id) as [r|]; simpl; [by apply Hr|done].
Qed.

Lemma wpo_lock_at {B} i (f : Lock -> ST World B) Q w :
  (forall l, w_locks w !! i = Some l -> wpo (f l) Q w) -> wpo (let! l := lock_at i in f l) Q w.
Proof.
  intros Hl. apply wpo_bind. unfold wpo, wp, lock_at. destruct (w_locks w !! i) as [l|]; [by apply Hl|done].
Qed.

Lemma wpo_modify {B} g (f : unit -> ST World B) Q w : wpo (f tt) Q (g w) -> wpo (let! u := modifyS g in f u) Q w.
Proof. intros Hf. by apply wpo_bind. Qed.

(** ** Steps of the core *)

Definition k_rule (g : View -> View) (id : string) (c : Core) : Core :=
  MkCore (alter g id (k_rules c)) (k_locks c) (k_replicas c).
Definition k_lock (g : Lock -> Lock) (i : nat) (c : Core) : Core := MkCore (k_rules c) (alter g i (k_locks c)) (k_replicas c).
Definition k_replica (g : Replica -> Replica) (i : nat) (c : Core) : Core :=
  MkCore (k_rules c) (k_locks c) (alter g i (k_replicas c)).
Definition v_set_state (st : RuleState) (v : View) : View := MkView st (v_ok v) (v_replicating v) (v_stuck v).
Definition v_upd_cnt (st : LockState) (f : Z -> Z) (v : View) : View :=
  match st with
  | L_OK => MkView (v_state v) (f (v_ok v)) (v_replicating v) (v_stuck v)
  | L_REPLICATING => MkView (v_state v) (v_ok v) (f (v_replicating v)) (v_stuck v)
  | L_STUCK => MkView (v_state v) (v_ok v) (v_replicating v) (f (v_stuck v))
  end.

Lemma view_upd_cnt st f r : view (upd_cnt st f r) = v_upd_cnt st f (view r).
Proof. by destruct st. Qed.

Lemma view_cnt st r : v_cnt st (view r) = cnt st r.
Proof. by destruct st. Qed.

Lemma core_alter_rule f g id w : (forall r, view (f r) = g (view r)) -> core (upd_w_rules (alter f id) w) = k_rule g id (core w).
Proof.
  intros Hf. unfold core, k_rule. simpl. f_equal. apply map_eq. intros i. rewrite lookup_fmap.
  destruct (decide (i = id)) as [->|Hi].
  - rewrite !lookup_alter_eq, lookup_fmap. destruct (w_rules w !! id); simpl; [by rewrite Hf|done].
  - by rewrite !lookup_alter_ne, lookup_fmap.
Qed.

Lemma core_rule w id r : w_rules w !! id = Some r -> k_rules (core w) !! id = Some (view r).
Proof. intros Hr. unfold core. simpl. by rewrite lookup_fmap, Hr. Qed.

Lemma rule_core w id v : k_rules (core w) !! id = Some v -> exists r, w_rules w !! id = Some r /\ view r = v.
Proof. unfold core. simpl. rewrite lookup_fmap. destruct (w_rules w !! id); simpl; naive_solver. Qed.

Lemma wpo_alter_rule {B} f g id (k : unit -> ST World B) Q w :
  (forall r, view (f r) = g (view r)) ->
  (forall w', core w' = k_rule g id (core w) -> wpo (k tt) Q w') -> wpo (let! u := alter_rule f id in k u) Q w.
Proof. intros Hf Hk. apply wpo_modify, Hk. by apply core_alter_rule. Qed.

Lemma wpo_alter_lock {B} f i (k : unit -> ST World B) Q w :
  (forall w' t, core w' = k_lock (fun l => written t (f l)) i (core w) -> wpo (k tt) Q w') -> wpo (let! u := alter_lock f i in k u) Q w.
Proof. intros Hk. apply wpo_modify. by eapply Hk. Qed.

Lemma wpo_alter_replica {B} f i (k : unit -> ST World B) Q w :
  (forall w', core w' = k_replica f i (core w) -> wpo (k tt) Q w') -> wpo (let! u := alter_replica f i in k u) Q w.
Proof. intros Hk. by apply wpo_modify, Hk. Qed.

(** ** One lock changes *)

Lemma lookup_alter_locks (g : Lock -> Lock) i j (ls : list Lock) l' :
  alter g i ls !! j = Some l' -> exists l, ls !! j = Some l /\ l' = (if decide (j = i) then g l else l).
Proof.
  destruct (decide (j = i)) as [->|Hj].
  - rewrite list_lookup_alter_eq. destruct (ls !! i); simpl; [|done]. intros [= <-]. eauto.
  - rewrite list_lookup_alter_ne by done. eauto.
Qed.

(** How many locks of a rule in a state there are, after one of them changes *)
Lemma count_lock_of id st g i ls l :
  ls !! i = Some l ->
  count (fun _ => lock_of id st) (alter g i ls) =
  (count (fun _ => lock_of id st) ls - Z.b2z (lock_of id st l) + Z.b2z (lock_of id st (g l)))%Z.
Proof. intros Hl. by rewrite (count_alter _ _ i l). Qed.

(** A change of the state of a persistent lock [l] to [st'] *)
Definition moves (l : Lock) (st' : LockState) (l' : Lock) : Prop :=
  lock_key l' = lock_key l /\ persistent_lock l' = true /\ lk_state l' = st'.

Lemma moves_on_key l st' l' key : persistent_lock l = true -> moves l st' l' -> lock_on_key key l' = lock_on_key key l.
Proof.
  intros Hp (Hk & Hp' & _). unfold lock_on_key, on_file. rewrite Hp, Hp'. injection Hk as Hd _ Hr. by rewrite Hd, Hr.
Qed.

Lemma move_core c i l st' g v v' id :
  core_ok c -> k_locks c !! i = Some l -> persistent_lock l = true -> moves l st' (g l) -> id = lk_rule_id l ->
  k_rules c !! id = Some v ->
  (forall st, v_cnt st v' = v_cnt st v - Z.b2z (bool_decide (lk_state l = st)) + Z.b2z (bool_decide (st' = st)))%Z ->
  state_ok v' ->
  core_ok (MkCore (<[id := v']> (k_rules c)) (alter g i (k_locks c)) (k_replicas c)).
Proof.
  intros Hok Hl Hp Hm -> Hv Hv' Hst. pose proof Hm as (Hkey & Hp' & Hst').
  assert (forall j l', alter g i (k_locks c) !! j = Some l' -> persistent_lock l' = true ->
            exists l0, k_locks c !! j = Some l0 /\ persistent_lock l0 = true /\ lock_key l' = lock_key l0) as Hback.
  { intros j l' (l0 & Hl0 & ->)%lookup_alter_locks Hpl. exists l0. destruct (decide (j = i)) as [->|]; [|done]. rewrite Hl in Hl0. injection Hl0 as <-. split_and!; [by rewrite Hl|done..]. }
  split; red; cbn [k_rules k_locks k_replicas].
  - intros id' v0 st Hv0. rewrite (count_lock_of _ _ _ _ _ l) by done.
    unfold lock_of at 2 3. rewrite Hp, Hp', Hst', !andb_true_l.
    assert (lk_rule_id (g l) = lk_rule_id l) as -> by (unfold lock_key in Hkey; congruence).
    apply lookup_insert_Some in Hv0 as [[<- <-]|[Hne Hv0]].
    + rewrite Hv', (core_counters c Hok _ v st Hv), (bool_decide_true (lk_rule_id l = lk_rule_id l)) by done. done.
    + rewrite (core_counters c Hok _ v0 st Hv0), (bool_decide_false (lk_rule_id l = id')) by done. simpl. lia.
  - intros id' v0 [[<- <-]|[_ Hv0]]%lookup_insert_Some; [done|]. by eapply core_states.
  - intros j l' Hj Hpj. destruct (Hback j l' Hj Hpj) as (l0 & Hl0 & Hp0 & Hk0).
    destruct (core_rules c Hok j l0 Hl0 Hp0) as [v0 Hv0]. assert (lk_rule_id l' = lk_rule_id l0) as -> by (unfold lock_key in Hk0; congruence).
    destruct (decide (lk_rule_id l = lk_rule_id l0)) as [<-|Hne]; [rewrite lookup_insert_eq|rewrite lookup_insert_ne, Hv0 by done]; eauto.
  - intros j1 j2 l1 l2 H1 H2 Hp1 Hp2 Hk.
    destruct (Hback j1 l1 H1 Hp1) as (l1' & ? & ? & ?), (Hback j2 l2 H2 Hp2) as (l2' & ? & ? & ?).
    eapply (core_lock_keys c Hok); eauto. congruence.
  - apply Hok.
  - intros j r Hr Hpr. destruct (core_replicas c Hok j r Hr Hpr) as [Hn Ht].
    assert (count (fun _ => lock_on_key (replica_key r)) (alter g i (k_locks c)) = count (fun _ => lock_on_key (replica_key r)) (k_locks c)) as Hc.
    { rewrite (count_alter _ _ i l) by done. rewrite (moves_on_key l st' (g l) _ Hp Hm). lia. }
    unfold replica_ok. by rewrite Hc.
  - intros j l' Hj Hpj. destruct (Hback j l' Hj Hpj) as (l0 & Hl0 & Hp0 & Hk0).
    destruct (core_homes c Hok j l0 Hl0 Hp0) as (jr & r & ? & ? & Hk). exists jr, r. split_and!; [done|done|].
    unfold lock_key in Hk0. congruence.
Qed.

(** The core after a lock changed state, the counters of its rule with it, and the rule to [v'] *)
Lemma move_ok c c' i l st' t v' f :
  core_ok c -> k_locks c !! i = Some l -> persistent_lock l = true -> (forall l, lk_status (f l) = lk_status l) ->
  (forall l, lock_key (f l) = lock_key l) -> (forall l, lk_state (f l) = st') ->
  (forall v, k_rules c !! lk_rule_id l = Some v ->
     k_rules c' = <[lk_rule_id l := v' v]> (k_rules c) /\ state_ok (v' v) /\
     forall st, v_cnt st (v' v) = v_cnt st v - Z.b2z (bool_decide (lk_state l = st)) + Z.b2z (bool_decide (st' = st)))%Z ->
  k_locks c' = alter (fun l => written t (f l)) i (k_locks c) -> k_replicas c' = k_replicas c -> core_ok c'.
Proof.
  intros Hok Hl Hp Hfs Hfk Hfst Hv' Hlocks Hreps. destruct (core_rules c Hok i l Hl Hp) as [v Hv].
  destruct (Hv' v Hv) as (Hrules & Hst & Hcnt). destruct c' as [rs ls rps]. simpl in *. subst.
  assert (persistent_lock (f l) = true) as Hpf by (unfold persistent_lock in *; by rewrite Hfs).
  apply (move_core c i l st' (fun l => written t (f l)) v (v' v)); try done.
  unfold moves, written. rewrite Hpf. split_and!; [apply (Hfk l)|done|apply (Hfst l)].
Qed.

(** ** Events of one lock *)

(** The lock at [i] goes to the state [st'], and the view of its rule is changed by [fv]. *)
Definition lock_step (fv : LockState -> View -> View) (st' : LockState) (i : nat) (c c' : Core) : Prop :=
  exists l v t, k_locks c !! i = Some l /\ k_rules c !! lk_rule_id l = Some v /\
    c' = MkCore (<[lk_rule_id l := fv (lk_state l) v]> (k_rules c))
           (alter (fun l => written t (upd_lk_state (fun _ => st') l)) i (k_locks c)) (k_replicas c).

(** [fv] moves a lock from a counter to another and leaves a true state. *)
Definition fair (fv : LockState -> View -> View) (st' : LockState) : Prop :=
  forall st v, state_ok v -> (forall st, 0 <= v_cnt st v)%Z -> (0 < v_cnt st v)%Z ->
    state_ok (fv st v) /\
    forall s, (v_cnt s (fv st v) = v_cnt s v - Z.b2z (bool_decide (st = s)) + Z.b2z (bool_decide (st' = s)))%Z.

Lemma counters_nonneg c id v st : core_ok c -> k_rules c !! id = Some v -> (0 <= v_cnt st v)%Z.
Proof. intros Hok Hv. rewrite (core_counters c Hok id v st Hv). apply count_nonneg. Qed.

Lemma counter_pos c i l v :
  core_ok c -> k_locks c !! i = Some l -> persistent_lock l = true -> k_rules c !! lk_rule_id l = Some v ->
  (0 < v_cnt (lk_state l) v)%Z.
Proof.
  intros Hok Hl Hp Hv. rewrite (core_counters c Hok _ v _ Hv).
  assert (1 <= count (fun _ => lock_of (lk_rule_id l) (lk_state l)) (k_locks c))%Z; [|lia].
  eapply count_pos; [done|]. unfold lock_of. by rewrite Hp, !bool_decide_true.
Qed.

Lemma lock_step_ok fv st' i c c' l :
  fair fv st' -> core_ok c -> k_locks c !! i = Some l -> persistent_lock l = true -> lock_step fv st' i c c' -> core_ok c'.
Proof.
  intros Hfair Hok Hl Hp (l0 & v & t & Hl0 & Hv & ->). rewrite Hl in Hl0. injection Hl0 as <-.
  destruct (Hfair (lk_state l) v) as [Hst Hcnt].
  - by eapply core_states.
  - intros st. by eapply counters_nonneg.
  - by eapply counter_pos.
  - apply (move_ok c _ i l st' t (fv (lk_state l)) (upd_lk_state (fun _ => st'))); try done.
    intros v0 Hv0. rewrite Hv in Hv0. injection Hv0 as <-. done.
Qed.

Lemma k_rule_Some g id c v : k_rules c !! id = Some v -> k_rule g id c = MkCore (<[id := g v]> (k_rules c)) (k_locks c) (k_replicas c).
Proof. intros Hv. unfold k_rule. f_equal. by apply alter_alt_Some. Qed.

(** A lock leaves the counter of [st] for that of [st']. *)
Definition v_move (st st' : LockState) (v : View) : View := v_upd_cnt st' (Z.add 1) (v_upd_cnt st (fun n => n - 1)%Z v).

Lemma v_cnt_upd st st' f v : v_cnt st (v_upd_cnt st' f v) = if bool_decide (st = st') then f (v_cnt st v) else v_cnt st v.
Proof. by destruct st, st'. Qed.

Lemma v_move_cnt st st' s v :
  (v_cnt s (v_move st st' v) = v_cnt s v - Z.b2z (bool_decide (st = s)) + Z.b2z (bool_decide (st' = s)))%Z.
Proof. unfold v_move. rewrite !v_cnt_upd. repeat case_bool_decide; subst; cbn [Z.b2z]; try congruence; lia. Qed.

Lemma v_cnt_set_state st s v : v_cnt s (v_set_state st v) = v_cnt s v.
Proof. by destruct s. Qed.

Lemma wpo_move {B} id i st st' v (k : unit -> ST World B) Q w :
  k_rules (core w) !! id = Some v ->
  (forall w' t, core w' = MkCore (<[id := v_move st st' v]> (k_rules (core w)))
                            (alter (fun l => written t (upd_lk_state (fun _ => st') l)) i (w_locks w)) (w_replicas w) ->
     wpo (k tt) Q w') ->
  wpo (do! alter_rule (upd_cnt st (fun n => n - 1)%Z) id in do! alter_rule (upd_cnt st' (Z.add 1)) id in
       let! u := alter_lock (upd_lk_state (fun _ => st')) i in k u) Q w.
Proof.
  intros Hv Hk. apply (wpo_alter_rule _ (v_upd_cnt st (fun n => n - 1)%Z)); [intros; apply view_upd_cnt|]. intros w1 H1.
  apply (wpo_alter_rule _ (v_upd_cnt st' (Z.add 1))); [intros; apply view_upd_cnt|]. intros w2 H2.
  apply wpo_alter_lock. intros w3 t H3. apply (Hk w3 t).
  rewrite H3, H2, H1, (k_rule_Some _ _ _ v Hv), (k_rule_Some _ _ _ (v_upd_cnt st (fun n => n - 1)%Z v)).
  - unfold k_lock. simpl. by rewrite insert_insert_eq.
  - simpl. by rewrite lookup_insert_eq.
Qed.

(** *** Successful transfers *)

Definition succeeded (st : LockState) (v : View) : View :=
  let v := v_move st L_OK v in
  if bool_decide (v_state v = RS_SUSPENDED) then v
  else if bool_decide (0 < v_stuck v)%Z then v
  else if bool_decide (v_replicating v = 0)%Z && bool_decide (v_state v = RS_REPLICATING) then v_set_state RS_OK v
  else v.

Lemma succeeded_fair : fair succeeded L_OK.
Proof.
  intros st v Hst Hnn Hpos.
  assert (forall s, v_cnt s (succeeded st v) = v_cnt s (v_move st L_OK v)) as Hc.
  { intros s. unfold succeeded. repeat case_match; by rewrite ?v_cnt_set_state. }
  split; [|intros s; by rewrite Hc, v_move_cnt].
  pose proof (Hnn L_STUCK). pose proof (Hnn L_REPLICATING). unfold succeeded, state_ok in *.
  destruct v as [state o r s], st, state; cbn in *; repeat (case_bool_decide; cbn in *); try done; lia.
Qed.

Lemma wpo_lookup_rule {B} id v (k : Rule -> ST World B) Q w :
  k_rules (core w) !! id = Some v -> (forall r, w_rules w !! id = Some r -> view r = v -> wpo (k r) Q w) ->
  wpo (let! r := the_rule id in k r) Q w.
Proof.
  intros Hv Hk. apply wpo_the_rule. intros r Hr. apply Hk; [done|]. apply core_rule in Hr. congruence.
Qed.

(** The rule takes a new state. *)
Lemma wpo_set_state {B} st id v ls rs rps (k : unit -> ST World B) Q w :
  core w = MkCore (<[id := v]> rs) ls rps ->
  (forall w', core w' = MkCore (<[id := v_set_state st v]> rs) ls rps -> wpo (k tt) Q w') ->
  wpo (let! u := set_rule_state id st in k u) Q w.
Proof.
  intros Hc Hk. apply (wpo_alter_rule _ (v_set_state st)); [done|]. intros w' Hw'. apply Hk.
  rewrite Hw', Hc, (k_rule_Some _ _ _ v); simpl; [by rewrite insert_insert_eq|by rewrite lookup_insert_eq].
Qed.

(** Only framed operations remain. *)
Lemma wpo_rest (m : ST World unit) c w : frames m -> core w = c -> wpo m (fun _ w' => core w' = c) w.
Proof. intros Hm <-. by apply wpo_frames. Qed.

Lemma lock_succeeds_spec rse i w l :
  engine_ok w -> w_locks w !! i = Some l -> persistent_lock l = true ->
  wpo (lock_succeeds rse i)
    (fun _ w' => if bool_decide (lk_state l = L_OK) then core w' = core w
                 else lock_step succeeded L_OK i (core w) (core w')) w.
Proof.
  intros Hok Hl Hp. destruct (core_rules _ Hok i l Hl Hp) as [v Hv].
  apply wpo_lock_at. intros l0 Hl0. rewrite Hl in Hl0. injection Hl0 as <-.
  case_bool_decide as Hs; [done|]. apply wpo_skip; [frames|]. intros _ w1 H1.
  apply wpo_skip; [frames|]. intros _ w2 H2. rewrite <-H1, <-H2 in Hv.
  apply (wpo_move _ _ _ _ v); [done|]. intros w3 t H3.
  apply (wpo_lookup_rule _ (v_move (lk_state l) L_OK v)); [by rewrite H3; simpl; rewrite lookup_insert_eq|].
  intros r _ Hr. apply wpo_skip; [frames|]. intros _ w4 H4. rewrite H3 in H4.
  apply wpo_bind. eapply wpo_mono.
  - instantiate (1 := fun _ w' => core w' = MkCore (<[lk_rule_id l := succeeded (lk_state l) v]> (k_rules (core w2)))
                        (alter (fun l => written t (upd_lk_state (fun _ => L_OK) l)) i (w_locks w2)) (w_replicas w2)).
    unfold succeeded. rewrite <-Hr. unfold view. cbn [v_state v_stuck v_replicating]. fold (view r). rewrite Hr.
    repeat case_match; try (apply wpo_rest; [frames|done]).
    eapply wpo_set_state; [done|]. intros w5 Hw5. apply wpo_rest; [frames|done].
  - intros [] w5 Hw5. apply wpo_frames; [frames|]. intros _ w6 ->. rewrite Hw5.
    exists l, v, t. change (w_locks w2) with (k_locks (core w2)). change (w_replicas w2) with (k_replicas (core w2)).
    rewrite H2, H1 in *. split_and!; done.
Qed.

(** *** Failed transfers *)

Definition failed (broken : bool) (st : LockState) (v : View) : View :=
  let v := v_move st L_STUCK v in
  if bool_decide (v_state v = RS_SUSPENDED) then v
  else if broken then v_set_state RS_SUSPENDED v
  else if bool_decide (0 < v_stuck v)%Z && negb (bool_decide (v_state v = RS_STUCK)) then v_set_state RS_STUCK v
  else v.

Lemma failed_fair broken : fair (failed broken) L_STUCK.
Proof.
  intros st v Hst Hnn Hpos.
  assert (forall s, v_cnt s (failed broken st v) = v_cnt s (v_move st L_STUCK v)) as Hc.
  { intros s. unfold failed. repeat case_match; by rewrite ?v_cnt_set_state. }
  split; [|intros s; by rewrite Hc, v_move_cnt].
  pose proof (Hnn L_STUCK). unfold failed, state_ok in *.
  destruct v as [state o r s], st, state, broken; cbn in *; repeat (case_bool_decide; cbn in *); try done; lia.
Qed.

Lemma lock_fails_spec e b m i w l :
  engine_ok w -> w_locks w !! i = Some l -> persistent_lock l = true ->
  wpo (lock_fails e b m i)
    (fun _ w' => if bool_decide (lk_state l = L_STUCK) then core w' = core w
                 else lock_step (failed (bool_decide (Some (lk_rule_id l) = b))) L_STUCK i (core w) (core w')) w.
Proof.
  intros Hok Hl Hp. destruct (core_rules _ Hok i l Hl Hp) as [v Hv].
  apply wpo_lock_at. intros l0 Hl0. rewrite Hl in Hl0. injection Hl0 as <-.
  case_bool_decide as Hs; [done|]. apply wpo_skip; [frames|]. intros _ w1 H1.
  apply wpo_skip; [frames|]. intros _ w2 H2. rewrite <-H1, <-H2 in Hv.
  apply (wpo_move _ _ _ _ v); [done|]. intros w3 t H3.
  apply (wpo_lookup_rule _ (v_move (lk_state l) L_STUCK v)); [by rewrite H3; simpl; rewrite lookup_insert_eq|].
  intros r _ Hr. apply wpo_bind. eapply wpo_mono.
  - instantiate (1 := fun _ w' => core w' = MkCore (<[lk_rule_id l := failed (bool_decide (Some (lk_rule_id l) = b)) (lk_state l) v]>
                                              (k_rules (core w2)))
                        (alter (fun l => written t (upd_lk_state (fun _ => L_STUCK) l)) i (w_locks w2)) (w_replicas w2)).
    unfold failed. rewrite <-Hr. unfold view. cbn [v_state v_stuck v_replicating]. fold (view r). rewrite Hr.
    destruct (bool_decide (ru_state r = RS_SUSPENDED)); [apply wpo_rest; [frames|done]|].
    destruct (bool_decide (Some (lk_rule_id l) = b)).
    { eapply wpo_set_state; [done|]. intros w5 Hw5. apply wpo_rest; [frames|done]. }
    destruct (bool_decide (0 < ru_locks_stuck_cnt r)%Z); [|apply wpo_rest; [frames|done]].
    destruct (bool_decide (ru_state r = RS_STUCK)); cbn [andb negb whenS]; [apply wpo_rest; [frames|done]|].
    apply wpo_bind. eapply wpo_set_state; [done|]. intros w5 Hw5. apply wpo_frames; [frames|]. intros [] w6 Hw6.
    apply wpo_rest; [frames|]. by rewrite Hw6.
  - intros [] w5 Hw5. apply wpo_frames; [frames|]. intros _ w6 ->. rewrite Hw5.
    exists l, v, t. change (w_locks w2) with (k_locks (core w2)). change (w_replicas w2) with (k_replicas (core w2)).
    rewrite H2, H1 in *. split_and!; done.
Qed.

(** ** Loops over locks *)

(** Locks in the database stay there, with their keys. *)
Definition keeps (c c' : Core) : Prop :=
  forall i l, k_locks c !! i = Some l -> persistent_lock l = true ->
    exists l', k_locks c' !! i = Some l' /\ persistent_lock l' = true /\ lock_key l' = lock_key l.

#[export] Instance keeps_preorder : PreOrder keeps.
Proof.
  split; [intros c i l Hl Hp; by exists l|]. intros c1 c2 c3 H1 H2 i l Hl Hp.
  destruct (H1 i l Hl Hp) as (l' & Hl' & Hp' & Hk'), (H2 i l' Hl' Hp') as (l3 & ? & ? & ?). exists l3. split_and!; [done|done|congruence].
Qed.

Lemma lock_step_keeps fv st' i c c' : lock_step fv st' i c c' -> keeps c c'.
Proof.
  intros (l & v & t & Hl & Hv & ->) j l0 Hj Hp. simpl. destruct (decide (j = i)) as [->|Hne].
  - rewrite list_lookup_alter_eq, Hj. simpl. eexists. split; [done|].
    assert (persistent_lock (upd_lk_state (fun _ => st') l0) = true) as Hpu by done.
    unfold written. rewrite Hpu. done.
  - rewrite list_lookup_alter_ne by done. eauto.
Qed.

Definition in_database (c : Core) (P : Lock -> bool) (i : nat) : Prop :=
  exists l, k_locks c !! i = Some l /\ persistent_lock l = true /\ P l = true.

Lemma wpo_select_locks {B} P (k : list nat -> ST World B) Q w :
  (forall ls, NoDup ls -> (forall i, i ∈ ls <-> in_database (core w) P i) -> wpo (k ls) Q w) ->
  wpo (let! ls := select_locks P in k ls) Q w.
Proof.
  intros Hk. apply wpo_bind, wp_gets, Hk; [apply select_NoDup|]. intros i. rewrite elem_of_select. unfold in_database.
  setoid_rewrite andb_true_iff. done.
Qed.

(** The end of a loop over locks *)
Lemma wpo_invariant (m : ST World unit) c w :
  wpo m (fun _ w' => engine_ok w' /\ keeps c (core w')) w -> wpo m (fun _ => engine_ok) w.
Proof. intros Hm. eapply wpo_mono; [exact Hm|]. by intros [] w' [Hw' _]. Qed.

Lemma wpo_each_lock (f : nat -> ST World unit) (ls : list nat) w :
  (forall i l w, i ∈ ls -> engine_ok w -> w_locks w !! i = Some l -> persistent_lock l = true ->
     wpo (f i) (fun _ w' => engine_ok w' /\ keeps (core w) (core w')) w) ->
  engine_ok w -> (forall i, i ∈ ls -> in_database (core w) (fun _ => true) i) ->
  wpo (forS f ls) (fun _ w' => engine_ok w' /\ keeps (core w) (core w')) w.
Proof.
  intros Hf Hok Hls.
  apply (wp_for f ls (fun _ _ w' => engine_ok w' /\ keeps (core w) (core w'))); [|done].
  intros d i r w1 -> [Hok1 Hk1]. destruct (Hls i) as (l & Hl & Hp & _); [set_solver|].
  destruct (Hk1 i l Hl Hp) as (l1 & Hl1 & Hp1 & _).
  eapply wpo_mono; [eapply (Hf i l1); [set_solver|done..]|]. intros _ w2 [Hok2 Hk2]. split; [done|by etrans].
Qed.

Lemma successful_transfer_ok did rse w : engine_ok w -> wpo (successful_transfer did rse) (fun _ => engine_ok) w.
Proof.
  intros Hok. apply wpo_select_locks. intros ls _ Hls. apply (wpo_invariant _ (core w)).
  apply wpo_each_lock; [|done|intros i Hi; apply Hls in Hi as (l & ? & ? & _); by exists l].
  clear w Hok Hls. intros i l w _ Hok Hl Hp. eapply wpo_mono; [by eapply lock_succeeds_spec|].
  intros [] w'. case_bool_decide; [unfold engine_ok; by intros ->|]. intros Hstep.
  split; [|by eapply lock_step_keeps]. by eapply lock_step_ok; [apply succeeded_fair|..].
Qed.

Lemma failed_transfer_ok did rse e b m w : engine_ok w -> wpo (failed_transfer did rse e b m) (fun _ => engine_ok) w.
Proof.
  intros Hok. apply wpo_bind, wp_gets. set (staging := attribute_true _).
  apply wpo_skip; [frames|]. intros _ w1 H1. apply wpo_select_locks. intros ls _ Hls.
  apply (wpo_invariant _ (core w1)).
  apply wpo_each_lock; [|unfold engine_ok; by rewrite H1|intros i Hi; apply Hls in Hi as (l & ? & ? & _); by exists l].
  clear w w1 Hok Hls H1 staging. intros i l w _ Hok Hl Hp. eapply wpo_mono; [by eapply lock_fails_spec|].
  intros [] w'. case_bool_decide; [unfold engine_ok; by intros ->|]. intros Hstep.
  split; [|by eapply lock_step_keeps]. by eapply lock_step_ok; [apply failed_fair|..].
Qed.

(** ** Replicas *)

Definition same_replica (r' r : Replica) : Prop := replica_key r' = replica_key r /\ rp_status r' = rp_status r.

Lemma same_replica_persistent r' r : same_replica r' r -> persistent_replica r' = persistent_replica r.
Proof. intros [_ Hs]. unfold persistent_replica. by rewrite Hs. Qed.

Lemma replica_core c j r g :
  core_ok c -> k_replicas c !! j = Some r -> same_replica (g r) r -> (persistent_replica r = true -> replica_ok (k_locks c) (g r)) ->
  core_ok (k_replica g j c).
Proof.
  intros Hok Hr Hsame Hg.
  assert (forall i r', alter g j (k_replicas c) !! i = Some r' -> exists r0, k_replicas c !! i = Some r0 /\ same_replica r' r0 /\
            (i = j -> r' = g r) /\ (i <> j -> r' = r0)) as Hback.
  { intros i r'. destruct (decide (i = j)) as [->|Hi].
    - rewrite list_lookup_alter_eq, Hr. simpl. intros [= <-]. exists r. by split_and!.
    - rewrite list_lookup_alter_ne by done. intros Hr'. exists r'. by split_and!. }
  split; red; cbn [k_replica k_rules k_locks k_replicas]; try apply Hok.
  - intros i1 i2 r1 r2 H1 H2 Hp1 Hp2 Heq. destruct (Hback i1 r1 H1) as (r1' & Hr1 & Hs1 & _), (Hback i2 r2 H2) as (r2' & Hr2 & Hs2 & _).
    rewrite (same_replica_persistent _ _ Hs1) in Hp1. rewrite (same_replica_persistent _ _ Hs2) in Hp2.
    destruct Hs1 as [Hk1 _], Hs2 as [Hk2 _]. apply (core_replica_keys c Hok i1 i2 r1' r2'); [done..|congruence].
  - intros i r' Hr' Hp. destruct (Hback i r' Hr') as (r0 & Hr0 & Hs0 & Hi & Hn). destruct (decide (i = j)) as [->|Hne].
    + rewrite Hi in * by done. apply Hg. by rewrite <-(same_replica_persistent _ _ Hsame).
    + rewrite Hn by done. rewrite (Hn Hne) in Hp. by eapply core_replicas.
  - intros i l Hl Hp. destruct (core_homes c Hok i l Hl Hp) as (j0 & r0 & Hr0 & Hp0 & Hk0). destruct (decide (j0 = j)) as [->|Hne].
    + rewrite Hr in Hr0. injection Hr0 as <-. exists j, (g r). rewrite list_lookup_alter_eq, Hr.
      rewrite (same_replica_persistent _ _ Hsame). destruct Hsame as [-> _]. done.
    + exists j0, r0. by rewrite list_lookup_alter_ne.
Qed.

Definition recovered (st : LockState) (v : View) : View :=
  let v := v_move st L_REPLICATING v in
  if bool_decide (v_state v = RS_SUSPENDED) || bool_decide (v_state v = RS_STUCK) then v else v_set_state RS_REPLICATING v.

Lemma recovered_fair : fair recovered L_REPLICATING.
Proof.
  intros st v Hst Hnn Hpos.
  assert (forall s, v_cnt s (recovered st v) = v_cnt s (v_move st L_REPLICATING v)) as Hc.
  { intros s. unfold recovered. repeat case_match; by rewrite ?v_cnt_set_state. }
  split; [|intros s; by rewrite Hc, v_move_cnt].
  pose proof (Hnn L_STUCK). pose proof (Hnn L_REPLICATING). unfold recovered, state_ok in *.
  destruct v as [state o r s], st, state; cbn in *; repeat (case_bool_decide; cbn in *); try done; lia.
Qed.

Lemma recover_lock_spec did rse rep i w l :
  engine_ok w -> w_locks w !! i = Some l -> persistent_lock l = true ->
  wpo (recover_lock did rse rep i) (fun _ w' => lock_step recovered L_REPLICATING i (core w) (core w')) w.
Proof.
  intros Hok Hl Hp. destruct (core_rules _ Hok i l Hl Hp) as [v Hv].
  apply wpo_lock_at. intros l0 Hl0. rewrite Hl in Hl0. injection Hl0 as <-.
  apply wpo_skip; [frames|]. intros _ w1 H1.
  apply wpo_skip; [frames|]. intros _ w2 H2.
  rewrite <-H1, <-H2 in Hv. apply (wpo_lookup_rule _ v); [done|]. intros r _ Hr.
  apply wpo_skip; [frames|]. intros _ w3 H3. apply wpo_skip; [frames|]. intros _ w4 H4.
  rewrite <-H3, <-H4 in Hv.
  apply (wpo_alter_rule _ (v_upd_cnt (lk_state l) (fun n => n - 1)%Z)); [intros; apply view_upd_cnt|]. intros w5 H5.
  apply (wpo_alter_rule _ (v_upd_cnt L_REPLICATING (Z.add 1))); [intros; apply view_upd_cnt|]. intros w6 H6.
  rewrite H5, (k_rule_Some _ _ _ v Hv), (k_rule_Some _ _ _ (v_upd_cnt (lk_state l) (fun n => n - 1)%Z v)) in H6
    by (simpl; by rewrite lookup_insert_eq).
  cbn [k_rules k_locks k_replicas] in H6. rewrite insert_insert_eq in H6.
  apply wpo_skip; [frames|]. intros requested w7 H7. apply wpo_skip; [frames|]. intros rp w8 H8.
  apply wpo_skip; [frames|]. intros _ w9 H9. apply wpo_alter_lock. intros w10 t H10.
  assert (core w10 = MkCore (<[lk_rule_id l := v_move (lk_state l) L_REPLICATING v]> (k_rules (core w)))
            (alter (fun l => written t (upd_lk_state (fun _ => L_REPLICATING) l)) i (k_locks (core w))) (k_replicas (core w))) as Hc.
  { rewrite H10, H9, H8, H7, H6. unfold k_lock. cbn [k_rules k_locks k_replicas]. rewrite H4, H3, H2, H1. done. }
  apply wpo_bind. eapply wpo_mono with (Q := fun _ w' => lock_step recovered L_REPLICATING i (core w) (core w')).
  - rewrite H1, H2, H3, H4 in *.
    assert (forall w', core w' = MkCore (<[lk_rule_id l := recovered (lk_state l) v]> (k_rules (core w)))
            (alter (fun l => written t (upd_lk_state (fun _ => L_REPLICATING) l)) i (k_locks (core w))) (k_replicas (core w)) ->
            lock_step recovered L_REPLICATING i (core w) (core w')) as Hfin by (intros w' ->; by exists l, v, t).
    assert (ru_state r = v_state (v_move (lk_state l) L_REPLICATING v)) as Hst by (rewrite <-Hr; by destruct (lk_state l)).
    unfold recovered in Hfin. rewrite <-Hst in Hfin. destruct (bool_decide (ru_state r = RS_SUSPENDED) || _).
    + apply wp_ret. by apply Hfin.
    + eapply wpo_set_state; [done|]. intros w11 Hw11. apply wpo_frames; [frames|]. intros _ w12 Hw12. apply Hfin. by rewrite Hw12.
  - intros [] w11 H11. apply wpo_frames; [frames|]. by intros _ w12 ->.
Qed.
