(* ===== verification/RuleLosses.v ===== *)
(** * Locks that go

    Bad and lost replicas, and rules that are deleted, keep the invariant of the rule engine. *)

From S2P Require Import Prelude StateError Counting Types Database RseSelector LockTables RuleGrouping RuleEngine RuleInvariant RuleEvents.

#[local] Arguments Z.add : simpl never.
#[local] Arguments Z.sub : simpl never.

(** ** One lock goes *)

Definition deleted (t : Z) (l : Lock) : Lock := written t (upd_lk_status (fun _ => Deleted) l).

Lemma deleted_persistent t l : persistent_lock (deleted t l) = false.
Proof. done. Qed.
Lemma deleted_lock_of t l id st : lock_of id st (deleted t l) = false.
Proof. done. Qed.
Lemma deleted_on_key t l key : lock_on_key key (deleted t l) = false.
Proof. done. Qed.

Lemma lookup_deleted t (i j : nat) (ls : list Lock) l' :
  alter (deleted t) i ls !! j = Some l' -> persistent_lock l' = true -> j <> i /\ ls !! j = Some l'.
Proof.
  intros (l & Hl & ->)%lookup_alter_locks. destruct (decide (j = i)); [by rewrite deleted_persistent|done].
Qed.

Lemma count_deleted P t (i : nat) (ls : list Lock) l :
  ls !! i = Some l -> P (deleted t l) = false -> count (fun _ => P) (alter (deleted t) i ls) = (count (fun _ => P) ls - Z.b2z (P l))%Z.
Proof. intros Hl HP. rewrite (count_alter _ _ i l) by done. rewrite HP. cbn [Z.b2z]. lia. Qed.

Lemma count_deleted_le P t (i : nat) (ls : list Lock) l :
  ls !! i = Some l -> P (deleted t l) = false -> (count (fun _ => P) (alter (deleted t) i ls) <= count (fun _ => P) ls)%Z.
Proof. intros Hl HP. rewrite (count_deleted P t i ls l) by done. destruct (P l); cbn [Z.b2z]; lia. Qed.

Definition k_drop (t : Z) (i : nat) (id : string) (v' : View) (c : Core) : Core :=
  MkCore (<[id := v']> (k_rules c)) (alter (deleted t) i (k_locks c)) (k_replicas c).

Lemma drop_core c i l t v v' :
  core_ok c -> k_locks c !! i = Some l -> persistent_lock l = true -> k_rules c !! lk_rule_id l = Some v ->
  (forall s, v_cnt s v' = v_cnt s v - Z.b2z (bool_decide (lk_state l = s)))%Z -> state_ok v' ->
  core_ok (k_drop t i (lk_rule_id l) v' c).
Proof.
  intros Hok Hl Hp Hv Hv' Hst. split; red; cbn [k_drop k_rules k_locks k_replicas].
  - intros id v0 st Hv0. rewrite (count_deleted _ _ _ _ l) by done. unfold lock_of at 2. rewrite Hp, andb_true_l.
    apply lookup_insert_Some in Hv0 as [[<- <-]|[Hne Hv0]].
    + by rewrite Hv', (core_counters c Hok _ v st Hv), (bool_decide_true (lk_rule_id l = lk_rule_id l)).
    + rewrite (core_counters c Hok _ v0 st Hv0), (bool_decide_false (lk_rule_id l = id)) by done. cbn [andb Z.b2z]. lia.
  - intros id v0 [[_ <-]|[_ Hv0]]%lookup_insert_Some; [done|]. by eapply core_states.
  - intros j l' Hj Hpj. apply lookup_deleted in Hj as [_ Hj]; [|done].
    destruct (decide (lk_rule_id l = lk_rule_id l')) as [->|Hne]; [by rewrite lookup_insert_eq|].
    rewrite lookup_insert_ne by done. by eapply core_rules.
  - intros j1 j2 l1 l2 H1 H2 Hp1 Hp2. apply lookup_deleted in H1 as [_ H1]; [|done]. apply lookup_deleted in H2 as [_ H2]; [|done].
    by apply (core_lock_keys c Hok j1 j2).
  - apply Hok.
  - intros j r Hr Hpr. destruct (core_replicas c Hok j r Hr Hpr) as [Hn Ht].
    pose proof (count_deleted_le (lock_on_key (replica_key r)) t i (k_locks c) l Hl eq_refl) as Hle.
    pose proof (count_nonneg (fun _ => lock_on_key (replica_key r)) (alter (deleted t) i (k_locks c))).
    split; [lia|]. intros Hs%Ht. lia.
  - intros j l' Hj Hpj. apply lookup_deleted in Hj as [_ Hj]; [|done]. by eapply core_homes.
Qed.

(** The replica a lock goes from may lower its lock count, and get a tombstone when it comes to none. *)
Lemma drop_replica_core c i l t v v' j r g :
  core_ok c -> k_locks c !! i = Some l -> persistent_lock l = true -> k_rules c !! lk_rule_id l = Some v ->
  (forall s, v_cnt s v' = v_cnt s v - Z.b2z (bool_decide (lk_state l = s)))%Z -> state_ok v' ->
  k_replicas c !! j = Some r -> persistent_replica r = true -> replica_key r = (lk_did l, lk_rse_id l) ->
  same_replica (g r) r -> rp_lock_cnt (g r) = (rp_lock_cnt r - 1)%Z ->
  (is_Some (rp_tombstone (g r)) -> is_Some (rp_tombstone r) \/ (rp_lock_cnt r - 1 = 0)%Z) ->
  core_ok (k_replica g j (k_drop t i (lk_rule_id l) v' c)).
Proof.
  intros Hok Hl Hp Hv Hv' Hst Hr Hpr Hkey Hsame Hcnt Htomb.
  pose proof (core_replicas c Hok j r Hr Hpr) as [Hn Ht].
  apply replica_core with r; [by eapply drop_core|done|done|]. intros _. destruct Hsame as [Hsk _]. unfold replica_ok.
  rewrite Hsk, Hcnt. cbn [k_drop k_locks]. rewrite (count_deleted _ _ _ _ l) by done.
  pose proof (count_nonneg (fun _ => lock_on_key (replica_key r)) (alter (deleted t) i (k_locks c))) as Hnn.
  rewrite (count_deleted _ _ _ _ l) in Hnn by done.
  assert (lock_on_key (replica_key r) l = true) as Hon.
  { unfold lock_on_key, on_file. rewrite Hkey. simpl. by rewrite Hp, !bool_decide_true. }
  rewrite Hon in *. cbn [Z.b2z] in *. split; [lia|]. intros [Hs%Ht|Hz]%Htomb; lia.
Qed.

(** A change of a replica that concerns neither its key nor its locks *)
Lemma replica_touch c j g :
  core_ok c -> (forall r, same_replica (g r) r /\ rp_lock_cnt (g r) = rp_lock_cnt r /\ rp_tombstone (g r) = rp_tombstone r) ->
  core_ok (k_replica g j c).
Proof.
  intros Hok Hg. destruct (k_replicas c !! j) as [r|] eqn:Hr.
  - destruct (Hg r) as (Hsame & Hc & Ht). apply replica_core with r; [done..|]. intros Hp.
    pose proof (core_replicas c Hok j r Hr Hp) as Hrep. destruct Hsame as [Hk _]. unfold replica_ok in *. by rewrite Hk, Hc, Ht.
  - unfold k_replica. rewrite alter_outside by done. by destruct c.
Qed.

Lemma core_alter_replica g j w : core (upd_w_replicas (alter g j) w) = k_replica g j (core w).
Proof. done. Qed.

(** ** Bad replicas *)

Lemma wpo_replica {B} did rse (k : nat -> ST World B) Q w :
  (forall j r, k_replicas (core w) !! j = Some r -> persistent_replica r = true -> replica_key r = (did, rse) -> wpo (k j) Q w) ->
  wpo (let! found := select_replicas (on_replica did rse) in let! replica := one_of found in k replica) Q w.
Proof.
  intros Hk. apply wpo_bind, wp_gets. unfold one_of, scalar_one.
  destruct (select _ (w_replicas w)) as [|j js] eqn:Hs; [done|]. apply wpo_bind.
  assert (j ∈ select (fun r => persistent_replica r && on_replica did rse r) (w_replicas w)) as Hj by (rewrite Hs; by left).
  apply elem_of_select in Hj as (r & Hr & [Hp Ho]%andb_true_iff). apply (Hk j r Hr Hp).
  unfold on_replica in Ho. apply andb_true_iff in Ho as [?%bool_decide_eq_true ?%bool_decide_eq_true]. unfold replica_key. congruence.
Qed.

Lemma on_file_key did rse l : on_file did rse l = true <-> (lk_did l, lk_rse_id l) = (did, rse).
Proof. unfold on_file. rewrite andb_true_iff, !bool_decide_eq_true. split; [intros [-> ->]; done|]. by intros [= -> ->]. Qed.

Lemma no_locks_on c did rse :
  (forall i, ~ in_database c (on_file did rse) i) -> count (fun _ => lock_on_key (did, rse)) (k_locks c) = 0%Z.
Proof.
  intros Hno. assert (count (fun _ => lock_on_key (did, rse)) (k_locks c) <= 0)%Z.
  { apply count_zero. intros i l Hl. destruct (lock_on_key (did, rse) l) eqn:Ho; [|done]. exfalso.
    apply andb_true_iff in Ho as [Hp Ho]. apply (Hno i). by exists l. }
  pose proof (count_nonneg (fun _ => lock_on_key (did, rse)) (k_locks c)). lia.
Qed.

(** A replica without locks may get a tombstone. *)
Lemma replica_free c j r g did rse :
  core_ok c -> k_replicas c !! j = Some r -> replica_key r = (did, rse) ->
  (forall i, ~ in_database c (on_file did rse) i) -> same_replica (g r) r -> (0 <= rp_lock_cnt (g r))%Z -> core_ok (k_replica g j c).
Proof.
  intros Hok Hr Hkey Hno Hsame Hcnt. apply replica_core with r; [done..|]. intros _. destruct Hsame as [Hk _].
  unfold replica_ok. rewrite Hk, Hkey, no_locks_on by done. done.
Qed.

Lemma update_rules_for_bad_replica_ok did rse w :
  engine_ok w -> wpo (update_rules_for_bad_replica did rse) (fun _ => engine_ok) w.
Proof.
  intros Hok. apply wpo_select_locks. intros ls _ Hls. apply wpo_replica. intros j r Hr Hp Hkey. apply wpo_bind.
  destruct ls as [|i ls].
  - apply wp_ret. apply wpo_skip; [frames|]. intros _ w1 H1. apply wp_modify. unfold engine_ok.
    rewrite core_alter_replica, H1. apply replica_free with r did rse; [done..| | |].
    + intros i Hi. by apply Hls, elem_of_nil in Hi.
    + done.
    + pose proof (core_replicas _ Hok j r Hr Hp) as [Hn _]. pose proof (count_nonneg (fun _ => lock_on_key (replica_key r)) (k_locks (core w))). simpl. lia.
  - eapply wpo_mono.
    + apply wpo_each_lock; [|done|intros i' Hi'; apply Hls in Hi' as (l & ? & ? & _); by exists l].
      clear w Hok Hls Hr. intros i' l w _ Hok Hl Hpl. eapply wpo_mono; [by eapply recover_lock_spec|].
      intros [] w' Hstep. split; [|by eapply lock_step_keeps]. by eapply lock_step_ok; [apply recovered_fair|..].
    + intros [] w1 [Hok1 _]. apply wp_modify. unfold engine_ok. rewrite core_alter_replica. by apply replica_touch.
Qed.

(** ** Lost replicas *)

Definition settled (v : View) : View :=
  if bool_decide (v_state v = RS_SUSPENDED) || bool_decide (v_state v = RS_STUCK) then v
  else if bool_decide (v_replicating v = 0)%Z && bool_decide (v_stuck v = 0)%Z then v_set_state RS_OK v else v.

Lemma v_cnt_settled s v : v_cnt s (settled v) = v_cnt s v.
Proof. unfold settled. repeat case_match; by rewrite ?v_cnt_set_state. Qed.

(** A lock in the state [st] of the rule goes. *)
Definition v_drop (st : LockState) (v : View) : View := v_upd_cnt st (fun n => n - 1)%Z v.

Lemma v_drop_cnt st s v : (v_cnt s (v_drop st v) = v_cnt s v - Z.b2z (bool_decide (st = s)))%Z.
Proof. unfold v_drop. rewrite v_cnt_upd. repeat case_bool_decide; subst; cbn [Z.b2z]; try congruence; lia. Qed.

Lemma settled_state_ok st v :
  state_ok v -> (forall s, 0 <= v_cnt s v)%Z -> (0 < v_cnt st v)%Z -> state_ok (settled (v_drop st v)).
Proof.
  intros Hst Hnn Hpos. pose proof (Hnn L_STUCK). pose proof (Hnn L_REPLICATING). unfold settled, v_drop, state_ok in *.
  destruct v as [state o r s], st, state; cbn in *; repeat (case_bool_decide; cbn in *); try done; lia.
Qed.

Lemma settle_rule_spec id v rs ls rps m w :
  frames m -> core w = MkCore (<[id := v]> rs) ls rps ->
  wpo (settle_rule id m) (fun _ w' => core w' = MkCore (<[id := settled v]> rs) ls rps) w.
Proof.
  intros Hm Hc. apply (wpo_lookup_rule _ v); [by rewrite Hc; cbn [k_rules]; rewrite lookup_insert_eq|].
  intros r _ Hr. unfold settled. rewrite <-Hr. unfold view. cbn [v_state v_replicating v_stuck]. fold (view r). rewrite Hr.
  repeat case_match; try (by apply wp_ret).
  eapply wpo_set_state; [done|]. intros w' Hw'. apply wpo_frames; [frames|]. by intros [] w'' ->.
Qed.

Lemma frames_when_notify id b : frames (whenS b (do! generate_rule_notifications id None in generate_email_for_rule_ok_notification id)).
Proof. frames. Qed.

(** The lock at [i] on the replica at [j] goes. *)
Definition lock_lost (i j : nat) (c c' : Core) : Prop :=
  exists l v t, k_locks c !! i = Some l /\ k_rules c !! lk_rule_id l = Some v /\
    c' = k_replica (upd_rp_lock_cnt (fun n => n - 1)%Z) j (k_drop t i (lk_rule_id l) (settled (v_drop (lk_state l) v)) c).

Lemma lose_lock_spec rse j i w l :
  engine_ok w -> w_locks w !! i = Some l -> persistent_lock l = true ->
  wpo (lose_lock rse j i) (fun _ w' => lock_lost i j (core w) (core w')) w.
Proof.
  intros Hok Hl Hp. destruct (core_rules _ Hok i l Hl Hp) as [v Hv].
  apply wpo_lock_at. intros l0 Hl0. rewrite Hl in Hl0. injection Hl0 as <-.
  apply wpo_the_rule. intros r Hr. apply wpo_alter_replica. intros w1 H1.
  apply (wpo_alter_rule _ (v_drop (lk_state l))); [intros; apply view_upd_cnt|]. intros w2 H2.
  rewrite (k_rule_Some _ _ _ v), H1 in H2 by (by rewrite H1). cbn [k_replica k_rules k_locks k_replicas] in H2.
  apply wpo_skip; [frames|]. intros _ w3 H3. rewrite H2 in H3. apply wpo_bind.
  eapply wpo_mono; [eapply settle_rule_spec; [apply frames_when_notify|done]|]. intros [] w4 H4.
  apply wpo_skip; [frames|]. intros _ w5 H5. apply wp_modify. exists l, v, (now (w_session w5)). split_and!; [done..|].
  transitivity (k_lock (deleted (now (w_session w5))) i (core w5)); [done|]. by rewrite H5, H4.
Qed.

Lemma lock_lost_ok i j c c' l r :
  core_ok c -> k_locks c !! i = Some l -> persistent_lock l = true -> k_replicas c !! j = Some r -> persistent_replica r = true ->
  replica_key r = (lk_did l, lk_rse_id l) -> lock_lost i j c c' -> core_ok c'.
Proof.
  intros Hok Hl Hp Hr Hpr Hkey (l0 & v & t & Hl0 & Hv & ->). rewrite Hl in Hl0. injection Hl0 as <-.
  apply drop_replica_core with v r; try done.
  - intros s. by rewrite v_cnt_settled, v_drop_cnt.
  - apply settled_state_ok; [by eapply core_states|intros s; by eapply counters_nonneg|by eapply counter_pos].
  - by left.
Qed.

Lemma in_database_deleted P t i c c' k :
  k_locks c' = alter (deleted t) i (k_locks c) -> in_database c' P k <-> k <> i /\ in_database c P k.
Proof.
  unfold in_database. intros ->. split.
  - intros (l & Hl & Hp & HP). destruct (lookup_deleted _ _ _ _ _ Hl Hp) as [Hne Hl']. split; [done|]. by exists l.
  - intros [Hne (l & Hl & Hp & HP)]. exists l. by rewrite list_lookup_alter_ne.
Qed.

(** One lock fewer to go *)
Lemma next_lock P t i r c c' :
  NoDup (i :: r) -> (forall k, in_database c P k <-> k ∈ i :: r) -> k_locks c' = alter (deleted t) i (k_locks c) ->
  forall k, in_database c' P k <-> k ∈ r.
Proof.
  intros [Hi _]%NoDup_cons Hls Hc k. rewrite (in_database_deleted P t i c c' k Hc), Hls, elem_of_cons.
  split; [by intros [? [?|?]]|]. intros Hk. split; [by intros ->|by right].
Qed.

Lemma replica_alter c j g r :
  k_replicas c !! j = Some r -> k_replicas (k_replica g j c) !! j = Some (g r).
Proof. intros Hr. cbn [k_replica k_replicas]. by rewrite list_lookup_alter_eq, Hr. Qed.

Definition replica_is (j : nat) (key : DID * string) (c : Core) : Prop :=
  exists r, k_replicas c !! j = Some r /\ persistent_replica r = true /\ replica_key r = key.

Lemma lose_locks_ok did rse j ls w :
  engine_ok w -> NoDup ls -> replica_is j (did, rse) (core w) ->
  (forall k, in_database (core w) (on_file did rse) k <-> k ∈ ls) ->
  wpo (forS (lose_lock rse j) ls)
    (fun _ w' => engine_ok w' /\ replica_is j (did, rse) (core w') /\ forall k, ~ in_database (core w') (on_file did rse) k) w.
Proof.
  intros Hok Hnd Hj Hls. eapply wpo_mono.
  - apply (wp_for (lose_lock rse j) ls (fun _ r w' => engine_ok w' /\ replica_is j (did, rse) (core w') /\ NoDup r /\
      forall k, in_database (core w') (on_file did rse) k <-> k ∈ r) (fun _ _ => True)); [|done].
    clear w Hok Hnd Hj Hls. intros d i r w -> (Hok & (rp & Hrp & Hprp & Hkey) & Hnd & Hls).
    assert (in_database (core w) (on_file did rse) i) as (l & Hl & Hp & Hon) by (apply Hls; by left).
    apply on_file_key in Hon. eapply wpo_mono; [by eapply lose_lock_spec|]. intros [] w' Hlost. split_and!.
    + eapply lock_lost_ok; [exact Hok|exact Hl|exact Hp|exact Hrp|exact Hprp|congruence|exact Hlost].
    + destruct Hlost as (l' & v & t & _ & _ & ->). eexists. split; [by apply replica_alter|]. done.
    + by apply NoDup_cons in Hnd as [_ ?].
    + destruct Hlost as (l' & v & t & _ & _ & ->). by apply (next_lock _ t i r (core w)).
  - intros [] w' (Hok' & Hj' & _ & Hls'). split_and!; [done|done|]. intros k Hk%Hls'. by apply elem_of_nil in Hk.
Qed.

Lemma update_rules_for_lost_replica_ok did rse w :
  engine_ok w -> wpo (update_rules_for_lost_replica did rse) (fun _ => engine_ok) w.
Proof.
  intros Hok. apply wpo_select_locks. intros ls Hnd Hls. apply wpo_replica. intros j r Hr Hp Hkey.
  apply wpo_skip; [frames|]. intros _ w1 H1. apply wpo_skip; [frames|]. intros ds w2 H2.
  apply wpo_skip; [frames|]. intros _ w3 H3. apply wpo_bind.
  assert (core w3 = core w) as Hc by (by rewrite H3, H2).
  eapply wpo_mono; [apply (lose_locks_ok did rse)|].
  - unfold engine_ok in *. by rewrite Hc.
  - done.
  - rewrite Hc. by exists r.
  - intros k. by rewrite Hc, Hls.
  - intros [] w4 (Hok4 & (r4 & Hr4 & _ & Hkey4) & Hno). apply wpo_alter_replica. intros w5 H5.
    apply wpo_frames; [frames|]. intros _ w6 H6. unfold engine_ok. rewrite H6, H5. by apply replica_free with r4 did rse.
Qed.

(** ** Rules that are deleted *)

Lemma wpo_first_replica {B} did rse (k : nat -> ST World B) (m : ST World B) Q w :
  (forall j, replica_is j (did, rse) (core w) -> wpo (k j) Q w) -> wpo m Q w ->
  wpo (let! found := select_replicas (on_replica did rse) in match found with replica :: _ => k replica | [] => m end) Q w.
Proof.
  intros Hk Hm. apply wpo_bind, wp_gets.
  destruct (select _ (w_replicas w)) as [|j js] eqn:Hs; [done|]. apply Hk.
  assert (j ∈ select (fun r => persistent_replica r && on_replica did rse r) (w_replicas w)) as Hj by (rewrite Hs; by left).
  apply elem_of_select in Hj as (r & Hr & [Hp Ho]%andb_true_iff). exists r. split_and!; [done..|].
  unfold on_replica in Ho. apply andb_true_iff in Ho as [?%bool_decide_eq_true ?%bool_decide_eq_true]. unfold replica_key. congruence.
Qed.

(** The core when the counters of the rule that is deleted were those of its locks, and it were suspended *)
Definition k_true (id : string) (v : View) (c : Core) : Core := MkCore (<[id := v]> (k_rules c)) (k_locks c) (k_replicas c).

Lemma unlocked_replica st purge r :
  same_replica (unlocked st purge r) r /\ rp_lock_cnt (unlocked st purge r) = (rp_lock_cnt r - 1)%Z /\
  (is_Some (rp_tombstone (unlocked st purge r)) -> is_Some (rp_tombstone r) \/ (rp_lock_cnt r - 1 = 0)%Z).
Proof.
  unfold unlocked. set (r1 := upd_rp_lock_cnt _ r). change (rp_lock_cnt r1) with (rp_lock_cnt r - 1)%Z.
  case_bool_decide; [|by split_and!; [done..|left]].
  destruct (bool_decide (st = L_REPLICATING)); by split_and!; [done..|right].
Qed.

(** A lock of a rule is deleted, while the view of the rule is [v]. *)
Lemma delete_lock_spec id purge i l v w :
  w_locks w !! i = Some l -> persistent_lock l = true -> lk_rule_id l = id -> v_state v = RS_SUSPENDED ->
  core_ok (k_true id v (core w)) ->
  wpo (delete_lock_and_update_replica purge i)
    (fun _ w' => k_rules (core w') = k_rules (core w) /\ (exists t, k_locks (core w') = alter (deleted t) i (k_locks (core w))) /\
                 core_ok (k_true id (v_drop (lk_state l) v) (core w'))) w.
Proof.
  intros Hl Hp <- Hst Hok. apply wpo_lock_at. intros l0 Hl0. rewrite Hl in Hl0. injection Hl0 as <-.
  apply wpo_modify. set (w1 := upd_w_locks _ w). set (t := now (w_session w)). set (v' := v_drop (lk_state l) v).
  assert (state_ok v') as Hsok by (unfold state_ok, v', v_drop; by destruct (lk_state l); simpl; rewrite Hst).
  assert (core w1 = MkCore (k_rules (core w)) (alter (deleted t) i (k_locks (core w))) (k_replicas (core w))) as H1 by done.
  assert (k_rules (k_true (lk_rule_id l) v (core w)) !! lk_rule_id l = Some v) as Hv by (cbn; by rewrite lookup_insert_eq).
  assert (forall rps, k_true (lk_rule_id l) v' (MkCore (k_rules (core w)) (alter (deleted t) i (k_locks (core w))) rps) =
            MkCore (k_rules (k_drop t i (lk_rule_id l) v' (k_true (lk_rule_id l) v (core w)))) (alter (deleted t) i (k_locks (core w))) rps) as Htrue.
  { intros rps. unfold k_true, k_drop. cbn [k_rules k_locks k_replicas]. by rewrite insert_insert_eq. }
  apply wpo_first_replica.
  - intros j (rp & Hrp & Hprp & Hkey). rewrite H1 in Hrp. destruct (unlocked_replica (lk_state l) purge rp) as (Hsame & Hcnt & Htomb).
    apply wpo_alter_replica. intros w2 H2. apply wpo_frames; [frames|]. intros _ w3 H3. rewrite H3, H2, H1.
    split_and!; [done|by exists t|]. unfold k_replica. cbn [k_rules k_locks k_replicas]. rewrite Htrue.
    apply (drop_replica_core _ i l t v v' j rp (unlocked (lk_state l) purge)) in Hok; try done.
    intros s. apply v_drop_cnt.
  - apply wpo_frames; [frames|]. intros _ w2 ->. rewrite H1. split_and!; [done|by exists t|]. rewrite Htrue.
    apply (drop_core _ i l t v v') in Hok; try done. intros s. apply v_drop_cnt.
Qed.

(** The locks of a rule while it is deleted: [ls] are left. *)
Definition deleting (id : string) (rs : gmap string View) (ls : list nat) (c : Core) : Prop :=
  k_rules c = rs /\ NoDup ls /\ (forall k, in_database c (fun l => bool_decide (lk_rule_id l = id)) k <-> k ∈ ls) /\
  exists v, v_state v = RS_SUSPENDED /\ core_ok (k_true id v c).

Lemma delete_lock_and_update_replica_spec id purge i r w :
  deleting id (k_rules (core w)) (i :: r) (core w) ->
  wpo (delete_lock_and_update_replica purge i) (fun _ w' => deleting id (k_rules (core w)) r (core w')) w.
Proof.
  intros (_ & Hnd & Hls & v & Hst & Hok).
  assert (in_database (core w) (fun l => bool_decide (lk_rule_id l = id)) i) as (l & Hl & Hp & Hid%bool_decide_eq_true) by (apply Hls; by left).
  eapply wpo_mono; [by apply (delete_lock_spec id purge i l v)|]. intros b w' (Hrs & [t Hlocks] & Hok').
  split_and!; [done|by apply NoDup_cons in Hnd as [_ ?]|by eapply (next_lock _ t i r (core w))|].
  exists (v_drop (lk_state l) v). split; [unfold v_drop; by destruct (lk_state l)|done].
Qed.

Lemma start_deleting id v c : core_ok c -> k_rules c !! id = Some v -> core_ok (k_true id (v_set_state RS_SUSPENDED v) c).
Proof.
  intros Hok Hv. split; red; cbn [k_true k_rules k_locks k_replicas].
  - intros id' v' st [[<- <-]|[_ Hv']]%lookup_insert_Some; [rewrite v_cnt_set_state|]; by eapply core_counters.
  - intros id' v' [[_ <-]|[_ Hv']]%lookup_insert_Some; [done|]. by eapply core_states.
  - intros i l Hl Hp. apply lookup_insert_is_Some. destruct (decide (id = lk_rule_id l)); [by left|right]. split; [done|]. by eapply core_rules.
  - apply Hok.
  - apply Hok.
  - apply Hok.
  - apply Hok.
Qed.

(** A rule without locks may go. *)
Lemma forget_core id v c :
  core_ok (k_true id v c) -> (forall k, ~ in_database c (fun l => bool_decide (lk_rule_id l = id)) k) ->
  core_ok (MkCore (delete id (k_rules c)) (k_locks c) (k_replicas c)).
Proof.
  intros Hok Hno. split; red; cbn [k_rules k_locks k_replicas].
  - intros id' v' st [Hne Hv']%lookup_delete_Some. eapply (core_counters _ Hok). cbn. by rewrite lookup_insert_ne.
  - intros id' v' [Hne Hv']%lookup_delete_Some. eapply (core_states _ Hok). cbn. by rewrite lookup_insert_ne.
  - intros i l Hl Hp. pose proof (core_rules _ Hok i l Hl Hp) as Hr. cbn in Hr.
    assert (id <> lk_rule_id l) as Hne by (intros ->; apply (Hno i); exists l; by rewrite bool_decide_true).
    rewrite lookup_insert_ne in Hr by done. by rewrite lookup_delete_ne.
  - apply Hok.
  - apply Hok.
  - apply Hok.
  - apply Hok.
Qed.

Lemma core_delete_rule id w : core (upd_w_rules (delete id) w) = MkCore (delete id (k_rules (core w))) (k_locks (core w)) (k_replicas (core w)).
Proof. unfold core. simpl. by rewrite fmap_delete. Qed.

Lemma delete_rule_ok id purge soft parent ignore w :
  engine_ok w -> wpo (delete_rule id purge soft parent ignore) (fun _ => engine_ok) w.
Proof.
  intros Hok. apply wpo_bind, wp_gets, wpo_bind, wp_lift; [|done]. intros r Hr.
  destruct (w_rules w !! id) as [r'|] eqn:Hrule; simplify_eq/=. destruct (ru_locked r && _); [done|]. destruct (bool_decide _ && _); [done|].
  apply wpo_skip; [frames|]. intros _ w1 H1. destruct soft.
  - apply wpo_frames; [frames|]. unfold engine_ok. by intros _ w2 ->; rewrite H1.
  - apply wpo_select_locks. intros ls Hnd Hls. apply wpo_bind.
    set (b := default (ru_purge_replicas r) purge).
    eapply wpo_mono.
    + apply (wp_concat (delete_rule_lock b) ls (fun _ rest w' => deleting id (k_rules (core w1)) rest (core w')) (fun _ _ => True)).
      * clear Hls. intros d i rest w' _ Hd. pose proof Hd as (Hrs & _). apply wpo_skip; [frames|]. intros l w2 H2. apply wpo_bind.
        eapply wpo_mono; [apply (delete_lock_and_update_replica_spec id b i rest)|].
        { rewrite H2, Hrs. done. }
        intros c w3 Hw3. apply wp_ret. by rewrite <-Hrs, <-H2.
      * split_and!; [done|done|intros k; by rewrite Hls|]. exists (v_set_state RS_SUSPENDED (view r)). split; [done|].
        rewrite H1. apply start_deleting; [done|]. by apply core_rule.
    + intros gone w2 (Hrs & _ & Hno & v & _ & Hv). apply wpo_skip; [frames|]. intros _ w3 H3. apply wpo_skip; [frames|]. intros _ w4 H4.
      apply wpo_skip; [frames|]. intros _ w5 H5. apply wpo_skip; [frames|]. intros _ w6 H6.
      apply wpo_modify. apply wpo_frames; [frames|]. unfold engine_ok. intros _ w7 ->. rewrite core_delete_rule.
      rewrite H6, H5, H4, H3. apply (forget_core id v); [done|]. intros k Hk%Hno. by apply elem_of_nil in Hk.
Qed.
