(* ===== verification/RuleRepair.v ===== *)
(** * Rules over time: [lib/rucio/core/rule.py]

    Locks, replicas and transfers are made for a rule, a rule that is stuck is repaired, and rules
    follow the content of their data identifiers.  The files a data identifier stands for are
    resolved with their locks and replicas first ([lib/rucio/core/replica.py], [lock.py], [did.py]). *)

From Stdlib Require Import ZArith.
From stdpp Require Import pretty.
From S2P Require Import Prelude StateError Counting PyString Types Database RseExpression RseSelector LockTables RuleGrouping RuleEngine.

(** ** Data identifiers *)

Definition contents_of (w : World) (did : DID) : list Content :=
  List.filter (fun c => bool_decide (c_parent c = did)) (w_contents w).
(** No chain of data identifiers is longer than the table. *)
Definition content_depth (w : World) : nat := S (length (w_contents w)).

(** [list_files]: the files of a data identifier, those of a container once for every way to them.  What
    is still to be listed is a stack, so that the child found last comes first. *)
Fixpoint files_under (fuel : nat) (w : World) (did : DID) (t : DIDType) : list DID :=
  match fuel with
  | O => []
  | S fuel =>
      match t with
      | DATASET => c_child <$> contents_of w did
      | _ => concat ((fun c => files_under fuel w (c_child c) (c_child_type c)) <$> reverse (contents_of w did))
      end
  end.
Definition list_files (w : World) (did : DID) : result (list DID) :=
  let* d := or_raise DataIdentifierNotFound (w_dids w !! did) in
  Ok (if bool_decide (d_type d = FILE) then [did] else files_under (content_depth w) w did (d_type d)).

(** [list_all_parent_dids], with a parent once for every way to it *)
Fixpoint parents_above (fuel : nat) (w : World) (did : DID) : list DID :=
  match fuel with
  | O => []
  | S fuel =>
      concat ((fun c => c_parent c :: parents_above fuel w (c_parent c)) <$>
              List.filter (fun c => bool_decide (c_child c = did)) (w_contents w))
  end.
Definition list_all_parent_dids (w : World) (did : DID) : list DID := parents_above (content_depth w) w did.

(** [get_did(..., dynamic_depth=DIDType.FILE)['length']] *)
Definition dynamic_length (w : World) (did : DID) : result Z :=
  let* d := or_raise DataIdentifierNotFound (w_dids w !! did) in
  Ok match d_type d with
     | FILE => 1%Z
     | DATASET => Z.of_nat (length (contents_of w did))
     | CONTAINER => Z.of_nat (length (concat (contents_of w <$> list_child_datasets w did)))
     | _ => default 0%Z (d_length d)
     end.

(** [__oldest_file_under]: children in the order in which they were attached *)
Fixpoint oldest_file_under (fuel : nat) (w : World) (did : DID) : option DID :=
  match fuel with
  | O => None
  | S fuel =>
      let fix first (l : list Content) : option DID :=
        match l with
        | [] => None
        | c :: l =>
            match c_child_type c with
            | FILE => Some (c_child c)
            | DATASET | CONTAINER =>
                match oldest_file_under fuel w (c_child c) with Some out => Some out | None => first l end
            | _ => first l
            end
        end in
      first (contents_of w did)
  end.

(** ** The locks and replicas of files *)

(** No restriction is an empty list of RSEs. *)
Definition in_rses (rses : list string) (rse_id : string) : bool :=
  match rses with [] => true | _ => bool_decide (rse_id ∈ rses) end.
(** Long lists of RSEs do not restrict. *)
Definition in_few_rses (rses : list string) (rse_id : string) : bool :=
  bool_decide (10 <= length rses)%nat || in_rses rses rse_id.

Definition locks_where (w : World) (P : Lock -> bool) : list nat := select (fun l => persistent_lock l && P l) (w_locks w).
Definition replicas_where (w : World) (P : Replica -> bool) : list nat :=
  select (fun r => persistent_replica r && P r) (w_replicas w).

(** [get_replica_locks] *)
Definition get_replica_locks (w : World) (did : DID) (restrict_rses : list string) : list nat :=
  locks_where w (fun l => bool_decide (lk_did l = did) && in_rses restrict_rses (lk_rse_id l)).

Definition not_being_deleted (r : Replica) : bool := negb (bool_decide (rp_state r = R_BEING_DELETED)).
(** [get_and_lock_file_replicas] *)
Definition get_and_lock_file_replicas (w : World) (did : DID) (restrict_rses : list string) : list nat :=
  replicas_where w (fun r => bool_decide (rp_did r = did) && not_being_deleted r && in_few_rses restrict_rses (rp_rse_id r)).

(** [get_source_replicas] *)
Definition get_source_replicas (w : World) (did : DID) (source_rses : list string) : list string :=
  rp_rse_id <$> List.filter (fun r => persistent_replica r && bool_decide (rp_did r = did)
                               && bool_decide (rp_state r = R_AVAILABLE) && in_few_rses source_rses (rp_rse_id r)) (w_replicas w).

(** A dictionary of something for each file *)
Definition dict_for {A} (f : DID -> A) (files : list DID) : gmap DID A := list_to_map ((fun d => (d, f d)) <$> files).

(** [get_files_and_replica_locks_of_dataset]: the files, in order, and their locks; the files without
    stuck locks are left out on other databases than PostgreSQL when only these are asked for. *)
Definition files_and_locks_of_dataset (w : World) (dataset : DID) (restrict_rses : list string) (only_stuck : bool)
    : list DID * gmap DID (list nat) :=
  let locks did := locks_where w (fun l => bool_decide (lk_did l = did) && in_rses restrict_rses (lk_rse_id l)
                                             && (negb only_stuck || bool_decide (lk_state l = L_STUCK))) in
  let files := c_child <$> contents_of w dataset in
  let files := if only_stuck && negb (w_postgresql w) then List.filter (fun did => negb (bool_decide (locks did = []))) files else files in
  (files, dict_for locks files).

(** [get_and_lock_file_replicas_for_dataset] *)
Definition file_of_content (c : Content) : FileInfo := MkFile (c_child c) (c_bytes c) (c_md5 c) (c_adler32 c).
Definition get_and_lock_file_replicas_for_dataset (w : World) (dataset : DID) (restrict_rses : list string)
    : list FileInfo * gmap DID (list nat) :=
  let rows := contents_of w dataset in
  (file_of_content <$> rows, dict_for (fun did => get_and_lock_file_replicas w did restrict_rses) (c_child <$> rows)).

(** [get_source_replicas_for_dataset] *)
Definition get_source_replicas_for_dataset (w : World) (dataset : DID) (source_rses : list string) : gmap DID (list string) :=
  dict_for (fun did => get_source_replicas w did source_rses) (c_child <$> contents_of w dataset).

(** ** Resolving data identifiers *)

Record Resolved := MkResolved {
  datasetfiles : list DatasetFiles;
  res_locks : gmap DID (list nat);
  res_replicas : gmap DID (list nat);
  res_source_replicas : gmap DID (list string);
}.
(** [a.update(b)] for each dictionary, and [a.extend(b)] *)
Definition join_resolved (a b : Resolved) : Resolved :=
  MkResolved (datasetfiles a ++ datasetfiles b) (res_locks b ∪ res_locks a) (res_replicas b ∪ res_replicas a)
    (res_source_replicas b ∪ res_source_replicas a).
Definition nothing_resolved : Resolved := MkResolved [] ∅ ∅ ∅.

(** The size of a file is known. *)
Definition file_info (w : World) (did : DID) : result FileInfo :=
  let* d := or_raise DataIdentifierNotFound (w_dids w !! did) in
  let* bytes := or_raise TypeError (d_bytes d) in
  Ok (MkFile did bytes (d_md5 d) (d_adler32 d)).

Definition if_sources (source_rses : list string) (d : gmap DID (list string)) : gmap DID (list string) :=
  match source_rses with [] => ∅ | _ => d end.

(** One dataset of [__resolve_did_to_locks_and_replicas], or only its files with stuck locks *)
Definition resolve_dataset (w : World) (dataset : DID) (restrict_rses source_rses : list string) (only_stuck : bool) : result Resolved :=
  if only_stuck then
    let '(keys, locks) := files_and_locks_of_dataset w dataset restrict_rses true in
    let* files := traverse (file_info w) keys in
    Ok (MkResolved [MkDatasetFiles (Some dataset) files] locks
          (dict_for (fun did => get_and_lock_file_replicas w did restrict_rses) keys)
          (if_sources source_rses (dict_for (fun did => get_source_replicas w did source_rses) keys)))
  else
    let '(files, replicas) := get_and_lock_file_replicas_for_dataset w dataset restrict_rses in
    Ok (MkResolved [MkDatasetFiles (Some dataset) files] (files_and_locks_of_dataset w dataset restrict_rses false).2 replicas
          (if_sources source_rses (get_source_replicas_for_dataset w dataset source_rses))).

(** [str(scope) + name], by which the datasets of a container are ordered *)
Definition dataset_text (ds : DatasetFiles) : string :=
  match ds_did ds with Some did => (calc_external did.1).2 +:+ did.2 | None => "NoneNone" end.
Definition by_text (a b : DatasetFiles) : Prop := String.leb (dataset_text a) (dataset_text b) = true.
#[export] Instance by_text_dec : RelDecision by_text := fun a b => decide (String.leb (dataset_text a) (dataset_text b) = true).

(** [__resolve_did_to_locks_and_replicas] *)
Definition resolve_did_to_locks_and_replicas (w : World) (did : DID) (t : DIDType) (restrict_rses source_rses : list string)
    (only_stuck : bool) : result Resolved :=
  match t with
  | FILE =>
      let* file := file_info w did in
      Ok (MkResolved [MkDatasetFiles None [file]] {[ did := get_replica_locks w did restrict_rses ]}
            {[ did := get_and_lock_file_replicas w did restrict_rses ]}
            (if_sources source_rses {[ did := get_source_replicas w did source_rses ]}))
  | DATASET => resolve_dataset w did restrict_rses source_rses only_stuck
  | CONTAINER =>
      let* parts := traverse (fun ds => resolve_dataset w ds restrict_rses source_rses only_stuck) (list_child_datasets w did) in
      let all := foldl join_resolved nothing_resolved parts in
      Ok (if only_stuck then all
          else MkResolved (stable_sort by_text (datasetfiles all)) (res_locks all) (res_replicas all) (res_source_replicas all))
  | _ => Err InvalidReplicationRule
  end.

(** [__resolve_dids_to_locks_and_replicas] for new children of a data identifier: files, or not *)
Definition resolve_dids_to_locks_and_replicas (w : World) (parent : DID) (children : list Content)
    (restrict_rses source_rses : list string) : result Resolved :=
  match children with
  | [] => Err IndexError
  | c :: _ =>
      if bool_decide (c_child_type c = FILE) then
        let files := c_child <$> children in
        Ok (MkResolved [MkDatasetFiles (Some parent) (file_of_content <$> children)]
              (dict_for (fun did => get_replica_locks w did restrict_rses) files)
              (dict_for (fun did => replicas_where w (fun r => bool_decide (rp_did r = did) && not_being_deleted r
                                                                 && in_rses restrict_rses (rp_rse_id r))) files)
              (dict_for (fun did => match source_rses with
                                    | [] => []
                                    | _ => rp_rse_id <$> List.filter (fun r => persistent_replica r && bool_decide (rp_did r = did)
                                             && bool_decide (rp_state r = R_AVAILABLE) && in_rses source_rses (rp_rse_id r)) (w_replicas w)
                                    end) files))
      else
        let* parts := traverse (fun c =>
          let* d := or_raise NoResultFound (w_dids w !! c_child c) in
          resolve_did_to_locks_and_replicas w (c_child c) (d_type d) restrict_rses source_rses false) children in
        Ok (foldl join_resolved nothing_resolved parts)
  end.

(** ** Locks, replicas and transfers *)

Section rules.
Context `{RSEExpressions} `{Random}.
(** The text of an exception, which rules keep as their error *)
Variable exn_text : exn -> string.

(** The objects made, by RSE *)
Definition objects_made (d : list (string * list nat)) : list nat := concat d.*2.

(** [session.add_all] of what was made, the counters of the RSEs and of the account, and the locks to delete *)
Definition flush_objects (rule : Rule) : ST Grouping unit :=
  let! g := getsS id in
  do! on_world (forS add_replica (objects_made (g_replicas_to_create g))) in
  do! on_world (forS add_lock (objects_made (g_locks_to_create g))) in
  let sizes_of_replicas w (l : list nat) := (rp_bytes ∘ snd <$> objects (w_replicas w) l) in
  let sizes_of_locks w (l : list nat) := (lk_bytes ∘ snd <$> objects (w_locks w) l) in
  do! on_world (forS (fun e : string * list nat =>
        let! w := getsS id in
        rse_increase e.1 (Z.of_nat (length e.2)) (foldr Z.add 0%Z (sizes_of_replicas w e.2))) (g_replicas_to_create g)) in
  do! on_world (forS (fun e : string * list nat =>
        let! w := getsS id in
        account_increase e.1 (ru_account rule) (Z.of_nat (length e.2)) (foldr Z.add 0%Z (sizes_of_locks w e.2))) (g_locks_to_create g)) in
  do! on_world (forS (fun e : string * list nat =>
        let! w := getsS id in
        account_decrease e.1 (ru_account rule) (Z.of_nat (length e.2)) (foldr Z.add 0%Z (sizes_of_locks w e.2))) (g_locks_to_delete g)) in
  do! on_world (forS delete_lock (objects_made (g_locks_to_delete g))) in
  on_world (queue_requests (g_transfers g)).

(** [__create_locks_replicas_transfers] *)
Definition create_locks_replicas_transfers (rule : Rule) (source_replicas : gmap DID (list string)) (preferred_rse_ids source_rses : list string)
    (datasetfiles : list DatasetFiles) : ST Grouping unit :=
  do! apply_rule_grouping rule source_rses source_replicas preferred_rse_ids datasetfiles in
  flush_objects rule.

(** [__find_missing_locks_and_create_them]: the datasets with missing locks are passed on again with
    every later one. *)
Definition missing_of (rule : Rule) (file : FileInfo) : ST Grouping (list (FileInfo * option (list string))) :=
  let! ls := rule_locks rule (f_did file) in
  retS [(file, if bool_decide (Z.of_nat (length ls) < ru_copies rule)%Z then None else Some (lk_rse_id ∘ snd <$> ls))].
Fixpoint find_missing_locks_and_create_them (rule : Rule) (source_replicas : gmap DID (list string)) (source_rses : list string)
    (mod_datasetfiles todo : list DatasetFiles) : ST Grouping unit :=
  match todo with
  | [] => skipS
  | ds :: todo =>
      let! found := concatS (missing_of rule) (ds_files ds) in
      let mod_files := fst <$> List.filter (fun f => bool_decide (f.2 = None)) found in
      let preferred_rse_ids := default [] (last (omap snd found)) in
      match mod_files with
      | [] => find_missing_locks_and_create_them rule source_replicas source_rses mod_datasetfiles todo
      | _ =>
          let mod_datasetfiles := mod_datasetfiles ++ [MkDatasetFiles (ds_did ds) mod_files] in
          do! create_locks_replicas_transfers rule source_replicas preferred_rse_ids source_rses mod_datasetfiles in
          find_missing_locks_and_create_them rule source_replicas source_rses mod_datasetfiles todo
      end
  end.

(** [__find_surplus_locks_and_remove_them]: locks of files that are not there.  The copies of such
    locks could not be deleted; there are none, since the locks are those of the files. *)
Definition find_surplus_locks_and_remove_them (rule : Rule) (datasetfiles : list DatasetFiles) : ST Grouping unit :=
  let files := f_did <$> concat (ds_files <$> datasetfiles) in
  let! g := getsS id in
  let surplus := List.filter (fun e : DID * list nat => negb (bool_decide (e.1 ∈ files))) (map_to_list (g_locks g)) in
  if existsb (fun e => existsb (of_rule rule) (objects (w_locks (g_world g)) e.2)) surplus then raiseS InvalidRequestError else skipS.

(** [__find_stuck_locks_and_repair_them] *)
Definition find_stuck_locks_and_repair_them (rule : Rule) (source_replicas : gmap DID (list string)) (source_rses : list string)
    (datasetfiles : list DatasetFiles) : ST Grouping unit :=
  do! repair_stuck_locks_and_apply_rule_grouping rule source_rses source_replicas datasetfiles in
  flush_objects rule.
(** ** Expressions *)

(** [parse_expression] with the filter on writable RSEs *)
Definition parse_writable (s : Session) (expression : string) (v : string) : result (list RSERow) :=
  let* l := parse_expression s expression (Some v) in
  let final := List.filter rse_availability_write l in
  if bool_decide (final = []) then Err RSEWriteBlocked else Ok final.
Definition target_rses (s : Session) (rule : Rule) : result (list RSERow) :=
  if ru_ignore_availability rule then parse_expression s (ru_rse_expression rule) (Some (vo (ru_account rule)))
  else parse_writable s (ru_rse_expression rule) (vo (ru_account rule)).
Definition rule_source_rses (s : Session) (rule : Rule) : result (list RSERow) :=
  match ru_source_replica_expression rule with
  | Some (String _ _ as e) => parse_expression s e (Some (vo (ru_account rule)))
  | _ => Ok []
  end.

(** ** Repairing a rule *)

Definition expression_error (e : exn) : bool :=
  match e with InvalidRSEExpression _ | RSEWriteBlocked => true | _ => false end.

(** The rule is STUCK, with an error. *)
Definition set_stuck (rule_id error : string) : ST World unit :=
  do! set_rule_state rule_id RS_STUCK in
  do! set_rule_error rule_id (Some (shorten error)) in
  do! insert_rule_history rule_id true false in
  let! rule := the_rule rule_id in
  mark_dataset_locks rule L_STUCK.

(** [rule.error + '|' + error_msg] *)
Definition add_error (rule : Rule) (message : string) : string :=
  match ru_error rule with Some (String _ _ as e) => e +:+ "|" +:+ message | _ => message end.
Definition set_stuck_too (rule_id message : string) : ST World unit :=
  let! rule := the_rule rule_id in set_stuck rule_id (add_error rule message).

(** [str(n)] *)
Definition text_of (n : Z) : string := pretty n.

(** The RSEs with stuck locks that the rule does not name any more *)
Definition stuck_on_nontarget (w : World) (rule_id : string) (targets : list string) : list (string * Z) :=
  let stuck := locks_where w (fun l => bool_decide (lk_rule_id l = rule_id) && bool_decide (lk_state l = L_STUCK)) in
  let on := lk_rse_id ∘ snd <$> objects (w_locks w) stuck in
  (fun rse => (rse, Z.of_nat (length (List.filter (fun r => bool_decide (r = rse)) on)))) <$>
    List.filter (fun rse => negb (bool_decide (rse ∈ targets))) (remove_dups on).
Definition named_counts (l : list (string * Z)) : ST World (list string) :=
  concatS (fun e : string * Z => let! name := get_rse_name e.1 in retS [(name +:+ " (" +:+ text_of e.2 +:+ ")")%string]) l.
Definition report_nontarget (rule_id : string) (targets : list string) : ST World unit :=
  let! found := getsS (fun w => stuck_on_nontarget w rule_id targets) in
  let! names := named_counts found in
  match names with
  | [] => skipS
  | _ =>
      let! rule := the_rule rule_id in
      set_rule_error rule_id (Some (shorten (add_error rule
        ("Found stuck locks on RSEs not matching target expression: " +:+ String.concat ", " names))))
  end.

(** The counters are those of the locks in the database. *)
Definition reset_counters (rule_id : string) : ST World unit :=
  forS (fun st =>
    let! n := count_locks (fun l => bool_decide (lk_rule_id l = rule_id) && bool_decide (lk_state l = st)) in
    alter_rule (upd_cnt st (fun _ => n)) rule_id) [L_OK; L_REPLICATING; L_STUCK].

(** The locks, replicas and transfers of a rule, from what its files were resolved to *)
Definition with_objects {A} (sel : RSESelector) (r : Resolved) (m : ST Grouping A) : ST World A := fun w =>
  let '(x, g) := m (MkGrouping w sel 0 (res_locks r) (res_replicas r) [] [] [] []) in (x, g_world g).

(** Whether locks are missing, or too many; copies of files that are placed alone are looked at always. *)
Definition hard_repair (rule : Rule) (nr_files : Z) : bool :=
  negb (bool_decide (nr_files * ru_copies rule = ru_locks_ok_cnt rule + ru_locks_stuck_cnt rule + ru_locks_replicating_cnt rule)%Z)
  || bool_decide (1 < ru_copies rule)%Z && bool_decide (ru_grouping rule = G_NONE).

Definition caught_while_repairing (e : exn) : bool :=
  match e with InsufficientAccountLimit | InsufficientTargetRSEs => true | _ => false end.
(** [try: m; except (...) as error: the rule is STUCK; return] before [k] *)
Definition or_stuck (rule_id : string) (m : ST Grouping unit) (k : ST Grouping unit) : ST Grouping unit :=
  let! stuck := tryS (do! m in retS false)
                  (fun e => if caught_while_repairing e then Some (do! on_world (set_stuck_too rule_id (exn_text e)) in retS true) else None) in
  if stuck then skipS else k.

(** The locks on datasets at RSEs where the rule has no lock go. *)
Definition delete_irrelevant_dataset_locks (rule_id : string) : ST World unit :=
  let! w := getsS id in
  let kept := lk_rse_id ∘ snd <$> objects (w_locks w) (locks_where w (fun l => bool_decide (lk_rule_id l = rule_id))) in
  modifyS (upd_w_dataset_locks (filter (fun kv => kv.1.1.2 <> rule_id \/ kv.1.2 ∈ kept))).

(** The state of a rule that was repaired *)
Definition conclude_repair (rule_id : string) : ST World unit :=
  let! rule := the_rule rule_id in
  if negb (bool_decide (ru_locks_stuck_cnt rule = 0)%Z) then
    do! set_rule_state rule_id RS_STUCK in
    do! insert_rule_history rule_id true false in
    mark_dataset_locks rule L_STUCK
  else
    do! alter_rule (upd_ru_stuck_at (fun _ => None)) rule_id in
    if bool_decide (0 < ru_locks_replicating_cnt rule)%Z then
      do! set_rule_state rule_id RS_REPLICATING in
      do! set_rule_error rule_id None in
      do! insert_rule_history rule_id true false in
      mark_dataset_locks rule L_REPLICATING
    else
      do! set_rule_state rule_id RS_OK in
      do! set_rule_error rule_id None in
      do! insert_rule_history rule_id true false in
      do! mark_dataset_locks rule L_OK in
      do! whenS (bool_decide (ru_notification rule = N_YES)) (generate_email_for_rule_ok_notification rule_id) in
      do! generate_rule_notifications rule_id (Some 0%Z) in
      release_parent_rule rule_id false.

(** A repair, once the RSEs are known *)
Definition repair_with (rule_id : string) (rses sources : list string) (sel : RSESelector) : ST World unit :=
  do! reset_counters rule_id in
  let! rule := the_rule rule_id in
  let! row := getsS (fun w => w_dids w !! ru_did rule) in
  let! did := scalar_one row in
  let! w := getsS id in
  let! nr_files := liftS (if bool_decide (d_type did = FILE) then Ok 1%Z else dynamic_length w (ru_did rule)) in
  let hard := hard_repair rule nr_files in
  let! r := liftS (resolve_did_to_locks_and_replicas w (ru_did rule) (d_type did) rses sources (negb hard)) in
  with_objects sel r
    (or_stuck rule_id
       (if negb (bool_decide (d_type did = FILE)) && hard
        then find_missing_locks_and_create_them rule (res_source_replicas r) sources [] (datasetfiles r) else skipS)
    (do! (if hard then find_surplus_locks_and_remove_them rule (datasetfiles r) else skipS) in
     or_stuck rule_id (find_stuck_locks_and_repair_them rule (res_source_replicas r) sources (datasetfiles r))
    (do! on_world (delete_irrelevant_dataset_locks rule_id) in
     on_world (conclude_repair rule_id)))).

(** [repair_rule]; a rule that is gone needs no repair. *)
Definition repair_rule (rule_id : string) : ST World unit :=
  tryS
    (let! rule := the_rule rule_id in
     let! t := getsS (fun w => now (w_session w)) in
     do! alter_rule (upd_ru_updated_at (fun _ => t)) rule_id in
     let stuck_at := default t (ru_stuck_at rule) in
     do! alter_rule (upd_ru_stuck_at (fun _ => Some stuck_at)) rule_id in
     if bool_decide (stuck_at < t - 14 * 24 * 3600)%Z then
       do! set_rule_state rule_id RS_SUSPENDED in
       insert_rule_history rule_id true false
     else
       let! s := getsS w_session in
       let! q := getsS w_quotas in
       let resolved := let* rses := parse_expression s (ru_rse_expression rule) (Some (vo (ru_account rule))) in
                       let* targets := target_rses s rule in
                       let* sources := rule_source_rses s rule in
                       Ok (rses, targets, sources) in
       match resolved with
       | Err e => if expression_error e then set_stuck rule_id (exn_text e) else raiseS e
       | Ok (rses, targets, sources) =>
           do! report_nontarget rule_id (rse_id <$> targets) in
           match new_selector s q (ru_account rule) targets (ru_weight rule) (ru_copies rule) (ru_ignore_account_limit rule) with
           | Ok sel => repair_with rule_id (rse_id <$> rses) (rse_id <$> sources) sel
           | Err InvalidRuleWeight => set_stuck_too rule_id (exn_text InvalidRuleWeight)
           | Err InsufficientTargetRSEs => set_stuck_too rule_id (exn_text InsufficientTargetRSEs)
           | Err InsufficientAccountLimit => set_stuck_too rule_id (exn_text InsufficientAccountLimit)
           | Err e => raiseS e
           end
       end)
    (fun e => match e with NoResultFound => Some skipS | _ => None end).

(** ** Data identifiers that lost children *)

Definition rules_of (w : World) (did : DID) : list string :=
  omap (fun kv : string * Rule => if bool_decide (ru_did kv.2 = did) then Some kv.1 else None) (map_to_list (w_rules w)).

(** [force_epoch_when_detach] of the configuration *)
Variable force_epoch : bool.

(** A lock on a file the rule does not cover any more *)
Definition detach_lock (rule_id : string) (files : list DID) (purge : bool) (lock : nat) : ST World (list (DID * string * bool * Z)) :=
  let! l := lock_at lock in
  if bool_decide (lk_did l ∈ files) then retS []
  else
    let! gone := delete_rule_lock purge lock in
    do! alter_rule (upd_cnt (lk_state l) (fun n => n - 1)%Z) rule_id in
    retS gone.

(** One rule of [__evaluate_did_detach] *)
Definition evaluate_rule_detach (t : DIDType) (rule_id : string) : ST World (list (DID * string * bool * Z)) :=
  let! rule := the_rule rule_id in
  let! w := getsS id in
  let! files := liftS (list_files w (ru_did rule)) in
  let! locks := select_locks (fun l => bool_decide (lk_rule_id l = rule_id)) in
  let! gone := concatS (detach_lock rule_id files (force_epoch || ru_purge_replicas rule)) locks in
  do! (if bool_decide (t = CONTAINER) then
         let! datasets := getsS (fun w => list_child_datasets w (ru_did rule)) in
         modifyS (upd_w_dataset_locks (filter (fun kv => kv.1.1.2 <> rule_id \/ kv.1.1.1 ∈ datasets)))
       else skipS) in
  do! settle_rule rule_id
        (let! now := the_rule rule_id in
         whenS (negb (bool_decide (ru_locks_ok_cnt rule = ru_locks_ok_cnt now)))
           (do! generate_rule_notifications rule_id None in generate_email_for_rule_ok_notification rule_id)) in
  do! insert_rule_history rule_id true false in
  retS gone.

(** [__evaluate_did_detach]: what the rules do not use any more is taken from the account of the last one. *)
Definition evaluate_did_detach (did : DID) (t : DIDType) : ST World unit :=
  let! rules := getsS (fun w => rules_of w did ++ concat (rules_of w <$> list_all_parent_dids w did)) in
  let! gone := concatS (evaluate_rule_detach t) rules in
  do! match last rules with
      | Some rule_id => let! rule := the_rule rule_id in decrease_accounts (ru_account rule) (sizes_by_rse gone)
      | None => skipS
      end in
  cancel_transfers gone.

(** ** Data identifiers with new children *)

Definition is_evaluated (s : RuleState) : bool :=
  match s with RS_SUSPENDED | RS_WAITING_APPROVAL | RS_INJECT => false | _ => true end.

(** The RSEs of all the rules and of their sources: of no rule if one cannot be resolved *)
Fixpoint possible_rses (s : Session) (rules : list Rule) (rses sources : list string) : result (list string * list string) :=
  match rules with
  | [] => Ok (rses, sources)
  | rule :: rules =>
      match rule_source_rses s rule with
      | Err e => if expression_error e then Ok ([], sources) else Err e
      | Ok more_sources =>
          let sources := sources ++ (rse_id <$> more_sources) in
          match parse_expression s (ru_rse_expression rule) (Some (vo (ru_account rule))) with
          | Err e => if expression_error e then Ok ([], sources) else Err e
          | Ok l => possible_rses s rules (rses ++ (rse_id <$> l)) sources
          end
      end
  end.

(** The RSEs the rule chose for a file that is there already *)
Definition brother_rses (w : World) (rule : Rule) (did : DID) (children : list Content) (rses : list string) : list string :=
  let brother := match ru_grouping rule with
                 | G_ALL => oldest_file_under (content_depth w) w (ru_did rule)
                 | G_DATASET => match children with
                                | c :: _ => if bool_decide (c_child_type c = FILE) then oldest_file_under (content_depth w) w did else None
                                | [] => None
                                end
                 | G_NONE => None
                 end in
  match brother with
  | None => []
  | Some file => lk_rse_id <$> List.filter (fun l => bool_decide (lk_rse_id l ∈ rses) && bool_decide (lk_rule_id l = ru_id rule))
                                 (snd <$> objects (w_locks w) (get_replica_locks w file []))
  end.

(** The state of a rule that was applied to new files *)
Definition conclude_attach (rule_id : string) (ok_before stuck_before : Z) : ST World unit :=
  let! rule := the_rule rule_id in
  if bool_decide (ru_state rule = RS_STUCK) then skipS
  else if bool_decide (0 < ru_locks_stuck_cnt rule)%Z then
    if bool_decide (stuck_before = ru_locks_stuck_cnt rule) then skipS
    else
      do! set_rule_state rule_id RS_STUCK in
      do! set_rule_error rule_id (Some "MissingSourceReplica"%string) in
      set_dataset_locks rule_id L_STUCK
  else if bool_decide (0 < ru_locks_replicating_cnt rule)%Z then
    do! set_rule_state rule_id RS_REPLICATING in
    mark_dataset_locks rule L_REPLICATING
  else if bool_decide (ru_locks_replicating_cnt rule = 0)%Z && bool_decide (ru_locks_stuck_cnt rule = 0)%Z then
    do! set_rule_state rule_id RS_OK in
    do! mark_dataset_locks rule L_OK in
    whenS (bool_decide (ok_before < ru_locks_ok_cnt rule)%Z)
      (do! generate_rule_notifications rule_id None in generate_email_for_rule_ok_notification rule_id)
  else skipS.

Definition caught_while_attaching (e : exn) : bool :=
  match e with InsufficientAccountLimit | InsufficientTargetRSEs | RSEOverQuota => true | _ => false end.

(** One rule of [__evaluate_did_attach] *)
Definition evaluate_rule_attach (did : DID) (children : list Content) (r : Resolved) (rule_id : string) : ST Grouping unit :=
  let! rule := on_world (the_rule rule_id) in
  let! w := getsS g_world in
  let s := w_session w in
  let stuck e := on_world (set_stuck rule_id (exn_text e)) in
  let resolved := let* rses := target_rses s rule in let* sources := rule_source_rses s rule in Ok (rses, sources) in
  match resolved with
  | Err e => if expression_error e then stuck e else raiseS e
  | Ok (rses, sources) =>
      match new_selector s (w_quotas w) (ru_account rule) rses (ru_weight rule) (ru_copies rule) (ru_ignore_account_limit rule) with
      | Err e => if caught_while_attaching e || bool_decide (e = InvalidRuleWeight) then stuck e else raiseS e
      | Ok sel =>
          do! modifyS (upd_g_selector (fun _ => sel)) in
          let preferred := brother_rses w rule did children (rse_id <$> rses) in
          let! failed :=
            tryS (do! create_locks_replicas_transfers rule (res_source_replicas r) preferred (rse_id <$> sources) (datasetfiles r) in retS false)
              (fun e => if caught_while_attaching e then Some (do! stuck e in retS true) else None) in
          if failed then skipS
          else
            do! on_world (conclude_attach rule_id (ru_locks_ok_cnt rule) (ru_locks_stuck_cnt rule)) in
            on_world (insert_rule_history rule_id true false)
      end
  end.

(** The new children are not new any more. *)
Definition unflag (did : DID) (c : Content) : Content :=
  if bool_decide (c_parent c = did) then MkContent (c_parent c) (c_parent_type c) (c_child c) (c_child_type c) (c_bytes c) (c_md5 c) (c_adler32 c) false
  else c.

Definition no_selector : RSESelector := MkSelector [] 0.

(** [__evaluate_did_attach] *)
Definition evaluate_did_attach (did : DID) : ST World unit :=
  let! w := getsS id in
  let parents := list_all_parent_dids w did in
  match List.filter c_rule_evaluation (contents_of w did) with
  | [] => skipS
  | children =>
      let rules := List.filter (fun kv : string * Rule => (bool_decide (ru_did kv.2 ∈ parents) || bool_decide (ru_did kv.2 = did))
                                                            && is_evaluated (ru_state kv.2)) (map_to_list (w_rules w)) in
      do! match rules with
          | [] => skipS
          | _ =>
              let! '(rses, sources) := liftS (possible_rses (w_session w) rules.*2 [] []) in
              let! r := liftS (resolve_dids_to_locks_and_replicas w did children (remove_dups rses) (remove_dups sources)) in
              with_objects no_selector r (forS (evaluate_rule_attach did children r) rules.*1)
          end in
      modifyS (upd_w_contents (fmap (unflag did)))
  end.

(** [re_evaluate_did]; the size of the data identifier is updated on Oracle. *)
Variable oracle : bool.
Definition update_size (did : DID) (w : World) : World :=
  let rows := contents_of w did in
  let bytes := match List.filter (fun c => bool_decide (c_child_type c = FILE)) rows with   (* only files have a size *)
               | [] => None
               | files => Some (foldr Z.add 0%Z (c_bytes <$> files))
               end in
  upd_w_dids (alter (fun d => upd_d_length (fun _ => Some (Z.of_nat (length rows))) (upd_d_bytes (fun _ => bytes) d)) did) w.
Definition re_evaluate_did (did : DID) (action : DIDReEvaluation) : ST World unit :=
  let! row := getsS (fun w => w_dids w !! did) in
  let! d := liftS (or_raise DataIdentifierNotFound row) in
  do! match action with
      | ATTACH => evaluate_did_attach did
      | DETACH => evaluate_did_detach did (d_type d)
      end in
  do! whenS oracle (modifyS (update_size did)) in
  whenS (bool_decide (d_type d = DATASET)) (modifyS (upd_w_updated_col_rep (fun rows => rows ++ [(did, DATASET, None)]))).

End rules.
