(* ===== verification/Hierarchy.v ===== *)
(** * Data identifiers: [lib/rucio/core/did.py]

    Datasets hold files, containers hold datasets or containers, archives hold constituents.  The
    operations that add data identifiers and attach children to them; detaching is in
    [RuleEngine.v], and the walks over the hierarchy in [RuleEngine.v] and [RuleRepair.v]. *)

From Stdlib Require Import ZArith.
From stdpp Require Import pretty.
From S2P Require Import Prelude StateError PyString PyFloat Regex Types Database RseSelector LockTables RuleGrouping RuleEngine RuleRepair.

(** ** Adding *)

(** The loop of [add_dids] for one data identifier, without metadata, content and rules *)
Definition add_did (did : DID) (t : DIDType) (account : InternalType) (lifetime : option Z) : ST World unit :=
  if bool_decide (t = FILE) then raiseS UnsupportedOperation
  else
    let! now := getsS (fun w => now (w_session w)) in
    let expired_at := match lifetime with Some 0%Z | None => None | Some n => Some (now + n)%Z end in
    let! known := getsS (fun w => w_dids w !! did) in
    let! scope := getsS (fun w => scopes (w_session w) !! did.1) in
    do! match known, scope with
        | Some _, _ => raiseS DataIdentifierAlreadyExists
        | None, None => raiseS ScopeNotFound
        | None, Some _ => modifyS (upd_w_dids (<[did := MkDID t (Some true) None None None None false account expired_at true false false None]>))
        end in
    match t with
    | CONTAINER | DATASET => add_message (CREATED did t expired_at)
    | _ => skipS
    end.

(** ** Attaching *)

(** A child to attach, with the metadata that is given: each key may be missing, or be [None]. *)
Record Attached := MkAttached {
  a_did : DID;
  a_bytes : option (option Z);
  a_adler32 : option (option string);
  a_md5 : option (option string);
}.

(** [{(a['scope'], a['name']): a for a in attachment['dids']}]: the last of the same name, in the place of the first *)
Definition children_of (dids : list Attached) : list Attached :=
  omap (fun d => last (List.filter (fun a => bool_decide (a_did a = d)) dids)) (rev (remove_dups (rev (a_did <$> dids)))).

(** [str(a) != str(b)] *)
Definition text_differs {A} (text : A -> string) (given : option (option A)) (value : option A) : bool :=
  match given with
  | None => false
  | Some a => negb (bool_decide (default "None"%string (text <$> a) = default "None"%string (text <$> value)))
  end.
Definition mismatch (a : Attached) (d : DIDRow) : bool :=
  text_differs text_of (a_bytes a) (d_bytes d) || text_differs id (a_adler32 a) (d_adler32 d) || text_differs id (a_md5 a) (d_md5 d).

Definition attached_to (w : World) (parent child : DID) : bool := existsb (is_content parent child) (w_contents w).

(** The check of one file of [__add_files_to_dataset]: its content row, unless it is there *)
Definition file_to_add (parent : DID) (ignore_duplicate : bool) (a : Attached) : ST World (list Content) :=
  let did := a_did a in
  let! row := getsS (fun w => w_dids w !! did) in
  let! d := liftS (or_raise DataIdentifierNotFound row) in
  if d_lost d then raiseS UnsupportedOperation
  else if negb (bool_decide (d_type d = FILE)) then raiseS UnsupportedOperation
  else if mismatch a d then raiseS FileConsistencyMismatch
  else
    let! there := getsS (fun w => attached_to w parent did) in
    if ignore_duplicate && there then retS []
    else
      do! whenS (d_is_archive d) (modifyS (upd_w_dids (alter (upd_d_is_archive (fun _ => true)) parent))) in
      retS [MkContent parent DATASET did FILE (default 0%Z (d_bytes d)) (d_md5 d) (d_adler32 d) true].

(** The rows are inserted, unless one is there. *)
Definition insert_contents (duplicate : exn) (rows : list Content) : ST World unit :=
  let! w := getsS id in
  if existsb (fun c => attached_to w (c_parent c) (c_child c)) rows then raiseS duplicate
  else modifyS (upd_w_contents (fun l => l ++ rows)).

(** [__add_files_to_dataset], where no replica is registered on the way *)
Definition add_files_to_dataset (parent : DID) (files : list Attached) (ignore_duplicate : bool) : ST World (list Content) :=
  let! files_to_add := concatS (file_to_add parent ignore_duplicate) files in
  do! insert_contents FileAlreadyExists files_to_add in
  retS files_to_add.

(** The checks of [__add_collections_to_container], with the type the children have so far *)
Fixpoint check_collections (w : World) (parent : DID) (child_type : option DIDType) (collections : list DID) : result (option DIDType) :=
  match collections with
  | [] => Ok child_type
  | did :: collections =>
      let* d := or_raise DataIdentifierNotFound (w_dids w !! did) in
      if bool_decide (d_type d = FILE) then Err UnsupportedOperation
      else
        let t := default (d_type d) child_type in
        if negb (bool_decide (t = d_type d)) then Err UnsupportedOperation
        else if bool_decide (t = CONTAINER) && bool_decide (did ∈ list_all_parent_dids w parent) then Err UnsupportedOperation
        else check_collections w parent (Some t) collections
  end.

Definition add_collections_to_container (parent : DID) (collections : list DID) (ignore_duplicate : bool) : ST World unit :=
  if bool_decide (parent ∈ collections) then raiseS UnsupportedOperation
  else
    let! w := getsS id in
    let! child_type := liftS (check_collections w parent None collections) in
    let new := List.filter (fun did => negb (ignore_duplicate && attached_to w parent did)) collections in
    match child_type with
    | None => skipS
    | Some t =>
        do! insert_contents DuplicateContent ((fun did => MkContent parent CONTAINER did t 0 None None true) <$> new) in
        forS (fun did => add_message (REGISTERED parent did t)) new
    end.

(** [is_archive] of [common/utils.py]: [^.*\.(zip|zipx|tar.gz|tgz|tar.Z|tar.bz2|tbz2)(\.\d+)*$], in either case; the
    end is also before a last newline. *)
Definition any_char : regex := Chr (fun a => negb (bool_decide (a = "010"%char))).
Definition either_case (a : ascii) : regex := Chr (fun b => bool_decide (lower a = lower b)).
(** The regular expression of a word, where a dot is any character *)
Definition word (s : string) : regex :=
  match List.map (fun a => if bool_decide (a = "."%char) then any_char else either_case a) (String.list_ascii_of_string s) with
  | [] => Star any_char
  | r :: l => fold_left Cat l r
  end.
Definition archive_regexp : regex :=
  Cat (Star any_char) (Cat (Lit ".")
    (Cat (foldr (fun s r => Alt (word s) r) (word "tbz2") ["zip"; "zipx"; "tar.gz"; "tgz"; "tar.Z"; "tar.bz2"]%string)
       (Star (Cat (Lit ".") (Plus (Chr (fun a => bool_decide (is_Some (is_digit a))))))))).
Definition is_archive (name : string) : bool :=
  match rmatch archive_regexp (String.list_ascii_of_string name)
          (fun rest => match rest with [] | ["010"%char] => Some [] | _ => None end) with
  | Some _ => true
  | None => false
  end.

(** The check of one file of [__add_files_to_archive]: the row of a new file, and the constituent to add *)
Definition constituent_to_add (archive : DID) (account : InternalType) (ignore_duplicate : bool) (a : Attached)
    : ST World (list (DID * option DIDRow)) :=
  let did := a_did a in
  let! there := getsS (fun w => bool_decide ((archive, did) ∈ w_archive_contents w)) in
  if ignore_duplicate && there then retS []
  else
    let! row := getsS (fun w => w_dids w !! did) in
    match row with
    | None =>
        let! bytes := liftS (or_raise KeyError (a_bytes a)) in
        retS [(did, Some (MkDID FILE None bytes None (default None (a_md5 a)) (default None (a_adler32 a)) false account None true false true None))]
    | Some d => if negb (bool_decide (d_type d = FILE)) then raiseS UnsupportedOperation else retS [(did, None)]
    end.

Definition add_files_to_archive (archive : DID) (files : list Attached) (account : InternalType) (ignore_duplicate : bool) : ST World unit :=
  let! rows := concatS (constituent_to_add archive account ignore_duplicate) files in
  let! w := getsS id in
  if existsb (fun r : DID * option DIDRow => bool_decide ((archive, r.1) ∈ w_archive_contents w)) rows then raiseS RucioException
  else
    do! modifyS (upd_w_dids (fun m => foldr (fun r m => match r.2 with Some d => <[r.1 := d]> m | None => m end) m rows)) in
    do! modifyS (upd_w_archive_contents (fun l => l ++ ((fun r => (archive, r.1)) <$> rows))) in
    do! whenS (existsb (fun r : DID * option DIDRow => match w_dids w !! r.1 with Some d => negb (d_constituent d) | None => false end) rows)
          (modifyS (upd_w_dids (map_imap (fun did d =>
             Some (if bool_decide (did ∈ a_did <$> files) then upd_d_constituent (fun _ => true) d else d))))) in
    whenS (negb (match w_dids w !! archive with Some d => d_is_archive d | None => true end))
      (modifyS (fun w => upd_w_dids (map_imap (fun did d =>
         Some (if bool_decide (did = archive) || attached_to w did archive then upd_d_is_archive (fun _ => true) d else d))) w)).

(** One attachment of [attach_dids_to_dids]: its parent if rules have to be evaluated, or [None] after an
    archive, which ends the whole call *)
Definition attach_one (parent : DID) (dids : list Attached) (account : InternalType) (ignore_duplicate : bool)
    : ST World (option (list DID)) :=
  let! row := getsS (fun w => w_dids w !! parent) in
  let! d := liftS (or_raise DataIdentifierNotFound row) in
  let children := children_of dids in
  if bool_decide (d_type d = FILE) then
    if is_archive parent.2 then do! add_files_to_archive parent children account ignore_duplicate in retS None
    else raiseS UnsupportedOperation
  else if negb (bool_decide (d_open d = Some true)) then raiseS UnsupportedOperation
  else match d_type d with
       | DATASET =>
           let! cont := add_files_to_dataset parent children ignore_duplicate in
           retS (Some (match cont with [] => [] | _ => [parent] end))
       | CONTAINER =>
           do! add_collections_to_container parent (a_did <$> children) ignore_duplicate in
           retS (Some [parent])
       | _ => retS (Some [])
       end.

Fixpoint attach_all (attachments : list (DID * list Attached)) (account : InternalType) (ignore_duplicate : bool) (parent_dids : list DID)
    : ST World unit :=
  match attachments with
  | [] => modifyS (upd_w_updated_dids (fun l => l ++ ((fun did => (did, ATTACH)) <$> remove_dups parent_dids)))
  | (parent, dids) :: attachments =>
      let! more := attach_one parent dids account ignore_duplicate in
      match more with
      | None => skipS
      | Some more => attach_all attachments account ignore_duplicate (parent_dids ++ more)
      end
  end.

(** [attach_dids_to_dids] and [attach_dids] *)
Definition attach_dids_to_dids (attachments : list (DID * list Attached)) (account : InternalType) (ignore_duplicate : bool) : ST World unit :=
  attach_all attachments account ignore_duplicate [].
Definition attach_dids (did : DID) (dids : list Attached) (account : InternalType) (ignore_duplicate : bool) : ST World unit :=
  attach_dids_to_dids [(did, dids)] account ignore_duplicate.
(** ** Opening and closing *)

(** [set_new_dids] for one data identifier *)
Definition set_new_did (did : DID) (new_flag : bool) : ST World unit :=
  let! row := getsS (fun w => w_dids w !! did) in
  match row with
  | Some _ => modifyS (upd_w_dids (alter (upd_d_is_new (fun _ => new_flag)) did))
  | None => raiseS DataIdentifierNotFound
  end.

(** [__resolve_bytes_length_events_did] with the depth of files: the size, and the number of files *)
Definition dynamic_size (w : World) (did : DID) : result (Z * Z) :=
  let* d := or_raise DataIdentifierNotFound (w_dids w !! did) in
  let* length := dynamic_length w did in
  let rows := match d_type d with
              | DATASET => contents_of w did
              | CONTAINER => concat (contents_of w <$> list_child_datasets w did)
              | _ => []
              end in
  Ok (match d_type d with DATASET | CONTAINER => foldr Z.add 0%Z (c_bytes <$> rows) | _ => default 0%Z (d_bytes d) end, length).

(** [set_status(open=...)]; [reevaluate_dids_at_close] is a setting. *)
Definition set_status (reevaluate_dids_at_close : bool) (did : DID) (is_open : bool) : ST World unit :=
  let! w := getsS id in
  do! (if is_open then add_message (OPENED did)
       else
         let! '(bytes, length) := liftS (dynamic_size w did) in
         do! modifyS (upd_w_dataset_locks (map_imap (fun key d =>
               Some (if bool_decide (key.1.1 = did) then MkDatasetLock (dl_state d) (dl_account d) (Some length) (Some bytes) else d)))) in
         do! add_message (CLOSED did bytes length) in
         whenS reevaluate_dids_at_close (set_new_did did true)) in
  match w_dids w !! did with
  | None => raiseS DataIdentifierNotFound
  | Some d =>
      if (bool_decide (d_type d = CONTAINER) || bool_decide (d_type d = DATASET)) && bool_decide (d_open d = Some (negb is_open)) then
        if is_open then modifyS (upd_w_dids (alter (upd_d_open (fun _ => Some true)) did))
        else
          let! '(bytes, length) := liftS (dynamic_size w did) in
          do! modifyS (upd_w_dids (alter (fun d => upd_d_open (fun _ => Some false)
                 (upd_d_bytes (fun _ => Some bytes) (upd_d_length (fun _ => Some length) d))) did)) in
          forS (fun rule_id => generate_rule_notifications rule_id None) (rules_of w did)
      else raiseS UnsupportedOperation
  end.
