(* ===== verification/RuleCreation.v ===== *)
(** * New rules: [apply_rule] of [lib/rucio/core/rule_grouping.py] and [lib/rucio/core/rule.py]

    A rule is made for data identifiers and applied at once, or injected later, or waits for
    approval.  Applying it takes the files of a dataset in portions, so that not all of them are in
    memory.  The instance is not under the policy of ATLAS: there are no scratch disks and no ends
    of life. *)

From Stdlib Require Import ZArith.
From S2P Require Import Prelude StateError Counting PyString Types Database RseSelector LockTables RuleGrouping RuleEngine RuleRepair Hierarchy.

Section creation.
Context `{RSEExpressions} `{Random}.
(** The configuration: files per portion, the days a rule lives on a scratch disk, and the sender of e-mails; the portion a database puts a
    file in, of how many; the ids it makes; the algorithm that approves rules *)
Variables (max_partition_size scratchdisk_lifetime : Z) (default_mail_from : option string) (on_thread : nat -> nat -> string -> bool)
  (generate_uuid : World -> string) (auto_approve : World -> Rule -> DIDRow -> result bool).

(** ** Applying a rule *)

(** What was made on each RSE: numbers of files and bytes *)
Definition Counts : Type := list (string * (Z * Z)).
Definition count_up (counts : Counts) (e : string * (Z * Z)) : Counts :=
  od_alter e.1 (fun o => let '(files, bytes) := default (0, 0)%Z o in (e.2.1 + files, e.2.2 + bytes)%Z) counts.

Definition sized {A} (bytes : A -> Z) (heap : list A) (e : string * list nat) : string * (Z * Z) :=
  (e.1, (Z.of_nat (length e.2), foldr Z.add 0%Z (bytes ∘ snd <$> objects heap e.2))).

(** [session.add_all] of what was made, and the requests *)
Definition flush_made : ST Grouping (Counts * Counts) :=
  let! g := getsS id in
  do! on_world (forS add_replica (objects_made (g_replicas_to_create g))) in
  do! on_world (forS add_lock (objects_made (g_locks_to_create g))) in
  do! on_world (queue_requests (g_transfers g)) in
  let! w := getsS g_world in
  retS (sized rp_bytes (w_replicas w) <$> g_replicas_to_create g, sized lk_bytes (w_locks w) <$> g_locks_to_create g).

(** The dictionaries of the files at hand; nothing is made yet *)
Definition take_objects (locks replicas : gmap DID (list nat)) : ST Grouping unit :=
  modifyS (fun g => MkGrouping (g_world g) (g_selector g) (g_draws g) locks replicas [] [] [] []).

(** [{replica.rse_id: file['bytes'] for replica in ...}] *)
Definition coverage_of (file : FileInfo) (rs : list (nat * Replica)) : list (string * Z) :=
  foldl (fun cov r => od_alter (rp_rse_id r.2) (fun _ => f_bytes file) cov) [] rs.

(** The RSEs for one file *)
Definition select_for_file (file : FileInfo) : ST Grouping (list Chosen) :=
  let! rs := file_replicas (f_did file) in
  let cov := coverage_of file rs in
  select_rses (f_bytes file) cov.*1 0 [] true cov.

(** [get_rse_coverage_of_dataset] of [core/replica.py] *)
Definition get_rse_coverage_of_dataset (w : World) (dataset : DID) : list (string * Z) :=
  List.filter (fun e => negb (bool_decide (e.2 = 0%Z)))
    (foldl (fun cov c =>
       foldl (fun cov r => od_alter (rp_rse_id r) (fun o => default 0 o + c_bytes c)%Z cov) cov
         (List.filter (fun r => persistent_replica r && bool_decide (rp_did r = c_child c) && not_being_deleted r) (w_replicas w)))
       [] (contents_of w dataset)).

(** Datasets in the order of their scopes and names *)
Definition did_text (did : DID) : string * string := ((calc_external did.1).2, did.2).
Definition by_did (a b : DID) : Prop :=
  let '(s, n) := did_text a in let '(s', n') := did_text b in
  if bool_decide (s = s') then String.leb n n' = true else String.leb s s' = true.
#[local] Instance by_did_dec : RelDecision by_did.
Proof. intros a b. unfold by_did. destruct (did_text a), (did_text b). destruct (bool_decide _); apply _. Defined.

Section apply_rule.
Variables (rule : Rule) (rses source_rses : list string).

(** A rule on one file *)
Definition apply_to_file (did : DID) : ST Grouping (Counts * Counts) :=
  let! w := getsS g_world in
  do! take_objects {[ did := get_replica_locks w did rses ]} {[ did := get_and_lock_file_replicas w did rses ]} in
  let source_replicas := if_sources source_rses {[ did := get_source_replicas w did source_rses ]} in
  let! file := liftS (file_info w did) in
  let! rse_tuples := select_for_file file in
  do! forS (lock_on rule source_rses source_replicas None file) rse_tuples in
  flush_made.

(** A file of a dataset: the RSEs it is put on, when they are chosen for it alone *)
Definition apply_in_dataset (dataset : DID) (source_replicas : gmap DID (list string)) (rse_tuples : list Chosen) (file : FileInfo)
    : ST Grouping (list string) :=
  let! full := has_all_copies rule (f_did file) in
  if full then retS []
  else
    let alone := bool_decide (ru_grouping rule = G_NONE) in
    let! rse_tuples := if alone then select_for_file file else retS rse_tuples in
    do! forS (lock_on rule source_rses source_replicas (Some dataset) file) rse_tuples in
    retS (if alone then rse_tuples.*1.*1 else []).

(** One portion of the files of a dataset *)
Definition apply_partition (dataset : DID) (rse_tuples : list Chosen) (npartitions p : nat) : ST Grouping (list string * (Counts * Counts)) :=
  let! w := getsS g_world in
  let rows := List.filter (fun c => bool_decide (npartitions <= 1)%nat || on_thread npartitions p (c_child c).2) (contents_of w dataset) in
  let dids := c_child <$> rows in
  do! take_objects
        (dict_for (fun did => locks_where w (fun l => bool_decide (lk_did l = did) && in_rses rses (lk_rse_id l))) dids)
        (dict_for (fun did => get_and_lock_file_replicas w did rses) dids) in
  let source_replicas := if_sources source_rses (dict_for (fun did => get_source_replicas w did source_rses) dids) in
  let! used := concatS (apply_in_dataset dataset source_replicas rse_tuples) (file_of_content <$> rows) in
  let! counts := flush_made in
  retS (used, counts).

Definition add_counts (a b : Counts * Counts) : Counts * Counts := (foldl count_up a.1 b.1, foldl count_up a.2 b.2).
Fixpoint apply_partitions (dataset : DID) (rse_tuples : list Chosen) (npartitions : nat) (ps : list nat) (used : list string)
    (counts : Counts * Counts) : ST Grouping (list string * (Counts * Counts)) :=
  match ps with
  | [] => retS (used, counts)
  | p :: ps =>
      let! r := apply_partition dataset rse_tuples npartitions p in
      apply_partitions dataset rse_tuples npartitions ps (used ++ r.1) (add_counts counts r.2)
  end.

(** The lock on a dataset at an RSE *)
Definition save_dataset_lock (dataset : DID) (length bytes : option Z) (rse_id : string) : ST World unit :=
  let! w := getsS id in
  let key := (dataset, ru_id rule, rse_id) in
  match w_dataset_locks w !! key with
  | Some _ => raiseS IntegrityError
  | None => modifyS (upd_w_dataset_locks (<[key := MkDatasetLock L_REPLICATING (ru_account rule) length bytes]>))
  end.

(** The RSEs for a group of datasets of [nbytes] *)
Definition select_for_datasets (datasets : list DID) (nbytes : Z) : ST Grouping (list Chosen) :=
  let! w := getsS g_world in
  let cov := foldl (fun cov ds => foldl (fun cov (e : string * Z) => od_alter e.1 (fun o => e.2 + default 0 o)%Z cov) cov (get_rse_coverage_of_dataset w ds)) [] datasets in
  select_rses nbytes (by_coverage cov) 0 [] true cov.

(** One dataset; [used] are the RSEs files were put on so far when they are placed alone: those of
    earlier datasets are kept. *)
Definition apply_to_dataset (rse_tuples : list Chosen) (used : list string) (counts : Counts * Counts) (dataset : DID)
    : ST Grouping (list Chosen * (list string * (Counts * Counts))) :=
  let! w := getsS g_world in
  let! '(bytes, len) := liftS (dynamic_size w dataset) in
  let! is_open := liftS (did_open w dataset) in
  let npartitions := S (Z.to_nat (len / max_partition_size)) in
  let! rse_tuples := match ru_grouping rule with
                     | G_DATASET => select_for_datasets [dataset] bytes
                     | _ => retS rse_tuples
                     end in
  let! '(used, counts) := apply_partitions dataset rse_tuples npartitions (seq 0 npartitions) used counts in
  let used := rev (remove_dups (rev used)) in
  let grouped := negb (bool_decide (ru_grouping rule = G_NONE)) in
  do! forS (fun rse =>
        do! whenS grouped (on_world (save_dataset_lock dataset (if is_open then None else Some len) (if is_open then None else Some bytes) rse)) in
        on_world (add_collection_replica (Some dataset) rse)) (if grouped then rse_tuples.*1.*1 else used) in
  retS (rse_tuples, (used, counts)).

Fixpoint apply_to_datasets (rse_tuples : list Chosen) (used : list string) (counts : Counts * Counts) (datasets : list DID)
    : ST Grouping (Counts * Counts) :=
  match datasets with
  | [] => retS counts
  | ds :: datasets =>
      let! '(rse_tuples, (used, counts)) := apply_to_dataset rse_tuples used counts ds in
      apply_to_datasets rse_tuples used counts datasets
  end.

Definition apply_to_did (did : DID) (t : DIDType) : ST Grouping (Counts * Counts) :=
  if bool_decide (t = FILE) then apply_to_file did
  else
    let! w := getsS g_world in
    let datasets := stable_sort by_did (match t with DATASET => [did] | CONTAINER => list_child_datasets w did | _ => [] end) in
    let! rse_tuples := match ru_grouping rule with
                       | G_ALL =>
                           let! sizes := liftS (traverse (dynamic_size w) datasets) in
                           select_for_datasets datasets (foldr Z.add 0%Z sizes.*1)
                       | _ => retS []
                       end in
    apply_to_datasets rse_tuples [] ([], []) datasets.

(** [apply_rule]; the selector remembers what was chosen. *)
Definition apply_rule (did : DID) (t : DIDType) (sel : RSESelector) (draws : nat) : ST World (RSESelector * nat) := fun w =>
  let '(x, g) := (let! '(replicas, locks) := apply_to_did did t in
                  do! on_world (forS (fun e : string * (Z * Z) => rse_increase e.1 e.2.1 e.2.2) replicas) in
                  do! on_world (forS (fun e : string * (Z * Z) => account_increase e.1 (ru_account rule) e.2.1 e.2.2) locks) in
                  getsS (fun g => (g_selector g, g_draws g)))
                 (MkGrouping w sel draws ∅ ∅ [] [] [] []) in
  (x, g_world g).

End apply_rule.

(** The state of a rule that was just applied *)
Definition conclude_creation (rule_id : string) (release : bool) : ST World unit :=
  let! rule := the_rule rule_id in
  do! (if bool_decide (0 < ru_locks_stuck_cnt rule)%Z then
         do! set_rule_state rule_id RS_STUCK in
         do! set_rule_error rule_id (Some "MissingSourceReplica"%string) in
         mark_dataset_locks rule L_STUCK
       else if bool_decide (ru_locks_replicating_cnt rule = 0)%Z then
         do! set_rule_state rule_id RS_OK in
         do! mark_dataset_locks rule L_OK in
         do! whenS (bool_decide (ru_notification rule = N_YES)) (generate_email_for_rule_ok_notification rule_id) in
         do! generate_rule_notifications rule_id (Some 0%Z) in
         whenS release (release_parent_rule rule_id false)
       else
         do! set_rule_state rule_id RS_REPLICATING in
         mark_dataset_locks rule L_REPLICATING) in
  insert_rule_history rule_id true true.

(** [except IntegrityError: raise ReplicationRuleCreationTemporaryFailed] *)
Definition or_temporary {A} (m : ST World A) : ST World A :=
  tryS m (fun e => match e with IntegrityError => Some (raiseS ReplicationRuleCreationTemporaryFailed) | _ => None end).

(** ** Approval *)

(** [get_account(account).email] *)
Definition account_email (account : option string) : ST World (option string) :=
  let! known := getsS (fun w => bool_decide (is_Some (a ← account; accounts (w_session w) !! a))) in
  if known then getsS (fun w => a ← account; w_emails w !! a) else raiseS AccountNotFound.
Definition nonempty (s : option string) : option string := match s with Some (String _ _) => s | _ => None end.

(** [s.split(',')] *)
Fixpoint split_commas (s : string) : list string :=
  match s with
  | EmptyString => [""%string]
  | String a s =>
      if bool_decide (a = ","%char) then ""%string :: split_commas s
      else match split_commas s with x :: l => String a x :: l | [] => [String a ""] end
  end.

(** The e-mail addresses of the accounts that are known, with these *)
Definition reachable (w : World) (l : list string) : list (string * string) :=
  omap (fun a => if bool_decide (is_Some (accounts (w_session w) !! a))
                 then (fun e => (e, a)) <$> nonempty (w_emails w !! a) else None) l.

Definition text_of_attribute (default : string) (v : option AttrValue) : string :=
  match v with Some (AStr s) => s | Some (ABool b) => if b then "True" else "False" | None => default end.
(** The accounts with the attribute [key] set to [admin] *)
Definition admins (w : World) (key : string) : list string :=
  omap (fun kv : string * string * AttrValue => if bool_decide (kv.1.2 = key) && bool_decide (kv.2 = AStr "admin") then Some kv.1.1 else None)
    (map_to_list (account_attrs (w_session w))).

Definition rule_approvers (w : World) (rse : RSERow) : result (list (string * string)) :=
  match rse_attribute (w_session w) (rse_id rse) "rule_approvers" with
  | Some (AStr (String _ _ as s)) => Ok (reachable w (split_commas s))
  | Some (ABool true) => Err AttributeError
  | _ => Ok []
  end.
Definition disk_admins (w : World) (types : list string) (prefix key : string) (rse : RSERow) : list (string * string) :=
  if bool_decide (text_of_attribute "" (rse_attribute (w_session w) (rse_id rse) "type") ∈ types)
  then reachable w (admins w (prefix +:+ text_of_attribute "" (rse_attribute (w_session w) (rse_id rse) key))) else [].
Definition or_else {A} (l l' : list A) : list A := match l with [] => l' | _ => l end.

(** [_create_recipients_list] *)
Definition create_recipients_list (w : World) (rse_expression v : string) : result (list (string * string)) :=
  let* rses := parse_expression (w_session w) rse_expression (Some v) in
  let* approvers := traverse (rule_approvers w) rses in
  Ok (remove_dups
        (or_else (concat approvers)
        (or_else (concat (disk_admins w ["LOCALGROUPDISK"; "LOCALGROUPTAPE"]%string "country-" "country" <$> rses))
        (or_else (concat (disk_admins w ["GROUPDISK"]%string "group-" "physgroup" <$> rses))
        (match nonempty default_mail_from with Some a => [(a, "ddmadmin"%string)] | None => [] end))))).

Definition open_template : ST World unit :=
  let! readable := getsS w_mail_template in if readable then skipS else raiseS FileNotFoundError.
Definition mail_recipients (rule : Rule) (message : string -> Message) : ST World unit :=
  let! w := getsS id in
  let! recipients := liftS (create_recipients_list w (ru_rse_expression rule) (vo (ru_account rule))) in
  forS (fun r : string * string => add_message (message r.1)) recipients.

(** [__create_rule_approval_email] *)
Definition create_rule_approval_email (rule : Rule) : ST World unit :=
  do! open_template in
  let! w := getsS id in
  do! liftS (or_raise DataIdentifierNotFound (w_dids w !! ru_did rule)) in
  let! target_rses := liftS (parse_expression (w_session w) (ru_rse_expression rule) (Some (vo (ru_account rule)))) in
  match target_rses with
  | [] => raiseS IndexError
  | _ =>
      let! recipients := liftS (create_recipients_list w (ru_rse_expression rule) (vo (ru_account rule))) in
      forS (fun r : string * string =>
        do! account_email (internal (ru_account rule)) in add_message (RULE_APPROVAL_EMAIL (ru_id rule) r.1)) recipients
  end.

(** [AutoApprove.default] *)
Definition default_auto_approve (w : World) (rule : Rule) (did : DIDRow) : result bool :=
  let* rses := parse_expression (w_session w) (ru_rse_expression rule) (Some (vo (ru_account rule))) in
  if bool_decide (1 < length rses)%nat then Err InvalidReplicationRule
  else match rses, d_bytes did, d_length did with
       | [rse], Some bytes, Some len =>
           if bool_decide (d_open did = Some true) then Ok false
           else
             let attr key := rse_attribute (w_session w) (rse_id rse) key in
             let below (n : Z) (v : option AttrValue) : result bool :=
               let* limit := match v with Some v => or_raise ValueError (int_of_attribute v) | None => Ok (-1)%Z end in Ok (bool_decide (n < limit)%Z) in
             let max_bytes := attr "auto_approve_bytes"%string in
             let max_files := attr "auto_approve_files"%string in
             match max_bytes, max_files with
             | Some _, Some _ => below bytes max_bytes andalso below len max_files
             | _, _ => below bytes max_bytes orelse below len max_files
             end
       | _, _, _ => Ok false
       end.

(** [except NoResultFound: raise RuleNotFound] *)
Definition rule_not_found {A} (m : ST World A) : ST World A :=
  tryS m (fun e => match e with NoResultFound => Some (raiseS RuleNotFound) | _ => None end).

(** [approve_rule], by an account or automatically *)
Definition approve_rule (rule_id : string) (approver : option string) (notify_approvers : bool) : ST World unit :=
  rule_not_found
    (let! rule := the_rule rule_id in
     if bool_decide (ru_state rule = RS_WAITING_APPROVAL) then
       do! alter_rule (upd_ru_ignore_account_limit (fun _ => true)) rule_id in
       do! set_rule_state rule_id RS_INJECT in
       do! match approver with Some _ => do! account_email approver in skipS | None => skipS end in
       do! open_template in
       let! email := account_email (internal (ru_account rule)) in
       do! match nonempty email with Some e => add_message (RULE_APPROVED_EMAIL rule_id e) | None => skipS end in
       if notify_approvers then
         do! open_template in mail_recipients rule (RULE_APPROVED_EMAIL rule_id)
       else skipS
     else skipS).

(** [deny_rule] *)
Definition deny_rule (rule_id : string) (approver : option string) : ST World unit :=
  rule_not_found
    (let! rule := the_rule rule_id in
     if bool_decide (ru_state rule = RS_WAITING_APPROVAL) then
       do! open_template in
       let! email := account_email (internal (ru_account rule)) in
       do! match approver with Some _ => do! account_email approver in skipS | None => skipS end in
       do! match nonempty email with Some e => add_message (RULE_DENIED_EMAIL rule_id e) | None => skipS end in
       do! delete_rule rule_id None false false true in
       do! open_template in
       mail_recipients rule (RULE_DENIED_EMAIL rule_id)
     else skipS).

(** ** Adding a rule *)

(** The arguments of [add_rule], without the data identifiers *)
Record RuleOptions := MkOptions {
  o_account : InternalType;
  o_copies : Z;
  o_rse_expression : string;
  o_grouping : string;
  o_weight : option string;
  o_lifetime : option Z;
  o_locked : bool;
  o_subscription_id : option string;
  o_source_replica_expression : option string;
  o_activity : option string;
  o_notify : option string;
  o_purge_replicas : bool;
  o_ignore_availability : bool;
  o_comment : option string;
  o_ask_approval : bool;
  o_asynchronous : bool;
  o_ignore_account_limit : bool;
  o_priority : option Z;
  o_delay_injection : option Z;
  o_split_container : bool;
  o_meta : option string;  (* as JSON *)
}.

Definition grouping_of (s : string) : RuleGrouping :=
  if bool_decide (s = "ALL"%string) then G_ALL else if bool_decide (s = "NONE"%string) then G_NONE else G_DATASET.
Definition notification_of (s : option string) : RuleNotification :=
  if bool_decide (s = Some "Y"%string) then N_YES else if bool_decide (s = Some "C"%string) then N_CLOSE
  else if bool_decide (s = Some "P"%string) then N_PROGRESS else N_NO.

(** [get_scratch_policy]: rules of accounts that are no admins do not live longer on a scratch disk. *)
Definition on_scratchdisk (s : Session) (rses : list RSERow) : bool :=
  existsb (fun r => bool_decide (rse_attribute s (rse_id r) "type" = Some (AStr "SCRATCHDISK"))) rses.
Definition get_scratch_policy (s : Session) (account : InternalType) (rses : list RSERow) (lifetime : option Z) : option Z :=
  let limit := (60 * 60 * 24 * scratchdisk_lifetime)%Z in
  if negb (has_account_attribute s account "admin")
     && match lifetime with Some l => bool_decide (limit < l)%Z | None => true end && on_scratchdisk s rses
  then Some (limit - 1)%Z else lifetime.

(** What the rules for all data identifiers share: the RSEs, the sources, how long they live, whether
    they are locked, and the selector *)
Record Prepared := MkPrepared {
  p_rses : list RSERow; p_sources : list RSERow; p_lifetime : option Z; p_locked : bool; p_selector : RSESelector
}.
Definition writable_rses (s : Session) (expression : string) (account : InternalType) (ignore_availability : bool) : result (list RSERow) :=
  if ignore_availability then parse_expression s expression (Some (vo account)) else parse_writable s expression (vo account).
Definition prepare_rule (w : World) (o : RuleOptions) : result Prepared :=
  let s := w_session w in
  let* rses := writable_rses s (o_rse_expression o) (o_account o) (o_ignore_availability o) in
  if bool_decide (o_lifetime o = None) && existsb rse_staging_area rses then Err StagingAreaRuleRequiresLifetime
  else
    let lifetime := get_scratch_policy s (o_account o) rses (o_lifetime o) in
    let locked := o_locked o || bool_decide (lifetime = None) && existsb (fun r => bool_decide (rse_type r = RT_TAPE)) rses in
    if o_ask_approval o && existsb (fun r => attribute_true (rse_attribute s (rse_id r) "block_manual_approval")) rses
    then Err ManualRuleApprovalBlocked
    else
      let* sources := match o_source_replica_expression o with
                      | Some (String _ _ as e) =>
                          match parse_expression s e (Some (vo (o_account o))) with
                          | Err (InvalidRSEExpression _) => Err InvalidSourceReplicaExpression
                          | r => r
                          end
                      | _ => Ok []
                      end in
      let* sel := new_selector s (w_quotas w) (o_account o) rses (o_weight o) (o_copies o) (o_ask_approval o || o_ignore_account_limit o) in
      Ok (MkPrepared rses sources lifetime locked sel).

(** The data identifier a rule is put on: an archive with replicas instead of a constituent that has
    none but on tape *)
Definition on_tape (s : Session) (rse : string) : bool :=
  existsb (fun r => bool_decide (Database.rse_id r = rse) && bool_decide (rse_type r = RT_TAPE)) (Database.rses s).
Definition known_rse (s : Session) (rse : string) : bool := existsb (fun r => bool_decide (Database.rse_id r = rse)) (Database.rses s).
Definition relay_to_archive (w : World) (did : DID) : result (DID * DIDRow) :=
  let* row := or_raise DataIdentifierNotFound (w_dids w !! did) in
  if bool_decide (d_type row = FILE) && d_constituent row
     && negb (existsb (fun r => persistent_replica r && bool_decide (rp_did r = did) && bool_decide (rp_state r = R_AVAILABLE)
                                  && known_rse (w_session w) (rp_rse_id r) && negb (on_tape (w_session w) (rp_rse_id r))) (w_replicas w))
  then match List.find (fun a : DID * DID => bool_decide (a.2 = did)
                          && existsb (fun r => persistent_replica r && bool_decide (rp_did r = a.1)) (w_replicas w)) (w_archive_contents w) with
       | Some (archive, _) => let* row := or_raise DataIdentifierNotFound (w_dids w !! archive) in Ok (archive, row)
       | None => Ok (did, row)
       end
  else Ok (did, row).

Definition new_rule (o : RuleOptions) (rule_id : string) (p : Prepared) (t : Z) (did : DID) (type : DIDType) : Rule :=
  {| ru_id := rule_id; ru_subscription_id := o_subscription_id o; ru_account := o_account o; ru_did := did; ru_did_type := type;
     ru_state := RS_REPLICATING; ru_error := None; ru_rse_expression := o_rse_expression o; ru_copies := o_copies o;
     ru_expires_at := Z.add t <$> p_lifetime p; ru_weight := o_weight o; ru_locked := p_locked p; ru_locks_ok_cnt := 0;
     ru_locks_replicating_cnt := 0; ru_locks_stuck_cnt := 0; ru_source_replica_expression := o_source_replica_expression o;
     ru_activity := Some (default "User Subscriptions"%string (nonempty (o_activity o))); ru_grouping := grouping_of (o_grouping o);
     ru_notification := notification_of (o_notify o); ru_stuck_at := None; ru_purge_replicas := o_purge_replicas o;
     ru_ignore_availability := o_ignore_availability o; ru_ignore_account_limit := o_ignore_account_limit o; ru_priority := o_priority o;
     ru_comments := o_comment o; ru_child_rule_id := None; ru_eol_at := None; ru_split_container := o_split_container o;
     ru_meta := o_meta o; ru_created_at := t; ru_updated_at := t |}.

(** The unique index of rules *)
Definition same_rule (a b : Rule) : bool :=
  bool_decide (ru_did a = ru_did b) && bool_decide (ru_account a = ru_account b)
  && bool_decide (ru_rse_expression a = ru_rse_expression b) && bool_decide (ru_copies a = ru_copies b).
Definition save_rule (rule : Rule) : ST World unit :=
  let! w := getsS id in
  if bool_decide (is_Some (w_rules w !! ru_id rule)) || existsb (fun kv : string * Rule => same_rule kv.2 rule) (map_to_list (w_rules w))
  then raiseS DuplicateRule
  else if bool_decide (is_Some (a ← internal (ru_account rule); accounts (w_session w) !! a))
  then modifyS (upd_w_rules (<[ru_id rule := rule]>))
  else raiseS InvalidReplicationRule.

(** The rule for one data identifier.  Once a rule was too large, those for the next data identifiers are
    injected later too. *)
Definition add_rule_for (o : RuleOptions) (p : Prepared) (sel : RSESelector) (draws : nat) (asynchronous : bool) (elem : DID)
    : ST World (string * (RSESelector * nat) * bool) :=
  let! w := getsS id in
  let! '(did, row) := liftS (relay_to_archive w elem) in
  let t := now (w_session w) in
  let rule_id := generate_uuid w in
  let rule := new_rule o rule_id p t did (d_type row) in
  do! save_rule rule in
  if o_ask_approval o then
    do! set_rule_state rule_id RS_WAITING_APPROVAL in
    let! w := getsS id in
    let! approved := liftS (auto_approve w rule row) in
    do! (if approved then approve_rule rule_id None false else create_rule_approval_email rule) in
    retS (rule_id, (sel, draws), asynchronous)
  else
    let asynchronous := asynchronous || match d_length row with Some n => bool_decide (10000 <= n * o_copies o)%Z | None => false end in
    let delay := match o_delay_injection o with Some 0%Z | None => None | Some n => Some n end in
    if asynchronous || bool_decide (is_Some delay) then
      do! set_rule_state rule_id RS_INJECT in
      do! match delay with Some n => alter_rule (upd_ru_created_at (fun _ => t + n)%Z) rule_id | None => skipS end in
      retS (rule_id, (sel, draws), asynchronous)
    else if o_split_container o && bool_decide (d_type row = CONTAINER) then
      do! set_rule_state rule_id RS_INJECT in
      retS (rule_id, (sel, draws), asynchronous)
    else
      let! selected := or_temporary (apply_rule rule (rse_id <$> p_rses p) (rse_id <$> p_sources p) did (d_type row) sel draws) in
      do! conclude_creation rule_id false in
      retS (rule_id, selected, asynchronous).

Fixpoint add_rules_for (o : RuleOptions) (p : Prepared) (sel : RSESelector) (draws : nat) (asynchronous : bool) (dids : list DID)
    : ST World (list string) :=
  match dids with
  | [] => retS []
  | did :: dids =>
      let! '(rule_id, selected, asynchronous) := add_rule_for o p sel draws asynchronous did in
      let! rule_ids := add_rules_for o p selected.1 selected.2 asynchronous dids in
      retS (rule_id :: rule_ids)
  end.

(** [add_rule] *)
Definition add_rule (dids : list DID) (o : RuleOptions) : ST World (list string) :=
  if bool_decide (o_copies o <= 0)%Z then raiseS InvalidValueForKey
  else
    let! w := getsS id in
    let! p := liftS (prepare_rule w o) in
    add_rules_for o p (p_selector p) 0 (o_asynchronous o) dids.

(** ** Injection *)

(** A rule on a container is split into rules on its datasets, but those that have one. *)
Definition has_similar_rule (w : World) (rule : Rule) (did : DID) : result bool :=
  match List.filter (fun kv : string * Rule => bool_decide (ru_account kv.2 = ru_account rule)
           && bool_decide (ru_rse_expression kv.2 = ru_rse_expression rule) && bool_decide (ru_did kv.2 = did)) (map_to_list (w_rules w)) with
  | [] => Ok false
  | [_] => Ok true
  | _ => Err MultipleResultsFound
  end.
Definition time_left (t : Z) (rule : Rule) : option Z := (fun e => e - t)%Z <$> ru_expires_at rule.
Definition notify_of (n : RuleNotification) : option string :=
  Some (match n with N_YES => "Y" | N_CLOSE => "C" | N_PROGRESS => "P" | N_NO => "N" end)%string.
Definition split_options (rule : Rule) (t : Z) : RuleOptions :=
  MkOptions (ru_account rule) (ru_copies rule) (ru_rse_expression rule) "DATASET" None (time_left t rule) false None None
    (ru_activity rule) (notify_of (ru_notification rule)) false (ru_ignore_availability rule) (ru_comments rule) false true true
    (ru_priority rule) None (ru_split_container rule) None.
Definition split_rule (rule : Rule) : ST World unit :=
  let! w := getsS id in
  let! similar := liftS (traverse (fun did => let* b := has_similar_rule w rule did in Ok (did, b)) (list_child_datasets w (ru_did rule))) in
  let dids := fst <$> List.filter (fun x : DID * bool => negb x.2) similar in
  do! add_rule dids (split_options rule (now (w_session w))) in
  modifyS (upd_w_rules (delete (ru_id rule))).

(** [inject_rule] *)
Definition inject_rule (rule_id : string) : ST World unit :=
  let! row := rule_row rule_id in
  let! rule := liftS (or_raise RuleNotFound row) in
  let! w := getsS id in
  let t := now (w_session w) in
  if bool_decide (ru_child_rule_id rule = None) && match ru_expires_at rule with Some e => bool_decide (e < t + 300)%Z | None => false end
  then skipS
  else if bool_decide (ru_did_type rule = CONTAINER) && (str_infix ".r2d2_request." (ru_did rule).2 || ru_split_container rule)
  then split_rule rule
  else
    let s := w_session w in
    let! rses := liftS (target_rses s rule) in
    let! sources := liftS (rule_source_rses s rule) in
    let! sel := liftS (new_selector s (w_quotas w) (ru_account rule) rses (ru_weight rule) (ru_copies rule) (ru_ignore_account_limit rule)) in
    let! did := liftS (or_raise DataIdentifierNotFound (w_dids w !! ru_did rule)) in
    do! or_temporary (apply_rule rule (rse_id <$> rses) (rse_id <$> sources) (ru_did rule) (d_type did) sel 0) in
    conclude_creation rule_id true.

End creation.
