(* ===== verification/RuleChanges.v ===== *)
(** * Changing, reducing and moving rules: [lib/rucio/core/rule.py]

    [update_rule] with all its options, [reduce_rule] and [move_rule], which put another rule in the
    place of one. *)

From S2P Require Import Prelude StateError Counting PyString PyFloat Types Database RseSelector LockTables RuleGrouping RuleEngine RuleRepair RuleCreation Requests.

(** ** Updates *)

(** The options of [update_rule], in the order of the dictionary *)
Inductive RuleOption :=
  | SetComment (comment : option string)
  | SetLocked (locked : bool)
  | SetLifetime (lifetime : option Z)
  | SetAccount (account : InternalType)
  | SetState (state : string)
  | SetActivity (activity : string)
  | SetSourceReplicaExpression (expression : option string)
  | SetCancelRequests (cancel : bool)
  | SetPriority (priority : Z)
  | SetChildRule (child_rule_id : option string)
  | SetEolAt (eol_at : option Z)
  | SetMeta (meta : string)  (* as JSON *)
  | SetPurgeReplicas (purge_replicas : bool)
  | BoostRule
  | OtherOption (key : string).
Definition cancels (options : list RuleOption) : bool :=
  existsb (fun o => match o with SetCancelRequests b => b | _ => false end) options.
Definition boosts (options : list RuleOption) : bool :=
  existsb (fun o => match o with BoostRule => true | _ => false end) options.
Definition is_valid (o : RuleOption) : bool := match o with OtherOption _ => false | _ => true end.

Definition of_rule_in (rule_id : string) (state : LockState) (l : Lock) : bool :=
  bool_decide (lk_rule_id l = rule_id) && bool_decide (lk_state l = state).

Section changing.
Context `{RSEExpressions} `{Random}.
(** The days a rule lives on a scratch disk, whether a VO knows an activity, and whether the transfer
    tool refuses new priorities *)
Variables (scratchdisk_lifetime : Z) (known_activity : string -> string -> bool)
  (refused : list (option string * option string) -> bool).

(** Transfers are cancelled and asked for again, for the activity. *)
Definition resubmit (rule_id : string) (lock : nat) : ST World unit :=
  let! l := lock_at lock in
  do! cancel_request_did (lk_did l) (lk_rse_id l) in
  let! found := select_replicas (on_replica (lk_did l) (lk_rse_id l)) in
  let! replica := scalar_one (head found) in
  let! r := replica_at replica in
  let! rule := the_rule rule_id in
  queue_requests [create_transfer_dict (lk_rse_id l) TRANSFER (lk_did l) rule (Some l) (rp_bytes r) (rp_md5 r) (rp_adler32 r)
                    (Some (ru_did rule)) None (ru_activity rule) None].

(** [update(locktype).where(rule_id).values(account)] *)
Definition give_locks (rule_id : string) (account : InternalType) : ST World unit :=
  let! locks := select_locks (fun l => bool_decide (lk_rule_id l = rule_id)) in
  do! forS (alter_lock (upd_lk_account (fun _ => account))) locks in
  modifyS (upd_w_dataset_locks (map_imap (fun key d =>
    Some (if bool_decide (key.1.2 = rule_id) then upd_dl_account (fun _ => account) d else d)))).
(** The sizes of the locked files on each RSE *)
Definition lock_sizes (ls : list Lock) : list (string * list Z) := foldl (fun d l => od_append (lk_rse_id l) (lk_bytes l) d) [] ls.
Definition move_usage (from to : InternalType) (sizes : list (string * list Z)) : ST World unit :=
  forS (fun s : string * list Z =>
    let bytes := foldr Z.add 0%Z s.2 in
    do! account_decrease s.1 from (Z.of_nat (length s.2)) bytes in
    account_increase s.1 to (Z.of_nat (length s.2)) bytes) sizes.
(** The unique index of rules; its violation is recognised on the other databases. *)
Definition set_account (rule_id : string) (account : InternalType) : ST World unit :=
  do! alter_rule (upd_ru_account (fun _ => account)) rule_id in
  let! rule := the_rule rule_id in
  let! w := getsS id in
  if existsb (fun kv : string * Rule => negb (bool_decide (kv.1 = rule_id)) && same_rule kv.2 rule) (map_to_list (w_rules w))
  then raiseS (if w_postgresql w then IntegrityError else DuplicateRule) else skipS.
Definition change_account (rule_id : string) (account : InternalType) : ST World unit :=
  let! w := getsS id in
  if negb (bool_decide (is_Some (a ← internal account; accounts (w_session w) !! a))) then raiseS AccountNotFound
  else
    let sizes := lock_sizes (snd <$> objects (w_locks w) (locks_where w (fun l => bool_decide (lk_rule_id l = rule_id)))) in
    do! give_locks rule_id account in
    let! rule := the_rule rule_id in
    do! move_usage (ru_account rule) account sizes in
    set_account rule_id account.

(** Transfers are cancelled and every lock that waits for them is stuck, with its rule. *)
Definition cancel_lock (lock : nat) : ST World (list string) :=
  let! l := lock_at lock in
  let! locks := select_locks (fun l' => on_file (lk_did l) (lk_rse_id l) l' && bool_decide (lk_state l' = L_REPLICATING)) in
  let! rules := concatS (fun i =>
    do! alter_lock (upd_lk_state (fun _ => L_STUCK)) i in
    let! l' := lock_at i in retS [lk_rule_id l']) locks in
  do! cancel_request_did (lk_did l) (lk_rse_id l) in
  let! found := select_replicas (on_replica (lk_did l) (lk_rse_id l)) in
  let! replica := scalar_one (head found) in
  do! alter_replica (upd_rp_state (fun _ => R_UNAVAILABLE)) replica in
  retS rules.
Definition mark_stuck (rule_id : string) : ST World unit :=
  do! alter_rule (fun r => if bool_decide (ru_state r = RS_SUSPENDED) then r else upd_ru_state (fun _ => RS_STUCK) r) rule_id in
  set_dataset_locks rule_id L_STUCK.
Definition cancel_rule (rule_id : string) : ST World unit :=
  let! locks := select_locks (of_rule_in rule_id L_REPLICATING) in
  let! rules := concatS cancel_lock locks in
  forS mark_stuck (remove_dups rules).
Definition stick_locks (rule_id : string) : ST World unit :=
  let! locks := select_locks (of_rule_in rule_id L_REPLICATING) in
  do! forS (alter_lock (upd_lk_state (fun _ => L_STUCK))) locks in
  set_dataset_locks rule_id L_STUCK.
Definition change_state (rule_id state : string) (cancel : bool) : ST World unit :=
  do! whenS cancel (cancel_rule rule_id) in
  if bool_decide (str_lower state = "suspended"%string) then set_rule_state rule_id RS_SUSPENDED
  else if bool_decide (str_lower state = "stuck"%string) then
    let! t := getsS (fun w => now (w_session w)) in
    do! set_rule_state rule_id RS_STUCK in
    do! alter_rule (upd_ru_stuck_at (fun _ => Some t)) rule_id in
    whenS (negb cancel) (stick_locks rule_id)
  else skipS.

Definition change_child (rule_id : string) (child_rule_id : option string) : ST World unit :=
  let! rule := the_rule rule_id in
  match child_rule_id with
  | None =>
      if bool_decide (ru_child_rule_id rule ≫= or_none = None) then raiseS InputValidationError
      else do! alter_rule (upd_ru_child_rule_id (fun _ => None)) rule_id in
           alter_rule (upd_ru_expires_at (fun _ => None)) rule_id
  | Some child =>
      let! child_rule := the_rule child in
      if negb (bool_decide (ru_did rule = ru_did child_rule)) then raiseS InputValidationError
      else if bool_decide (rule_id = child) then raiseS InputValidationError
      else whenS (negb (bool_decide (ru_state child_rule = RS_OK))) (alter_rule (upd_ru_child_rule_id (fun _ => Some child)) rule_id)
  end.

Definition change_lifetime (rule_id : string) (lifetime : option Z) : ST World unit :=
  let! rule := the_rule rule_id in
  let! s := getsS w_session in
  let! rses := liftS (parse_expression s (ru_rse_expression rule) (Some (vo (ru_account rule)))) in
  alter_rule (upd_ru_expires_at (fun _ => Z.add (now s) <$> get_scratch_policy scratchdisk_lifetime s (ru_account rule) rses lifetime)) rule_id.
Definition change_activity (rule_id activity : string) : ST World unit :=
  let! rule := the_rule rule_id in
  if negb (known_activity (vo (ru_account rule)) activity) then raiseS InvalidObject
  else
    do! alter_rule (upd_ru_activity (fun _ => Some activity)) rule_id in
    let! locks := select_locks (of_rule_in rule_id L_REPLICATING) in
    forS (resubmit rule_id) locks.
Definition change_priority (rule_id : string) (priority : Z) : ST World unit :=
  do! alter_rule (upd_ru_priority (fun _ => Some priority)) rule_id in
  let! transfers := update_requests_priority priority (MkPriorityFilter (Some rule_id) None None None) in
  if refused transfers then raiseS UnsupportedOperation else skipS.

Definition change_rule (rule_id : string) (cancel : bool) (o : RuleOption) : ST World unit :=
  do! match o with
      | SetComment c => alter_rule (upd_ru_comments (fun _ => c)) rule_id
      | SetLocked b => alter_rule (upd_ru_locked (fun _ => b)) rule_id
      | SetLifetime n => change_lifetime rule_id n
      | SetAccount a => change_account rule_id a
      | SetState s => change_state rule_id s cancel
      | SetActivity a => change_activity rule_id a
      | SetSourceReplicaExpression e => alter_rule (upd_ru_source_replica_expression (fun _ => e)) rule_id
      | SetPriority p => change_priority rule_id p
      | SetChildRule c => change_child rule_id c
      | SetEolAt e => alter_rule (upd_ru_eol_at (fun _ => e)) rule_id
      | SetMeta m => alter_rule (upd_ru_meta (fun _ => Some m)) rule_id
      | SetPurgeReplicas b => alter_rule (upd_ru_purge_replicas (fun _ => b)) rule_id
      | SetCancelRequests _ | BoostRule | OtherOption _ => skipS
      end in
  insert_rule_history rule_id true false.

(** Stuck locks that look a day older are repaired sooner. *)
Definition boost_lock (lock : nat) : ST World unit :=
  let! l := lock_at lock in
  let! t := liftS (or_raise TypeError (lk_updated_at l)) in
  modifyS (upd_w_locks (alter (upd_lk_updated_at (fun _ => Some (t - 24 * 3600)%Z)) lock)).
Definition boost_rule (rule_id : string) : ST World unit :=
  let! locks := select_locks (of_rule_in rule_id L_STUCK) in
  do! forS boost_lock locks in
  do! alter_rule (upd_ru_updated_at (fun t => t - 24 * 3600)%Z) rule_id in
  insert_rule_history rule_id true false.

(** [update_rule]: whatever row is missing, the rule is said to be. *)
Definition update_rule (rule_id : string) (options : list RuleOption) : ST World unit :=
  if negb (forallb is_valid options) then raiseS InputValidationError
  else
    tryS
      (do! the_rule rule_id in
       do! forS (change_rule rule_id (cancels options)) options in
       whenS (boosts options) (boost_rule rule_id))
      (fun e => match e with NoResultFound => Some (raiseS RuleNotFound) | _ => None end).

(** ** Replacements *)

Variables (max_partition_size : Z) (default_mail_from : option string) (on_thread : nat -> nat -> string -> bool)
  (generate_uuid : World -> string) (auto_approve : World -> Rule -> DIDRow -> result bool).

Definition grouping_text (g : RuleGrouping) : string :=
  match g with G_ALL => "ALL" | G_NONE => "NONE" | G_DATASET => "DATASET" end.

(** The options of a new rule that [move_rule] is asked to change; others are not allowed. *)
Record Overrides := MkOverrides {
  ov_account : option InternalType;
  ov_copies : option Z;
  ov_rse_expression : option string;
  ov_grouping : option string;
  ov_weight : option (option string);
  ov_lifetime : option (option Z);
  ov_locked : option bool;
  ov_subscription_id : option (option string);
  ov_source_replica_expression : option (option string);
  ov_activity : option (option string);
  ov_notify : option (option string);
  ov_purge_replicas : option bool;
  ov_ignore_availability : option bool;
  ov_comment : option (option string);
  ov_other : option string;
}.
Definition overridden (o : RuleOptions) (v : Overrides) : result RuleOptions :=
  if bool_decide (is_Some (ov_other v)) then Err UnsupportedOperation
  else Ok (MkOptions (default (o_account o) (ov_account v)) (default (o_copies o) (ov_copies v))
    (default (o_rse_expression o) (ov_rse_expression v)) (default (o_grouping o) (ov_grouping v)) (default (o_weight o) (ov_weight v))
    (default (o_lifetime o) (ov_lifetime v)) (default (o_locked o) (ov_locked v)) (default (o_subscription_id o) (ov_subscription_id v))
    (default (o_source_replica_expression o) (ov_source_replica_expression v)) (default (o_activity o) (ov_activity v))
    (default (o_notify o) (ov_notify v)) (default (o_purge_replicas o) (ov_purge_replicas v))
    (default (o_ignore_availability o) (ov_ignore_availability v)) (default (o_comment o) (ov_comment v))
    (o_ask_approval o) (o_asynchronous o) (o_ignore_account_limit o) (o_priority o) (o_delay_injection o) (o_split_container o) (o_meta o)).

(** What a rule that takes the place of one shares with it *)
Definition replacement (rule : Rule) (t copies : Z) (rse_expression : string) (comment : option string) : RuleOptions :=
  MkOptions (ru_account rule) copies rse_expression (grouping_text (ru_grouping rule)) (ru_weight rule) (time_left t rule)
    (ru_locked rule) (ru_subscription_id rule) (ru_source_replica_expression rule) (ru_activity rule) (notify_of (ru_notification rule))
    (ru_purge_replicas rule) (ru_ignore_availability rule) comment false false false (Some 3%Z) None false None.
Definition add_replacement (did : DID) (o : RuleOptions) : ST World string :=
  let! rule_ids := add_rule max_partition_size scratchdisk_lifetime default_mail_from on_thread generate_uuid auto_approve [did] o in
  liftS (or_raise IndexError (head rule_ids)).
Definition or_rule_not_found {A} (m : ST World A) : ST World A :=
  tryS m (fun e => match e with NoResultFound => Some (raiseS RuleNotFound) | _ => None end).

(** [reduce_rule] *)
Definition excluding (expression : string) (exclude_expression : option string) : string :=
  match exclude_expression with
  | Some (String _ _ as e) => String.concat "" ["("; expression; ")\("; e; ")"]%string
  | _ => expression
  end.
Definition reduce_rule (rule_id : string) (copies : Z) (exclude_expression : option string) : ST World string :=
  or_rule_not_found
    (let! rule := the_rule rule_id in
     if bool_decide (ru_copies rule <= copies)%Z then raiseS RuleReplaceFailed
     else if negb (bool_decide (ru_state rule = RS_OK)) then raiseS RuleReplaceFailed
     else
       let! t := getsS (fun w => now (w_session w)) in
       let! new_rule_id := add_replacement (ru_did rule)
         (replacement rule t copies (excluding (ru_rse_expression rule) exclude_expression) None) in
       let! new_rule := the_rule new_rule_id in
       if negb (bool_decide (ru_state new_rule = RS_OK)) then raiseS RuleReplaceFailed
       else
         do! delete_rule rule_id None false false false in
         retS new_rule_id).

(** [move_rule], which may override the options of the new rule *)
Definition move_rule (rule_id rse_expression : string) (override : Overrides) : ST World string :=
  or_rule_not_found
    (let! rule := the_rule rule_id in
     if negb (bool_decide (ru_child_rule_id rule ≫= or_none = None)) then raiseS RuleReplaceFailed
     else
       let! t := getsS (fun w => now (w_session w)) in
       let! options := liftS (overridden (replacement rule t (ru_copies rule) rse_expression (ru_comments rule)) override) in
       let! new_rule_id := add_replacement (ru_did rule) options in
       do! update_rule rule_id [SetChildRule (Some new_rule_id); SetLifetime (Some 0%Z)] in
       retS new_rule_id).

End changing.
