(* ===== verification/Accounts.v ===== *)
(** * Limits and usage of accounts

    The limits of accounts ([lib/rucio/core/account_limit.py]), accounts with their attributes
    ([lib/rucio/core/account.py]), and the counters of accounts and RSEs: what is added to them waits in a
    table ([lib/rucio/core/account_counter.py], [rse_counter.py]) until the abacus
    ([lib/rucio/daemons/abacus]) takes it over. *)

From S2P Require Import Prelude StateError Counting PyString Types Database RseSelector LockTables RuleGrouping RuleEngine.

Definition upd_account_limits (f : gmap (string * string) Z -> gmap (string * string) Z) (q : QuotaDB) : QuotaDB :=
  MkQuotaDB (f (account_limits q)) (account_global_limits q) (account_usage q) (max_space_available q) (rse_counters q).
Definition upd_global_limits (f : list (string * string * Z) -> list (string * string * Z)) (q : QuotaDB) : QuotaDB :=
  MkQuotaDB (account_limits q) (f (account_global_limits q)) (account_usage q) (max_space_available q) (rse_counters q).
Definition upd_account_usage (f : gmap (string * string) (Z * Z) -> gmap (string * string) (Z * Z)) (q : QuotaDB) : QuotaDB :=
  MkQuotaDB (account_limits q) (account_global_limits q) (f (account_usage q)) (max_space_available q) (rse_counters q).
Definition upd_rse_counters (f : gmap string (Z * option Z) -> gmap string (Z * option Z)) (q : QuotaDB) : QuotaDB :=
  MkQuotaDB (account_limits q) (account_global_limits q) (account_usage q) (max_space_available q) (f (rse_counters q)).

(** ** Accounts *)

(** An account that has a row, active or not, as the foreign keys of other tables want it *)
Definition account_key (s : Session) (account : InternalType) : option string :=
  a ← internal account; if decide (is_Some (accounts s !! a)) then Some a else None.
Definition has_rse (s : Session) (rse_id : string) : bool := existsb (fun r => bool_decide (Database.rse_id r = rse_id)) (rses s).

Definition set_accounts (f : gmap string bool -> gmap string bool) (s : Session) : Session :=
  {| now := now s; rbac_enabled := rbac_enabled s; SCOPE_LENGTH := SCOPE_LENGTH s; NAME_LENGTH := NAME_LENGTH s;
     role_tables := role_tables s; accounts := f (accounts s); account_attrs := account_attrs s; scopes := scopes s; dids := dids s;
     rules := rules s; replicas := replicas s; locks := locks s; identities := identities s; exceptions := exceptions s; rses := rses s;
     rse_attrs := rse_attrs s |}.
Definition set_account_attrs (f : gmap (string * string) AttrValue -> gmap (string * string) AttrValue) (s : Session) : Session :=
  {| now := now s; rbac_enabled := rbac_enabled s; SCOPE_LENGTH := SCOPE_LENGTH s; NAME_LENGTH := NAME_LENGTH s;
     role_tables := role_tables s; accounts := accounts s; account_attrs := f (account_attrs s); scopes := scopes s; dids := dids s;
     rules := rules s; replicas := replicas s; locks := locks s; identities := identities s; exceptions := exceptions s; rses := rses s;
     rse_attrs := rse_attrs s |}.

Definition active_account (account : InternalType) : ST World string :=
  let! s := getsS w_session in
  liftS (or_raise AccountNotFound (a ← internal account; active ← accounts s !! a; if active : bool then Some a else None)).

(** [del_account] and the status in [update_account]: nothing is done for the status DELETED. *)
Definition del_account (account : InternalType) : ST World unit :=
  let! a := active_account account in
  modifyS (upd_w_session (set_accounts (<[a := false]>))).
Inductive AccountStatus := A_ACTIVE | A_SUSPENDED | A_DELETED.
Definition update_account_status (account : InternalType) (status : AccountStatus) : ST World unit :=
  let! s := getsS w_session in
  let! a := liftS (or_raise AccountNotFound (account_key s account)) in
  match status with
  | A_ACTIVE => modifyS (upd_w_session (set_accounts (<[a := true]>)))
  | A_SUSPENDED => modifyS (upd_w_session (set_accounts (<[a := false]>)))
  | A_DELETED => skipS
  end.

Definition add_account_attribute (account : InternalType) (key : string) (value : AttrValue) : ST World unit :=
  let! a := active_account account in
  let! s := getsS w_session in
  if decide (is_Some (account_attrs s !! (a, key))) then raiseS Duplicate
  else modifyS (upd_w_session (set_account_attrs (<[(a, key) := value]>))).
Definition del_account_attribute (account : InternalType) (key : string) : ST World unit :=
  let! s := getsS w_session in
  if has_account_attribute s account key
  then match internal account with Some a => modifyS (upd_w_session (set_account_attrs (delete (a, key)))) | None => skipS end
  else raiseS AccountNotFound.

(** ** Limits *)

Definition local_key (account : InternalType) (rse_id : string) : option (string * string) := a ← internal account; Some (a, rse_id).

Definition set_local_account_limit (account : InternalType) (rse_id : string) (bytes : Z) : ST World unit :=
  let! w := getsS id in
  match local_key account rse_id with
  | Some k =>
      if bool_decide (is_Some (account_limits (w_quotas w) !! k))
         || bool_decide (is_Some (account_key (w_session w) account)) && has_rse (w_session w) rse_id
      then modifyS (upd_w_quotas (upd_account_limits (<[k := bytes]>)))
      else raiseS IntegrityError
  | None => raiseS IntegrityError
  end.
Definition delete_local_account_limit (account : InternalType) (rse_id : string) : ST World bool :=
  let! q := getsS w_quotas in
  match local_key account rse_id with
  | Some k =>
      if decide (is_Some (account_limits q !! k)) then do! modifyS (upd_w_quotas (upd_account_limits (delete k))) in retS true else retS false
  | None => retS false
  end.

Definition is_global (account : InternalType) (rse_expression : string) (l : string * string * Z) : bool :=
  bool_decide (internal account = Some l.1.1) && bool_decide (l.1.2 = rse_expression).
Definition set_global_account_limit (account : InternalType) (rse_expression : string) (bytes : Z) : ST World unit :=
  let! w := getsS id in
  if existsb (is_global account rse_expression) (account_global_limits (w_quotas w))
  then modifyS (upd_w_quotas (upd_global_limits (fmap (fun l => if is_global account rse_expression l then (l.1, bytes) else l))))
  else match account_key (w_session w) account with
       | Some a => modifyS (upd_w_quotas (upd_global_limits (fun ls => ls ++ [(a, rse_expression, bytes)])))
       | None => raiseS IntegrityError
       end.
Definition delete_global_account_limit (account : InternalType) (rse_expression : string) : ST World bool :=
  let! q := getsS w_quotas in
  if existsb (is_global account rse_expression) (account_global_limits q)
  then do! modifyS (upd_w_quotas (upd_global_limits (List.filter (fun l => negb (is_global account rse_expression l))))) in retS true
  else retS false.

(** [get_local_account_limit] for a list of RSEs; no RSE is all of them. *)
Definition get_local_account_limits (s : Session) (q : QuotaDB) (account : InternalType) (rse_ids : list string) : result (gmap string znum) :=
  if account_exists s account
  then Ok (list_to_map (omap (fun kv : (string * string) * Z =>
             if bool_decide (internal account = Some kv.1.1) && (bool_decide (rse_ids = []) || bool_decide (kv.1.2 ∈ rse_ids))
             then Some (kv.1.2, bytes_limit kv.2) else None) (map_to_list (account_limits q))))
  else Err AccountNotFound.

(** ** Usage with limits *)

Record Usage := MkUsage { us_on : string; us_files : Z; us_bytes : Z; us_limit : znum; us_remaining : znum }.

(** [get_local_account_usage]: an empty RSE is none. *)
Definition used_on (q : QuotaDB) (account : InternalType) (only : option string) : gmap string (Z * Z) :=
  list_to_map (omap (fun kv : (string * string) * (Z * Z) =>
    if bool_decide (internal account = Some kv.1.1) && match only with Some r => bool_decide (kv.1.2 = r) | None => true end
    then Some (kv.1.2, kv.2) else None) (map_to_list (account_usage q))).
Definition local_usage (limits : gmap string znum) (counters : gmap string (Z * Z)) (rse_id : string) : option Usage :=
  let '(files, bytes) := default (0, 0)%Z (counters !! rse_id) in
  if bool_decide (0 < bytes)%Z || bool_decide (0 < files)%Z || bool_decide (is_Some (limits !! rse_id)) then
    let limit := default (Fin 0) (limits !! rse_id) in Some (MkUsage rse_id files bytes limit (zsub limit bytes))
  else None.
Definition get_local_account_usage (account : InternalType) (rse_id : option string) : ST World (list Usage) :=
  let! w := getsS id in
  let only := rse_id ≫= or_none in
  let! limits := liftS (get_local_account_limits (w_session w) (w_quotas w) account (option_list only)) in
  let counters := used_on (w_quotas w) account only in
  let usages := omap (local_usage limits counters) (elements (dom limits ∪ dom counters)) in
  do! forS (fun u => do! get_rse_name (us_on u) in skipS) usages in
  retS usages.

Section global.
Context `{RSEExpressions}.
(** [get_global_account_usage] *)
Definition sum_usage (q : QuotaDB) (account : InternalType) (rse_ids : list string) : Z * Z :=
  let used rse_id := default (0, 0)%Z (used_on q account None !! rse_id) in
  (foldr Z.add 0%Z ((fun r => (used r).1) <$> rse_ids), foldr Z.add 0%Z ((fun r => (used r).2) <$> rse_ids)).
Definition with_limit (q : QuotaDB) (account : InternalType) (expression : string) (limit : znum) (rse_ids : list string) : Usage :=
  let '(files, bytes) := sum_usage q account rse_ids in MkUsage expression files bytes limit (zsub limit bytes).
Definition get_global_account_usage (s : Session) (q : QuotaDB) (account : InternalType) (rse_expression : option string) : result (list Usage) :=
  match rse_expression ≫= or_none with
  | None =>
      let* limits := get_global_account_limit s q account in
      Ok ((fun l => with_limit q account (gl_expression l) (gl_limit l) (gl_rse_ids l)) <$> limits)
  | Some expression =>
      if account_exists s account then
        let limit := match List.find (is_global account expression) (account_global_limits q) with Some l => bytes_limit l.2 | None => Fin 0 end in
        let* rses := parse_expression s expression (Some (vo account)) in
        Ok [with_limit q account expression limit (remove_dups (Database.rse_id <$> rses))]
      else Err AccountNotFound
  end.
End global.

(** ** Counters *)

Definition files_of (l : list (string * InternalType * Z * Z)) : Z := foldr (fun u n => u.1.2 + n)%Z 0%Z l.
Definition bytes_of_updates (l : list (string * InternalType * Z * Z)) : Z := foldr (fun u n => u.2 + n)%Z 0%Z l.
Definition is_update (account : InternalType) (rse_id : string) (u : string * InternalType * Z * Z) : bool :=
  bool_decide (u.1.1.1 = rse_id) && bool_decide (is_Some (internal account)) && bool_decide (internal u.1.1.2 = internal account).

(** [add_counter], [del_counter] and [update_account_counter] of accounts *)
Definition save_usage (account : InternalType) (rse_id : string) (files bytes : Z) : ST World unit :=
  let! s := getsS w_session in
  let! q := getsS w_quotas in
  match account_key s account with
  | Some a =>
      if has_rse s rse_id && negb (bool_decide (is_Some (account_usage q !! (a, rse_id))))
      then modifyS (upd_w_quotas (upd_account_usage (<[(a, rse_id) := (files, bytes)]>)))
      else raiseS IntegrityError
  | None => raiseS IntegrityError
  end.
Definition add_counter (account : InternalType) (rse_id : string) : ST World unit := save_usage account rse_id 0 0.
Definition del_counter (account : InternalType) (rse_id : string) : ST World unit :=
  match local_key account rse_id with Some k => modifyS (upd_w_quotas (upd_account_usage (delete k))) | None => skipS end.
Definition update_account_counter (account : InternalType) (rse_id : string) : ST World unit :=
  let! w := getsS id in
  let updates := List.filter (is_update account rse_id) (w_account_updates w) in
  do! match k ← local_key account rse_id; u ← account_usage (w_quotas w) !! k; Some (k, u) with
      | Some (k, (files, bytes)) =>
          modifyS (upd_w_quotas (upd_account_usage (<[k := (files + files_of updates, bytes + bytes_of_updates updates)%Z]>)))
      | None => save_usage account rse_id (files_of updates) (bytes_of_updates updates)
      end in
  modifyS (upd_w_account_updates (List.filter (fun u => negb (is_update account rse_id u)))).

(** [get_counter], [del_counter] and [update_rse_counter] of RSEs *)
Definition get_counter (q : QuotaDB) (rse_id : string) : result (Z * option Z) := or_raise CounterNotFound (rse_counters q !! rse_id).
Definition del_rse_counter (rse_id : string) : ST World unit := modifyS (upd_w_quotas (upd_rse_counters (delete rse_id))).
Definition is_rse_update (rse_id : string) (u : string * Z * Z) : bool := bool_decide (u.1.1 = rse_id).
Definition sum_rse_files (l : list (string * Z * Z)) : Z := foldr (fun u n => u.1.2 + n)%Z 0%Z l.
Definition sum_rse_bytes (l : list (string * Z * Z)) : Z := foldr (fun u n => u.2 + n)%Z 0%Z l.
Definition update_rse_counter (rse_id : string) : ST World unit :=
  let! w := getsS id in
  let updates := List.filter (is_rse_update rse_id) (w_rse_updates w) in
  do! match rse_counters (w_quotas w) !! rse_id with
      | Some (used, files) =>
          modifyS (upd_w_quotas (upd_rse_counters (<[rse_id := (used + sum_rse_bytes updates, Some (default 0 files + sum_rse_files updates))%Z]>)))
      | None =>
          if has_rse (w_session w) rse_id
          then modifyS (upd_w_quotas (upd_rse_counters (<[rse_id := (sum_rse_bytes updates, Some (sum_rse_files updates))]>)))
          else raiseS IntegrityError
      end in
  modifyS (upd_w_rse_updates (List.filter (fun u => negb (is_rse_update rse_id u)))).

(** ** The abacus *)

Section abacus.
(** Whether a worker takes a counter; every counter has one worker that does. *)
Variables (takes_account : nat -> InternalType -> string -> bool) (takes_rse : nat -> string -> bool).

(** [get_updated_account_counters] and [run_once] of [daemons/abacus/account.py]; each counter is a transaction, so that others
    may come in between. *)
Definition get_updated_account_counters (w : World) (worker : nat) : list (InternalType * string) :=
  List.filter (fun k : InternalType * string => takes_account worker k.1 k.2) (remove_dups ((fun u : string * InternalType * Z * Z => (u.1.1.2, u.1.1.1)) <$> w_account_updates w)).
Definition abacus_account (worker : nat) : ST World unit :=
  let! counters := getsS (fun w => get_updated_account_counters w worker) in
  forS (fun k : InternalType * string => update_account_counter k.1 k.2) counters.

Definition get_updated_rse_counters (w : World) (worker : nat) : list string :=
  List.filter (takes_rse worker) (remove_dups ((fun u : string * Z * Z => u.1.1) <$> w_rse_updates w)).
Definition abacus_rse (worker : nat) : ST World unit :=
  let! rse_ids := getsS (fun w => get_updated_rse_counters w worker) in
  forS update_rse_counter rse_ids.
End abacus.
