(* ===== verification/RuleApply.v ===== *)
(** * Locks for new files

    While a rule is applied, the locks and replicas made for it are objects that are not in the
    database yet, but its counters and the lock counts of replicas count them already.  Once they
    are added, the invariant of the rule engine holds again, but for the states of the rules. *)

From S2P Require Import Prelude StateError Counting Types Database RseSelector LockTables RuleGrouping RuleEngine RuleInvariant RuleEvents RuleLosses RuleRepair.

#[local] Arguments Z.add : simpl never.
#[local] Arguments Z.sub : simpl never.

(** ** Dictionaries of what was made *)

Lemma od_append_made (k : string) (i : nat) d : objects_made (od_append k i d) ≡ₚ objects_made d ++ [i].
Proof.
  unfold od_append, objects_made. induction d as [|[k' l] d IH]; simpl; [done|]. case_bool_decide; simpl.
  - by rewrite <-!app_assoc, (Permutation_app_comm [i]).
  - by rewrite IH, app_assoc.
Qed.

(** ** The objects of a run: those in the database, and those made since there were [n] *)

Definition live_lock (n : nat) (i : nat) (l : Lock) : bool := bool_decide (n <= i)%nat || persistent_lock l.
Definition live_replica (m : nat) (j : nat) (r : Replica) : bool := bool_decide (m <= j)%nat || persistent_replica r.

Definition live_of (n : nat) (id : string) (st : LockState) (i : nat) (l : Lock) : bool :=
  live_lock n i l && bool_decide (lk_rule_id l = id) && bool_decide (lk_state l = st).
Definition live_on (n : nat) (key : DID * string) (i : nat) (l : Lock) : bool := live_lock n i l && on_file key.1 key.2 l.

(** Another replica has the key of that at [j], and one of them is new: it cannot be added. *)
Definition contested (m : nat) (rs : list Replica) (j : nat) (r : Replica) : Prop :=
  exists j' r', j' <> j /\ (m <= j \/ m <= j')%nat /\ rs !! j' = Some r' /\ live_replica m j' r' = true /\ replica_key r' = replica_key r.

(** The rules there were: only the counters of the rule that is applied have changed. *)
Definition rules_from (olds : gmap string Rule) (rule_id : string) (rs : gmap string Rule) : Prop :=
  forall id r, rs !! id = Some r -> exists r0, olds !! id = Some r0 /\ ru_state r = ru_state r0 /\ (id <> rule_id -> view r = view r0).

Record running (n m : nat) (olds : gmap string Rule) (rule_id : string) (g : Grouping) : Prop := {
  run_counters : forall id r st, w_rules (g_world g) !! id = Some r -> cnt st r = count (live_of n id st) (w_locks (g_world g));
  run_rules : forall i l, w_locks (g_world g) !! i = Some l -> live_lock n i l = true -> is_Some (w_rules (g_world g) !! lk_rule_id l);
  run_rule : is_Some (w_rules (g_world g) !! rule_id);
  run_replicas : forall j r, w_replicas (g_world g) !! j = Some r -> live_replica m j r = true ->
    (let k := count (live_on n (replica_key r)) (w_locks (g_world g)) in
     (k <= rp_lock_cnt r)%Z /\ (is_Some (rp_tombstone r) -> k = 0%Z)) \/
    contested m (w_replicas (g_world g)) j r;
  run_dict : forall did js j, g_replicas g !! did = Some js -> j ∈ js ->
    exists r, w_replicas (g_world g) !! j = Some r /\ rp_did r = did /\ live_replica m j r = true;
  run_homes : forall i l, w_locks (g_world g) !! i = Some l -> live_lock n i l = true ->
    exists j r, w_replicas (g_world g) !! j = Some r /\ live_replica m j r = true /\ replica_key r = (lk_did l, lk_rse_id l);
  run_old_replicas : forall i j r r', w_replicas (g_world g) !! i = Some r -> w_replicas (g_world g) !! j = Some r' ->
    (i < m)%nat -> (j < m)%nat -> persistent_replica r = true -> persistent_replica r' = true -> replica_key r = replica_key r' -> i = j;
  run_old_locks : forall i j l l', w_locks (g_world g) !! i = Some l -> w_locks (g_world g) !! j = Some l' ->
    persistent_lock l = true -> persistent_lock l' = true -> lock_key l = lock_key l' -> i = j;
  run_transient_locks : forall i l, (n <= i)%nat -> w_locks (g_world g) !! i = Some l -> lk_status l = Transient;
  run_transient_replicas : forall j r, (m <= j)%nat -> w_replicas (g_world g) !! j = Some r -> rp_status r = Transient;
  run_made_locks : (n <= length (w_locks (g_world g)))%nat /\
    objects_made (g_locks_to_create g) ≡ₚ seq n (length (w_locks (g_world g)) - n);
  run_made_replicas : (m <= length (w_replicas (g_world g)))%nat /\
    objects_made (g_replicas_to_create g) ≡ₚ seq m (length (w_replicas (g_world g)) - m);
  run_no_deletion : g_locks_to_delete g = [];
  run_old_rules : rules_from olds rule_id (w_rules (g_world g));
}.

(** ** Computations on the objects of a run *)

Definition wpg {A} (m : ST Grouping A) (Q : A -> Grouping -> Prop) (g : Grouping) : Prop := wp m Q (fun _ _ => True) g.

Lemma wpg_bind {A B} (m : ST Grouping A) (f : A -> ST Grouping B) Q g : wpg m (fun a => wpg (f a) Q) g -> wpg (bindS m f) Q g.
Proof. apply wp_bind. Qed.
Lemma wpg_mono {A} (m : ST Grouping A) (Q Q' : A -> Grouping -> Prop) g :
  wpg m Q g -> (forall a g', Q a g' -> Q' a g') -> wpg m Q' g.
Proof. intros Hm HQ. by eapply wp_mono. Qed.
Lemma wpg_world {A} (m : ST World A) Q g : wpo m (fun a w => Q a (upd_g_world (fun _ => w) g)) (g_world g) -> wpg (on_world m) Q g.
Proof. intros Hm. apply wp_zoom. exact Hm. Qed.

Section running.
Variables (n m : nat) (olds : gmap string Rule) (rule_id : string).
Notation running := (running n m olds rule_id).

Definition stays {A} (x : ST Grouping A) : Prop := forall g, running g -> wpg x (fun _ => running) g.

Lemma stays_ret {A} (a : A) : stays (retS a).
Proof. by intros g. Qed.
Lemma stays_gets {A} (f : Grouping -> A) : stays (getsS f).
Proof. by intros g. Qed.
Lemma stays_lift {A} (r : result A) : stays (liftS r).
Proof. intros g Hg. by apply wp_lift. Qed.
Lemma stays_raise {A} e : stays (@raiseS Grouping A e).
Proof. by intros g. Qed.
Lemma stays_bind {A B} (x : ST Grouping A) (f : A -> ST Grouping B) : stays x -> (forall a, stays (f a)) -> stays (bindS x f).
Proof. intros Hx Hf g Hg. apply wpg_bind. eapply wpg_mono; [by apply Hx|]. intros a g' Hg'. by apply Hf. Qed.
Lemma stays_when b x : stays x -> stays (whenS b x).
Proof. destruct b; [done|]. intros _. apply stays_ret. Qed.
Lemma stays_for {A} (f : A -> ST Grouping unit) l : (forall a, stays (f a)) -> stays (forS f l).
Proof. intros Hf. induction l as [|a l IH]; simpl; [apply stays_ret|]. apply stays_bind; [apply Hf|by intros _]. Qed.
Lemma stays_concat {A B} (f : A -> ST Grouping (list B)) l : (forall a, stays (f a)) -> stays (concatS f l).
Proof.
  intros Hf. induction l as [|a l IH]; simpl; [apply stays_ret|]. apply stays_bind; [apply Hf|]. intros x.
  apply stays_bind; [apply IH|]. intros y. apply stays_ret.
Qed.

(** What the invariant is about *)
Lemma running_ext g g' :
  running g -> w_rules (g_world g') = w_rules (g_world g) -> w_locks (g_world g') = w_locks (g_world g) ->
  w_replicas (g_world g') = w_replicas (g_world g) -> g_replicas g' = g_replicas g ->
  g_locks_to_create g' = g_locks_to_create g -> g_replicas_to_create g' = g_replicas_to_create g ->
  g_locks_to_delete g' = g_locks_to_delete g -> running g'.
Proof. intros [] H1 H2 H3 H4 H5 H6 H7. by split; rewrite ?H1, ?H2, ?H3, ?H4, ?H5, ?H6, ?H7. Qed.

Lemma stays_modify f :
  (forall g, w_rules (g_world (f g)) = w_rules (g_world g) /\ w_locks (g_world (f g)) = w_locks (g_world g) /\
     w_replicas (g_world (f g)) = w_replicas (g_world g) /\ g_replicas (f g) = g_replicas g /\
     g_locks_to_create (f g) = g_locks_to_create g /\ g_replicas_to_create (f g) = g_replicas_to_create g /\
     g_locks_to_delete (f g) = g_locks_to_delete g) -> stays (modifyS f).
Proof. intros Hf g Hg. apply wp_modify. destruct (Hf g) as (? & ? & ? & ? & ? & ? & ?). by eapply running_ext. Qed.

(** A computation on the rest of the database *)
Definition aside (f : World -> World) : Prop :=
  forall w, w_rules (f w) = w_rules w /\ w_locks (f w) = w_locks w /\ w_replicas (f w) = w_replicas w.
Lemma stays_aside f : aside f -> stays (on_world (modifyS f)).
Proof.
  intros Hf g Hg. apply wpg_world, wp_modify. destruct (Hf (g_world g)) as (? & ? & ?). by eapply running_ext.
Qed.

Lemma stays_read {A} (x : ST World A) : (forall w, (x w).2 = w) -> stays (on_world x).
Proof.
  intros Hx g Hg. unfold wpg, wp, on_world, zoomS. specialize (Hx (g_world g)). destruct (x (g_world g)) as [r w]. simpl in Hx. subst w.
  assert (running (upd_g_world (fun _ => g_world g) g)) by (by eapply running_ext). by destruct r.
Qed.

(** *** A new replica *)

Definition add_new_replica (r : Replica) (did : DID) (js : list nat) (g : Grouping) : Grouping :=
  let j := length (w_replicas (g_world g)) in
  upd_g_replicas (<[did := js ++ [j]]>) (upd_g_replicas_to_create (od_append (rp_rse_id r) j)
    (upd_g_world (fun w => upd_w_replicas (fun rs => rs ++ [r]) w) g)).

Lemma lookup_snoc {A} (l : list A) x i y :
  (l ++ [x]) !! i = Some y <-> l !! i = Some y \/ (i = length l /\ y = x).
Proof.
  destruct (decide (i < length l)%nat).
  - rewrite lookup_app_l by done. split; [by left|]. intros [?|[-> _]]; [done|lia].
  - rewrite lookup_app_r by lia. rewrite list_lookup_singleton_Some, (lookup_ge_None_2 l i) by lia. split.
    + intros [? <-]. right. split; [lia|done].
    + intros [?|[-> ->]]; [done|]. split; [lia|done].
Qed.

Lemma seq_snoc k a b : (a <= b)%nat -> k ≡ₚ seq a (b - a) -> k ++ [b] ≡ₚ seq a (b + 1 - a).
Proof. intros Hle ->. replace (b + 1 - a)%nat with ((b - a) + 1)%nat by lia. rewrite seq_app. simpl. by replace (a + (b - a))%nat with b by lia. Qed.

Lemma running_new_replica g r did js :
  running g -> g_replicas g !! did = Some js -> rp_did r = did -> rp_status r = Transient -> rp_lock_cnt r = 0%Z ->
  rp_tombstone r = None -> running (add_new_replica r did js g).
Proof.
  intros Hg Hjs Hdid Hst Hcnt Htomb. pose proof (run_made_replicas _ _ _ _ _ Hg) as [Hlen Hmade].
  assert (live_replica m (length (w_replicas (g_world g))) r = true) as Hlive by (unfold live_replica; by rewrite bool_decide_true).
  split; unfold add_new_replica; cbn [g_world upd_g_world upd_g_replicas upd_g_replicas_to_create w_rules w_locks w_replicas
    upd_w_replicas g_replicas g_locks_to_create g_replicas_to_create]; try apply Hg.
  - intros j r' [Hr|[-> ->]]%lookup_snoc Hl.
    + destruct (run_replicas _ _ _ _ _ Hg j r' Hr Hl) as [?|(j2 & r2 & ? & ? & ? & ? & ?)]; [by left|right].
      exists j2, r2. split_and!; try done. by apply lookup_app_l_Some.
    + destruct (decide (count (live_on n (replica_key r)) (w_locks (g_world g)) <= 0)%Z) as [Hz|Hnz].
      { left. rewrite Hcnt, Htomb. split; [done|]. by intros [? ?]. }
      right. destruct (count_exists (live_on n (replica_key r)) (w_locks (g_world g))) as (i & l & Hl1 & Hon); [lia|].
      apply andb_true_iff in Hon as [Hll Hof%on_file_key].
      destruct (run_homes _ _ _ _ _ Hg i l Hl1 Hll) as (j0 & r0 & Hr0 & Hl0 & Hk0). exists j0, r0. apply lookup_lt_Some in Hr0 as Hlt.
      split_and!; [lia|left; lia|by apply lookup_app_l_Some|done|]. rewrite Hk0, Hof. symmetry. apply surjective_pairing.
  - intros did' js' j Hd Hj. apply lookup_insert_Some in Hd as [[<- <-]|[Hne Hd]].
    + apply elem_of_app in Hj as [Hj| ->%list_elem_of_singleton].
      * destruct (run_dict _ _ _ _ _ Hg did js j Hjs Hj) as (r0 & ? & ? & ?). exists r0. split_and!; [by apply lookup_app_l_Some|done..].
      * exists r. split_and!; [by apply list_lookup_middle|done|done].
    + destruct (run_dict _ _ _ _ _ Hg did' js' j Hd Hj) as (r0 & ? & ? & ?). exists r0. split_and!; [by apply lookup_app_l_Some|done..].
  - intros i l Hl Hll. destruct (run_homes _ _ _ _ _ Hg i l Hl Hll) as (j0 & r0 & ? & ? & ?). exists j0, r0.
    split_and!; [by apply lookup_app_l_Some|done..].
  - intros i j r1 r2 [H1|[-> _]]%lookup_snoc [H2|[-> _]]%lookup_snoc Hi Hj; try lia. by eapply (run_old_replicas _ _ _ _ _ Hg).
  - intros j r' Hj [Hr|[_ ->]]%lookup_snoc; [by eapply run_transient_replicas|done].
  - rewrite length_app. simpl. split; [lia|]. rewrite od_append_made. by apply seq_snoc.
Qed.

(** *** A new lock *)

Definition add_new_lock (l : Lock) (j : nat) (f : Replica -> Replica) (ls : list nat) (g : Grouping) : Grouping :=
  let i := length (w_locks (g_world g)) in
  upd_g_locks (<[lk_did l := ls ++ [i]]>) (upd_g_locks_to_create (od_append (lk_rse_id l) i)
    (upd_g_world (fun w => upd_w_rules (alter (upd_cnt (lk_state l) (Z.add 1)) (lk_rule_id l))
                            (upd_w_replicas (alter f j) (upd_w_locks (fun ls => ls ++ [l]) w))) g)).

(** The replica of a new lock *)
Definition takes_lock (f : Replica -> Replica) : Prop :=
  forall r, same_replica (f r) r /\ rp_lock_cnt (f r) = (1 + rp_lock_cnt r)%Z /\ rp_tombstone (f r) = None.

Lemma cnt_upd st st' f r : cnt st (upd_cnt st' f r) = if bool_decide (st = st') then f (cnt st r) else cnt st r.
Proof. by destruct st, st'. Qed.

Lemma lookup_alter_replicas (f : Replica -> Replica) i j (rs : list Replica) r' :
  alter f i rs !! j = Some r' -> exists r, rs !! j = Some r /\ r' = (if decide (j = i) then f r else r).
Proof.
  destruct (decide (j = i)) as [->|Hj].
  - rewrite list_lookup_alter_eq. destruct (rs !! i); simpl; [|done]. intros [= <-]. eauto.
  - rewrite list_lookup_alter_ne by done. eauto.
Qed.

Lemma takes_lock_same f r : takes_lock f -> same_replica (f r) r.
Proof. intros Hf. by destruct (Hf r). Qed.

Lemma live_replica_same j r' r : same_replica r' r -> live_replica m j r' = live_replica m j r.
Proof. intros Hs. unfold live_replica. by rewrite (same_replica_persistent _ _ Hs). Qed.

(** The replicas after one of them took a lock *)
Lemma taken f (i j : nat) (rs : list Replica) r : takes_lock f -> rs !! j = Some r -> exists r', alter f i rs !! j = Some r' /\ same_replica r' r.
Proof.
  intros Hf Hr. destruct (decide (j = i)) as [->|Hne].
  - exists (f r). rewrite list_lookup_alter_eq, Hr. split; [done|]. by apply takes_lock_same.
  - exists r. by rewrite list_lookup_alter_ne.
Qed.

Lemma running_new_lock g l j r f ls :
  running g -> lk_rule_id l = rule_id -> lk_status l = Transient -> takes_lock f ->
  w_replicas (g_world g) !! j = Some r -> live_replica m j r = true -> replica_key r = (lk_did l, lk_rse_id l) ->
  running (add_new_lock l j f ls g).
Proof.
  intros Hg Hid Hst Hf Hr Hl Hkey. pose proof (run_made_locks _ _ _ _ _ Hg) as [Hlen Hmade].
  set (i := length (w_locks (g_world g))) in *.
  assert (live_lock n i l = true) as Hlive by (unfold live_lock; by rewrite bool_decide_true).
  assert (forall k r', alter f j (w_replicas (g_world g)) !! k = Some r' ->
    exists r0, w_replicas (g_world g) !! k = Some r0 /\ same_replica r' r0 /\ r' = (if decide (k = j) then f r0 else r0)) as Hback.
  { intros k r' (r0 & Hr0 & Heq)%lookup_alter_replicas. exists r0. split_and!; [done| |done]. rewrite Heq.
    destruct (decide (k = j)); [by apply takes_lock_same|done]. }
  split; unfold add_new_lock; cbn [g_world upd_g_world upd_g_locks upd_g_locks_to_create w_rules w_locks w_replicas
    upd_w_replicas upd_w_rules upd_w_locks g_replicas g_locks_to_create g_replicas_to_create]; fold i; try apply Hg.
  - intros id r0 st. rewrite count_snoc. fold i. unfold live_of at 2. rewrite Hlive, andb_true_l.
    intros [(Hi & r1 & Hr1 & ->)|[Hne Hr0]]%lookup_alter_Some; [subst id|].
    + rewrite cnt_upd, (run_counters _ _ _ _ _ Hg _ _ st Hr1), (bool_decide_true (lk_rule_id l = lk_rule_id l)), andb_true_l by done.
      repeat case_bool_decide; cbn [Z.b2z]; try congruence; lia.
    + rewrite (run_counters _ _ _ _ _ Hg _ _ st Hr0), (bool_decide_false (lk_rule_id l = id)) by done. cbn [andb Z.b2z]. lia.
  - intros i' l' [Hl'|[-> ->]]%lookup_snoc Hll; apply lookup_alter_is_Some; [by eapply run_rules|rewrite Hid; by apply Hg].
  - apply lookup_alter_is_Some, Hg.
  - intros k r' Hr' Hlr. destruct (Hback k r' Hr') as (r0 & Hr0 & Hsame & Heq). rewrite count_snoc. fold i.
    rewrite (live_replica_same _ _ _ Hsame) in Hlr. pose proof Hsame as [Hkk _]. rewrite Hkk.
    assert (contested m (w_replicas (g_world g)) k r0 -> contested m (alter f j (w_replicas (g_world g))) k r') as Hcon.
    { intros (j2 & r2 & ? & ? & Hr2 & ? & ?). destruct (taken f j j2 _ r2 Hf Hr2) as (r2' & ? & Hs2). exists j2, r2'.
      rewrite (live_replica_same _ _ _ Hs2). split_and!; [done..|]. destruct Hs2. congruence. }
    destruct (run_replicas _ _ _ _ _ Hg k r0 Hr0 Hlr) as [[Hle Ht]|?]; [|by right; apply Hcon].
    assert (live_on n (replica_key r0) i l = on_file (replica_key r0).1 (replica_key r0).2 l) as -> by (unfold live_on; by rewrite Hlive).
    destruct (decide (k = j)) as [->|Hne].
    + left. destruct (Hf r0) as (_ & Hc & Htn). subst r'. rewrite Hc, Htn.
      split; [destruct (on_file _ _ l); cbn [Z.b2z]; lia|]. by intros [? ?].
    + subst r'. destruct (on_file (replica_key r0).1 (replica_key r0).2 l) eqn:Hon; [|left; cbn [Z.b2z]; rewrite Z.add_0_r; by split].
      right. apply on_file_key in Hon. assert (replica_key r0 = replica_key r) as Hkr by (rewrite Hkey, Hon; apply surjective_pairing).
      destruct (taken f j j _ r Hf Hr) as (rj & Hrj & Hsj). exists j, rj. rewrite (live_replica_same _ _ _ Hsj).
      split_and!; [done| |done|done|destruct Hsj; congruence].
      destruct (decide (m <= k)%nat); [by left|]. destruct (decide (m <= j)%nat); [by right|]. exfalso. apply Hne.
      unfold live_replica in Hl, Hlr. rewrite bool_decide_false in Hl, Hlr by done.
      by apply (run_old_replicas _ _ _ _ _ Hg k j r0 r); try lia.
  - intros did js k Hd Hk. destruct (run_dict _ _ _ _ _ Hg did js k Hd Hk) as (r0 & Hr0 & Hd0 & Hl0).
    destruct (taken f j k _ r0 Hf Hr0) as (r' & Hr' & Hs). exists r'. rewrite (live_replica_same _ _ _ Hs).
    split_and!; [done| |done]. destruct Hs as [Hs _]. unfold replica_key in Hs. congruence.
  - assert (forall k r0, w_replicas (g_world g) !! k = Some r0 -> live_replica m k r0 = true -> forall key, replica_key r0 = key ->
      exists k' r', alter f j (w_replicas (g_world g)) !! k' = Some r' /\ live_replica m k' r' = true /\ replica_key r' = key) as Hhome.
    { intros k r0 Hr0 Hl0 key Hk. destruct (taken f j k _ r0 Hf Hr0) as (r' & Hr' & Hs). exists k, r'.
      rewrite (live_replica_same _ _ _ Hs). split_and!; [done|done|]. destruct Hs. congruence. }
    intros i' l' [Hl'|[-> ->]]%lookup_snoc Hll; [|by eapply Hhome].
    destruct (run_homes _ _ _ _ _ Hg i' l' Hl' Hll) as (k & r0 & ? & ? & ?). by eapply Hhome.
  - intros k1 k2 r1 r2 H1 H2 Hk1 Hk2. destruct (Hback k1 r1 H1) as (r1' & ? & Hs1 & _), (Hback k2 r2 H2) as (r2' & ? & Hs2 & _).
    rewrite (same_replica_persistent _ _ Hs1), (same_replica_persistent _ _ Hs2). destruct Hs1 as [-> _], Hs2 as [-> _].
    by eapply (run_old_replicas _ _ _ _ _ Hg).
  - intros i1 i2 l1 l2 [H1|[_ ->]]%lookup_snoc [H2|[_ ->]]%lookup_snoc; unfold persistent_lock; rewrite ?Hst; try done.
    by apply (run_old_locks _ _ _ _ _ Hg).
  - intros i' l' Hi [Hl'|[_ ->]]%lookup_snoc; [by eapply run_transient_locks|done].
  - intros k r' Hk Hr'. destruct (Hback k r' Hr') as (r0 & ? & [_ ->] & _). by eapply run_transient_replicas.
  - rewrite length_app. simpl. fold i. split; [lia|]. rewrite od_append_made. by apply seq_snoc.
  - rewrite length_alter. apply Hg.
  - intros id r0 [(<- & r1 & Hr1 & ->)|[Hne Hr0]]%lookup_alter_Some; [|by apply (run_old_rules _ _ _ _ _ Hg)].
    destruct (run_old_rules _ _ _ _ _ Hg _ _ Hr1) as (r2 & ? & Hs & _). exists r2. split_and!; [done| |by rewrite Hid].
    rewrite <-Hs. by destruct (lk_state l).
Qed.

(** *** Locks and replicas for a file *)

Variable rule : Rule.
Hypothesis Hrule : ru_id rule = rule_id.

Definition has_replica (did : DID) (rse : string) (j : nat) (g : Grouping) : Prop :=
  exists js r, g_replicas g !! did = Some js /\ j ∈ js /\ w_replicas (g_world g) !! j = Some r /\ rp_rse_id r = rse.

Lemma stays_new_lock rse did bytes state j g :
  running g -> has_replica did rse j g ->
  wpg (let! i := on_world (create_lock rule rse did bytes state j) in
       do! record_lock rse did i in on_world (lock_at i)) (fun _ => running) g.
Proof.
  intros Hg (js & r & Hjs & Hj & Hr & <-).
  destruct (run_dict _ _ _ _ _ Hg did js j Hjs Hj) as (r' & Hr' & Hdid & Hlive). rewrite Hr in Hr'. injection Hr' as <-.
  set (l := MkLock did (ru_id rule) (rp_rse_id r) (ru_account rule) bytes state None None None Transient).
  assert (forall f ls, takes_lock f -> running (add_new_lock l j f ls g)) as Hadd.
  { intros f ls Hf. apply running_new_lock with r; try done. unfold replica_key. by rewrite Hdid. }
  apply wpg_bind. unfold wpg at 1, wp, on_world, zoomS, create_lock, bindS, make_lock, alter_replica, alter_rule, modifyS, retS.
  destruct state; simpl; apply wpg_bind; unfold wpg at 1, wp, record_lock; simpl; destruct (g_locks g !! did) as [ls|] eqn:Hls; try done;
    (apply stays_read; [intros w; unfold lock_at; by destruct (w_locks w !! _)|]);
    (eapply running_ext; [eapply (Hadd _ ls)|reflexivity..]); done.
Qed.

Lemma elem_of_objects {A} (heap : list A) addrs i x : (i, x) ∈ objects heap addrs <-> i ∈ addrs /\ heap !! i = Some x.
Proof.
  unfold objects. rewrite list_elem_of_omap. split.
  - intros (j & Hj & Hx). destruct (heap !! j) as [y|] eqn:Hy; [|done]. simpl in Hx. by injection Hx as -> ->.
  - intros [Hi Hx]. exists i. by rewrite Hx.
Qed.

(** A new replica, before the rest *)
Lemma wpg_new_replica {B} rse file state (k : nat -> ST Grouping B) Q g js :
  running g -> g_replicas g !! f_did file = Some js ->
  (forall j g', running g' -> has_replica (f_did file) rse j g' -> wpg (k j) Q g') ->
  wpg (let! j := on_world (create_replica rse file state) in do! record_replica rse (f_did file) j in k j) Q g.
Proof.
  intros Hg Hjs Hk. set (r := MkReplica rse (f_did file) (f_bytes file) (f_md5 file) (f_adler32 file) state 0 None None None Transient).
  assert (running (add_new_replica r (f_did file) js g)) as Hnew by (by apply running_new_replica).
  unfold wpg, wp, on_world, zoomS, create_replica, make_replica, bindS, record_replica. simpl. rewrite Hjs. apply Hk.
  - by eapply running_ext.
  - exists (js ++ [length (w_replicas (g_world g))]), r. simpl. rewrite lookup_insert_eq.
    split_and!; [done|set_solver|by apply list_lookup_middle|done].
Qed.

(** A new lock, before the rest *)
Lemma wpg_new_lock {B} rse did bytes state j (k : Lock -> ST Grouping B) g :
  running g -> has_replica did rse j g -> (forall l, stays (k l)) ->
  wpg (let! l := (let! i := on_world (create_lock rule rse did bytes state j) in
                  do! record_lock rse did i in on_world (lock_at i)) in k l) (fun _ => running) g.
Proof.
  intros Hg Hj Hk. apply wpg_bind. eapply wpg_mono; [by apply stays_new_lock|]. intros l g' Hg'. by apply Hk.
Qed.

Lemma stays_transfer t : stays (add_transfer t).
Proof. by apply stays_modify. Qed.
Lemma stays_rse_name rse : stays (on_world (get_rse_name rse)).
Proof. apply stays_read. intros w. done. Qed.
Lemma stays_skip : stays skipS.
Proof. apply stays_ret. Qed.
Hint Resolve stays_ret stays_skip stays_gets stays_lift stays_raise stays_transfer stays_rse_name stays_when : stays.

Ltac stays_step :=
  lazymatch goal with
  | |- stays (bindS _ _) => apply stays_bind; [|intros ?]
  | |- stays (whenS _ _) => apply stays_when
  | |- stays (forS _ _) => apply stays_for; intros ?
  | |- stays (concatS _ _) => apply stays_concat; intros ?
  | |- stays (if ?b then _ else _) => destruct b
  | |- stays (match ?x with _ => _ end) => destruct x
  | |- stays _ => solve [auto with stays]
  end.
Ltac stays := intros; repeat stays_step.

Lemma stays_create source_rses source_replicas dataset file rse :
  stays (create_lock_and_replica rule source_rses source_replicas dataset file rse).
Proof.
  destruct rse as [[rse staging_area] availability_write]. unfold create_lock_and_replica, rse_attr.
  do 5 (apply stays_bind; [stays|intros ?]). intros g Hg.
  set (may := source_available _ _ _ && _). apply wpg_bind. unfold file_replicas, wpg at 1, wp.
  destruct (g_replicas g !! f_did file) as [js|] eqn:Hjs; [simpl|done].
  destruct (List.filter _ _) as [|[j r] rest] eqn:Hfound.
  - apply (wpg_new_replica _ _ _ _ _ _ js); [done..|]. intros j g' Hg' Hj. apply wpg_new_lock; [done..|]. stays.
  - assert (has_replica (f_did file) rse j g) as Hj.
    { assert ((j, r) ∈ List.filter (fun x => bool_decide (rp_rse_id x.2 = rse)) (objects (w_replicas (g_world g)) js)) as Hin
        by (rewrite Hfound; by left).
      apply list_elem_of_In, filter_In in Hin as [Hin%list_elem_of_In Hr%bool_decide_eq_true].
      apply elem_of_objects in Hin as [??]. by exists js, r. }
    destruct (rp_state r); apply wpg_new_lock; try done; stays.
Qed.

(** *** The groupings *)

Lemma stays_file_locks did : stays (file_locks did).
Proof. intros g Hg. unfold wpg, wp, file_locks. by destruct (g_locks g !! did). Qed.
Lemma stays_file_replicas did : stays (file_replicas did).
Proof. intros g Hg. unfold wpg, wp, file_replicas. by destruct (g_replicas g !! did). Qed.
Lemma stays_rule_locks did : stays (rule_locks rule did).
Proof. apply stays_bind; [apply stays_file_locks|]. intros ls. apply stays_ret. Qed.
Context `{Random}.
Lemma stays_select size preferred copies blocklist prioritize existing :
  stays (select_rses size preferred copies blocklist prioritize existing).
Proof.
  intros g Hg. unfold wpg, wp, select_rses. destruct (select_rse _ _ _ _ _ _ _ _) as [[chosen sel]|e]; [|done]. by eapply running_ext.
Qed.
Lemma stays_dataset_lock dataset no rse : stays (on_world (add_dataset_lock rule dataset no rse)).
Proof.
  destruct dataset as [did|]; [|by apply stays_read]. apply stays_aside. intros w. destruct (w_dataset_locks w !! _); [done|].
  by destruct (w_dids w !! did).
Qed.
Lemma stays_collection_replica dataset rse : stays (on_world (add_collection_replica dataset rse)).
Proof.
  destruct dataset as [did|]; [|by apply stays_read]. apply stays_aside. intros w. by destruct (w_collection_replicas w !! _).
Qed.
Hint Resolve stays_file_locks stays_file_replicas stays_rule_locks stays_select stays_create stays_dataset_lock stays_collection_replica : stays.

Lemma stays_group files preferred : stays (select_for_group files preferred).
Proof. unfold select_for_group, with_replicas. stays. Qed.
Lemma stays_lock_on source_rses source_replicas dataset file rse : stays (lock_on rule source_rses source_replicas dataset file rse).
Proof. unfold lock_on. stays. Qed.
Lemma stays_full did : stays (has_all_copies rule did).
Proof. unfold has_all_copies. stays. Qed.
Hint Resolve stays_group stays_lock_on stays_full : stays.
Lemma stays_lock_files source_rses source_replicas rse ds : stays (lock_files rule source_rses source_replicas rse ds).
Proof. unfold lock_files. stays. Qed.
Hint Resolve stays_lock_files : stays.

Lemma stays_apply source_rses source_replicas preferred ds g :
  running (upd_g_locks_to_create (fun _ => []) (upd_g_replicas_to_create (fun _ => []) (upd_g_locks_to_delete (fun _ => []) g))) ->
  wpg (apply_rule_grouping rule source_rses source_replicas preferred ds) (fun _ => running) g.
Proof.
  intros Hg. apply wpg_bind, wp_modify.
  match goal with |- wpg ?x _ _ => enough (stays x) as Hx end.
  { apply Hx. by eapply running_ext. }
  unfold apply_rule_to_files_none_grouping, apply_to_file_none, apply_rule_to_files_all_grouping, apply_rule_to_files_dataset_grouping. stays.
Qed.
End running.

(** ** Before and after a run *)

(** The invariant, but for the states of rules *)
Record counted (c : Core) : Prop := {
  counted_counters : counters_ok c;
  counted_rules : rules_exist c;
  counted_lock_keys : lock_keys_ok c;
  counted_replica_keys : replica_keys_ok c;
  counted_replicas : replicas_ok c;
  counted_homes : homes_ok c;
}.

Lemma core_ok_counted c : core_ok c <-> counted c /\ states_ok c.
Proof. split; [intros []; split; [by constructor|done]|]. intros [[] ?]. by constructor. Qed.

(** The replicas of a dictionary are rows of its files. *)
Definition dict_ok (w : World) (dict : gmap DID (list nat)) : Prop :=
  forall did js j, dict !! did = Some js -> j ∈ js ->
    exists r, w_replicas w !! j = Some r /\ rp_did r = did /\ persistent_replica r = true.

Lemma live_lock_old w i l : w_locks w !! i = Some l -> live_lock (length (w_locks w)) i l = persistent_lock l.
Proof. intros Hl%lookup_lt_Some. unfold live_lock. by rewrite bool_decide_false by lia. Qed.
Lemma live_replica_old w j r : w_replicas w !! j = Some r -> live_replica (length (w_replicas w)) j r = persistent_replica r.
Proof. intros Hr%lookup_lt_Some. unfold live_replica. by rewrite bool_decide_false by lia. Qed.

Lemma start_running rule_id g :
  counted (core (g_world g)) -> dict_ok (g_world g) (g_replicas g) -> is_Some (w_rules (g_world g) !! rule_id) ->
  g_locks_to_create g = [] -> g_replicas_to_create g = [] -> g_locks_to_delete g = [] ->
  running (length (w_locks (g_world g))) (length (w_replicas (g_world g))) (w_rules (g_world g)) rule_id g.
Proof.
  intros Hw Hdict Hrule H1 H2 H3. set (w := g_world g) in *.
  assert (forall key, count (live_on (length (w_locks w)) key) (w_locks w) = count (fun _ => lock_on_key key) (w_locks w)) as Hon.
  { intros key. apply count_ext_same. intros i l Hl. unfold live_on, lock_on_key. by rewrite live_lock_old. }
  split; fold w; rewrite ?H1, ?H2, ?H3, ?Nat.sub_diag; try done.
  - intros id r st Hr. rewrite <-view_cnt, (counted_counters _ Hw id _ st (core_rule _ _ _ Hr)).
    apply count_ext_same. intros i l Hl. unfold live_of, lock_of. by rewrite live_lock_old.
  - intros i l Hl. rewrite live_lock_old by done. intros Hp. destruct (counted_rules _ Hw i l Hl Hp) as [v Hv].
    destruct (rule_core _ _ _ Hv) as (r & Hr & _). by exists r.
  - intros j r Hr. rewrite live_replica_old by done. intros Hp. left. rewrite Hon. by apply (counted_replicas _ Hw j r).
  - intros did js j Hd Hj. destruct (Hdict did js j Hd Hj) as (r & Hr & ? & ?). exists r. by rewrite live_replica_old.
  - intros i l Hl. rewrite live_lock_old by done. intros Hp. destruct (counted_homes _ Hw i l Hl Hp) as (j & r & Hr & ? & ?).
    exists j, r. by rewrite live_replica_old.
  - intros i j r r' Hr Hr' _ _. by apply (counted_replica_keys _ Hw i j r r').
  - by apply (counted_lock_keys _ Hw).
  - intros i l Hi Hl%lookup_lt_Some. lia.
  - intros j r Hj Hr%lookup_lt_Some. lia.
  - intros id r Hr. by exists r.
Qed.

(** *** Adding the objects *)

Section adding.
Context {A K : Type} (key : A -> K) (persistent : A -> bool).

(** Rows have different keys. *)
Definition unique (l : list A) : Prop :=
  forall i j x y, l !! i = Some x -> l !! j = Some y -> persistent x = true -> persistent y = true -> key x = key y -> i = j.

Lemma unique_added (l : list A) i x f :
  l !! i = Some x -> (forall j y, l !! j = Some y -> persistent y = true -> key y <> key x) -> key (f x) = key x ->
  unique l -> unique (alter f i l).
Proof.
  intros Hx Hnew Hf Hu j1 j2 y1 y2 H1 H2.
  assert (forall j y, alter f i l !! j = Some y -> (j = i /\ y = f x) \/ (j <> i /\ l !! j = Some y)) as Hback.
  { intros j y. destruct (decide (j = i)) as [->|Hj]; [rewrite list_lookup_alter_eq, Hx|rewrite list_lookup_alter_ne by done; by right].
    intros [= <-]. by left. }
  destruct (Hback j1 y1 H1) as [[-> ->]|[Hn1 H1']], (Hback j2 y2 H2) as [[-> ->]|[Hn2 H2']]; intros Hp1 Hp2 Hk; try done.
  - exfalso. apply (Hnew j2 y2); [done|done|congruence].
  - exfalso. apply (Hnew j1 y1); [done|done|congruence].
  - by eapply Hu.
Qed.

(** Element by element, a list and what it was *)
Definition pointwise (R : nat -> A -> A -> Prop) (l0 l : list A) : Prop :=
  length l = length l0 /\ forall i x0 x, l0 !! i = Some x0 -> l !! i = Some x -> R i x0 x.

Lemma pointwise_alter (R R' : nat -> A -> A -> Prop) l0 l i f :
  pointwise R l0 l -> (forall x0 x, R i x0 x -> R' i x0 (f x)) -> (forall j x0 x, j <> i -> R j x0 x -> R' j x0 x) ->
  pointwise R' l0 (alter f i l).
Proof.
  intros [Hlen HR] Hi Hj. split; [by rewrite length_alter|]. intros j x0 x H0. destruct (decide (j = i)) as [->|Hne].
  - rewrite list_lookup_alter_eq. destruct (l !! i) as [y|] eqn:Hy; [|done]. intros [= <-]. by apply Hi, HR.
  - rewrite list_lookup_alter_ne by done. intros Hx. by apply Hj, HR.
Qed.

Lemma pointwise_lookup R l0 l i x : pointwise R l0 l -> l !! i = Some x -> exists x0, l0 !! i = Some x0 /\ R i x0 x.
Proof.
  intros [Hlen HR] Hx. destruct (l0 !! i) as [x0|] eqn:H0; [by exists x0; split; [|apply HR]|].
  apply lookup_ge_None_1 in H0. apply lookup_lt_Some in Hx. lia.
Qed.
Lemma pointwise_lookup_old R l0 l i x0 : pointwise R l0 l -> l0 !! i = Some x0 -> exists x, l !! i = Some x /\ R i x0 x.
Proof.
  intros [Hlen HR] H0. destruct (l !! i) as [x|] eqn:Hx; [by exists x; split; [|apply HR]|].
  apply lookup_ge_None_1 in Hx. apply lookup_lt_Some in H0. lia.
Qed.
End adding.

Definition added_replica (done : list nat) (j : nat) (r0 r : Replica) : Prop :=
  replica_key r = replica_key r0 /\ rp_lock_cnt r = rp_lock_cnt r0 /\ rp_tombstone r = rp_tombstone r0 /\
  persistent_replica r = bool_decide (j ∈ done) || persistent_replica r0.
Definition added_lock (done : list nat) (i : nat) (l0 l : Lock) : Prop :=
  lock_key l = lock_key l0 /\ lk_state l = lk_state l0 /\ persistent_lock l = bool_decide (i ∈ done) || persistent_lock l0.

Lemma in_snoc (done : list nat) i j : j <> i -> bool_decide (j ∈ done ++ [i]) = bool_decide (j ∈ done).
Proof. intros Hne. apply bool_decide_ext. set_solver. Qed.

(** The objects at [js] become rows. *)
Lemma add_replicas_spec js w0 :
  unique replica_key persistent_replica (w_replicas w0) ->
  wpo (forS add_replica js) (fun _ w => w_rules w = w_rules w0 /\ w_locks w = w_locks w0 /\
    pointwise (added_replica js) (w_replicas w0) (w_replicas w) /\ unique replica_key persistent_replica (w_replicas w)) w0.
Proof.
  intros Hu. apply (wp_for add_replica js (fun done _ w => w_rules w = w_rules w0 /\ w_locks w = w_locks w0 /\
    pointwise (added_replica done) (w_replicas w0) (w_replicas w) /\ unique replica_key persistent_replica (w_replicas w)) (fun _ _ => True)).
  - intros done j rest w -> (H1 & H2 & Hpw & Huw). unfold wp, add_replica, bindS, replica_at, select_replicas, getsS.
    destruct (w_replicas w !! j) as [r|] eqn:Hr; [|done]. simpl.
    destruct (select _ (w_replicas w)) eqn:Hsel; [|done]. unfold alter_replica, modifyS. simpl. split_and!; try done.
    + eapply pointwise_alter; [done| |].
      * intros x0 x (? & ? & ? & ?). split_and!; try done. rewrite (bool_decide_true (j ∈ done ++ [j])) by set_solver. done.
      * intros k x0 x Hne (? & ? & ? & Hs). split_and!; try done. by rewrite in_snoc.
    + eapply unique_added; [done| |done|done]. intros k y Hy Hpy Hk.
      assert (k ∈ select (fun r' => persistent_replica r' && bool_decide (replica_key r' = replica_key r)) (w_replicas w)) as Hin.
      { apply elem_of_select. exists y. by rewrite Hpy, bool_decide_true. }
      rewrite Hsel in Hin. by apply elem_of_nil in Hin.
  - split_and!; try done. split; [done|]. intros i x0 x Hx0 Hx. rewrite Hx0 in Hx. injection Hx as <-. done.
Qed.

Lemma add_locks_spec ls w0 :
  unique lock_key persistent_lock (w_locks w0) ->
  wpo (forS add_lock ls) (fun _ w => w_rules w = w_rules w0 /\ w_replicas w = w_replicas w0 /\
    pointwise (added_lock ls) (w_locks w0) (w_locks w) /\ unique lock_key persistent_lock (w_locks w)) w0.
Proof.
  intros Hu. apply (wp_for add_lock ls (fun done _ w => w_rules w = w_rules w0 /\ w_replicas w = w_replicas w0 /\
    pointwise (added_lock done) (w_locks w0) (w_locks w) /\ unique lock_key persistent_lock (w_locks w)) (fun _ _ => True)).
  - intros done j rest w -> (H1 & H2 & Hpw & Huw). unfold wp, add_lock, bindS, lock_at, select_locks, getsS.
    destruct (w_locks w !! j) as [l|] eqn:Hl; [|done]. simpl.
    destruct (select _ (w_locks w)) eqn:Hsel; [|done]. unfold alter_lock, modifyS. simpl. split_and!; try done.
    + eapply pointwise_alter; [done| |].
      * intros x0 x (? & ? & ?). split_and!; try done. rewrite (bool_decide_true (j ∈ done ++ [j])) by set_solver. done.
      * intros k x0 x Hne (? & ? & Hs). split_and!; try done. by rewrite in_snoc.
    + eapply unique_added; [done| |done|done]. intros k y Hy Hpy Hk.
      assert (k ∈ select (fun l' => persistent_lock l' && bool_decide (lock_key l' = lock_key l)) (w_locks w)) as Hin.
      { apply elem_of_select. exists y. by rewrite Hpy, bool_decide_true. }
      rewrite Hsel in Hin. by apply elem_of_nil in Hin.
  - split_and!; try done. split; [done|]. intros i x0 x Hx0 Hx. rewrite Hx0 in Hx. injection Hx as <-. done.
Qed.

(** What was made, and nothing else, is new. *)
Lemma made_is_new (made : list nat) a b i : (a <= b)%nat -> made ≡ₚ seq a (b - a) -> i ∈ made <-> (a <= i < b)%nat.
Proof. intros Hle ->. rewrite elem_of_seq. lia. Qed.

(** The core of a state that is counted, with the rules there were *)
Definition counted_from (olds : gmap string Rule) (rule_id : string) (w : World) : Prop :=
  counted (core w) /\ forall id v, k_rules (core w) !! id = Some v ->
    exists r0, olds !! id = Some r0 /\ v_state v = ru_state r0 /\ (id <> rule_id -> v = view r0).

(** Everything that was made becomes a row. *)
Lemma wpg_add_objects {B} rule_id g n m olds (k : ST Grouping B) Post :
  running n m olds rule_id g ->
  (forall w, counted_from olds rule_id w -> is_Some (w_rules w !! rule_id) -> wpg k Post (upd_g_world (fun _ => w) g)) ->
  wpg (do! on_world (forS add_replica (objects_made (g_replicas_to_create g))) in
       do! on_world (forS add_lock (objects_made (g_locks_to_create g))) in k) Post g.
Proof.
  intros Hg Hpost. pose proof (run_made_locks _ _ _ _ _ Hg) as [Hn Hl]. pose proof (run_made_replicas _ _ _ _ _ Hg) as [Hm Hr].
  set (ls := objects_made (g_locks_to_create g)) in *. set (js := objects_made (g_replicas_to_create g)) in *.
  set (w0 := g_world g) in *.
  assert (forall j r, w_replicas w0 !! j = Some r -> bool_decide (j ∈ js) || persistent_replica r = live_replica m j r) as Hlr.
  { intros j r Hj. unfold live_replica. f_equal. apply bool_decide_ext. rewrite (made_is_new js m (length (w_replicas w0))) by done. apply lookup_lt_Some in Hj. lia. }
  assert (forall i l, w_locks w0 !! i = Some l -> bool_decide (i ∈ ls) || persistent_lock l = live_lock n i l) as Hll.
  { intros i l Hi. unfold live_lock. f_equal. apply bool_decide_ext. rewrite (made_is_new ls n (length (w_locks w0))) by done. apply lookup_lt_Some in Hi. lia. }
  apply wpg_bind, wpg_world. eapply wpo_mono; [apply add_replicas_spec|].
  { intros i j r r' Hi Hj Hp Hp'. apply (run_old_replicas _ _ _ _ _ Hg i j r r'); try done; apply Nat.nle_gt; intros Hle.
    - unfold persistent_replica in Hp. by rewrite (run_transient_replicas _ _ _ _ _ Hg i r Hle Hi) in Hp.
    - unfold persistent_replica in Hp'. by rewrite (run_transient_replicas _ _ _ _ _ Hg j r' Hle Hj) in Hp'. }
  intros [] w1 (R1 & L1 & P1 & U1). apply wpg_bind, wpg_world. cbn [g_world upd_g_world].
  eapply wpo_mono; [apply add_locks_spec; rewrite L1; exact (run_old_locks _ _ _ _ _ Hg)|].
  intros [] w2 (R2 & P2 & L2 & U2). rewrite L1 in L2. rewrite R1 in R2.
  assert (counted (core w2)) as Hw2.
  { assert (forall P Q, (forall i l0 l, w_locks w0 !! i = Some l0 -> added_lock ls i l0 l -> P i l0 = Q i l) ->
      count P (w_locks w0) = count Q (w_locks w2)) as Hcount.
    { intros P Q HPQ. destruct L2 as [Hlen HR]. apply count_ext; [done|]. intros i l0 l H0 H1. by apply HPQ, HR. }
    split; red; cbn [core k_rules k_locks k_replicas]; try done.
    - intros id v st (r & Hv & <-)%rule_core. rewrite view_cnt. rewrite R2 in Hv. rewrite (run_counters _ _ _ _ _ Hg id r st Hv).
      apply Hcount. intros i l0 l H0 (Hk & Hs & Hp). unfold live_of, lock_of. rewrite Hp, Hs, Hll by done.
      by assert (lk_rule_id l = lk_rule_id l0) as -> by (unfold lock_key in Hk; congruence).
    - intros i l Hi Hp. destruct (pointwise_lookup _ _ _ _ _ L2 Hi) as (l0 & H0 & Hk & _ & Hpp). rewrite Hp, Hll in Hpp by done.
      destruct (run_rules _ _ _ _ _ Hg i l0 H0) as [r Hrr]; [done|]. exists (view r). apply core_rule. rewrite R2.
      by assert (lk_rule_id l = lk_rule_id l0) as -> by (unfold lock_key in Hk; congruence).
    - rewrite P2. exact U1.
    - intros j r Hj Hp. rewrite P2 in Hj. destruct (pointwise_lookup _ _ _ _ _ P1 Hj) as (r0 & H0 & Hk & Hc & Ht & Hpp).
      rewrite Hp, Hlr in Hpp by done. destruct (run_replicas _ _ _ _ _ Hg j r0 H0) as [[Hle Htomb]|Hcon]; [done| |].
      + unfold replica_ok. rewrite Hc, Ht, Hk.
        rewrite <-(Hcount (live_on n (replica_key r0))); [done|]. intros i l0 l Hl0 (Hlk & _ & Hlp). unfold live_on, lock_on_key, on_file.
        rewrite Hlp, Hll by done. unfold lock_key in Hlk. by assert (lk_did l = lk_did l0 /\ lk_rse_id l = lk_rse_id l0) as [-> ->] by (split; congruence).
      + exfalso. destruct Hcon as (j' & r' & Hne & _ & Hr' & Hlive & Hkk). destruct (pointwise_lookup_old _ _ _ _ _ P1 Hr') as (r2 & Hr2 & Hk2 & _ & _ & Hp2).
        apply Hne. apply (U1 j' j r2 r); [done|done| |done|congruence]. by rewrite Hp2, Hlr.
    - intros i l Hi Hp. destruct (pointwise_lookup _ _ _ _ _ L2 Hi) as (l0 & H0 & Hk & _ & Hpp). rewrite Hp, Hll in Hpp by done.
      destruct (run_homes _ _ _ _ _ Hg i l0 H0) as (j & r0 & Hr0 & Hlive & Hk0); [done|].
      destruct (pointwise_lookup_old _ _ _ _ _ P1 Hr0) as (r & Hj & Hkr & _ & _ & Hpr). exists j, r. rewrite P2, Hpr, Hlr by done.
      split_and!; [done|done|]. unfold lock_key in Hk. congruence. }
  apply (Hpost w2); [split; [done|]|rewrite R2; apply Hg].
  intros id v (r & Hrr & <-)%rule_core. rewrite R2 in Hrr.
  destruct (run_old_rules _ _ _ _ _ Hg id r Hrr) as (r0 & ? & ? & ?). by exists r0.
Qed.

(** The rest does not matter. *)
Lemma wpg_aside {A} (x : ST World A) olds rule_id g :
  counted_from olds rule_id (g_world g) -> frames x -> wpg (on_world x) (fun _ g' => counted_from olds rule_id (g_world g')) g.
Proof.
  intros Hw Hx. apply wpg_world, wpo_frames; [done|]. intros a w' H. unfold counted_from in *. cbn [g_world upd_g_world]. by rewrite H.
Qed.

Lemma flush_ok rule g n m olds :
  running n m olds (ru_id rule) g -> wpg (flush_objects rule) (fun _ g' => counted_from olds (ru_id rule) (g_world g')) g.
Proof.
  intros Hg. apply wpg_bind, wp_gets. change (id g) with g. apply (wpg_add_objects (ru_id rule) g n m olds _ _ Hg). intros w Hw _.
  rewrite (run_no_deletion _ _ _ _ _ Hg). cbn [forS objects_made concat fmap list_fmap].
  do 4 (apply wpg_bind; eapply wpg_mono; [apply wpg_aside; [done|frames]|]; intros [] ? ?).
  apply wpg_aside; [done|frames].
Qed.

(** A rule that is applied without an exception: all its new locks are counted. *)
Lemma create_ok `{Random} rule source_replicas preferred source_rses ds g :
  counted (core (g_world g)) -> dict_ok (g_world g) (g_replicas g) -> is_Some (w_rules (g_world g) !! ru_id rule) ->
  wpg (create_locks_replicas_transfers rule source_replicas preferred source_rses ds) (fun _ g' => counted_from (w_rules (g_world g)) (ru_id rule) (g_world g')) g.
Proof.
  intros Hw Hdict Hrule. apply wpg_bind. eapply wpg_mono.
  - apply (stays_apply (length (w_locks (g_world g))) (length (w_replicas (g_world g))) (w_rules (g_world g)) (ru_id rule)); [done|].
    by apply (start_running (ru_id rule) (upd_g_locks_to_create (fun _ => []) (upd_g_replicas_to_create (fun _ => [])
                                            (upd_g_locks_to_delete (fun _ => []) g)))).
  - intros [] g' Hg'. by eapply flush_ok.
Qed.
