(* ===== verification/RuleDemo.v ===== *)
(** * An example of an engine

    A rule for two copies of a dataset of two files on three RSEs; one copy of each file is there,
    the others are on their way; used by the witnesses. *)

From S2P Require Import Prelude StateError Counting Types Database Role RseSelector LockTables RuleGrouping RuleEngine RuleInvariant RuleEvents.

Definition demo_rse (name : string) : RSERow :=
  {| rse_id := name; rse_name := name; rse_vo := DEFAULT_VO; rse_type := RT_DISK; rse_staging_area := false; rse_availability_write := true;
     rse_deleted := false; rse_availability_delete := true |}.
Definition demo_session : Session :=
  let s := empty_session in
  {| now := 1000; rbac_enabled := rbac_enabled s; SCOPE_LENGTH := SCOPE_LENGTH s; NAME_LENGTH := NAME_LENGTH s;
     role_tables := role_tables s; accounts := {[ "alice" := true ]}; account_attrs := ∅; scopes := ∅; dids := ∅; rules := ∅;
     replicas := ∅; locks := []; identities := []; exceptions := [];
     rses := [demo_rse "A"; demo_rse "B"; demo_rse "C"]; rse_attrs := ∅ |}.

Definition demo_rule : Rule :=
  {| ru_id := "r1"; ru_subscription_id := None; ru_account := alice; ru_did := ("data", "ds"); ru_did_type := DATASET; ru_state := RS_REPLICATING;
     ru_error := None; ru_rse_expression := "A|B|C"; ru_copies := 2; ru_expires_at := None; ru_weight := None;
     ru_locked := false; ru_locks_ok_cnt := 2; ru_locks_replicating_cnt := 2; ru_locks_stuck_cnt := 0;
     ru_source_replica_expression := None; ru_activity := None; ru_grouping := G_NONE; ru_notification := N_NO;
     ru_stuck_at := None; ru_purge_replicas := false; ru_ignore_availability := false; ru_ignore_account_limit := false;
     ru_priority := Some 3%Z; ru_comments := None; ru_child_rule_id := None; ru_eol_at := None; ru_split_container := false; ru_meta := None; ru_created_at := 0; ru_updated_at := 0 |}.

Definition demo_lock (file rse : string) (state : LockState) : Lock :=
  MkLock ("data", file)%string "r1" rse alice 10 state None (Some 0%Z) (Some 0%Z) Persistent.
Definition demo_replica (file rse : string) (state : ReplicaState) : Replica :=
  MkReplica rse ("data", file)%string 10 None None state 1 None None (Some 0%Z) Persistent.

Definition demo_did (t : DIDType) : DIDRow := MkDID t (Some true) (Some 10%Z) (Some 2%Z) None None false alice None false false false None.
Definition demo_content (file : string) : Content :=
  MkContent ("data", "ds")%string DATASET ("data", file)%string FILE 10 None None false.

Definition demo_world : World :=
  {| w_session := demo_session; w_quotas := MkQuotaDB ∅ [] ∅ ∅ ∅; w_postgresql := false; w_use_preparer := false; w_rules := {[ "r1" := demo_rule ]};
     w_locks := [demo_lock "f1" "A" L_OK; demo_lock "f1" "B" L_REPLICATING; demo_lock "f2" "A" L_OK; demo_lock "f2" "C" L_REPLICATING];
     w_replicas := [demo_replica "f1" "A" R_AVAILABLE; demo_replica "f1" "B" R_COPYING;
                    demo_replica "f2" "A" R_AVAILABLE; demo_replica "f2" "C" R_COPYING];
     w_dataset_locks := ∅; w_collection_replicas := ∅; w_updated_col_rep := []; w_account_updates := []; w_rse_updates := [];
     w_requests := []; w_sources := []; w_hops := []; w_request_history := [];
     w_dids := list_to_map [(("data", "ds"), demo_did DATASET); (("data", "f1"), demo_did FILE); (("data", "f2"), demo_did FILE)]%string;
     w_contents := [demo_content "f1"; demo_content "f2"]; w_content_history := []; w_archive_contents := []; w_archive_history := []; w_updated_dids := []; w_bad_replicas := [];
     w_history_recent := []; w_history := []; w_messages := []; w_emails := ∅; w_mail_template := true |}.

(** Look at every element of a list that is given. *)
Ltac each_of i := do 6 try destruct i as [|i]; try done; cbn in *; rewrite ?lookup_nil in *; simplify_eq/=; try done.

(** The invariant of an engine that is given, with one rule, and the replica of a lock at the address of the lock *)
Ltac one_rule Hv :=
  apply rule_core in Hv as (? & Hv & <-); cbn in Hv; apply lookup_singleton_Some in Hv as [<- <-].
Ltac engine_example :=
  split; red;
  [ intros id v st Hv; one_rule Hv; by destruct st; vm_compute
  | intros id v Hv; one_rule Hv; done
  | intros i l Hl _; each_of i; by apply (bool_decide_unpack _); vm_compute
  | intros i j l l' Hl Hl' _ _ Hk; each_of i; each_of j
  | intros i j r r' Hr Hr' _ _ Hk; each_of i; each_of j
  | intros j r Hr _; each_of j; (split; [by vm_compute|first [by intros [? ?]|by intros _; vm_compute]])
  | intros i l Hl _; exists i; each_of i; by eexists ].

Lemma demo_ok : engine_ok demo_world.
Proof. engine_example. Qed.
