(* ===== verification/TransferPaths.v ===== *)
(** * The paths of transfers: [lib/rucio/core/transfer.py]

    For every request the sources are filtered and ranked by strategies, the shortest paths from them to
    the destination are searched, and the paths that can be used are listed, the best one first. *)

From S2P Require Import Prelude StateError PyFloat PyString Types Database RseSelector PriorityQueue LockTables Topology Protocols.

(** ** Data *)

(** What [RseData] holds of an RSE when it is loaded *)
Record RseData := MkRseData {
  rd_name : string;
  rd_type : RSEType;
  rd_availability_read : bool;
  rd_availability_write : bool;
  rd_attributes : gmap string AttrValue;
  rd_protocols : list Protocol;
}.
Definition attribute_true (key : string) (r : RseData) : bool := RseSelector.attribute_true (rd_attributes r !! key).
Definition is_tape (r : RseData) : bool := bool_decide (rd_type r = RT_TAPE) || attribute_true "staging_required" r.
Definition is_tape_or_staging_required (r : RseData) : bool := is_tape r || attribute_true "staging_required" r.

(** [RequestSource]: the scheme of a source is a list for staging requests. *)
Record RequestSource := MkRequestSource {
  rs_rse : string;
  rs_ranking : Z;
  rs_distance : Z;
  rs_file_path : option string;
  rs_schemes : list string;
  rs_url : option string;
}.
Definition new_source (rse_id : string) (ranking distance : option Z) (file_path : option string) (schemes : list string) (url : option string)
    : RequestSource :=
  MkRequestSource rse_id (default 0 ranking)%Z (default 9999 distance)%Z file_path schemes url.

(** [RequestWithSources]; its sources are named by their positions. *)
Record RequestWithSources := MkRequestWithSources {
  rw_id : option nat;
  rw_transfer : Transfer;
  rw_allow_tape_source : bool;
  rw_previous_attempt_id : option nat;
  rw_transfertool : option string;
  rw_sources : list RequestSource;
  rw_requested_source : option nat;
}.

(** [DirectTransfer] *)
Record PathHop := MkPathHop {
  ph_sources : list RequestSource;
  ph_dest : string;
  ph_dest_schemes : list string;
  ph_rws : RequestWithSources;
}.
Definition ph_src (h : PathHop) : string := match ph_sources h with s :: _ => rs_rse s | [] => ""%string end.

(** What is read from the database and the configuration *)
Record PathDB := MkPathDB {
  pd_session : Session;
  pd_rses : gmap string RseData;                       (* the RSEs not deleted *)
  pd_distances : list (string * string * option Z);
  pd_hop_penalty : Z;
  pd_multihop_rses : list string;
}.
Definition topology_db (db : PathDB) : TopologyDB :=
  MkTopologyDB (pd_distances db)
    ((fun r => MkRSEInfo (rd_availability_read r) (rd_availability_write r) (rd_attributes r !! "hop_penalty"%string)) <$> pd_rses db)
    (pd_hop_penalty db) (pd_multihop_rses db).

(** The arguments of [build_transfer_paths], and the totals of the last hour for [FailureRate]: source, files done and failed *)
Record PathConfig := MkPathConfig {
  admin_accounts : list InternalType;
  schemes : list string;
  failover_schemes : list string;
  max_sources : nat;
  transfertools : list string;
  requested_source_only : bool;
  preparer_mode : bool;
  load_totals : list (string * Z * Z);
}.

(** [TransferPathBuilder] *)
Record Builder := MkBuilder {
  b_topology : Topology;
  definition_by_request_id : gmap (option nat) (gmap string (list PathHop));
}.

(** The results of [build_transfer_paths] *)
Record Built := MkBuilt {
  candidate_paths_by_request_id : gmap (option nat) (list (list PathHop));
  reqs_no_source : gset (option nat);
  reqs_scheme_mismatch : gset (option nat);
  reqs_only_tape_source : gset (option nat);
  reqs_unsupported_transfertool : gset (option nat);
}.

Fixpoint foldS {S A B} (f : B -> A -> ST S B) (b : B) (l : list A) : ST S B :=
  match l with [] => retS b | a :: l => bindS (f b a) (fun b => foldS f b l) end.

Section paths.
Context `{RSEExpressions} `{Random} {Q : Type} {PM : PriorityMap string Q}.
(** [draw] is for the shuffles of [find_matching_scheme]. *)
Variables (draw : string -> string -> nat) (db : PathDB) (config : PathConfig).

Definition protocols_of (rse_id : string) : list Protocol := match pd_rses db !! rse_id with Some r => rd_protocols r | None => [] end.
(** Third-party copies over the wide area network.  The protocols of [RseData] have all operations of the domain
    ([_format_get_rse_protocols]), so that the only exception is [RSEProtocolNotSupported]. *)
Definition find_schemes (src dst : string) (limit : option (list string)) : option Scheme :=
  match find_matching_scheme (draw src dst) (protocols_of dst) (protocols_of src) "third_party_copy_read" "third_party_copy_write" "wan" (default [] limit) with
  | Ok s => Some s
  | Err _ => None
  end.
Definition of_rse (f : RseData -> bool) (rse_id : string) : bool := match pd_rses db !! rse_id with Some r => f r | None => false end.
Definition ensure_loaded (rse_id : string) : ST Builder unit :=
  if bool_decide (is_Some (pd_rses db !! rse_id)) then skipS else raiseS RSENotFound.

(** ** Definitions of transfers *)

Definition rw_dest (rws : RequestWithSources) : string := t_dest_rse_id (rw_transfer rws).

(** The request of a hop that is not the last: it has no id and no rule yet. *)
Definition hop_rws (rws : RequestWithSources) (dest : string) : RequestWithSources :=
  let t := rw_transfer rws in
  MkRequestWithSources None
    (MkTransfer dest (t_did t) ""%string (t_request_type t) (Some 0%Z) (t_account t) (Some (now (pd_session db))) (t_activity t) None None None
       (t_bytes t) (t_md5 t) (t_adler32 t) (t_priority t))
    true None (rw_transfertool rws) [] None.
Definition hop_of (rws : RequestWithSources) (source : RequestSource) (hop : HopDict) : PathHop :=
  let first := bool_decide (source_rse hop = rs_rse source) in
  MkPathHop
    [MkRequestSource (source_rse hop) (if first then rs_ranking source else 0)%Z (if first then cumulated_distance hop else hop_distance hop)
       (if first then rs_file_path source else None) (option_list (source_scheme <$> chosen_scheme hop)) None]
    (dest_rse hop) (option_list (dest_scheme <$> chosen_scheme hop))
    (if bool_decide (dest_rse hop = rw_dest rws) then rws else hop_rws rws (dest_rse hop)).

(** [__add_compatible_schemes] *)
Definition add_compatible_schemes (schemes allowed_schemes : list string) : list string :=
  remove_dups (concat ((fun s =>
    if bool_decide (s ∈ allowed_schemes) then s :: List.filter (fun s' => bool_decide (s' ∈ allowed_schemes)) (SCHEME_MAP s) else []) <$> schemes)).

(** Sources that are added to a direct transfer from disk: disks with a distance and common protocols *)
Definition better_source (a b : RequestSource) : Prop :=
  (rs_ranking b < rs_ranking a \/ rs_ranking a = rs_ranking b /\ rs_distance a <= rs_distance b)%Z.
#[export] Instance better_source_dec : RelDecision better_source.
Proof. intros a b. unfold better_source. apply _. Defined.
Definition extra_source (t : Topology) (main dest : string) (main_source_schemes : list string) (s : RequestSource) : option RequestSource :=
  match edges t !! (rs_rse s, dest) with
  | None => None
  | Some cost =>
      if bool_decide (rs_rse s = main) || of_rse is_tape (rs_rse s) then None
      else (fun m => MkRequestSource (rs_rse s) (rs_ranking s) cost (rs_file_path s) [source_scheme m] None)
             <$> find_schemes (rs_rse s) dest (Some main_source_schemes)
  end.
Fixpoint extra_sources (max : nat) (extra : RequestSource -> option RequestSource) (l : list RequestSource) : list RequestSource :=
  match l, max with
  | s :: l, S n => match extra s with Some s' => s' :: extra_sources n extra l | None => extra_sources max extra l end
  | _, _ => []
  end.
Definition add_sources (t : Topology) (sources : list RequestSource) (path : list PathHop) : list PathHop :=
  match path with
  | [hop] =>
      if of_rse is_tape (ph_src hop) then path
      else
        let main_source_schemes := add_compatible_schemes (ph_dest_schemes hop) SUPPORTED_PROTOCOLS in
        [MkPathHop (ph_sources hop ++ extra_sources (max_sources config) (extra_source t (ph_src hop) (ph_dest hop) main_source_schemes)
                                        (stable_sort better_source sources))
           (ph_dest hop) (ph_dest_schemes hop) (ph_rws hop)]
  | _ => path
  end.

(** [_create_transfer_definitions] *)
Definition sources_by_rse (sources : list RequestSource) : gmap string RequestSource := foldl (fun m s => <[rs_rse s := s]> m) ∅ sources.
Definition path_from (rws : RequestWithSources) (sources : list RequestSource) (rse : string) (path : list HopDict) : option (list PathHop) :=
  source ← sources_by_rse sources !! rse; Some (hop_of rws source <$> path).
Definition create_transfer_definitions (rws : RequestWithSources) (sources multi_source_sources : list RequestSource) (limit_dest_schemes : list string)
    : ST Builder (gmap string (list PathHop)) :=
  let! b := getsS id in
  match search_shortest_paths (Q := Q) find_schemes (topology_db db) (b_topology b) (rs_rse <$> sources) (rw_dest rws) limit_dest_schemes with
  | Ok (shortest_paths, t) =>
      do! modifyS (fun b => MkBuilder t (definition_by_request_id b)) in
      retS (add_sources t multi_source_sources <$> map_imap (path_from rws sources) shortest_paths)
  | Err e => raiseS e
  end.

(** [_create_stagein_definitions] *)
Definition create_stagein_definitions (rws : RequestWithSources) (sources : list RequestSource) (limit_dest_schemes : list string)
    : gmap string (list PathHop) :=
  (fun s => [MkPathHop [new_source (rs_rse s) None None (rs_file_path s) limit_dest_schemes (rs_url s)] (rw_dest rws) limit_dest_schemes rws])
    <$> sources_by_rse sources.

(** [TransferPathBuilder.build_or_return_cached], for the sources at some positions *)
Definition at_positions (rws : RequestWithSources) (positions : list nat) : list RequestSource := omap (fun i => rw_sources rws !! i) positions.
Definition build_or_return_cached (rws : RequestWithSources) (sources : list nat) : ST Builder (gmap string (list PathHop)) :=
  let! b := getsS id in
  let cached := default ∅ (definition_by_request_id b !! rw_id rws) in
  if negb (bool_decide (cached = ∅)) then retS cached
  else
    let transfer_schemes :=
      if bool_decide (is_Some (rw_previous_attempt_id rws)) && negb (bool_decide (failover_schemes config = [])) then failover_schemes config
      else schemes config in
    let candidate_sources :=
      match rw_requested_source rws with
      | Some i => if requested_source_only config then (if bool_decide (i ∈ sources) then [i] else []) else sources
      | None => sources
      end in
    let! definition :=
      if bool_decide (t_request_type (rw_transfer rws) = STAGEIN)
      then retS (create_stagein_definitions rws (at_positions rws sources) transfer_schemes)
      else create_transfer_definitions rws (at_positions rws candidate_sources)
             (if preparer_mode config then [] else at_positions rws sources) transfer_schemes in
    do! modifyS (fun b => MkBuilder (b_topology b) (<[rw_id rws := definition]> (definition_by_request_id b))) in
    retS definition.

(** ** Ranking sources *)

Inductive Strategy :=
  | EnforceSourceRSEExpression | SkipBlocklistedRSEs | SkipRestrictedRSEs | EnforceStagingBuffer | RestrictTapeSources
  | SkipSchemeMissmatch | SkipIntermediateTape | HighestAdjustedRankingFirst | PreferDiskOverTape | PathDistance | PreferSingleHop
  | FailureRate.
#[export] Instance Strategy_eq_dec : EqDecision Strategy.
Proof. solve_decision. Defined.
(** [external_name], the name of the class, and [filter_only] *)
Definition external_name (s : Strategy) : string :=
  match s with
  | EnforceSourceRSEExpression => "EnforceSourceRSEExpression" | SkipBlocklistedRSEs => "SkipBlocklistedRSEs" | SkipRestrictedRSEs => "SkipRestrictedRSEs"
  | EnforceStagingBuffer => "EnforceStagingBuffer" | RestrictTapeSources => "RestrictTapeSources" | SkipSchemeMissmatch => "SkipSchemeMissmatch"
  | SkipIntermediateTape => "SkipIntermediateTape" | HighestAdjustedRankingFirst => "HighestAdjustedRankingFirst" | PreferDiskOverTape => "PreferDiskOverTape"
  | PathDistance => "PathDistance" | PreferSingleHop => "PreferSingleHop" | FailureRate => "FailureRate"
  end.
Definition default_strategies : list Strategy :=
  [EnforceSourceRSEExpression; SkipBlocklistedRSEs; SkipRestrictedRSEs; EnforceStagingBuffer; RestrictTapeSources; SkipSchemeMissmatch;
   SkipIntermediateTape; HighestAdjustedRankingFirst; PreferDiskOverTape; PathDistance; PreferSingleHop].
Definition available_strategies : list Strategy := default_strategies ++ [FailureRate].
Definition strategy_named (name : string) : result Strategy :=
  or_raise KeyError (List.find (fun s => bool_decide (external_name s = name)) available_strategies).
Definition filter_only (s : Strategy) : bool :=
  match s with HighestAdjustedRankingFirst | PreferDiskOverTape | PathDistance | PreferSingleHop | FailureRate => false | _ => true end.

Inductive Verdict := SKIP_SOURCE | Cost (cost : Z).
Definition maxsize : Z := 2 ^ 63 - 1.
(** [None] means the highest cost. *)
Definition skip_if (b : bool) : Verdict := if b then SKIP_SOURCE else Cost maxsize.

(** What [for_request] finds out: the RSEs the request wants for sources, or the paths from its sources *)
Inductive RankingContext := Plain | Allowed (allowed_source_rses : option (gset string)) | PathsFor (paths : gmap string (list PathHop)).
Definition allowed_sources (rws : RequestWithSources) : result (option (gset string)) :=
  match t_source_replica_expression (rw_transfer rws) ≫= or_none with
  | None => Ok None
  | Some expression =>
      match parse_expression (pd_session db) expression None with
      | Ok rses => Ok (Some (list_to_set (Database.rse_id <$> rses)))
      | Err (InvalidRSEExpression _) => Ok (Some ∅)
      | Err e => Err e
      end
  end.
Definition for_request (s : Strategy) (rws : RequestWithSources) (sources : list nat) : ST Builder RankingContext :=
  match s with
  | EnforceSourceRSEExpression => let! allowed := liftS (allowed_sources rws) in retS (Allowed allowed)
  | SkipSchemeMissmatch | SkipIntermediateTape | PathDistance | PreferSingleHop =>
      let! paths := build_or_return_cached rws sources in retS (PathsFor paths)
  | _ => retS Plain
  end.

(** [FailureRate._FailureRateStat]: failed files in ten thousand *)
Definition get_failure_rate (files_done files_failed : Z) : Z :=
  let files_attempted := (files_done + files_failed)%Z in
  if bool_decide (files_attempted = 0)%Z then 0
  else default 0%Z (ftrunc (fmul (fdiv (of_Z files_failed) (of_Z files_attempted)) (of_Z 10000))).
Definition source_stats (rse_id : string) : Z * Z :=
  foldl (fun x stat => if bool_decide (stat.1.1 = rse_id) then (x.1 + stat.1.2, x.2 + stat.2)%Z else x) (0, 0)%Z (load_totals config).

Definition is_admin (account : InternalType) : bool := existsb (ieq account) (admin_accounts config).
Definition apply (s : Strategy) (ctx : RankingContext) (t : Topology) (rws : RequestWithSources) (source : RequestSource) : Verdict :=
  let rse := rs_rse source in
  let tape := of_rse is_tape_or_staging_required rse in
  let path := match ctx with PathsFor paths => paths !! rse | _ => None end in
  match s with
  | EnforceSourceRSEExpression =>
      skip_if (match ctx with Allowed (Some allowed) => negb (bool_decide (rse ∈ allowed)) | _ => false end)
  | SkipBlocklistedRSEs => skip_if (negb (of_rse rd_availability_read rse) && negb (ignore_availability t))
  | SkipRestrictedRSEs => skip_if (of_rse (attribute_true "restricted_read") rse && negb (is_admin (t_account (rw_transfer rws))))
  | EnforceStagingBuffer =>
      skip_if (bool_decide (t_request_type (rw_transfer rws) = STAGEIN)
               && negb (bool_decide ((r ← pd_rses db !! rse; rd_attributes r !! "staging_buffer"%string) = AStr <$> (rd_name <$> pd_rses db !! rw_dest rws))))
  | RestrictTapeSources => skip_if (tape && negb (rw_allow_tape_source rws))
  | SkipSchemeMissmatch => skip_if (match path with Some [] => true | _ => false end)
  | SkipIntermediateTape => skip_if (existsb (fun hop => of_rse is_tape_or_staging_required (ph_src hop)) (drop 1 (default [] path)))
  | HighestAdjustedRankingFirst => Cost (- rs_ranking source + (if tape then 1 else 0))
  | PreferDiskOverTape => Cost (if tape then 1 else 0)
  | PathDistance =>
      match path with Some (hop :: _) => Cost (default 0%Z (rs_distance <$> head (ph_sources hop))) | _ => SKIP_SOURCE end
  | PreferSingleHop =>
      match path with Some (_ :: rest) => Cost (if bool_decide (rest = []) then 0 else 1) | _ => SKIP_SOURCE end
  | FailureRate => let '(files_done, files_failed) := source_stats rse in Cost (get_failure_rate files_done files_failed)
  end.

(** The costs of the sources that are left, in the order of the dictionary, and which strategies rejected some *)
Record Ranked := MkRanked { cost_vectors : list (nat * list Z); rejected_sources : list Strategy }.
Definition judge (s : Strategy) (ctx : RankingContext) (t : Topology) (rws : RequestWithSources) (x : nat * list Z) : option (nat * list Z) :=
  source ← rw_sources rws !! x.1;
  match apply s ctx t rws source with
  | SKIP_SOURCE => None
  | Cost c => Some (x.1, if filter_only s then x.2 else x.2 ++ [c])
  end.
Definition run_strategy (rws : RequestWithSources) (r : Ranked) (s : Strategy) : ST Builder Ranked :=
  if bool_decide (cost_vectors r = []) then retS r
  else
    let! ctx := for_request s rws (fst <$> cost_vectors r) in
    let! t := getsS b_topology in
    let left := omap (judge s ctx t rws) (cost_vectors r) in
    retS (MkRanked left (rejected_sources r ++ (if bool_decide (length left < length (cost_vectors r))%nat then [s] else []))).
Definition rank_sources (strategies : list Strategy) (rws : RequestWithSources) : ST Builder Ranked :=
  foldS (run_strategy rws) (MkRanked ((fun i => (i, [])) <$> seq 0 (length (rw_sources rws))) []) strategies.

(** Lists are compared element by element. *)
Fixpoint list_le (a b : list Z) : bool :=
  match a, b with
  | [], _ => true
  | _ :: _, [] => false
  | x :: a, y :: b => bool_decide (x < y)%Z || bool_decide (x = y) && list_le a b
  end.
Definition cheaper (a b : nat * list Z) : Prop := list_le a.2 b.2 = true.
#[export] Instance cheaper_dec : RelDecision cheaper.
Proof. intros a b. unfold cheaper. apply _. Defined.

(** ** Candidate paths *)

(** [__compress_multihops]: the rest of a path from the last of its hops that starts at a source *)
Fixpoint from_last_source (source_rses : gset string) (path : list PathHop) : option (list PathHop) :=
  match path with
  | [] => None
  | hop :: rest =>
      match from_last_source source_rses rest with
      | Some p => Some p
      | None => if bool_decide (ph_src hop ∈ source_rses) then Some path else None
      end
  end.
Definition compress (source_rses : gset string) (path : list PathHop) : result (list PathHop) :=
  if bool_decide (1 < length path)%nat then or_raise TypeError (from_last_source source_rses path) else Ok path.
Definition next_candidate (source_rses : gset string) (transfers_by_rse : gmap string (list PathHop))
    (acc : gset string * list (list PathHop)) (rse : string) : result (gset string * list (list PathHop)) :=
  let* path := or_raise KeyError (transfers_by_rse !! rse) in
  if preparer_mode config then Ok (acc.1, acc.2 ++ [path])
  else
    let* path := compress source_rses path in
    let* hop := or_raise IndexError (head path) in
    if bool_decide (ph_src hop ∈ acc.1) then Ok acc else Ok ({[ ph_src hop ]} ∪ acc.1, acc.2 ++ [path]).
(** The first paths are written to the log, with where they start. *)
Definition candidate_paths (rws : RequestWithSources) (transfers_by_rse : gmap string (list PathHop)) (order : list RequestSource)
    : result (list (list PathHop)) :=
  let* acc := foldM (next_candidate (list_to_set (rs_rse <$> rw_sources rws)) transfers_by_rse) (∅, []) (rs_rse <$> order) in
  if existsb (fun path : list PathHop => bool_decide (path = [])) (take 4 acc.2) then Err IndexError else Ok acc.2.

(** Where a request goes: [None] leaves it without sources. *)
Inductive Outcome := Candidate (paths : list (list PathHop)) | NoSource | SchemeMismatch | OnlyTapeSource | UnsupportedTransfertool.
Definition request_paths (strategies : list Strategy) (rws : RequestWithSources) : ST Builder Outcome :=
  do! ensure_loaded (rw_dest rws) in
  do! forS (fun s => ensure_loaded (rs_rse s)) (rw_sources rws) in
  let! t := getsS b_topology in
  if bool_decide (rw_sources rws = []) then retS NoSource
  else if negb (ignore_availability t || of_rse rd_availability_write (rw_dest rws)) then retS NoSource
  else if negb (is_admin (t_account (rw_transfer rws))) && of_rse (attribute_true "restricted_write") (rw_dest rws) then retS NoSource
  else if match rw_transfertool rws ≫= or_none with
          | Some tool => negb (bool_decide (transfertools config = [])) && negb (bool_decide (tool ∈ transfertools config))
          | None => false
          end then retS UnsupportedTransfertool
  else
    let! ranked := rank_sources strategies rws in
    let! transfers_by_rse := build_or_return_cached rws (fst <$> cost_vectors ranked) in
    let order := at_positions rws (fst <$> stable_sort cheaper (cost_vectors ranked)) in
    let! paths := liftS (candidate_paths rws transfers_by_rse order) in
    retS (match paths with
          | [] => if bool_decide (RestrictTapeSources ∈ rejected_sources ranked) then OnlyTapeSource
                  else if bool_decide (SkipSchemeMissmatch ∈ rejected_sources ranked) then SchemeMismatch
                  else NoSource
          | _ => Candidate paths
          end).

(** The request is first one without sources. *)
Definition sort_out (rws : RequestWithSources) (o : Outcome) (b : Built) : Built :=
  let add f := {[ rw_id rws ]} ∪ f b in
  let found := (add reqs_no_source) ∖ {[ rw_id rws ]} in
  match o with
  | NoSource => MkBuilt (candidate_paths_by_request_id b) (add reqs_no_source) (reqs_scheme_mismatch b) (reqs_only_tape_source b) (reqs_unsupported_transfertool b)
  | Candidate paths =>
      MkBuilt (<[rw_id rws := paths]> (candidate_paths_by_request_id b)) found (reqs_scheme_mismatch b) (reqs_only_tape_source b) (reqs_unsupported_transfertool b)
  | SchemeMismatch => MkBuilt (candidate_paths_by_request_id b) found (add reqs_scheme_mismatch) (reqs_only_tape_source b) (reqs_unsupported_transfertool b)
  | OnlyTapeSource => MkBuilt (candidate_paths_by_request_id b) found (reqs_scheme_mismatch b) (add reqs_only_tape_source) (reqs_unsupported_transfertool b)
  | UnsupportedTransfertool =>
      MkBuilt (candidate_paths_by_request_id b) found (reqs_scheme_mismatch b) (reqs_only_tape_source b) (add reqs_unsupported_transfertool)
  end.

(** [build_transfer_paths], with the names of the strategies in the configuration *)
Definition build_transfer_paths (topology : Topology) (strategy_names : option (list string)) (requests_with_sources : list RequestWithSources)
    : result (Built * Builder) :=
  let* strategies :=
    foldM (fun l name => let* s := strategy_named name in Ok (l ++ [s])) [] (default (external_name <$> default_strategies) strategy_names) in
  match foldS (fun b rws => let! o := request_paths strategies rws in retS (sort_out rws o b)) (MkBuilt ∅ ∅ ∅ ∅ ∅) requests_with_sources
          (MkBuilder topology ∅) with
  | (Ok built, b) => Ok (built, b)
  | (Err e, _) => Err e
  end.

End paths.
