(* ===== verification/TransferPathsFacts.v ===== *)
(** * What the paths of transfers promise

    Whatever is ranked: every path offered for a request starts at one of its sources, leads hop by hop
    over common protocols to its destination, passes through no tape and no other source; the best source
    comes first, and when nothing is offered no source could have been used. *)

From S2P Require Import Prelude StateError PyFloat PyString Types Database RseSelector RseSelectorFacts PriorityQueue LockTables RuleDemo Topology TopologyFacts TopologySearch TopologyHops Protocols TransferPaths.

#[local] Open Scope list_scope.

(** ** Sorting *)

Lemma list_le_total a b : list_le a b = false -> list_le b a = true.
Proof.
  revert b. induction a as [|x a IH]; intros [|y b]; simpl; [done..|]. rewrite orb_false_iff, andb_false_iff, orb_true_iff, andb_true_iff,
    !bool_decide_eq_false, !bool_decide_eq_true. intros [H1 H2]. destruct (decide (x = y)) as [->|Hne]; [|left; lia].
  right. split; [done|]. apply IH. by destruct H2.
Qed.
Lemma list_le_trans a b c : list_le a b = true -> list_le b c = true -> list_le a c = true.
Proof.
  revert b c. induction a as [|x a IH]; intros [|y b] [|z c]; simpl; try done.
  rewrite !orb_true_iff, !andb_true_iff, !bool_decide_eq_true. intros [?|[? ?]] [?|[? ?]]; [left; lia..|].
  right. split; [lia|by eapply IH].
Qed.
Lemma list_le_refl a : list_le a a = true.
Proof. induction a as [|x a IH]; simpl; [done|]. rewrite orb_true_iff, andb_true_iff, !bool_decide_eq_true. right. by split. Qed.
Lemma head_cheapest l x : head (stable_sort cheaper l) = Some x -> x ∈ l /\ forall y, y ∈ l -> list_le x.2 y.2 = true.
Proof.
  apply head_stable_sort.
  - intros a b. unfold cheaper. intros Hn. apply list_le_total. by destruct (list_le a.2 b.2).
  - intros a b c. apply list_le_trans.
  - intros a. apply list_le_refl.
Qed.

(** ** The edges are loaded once. *)

Section paths.
Context `{RSEExpressions} `{Random} {Q : Type} {PM : PriorityMap string Q}.
Variables (draw : string -> string -> nat) (db : PathDB) (config : PathConfig).

Abbreviation tdb := (topology_db db).
Abbreviation schemes_for := (find_schemes draw db).
Abbreviation search := (search_shortest_paths (Q := Q) schemes_for tdb).

Lemma loaded_twice t t' : ensure_edges_loaded tdb t = Ok t' -> ensure_edges_loaded tdb t' = Ok t'.
Proof.
  intros Ht. enough (edges_loaded t' = true) as He by (unfold ensure_edges_loaded; by rewrite He).
  revert Ht. unfold ensure_edges_loaded. destruct (edges_loaded t) eqn:Hl; [by intros [= <-]|]. destruct (foldl _ _ _) as [rows t1].
  intros (t2 & _ & [= <-])%bind_Ok. done.
Qed.

Lemma load_rows_availability rows acc : ignore_availability (foldl load_distance acc rows).2 = ignore_availability acc.2.
Proof.
  revert acc. induction rows as [|[[src dst] [d|]] rows IH]; intros [le t]; simpl; [done| |apply IH]. rewrite IH. simpl.
  unfold get_or_create_edge. by destruct (edges t !! (src, dst)).
Qed.
Lemma loaded_availability t t' : ensure_edges_loaded tdb t = Ok t' -> ignore_availability t' = ignore_availability t.
Proof.
  unfold ensure_edges_loaded. destruct (edges_loaded t); [by intros [= <-]|]. set (rows := filter _ (distances tdb)).
  pose proof (load_rows_availability rows (∅, t)) as Hia. destruct (foldl load_distance (∅, t) rows) as [le t1]. simpl in Hia.
  intros (t2 & Ht2 & [= <-])%bind_Ok. cbn [with_loaded ignore_availability]. rewrite <-Hia. case_bool_decide; [|by injection Ht2 as <-].
  revert Ht2. apply (foldM_inv (fun x => ignore_availability x = ignore_availability t1)); [|done]. intros x e y _ Hx.
  unfold delete_edge. destruct (edges x !! _); [|done]. by intros [= <-].
Qed.

(** The RSEs a search reads *)
Definition searched (t : Topology) (nodes : list string) (dst : string) : Prop :=
  forall n, n ∈ nodes ++ [dst] ++ elements (multihop_nodes t) -> is_Some (rse_infos tdb !! n).
Lemma search_loaded t t' nodes dst limit :
  ensure_edges_loaded tdb t = Ok t' -> searched t nodes dst -> search t nodes dst limit = search t' nodes dst limit.
Proof.
  intros Ht Hs. pose proof (ensure_edges_loaded_same_multihop _ _ _ Ht) as (Hmn & _ & _).
  unfold search_shortest_paths. rewrite !rse_infos_checked by (unfold searched in Hs; by rewrite ?Hmn). by rewrite Ht, (loaded_twice _ _ Ht).
Qed.

(** ** Ranking, as a pure computation *)

Section request.
Variables (rws : RequestWithSources) (t : Topology).

(** Whether a strategy keeps the source at a position, and the costs it adds *)
Definition verdict (s : Strategy) (ctx : RankingContext) (i : nat) : Verdict :=
  match rw_sources rws !! i with Some source => apply db config s ctx t rws source | None => SKIP_SOURCE end.
Definition kept (s : Strategy) (ctx : RankingContext) (i : nat) : bool := match verdict s ctx i with SKIP_SOURCE => false | Cost _ => true end.
Definition more_costs (s : Strategy) (ctx : RankingContext) (f : nat -> list Z) (i : nat) : list Z :=
  if filter_only s then f i else match verdict s ctx i with SKIP_SOURCE => f i | Cost c => f i ++ [c] end.
Definition tagged (f : nat -> list Z) (l : list nat) : list (nat * list Z) := (fun i => (i, f i)) <$> l.
Definition rejects (s : Strategy) (ctx : RankingContext) (l : list nat) : list Strategy :=
  if forallb (kept s ctx) l then [] else [s].

Lemma apply_topology s ctx t' source : s <> SkipBlocklistedRSEs -> apply db config s ctx t' rws source = apply db config s ctx t rws source.
Proof. by destruct s. Qed.

Lemma judge_all s ctx t' f l : (s = SkipBlocklistedRSEs -> t' = t) ->
  omap (judge db config s ctx t' rws) (tagged f l) = tagged (more_costs s ctx f) (List.filter (kept s ctx) l).
Proof.
  intros Ht. induction l as [|i l IH]; [done|]. change (tagged f (i :: l)) with ((i, f i) :: tagged f l). cbn [omap list_omap List.filter].
  change (list_omap ?g ?x) with (omap g x). rewrite IH. clear IH. unfold judge, kept. simpl.
  assert (forall x, rw_sources rws !! i = Some x -> apply db config s ctx t' rws x = apply db config s ctx t rws x) as Hap.
  { intros x _. destruct (decide (s = SkipBlocklistedRSEs)) as [Hs|Hs]; [by rewrite Ht|by apply apply_topology]. }
  destruct (verdict s ctx i) as [|c] eqn:Hv; unfold verdict in Hv; destruct (rw_sources rws !! i) as [source|] eqn:Hi; simpl; try done.
  - by rewrite Hap, Hv.
  - rewrite Hap, Hv by done. unfold tagged. simpl. do 2 f_equal. unfold more_costs, verdict. by rewrite Hi, Hv.
Qed.
Lemma filter_loses (p : nat -> bool) l : bool_decide (length (List.filter p l) < length l)%nat = negb (forallb p l).
Proof.
  induction l as [|i l IH]; simpl; [done|]. pose proof (List.filter_length_le p l) as Hle. destruct (p i); simpl.
  - rewrite <-IH. apply bool_decide_ext. lia.
  - apply bool_decide_eq_true. lia.
Qed.

(** A strategy is run on sources that are left, with its context known. *)
Lemma run_strategy_run s ctx f l rej b b' : (s = SkipBlocklistedRSEs -> b_topology b' = t) ->
  (l <> [] -> for_request (Q := Q) draw db config s rws l b = (Ok ctx, b')) -> (l = [] -> b' = b) ->
  run_strategy (Q := Q) draw db config rws (MkRanked (tagged f l) rej) s b
  = (Ok (MkRanked (tagged (more_costs s ctx f) (List.filter (kept s ctx) l)) (rej ++ rejects s ctx l)), b').
Proof.
  intros Ht Hctx Hnil. unfold run_strategy. cbn [cost_vectors rejected_sources]. destruct l as [|i l].
  - rewrite (Hnil eq_refl). cbn. by rewrite app_nil_r.
  - rewrite bool_decide_false by done. unfold bindS.
    assert (fst <$> tagged f (i :: l) = i :: l) as -> by (unfold tagged; rewrite <-list_fmap_compose; apply list_fmap_id).
    rewrite Hctx by done. unfold getsS, retS. rewrite judge_all by done. unfold tagged. rewrite !length_fmap, filter_loses.
    unfold rejects. by destruct (forallb (kept s ctx) (i :: l)).
Qed.
Lemma elem_of_rejects s ctx l s' : s' ∈ rejects s ctx l <-> s' = s /\ exists i, i ∈ l /\ kept s ctx i = false.
Proof.
  unfold rejects. destruct (forallb (kept s ctx) l) eqn:Hall.
  - rewrite elem_of_nil. split; [done|]. intros (_ & i & Hi & Hk). rewrite forallb_forall in Hall. apply list_elem_of_In in Hi. by rewrite Hall in Hk.
  - rewrite list_elem_of_singleton. split; [|by intros []]. intros ->. split; [done|].
    destruct (decide (Exists (fun i => kept s ctx i = false) l)) as [He|He].
    + apply Exists_exists in He as (i & Hi & Hk). by exists i.
    + exfalso. apply (not_true_iff_false (forallb (kept s ctx) l)); [done|]. apply forallb_forall. intros i Hi%list_elem_of_In.
      destruct (kept s ctx i) eqn:Hk; [done|]. exfalso. apply He, Exists_exists. by exists i.
Qed.
End request.

(** ** The paths of a request *)

Section builds.
Variables (rws : RequestWithSources) (t t' : Topology).
Hypothesis loaded : ensure_edges_loaded tdb t = Ok t'.
Hypothesis wf : topo_wf t.
Hypothesis dest_known : known t (rw_dest rws).
Hypothesis penalties : penalties_ok tdb.
Hypothesis penalty : (0 <= hop_penalty t)%Z.
Hypothesis rses_there : forall n, n ∈ (rs_rse <$> rw_sources rws) ++ [rw_dest rws] ++ elements (multihop_nodes t) -> is_Some (pd_rses db !! n).
Hypothesis transfer : t_request_type (rw_transfer rws) <> STAGEIN.

Definition limit : list string :=
  if bool_decide (is_Some (rw_previous_attempt_id rws)) && negb (bool_decide (failover_schemes config = [])) then failover_schemes config else schemes config.
Definition asked (l : list nat) : list nat :=
  match rw_requested_source rws with
  | Some i => if requested_source_only config then (if bool_decide (i ∈ l) then [i] else []) else l
  | None => l
  end.
Definition asked_rses (l : list nat) : list string := rs_rse <$> at_positions rws (asked l).
Definition results (l : list nat) : gmap string (list HopDict) :=
  match search t' (asked_rses l) (rw_dest rws) limit with Ok (r, _) => r | Err _ => ∅ end.
Definition defined (l : list nat) : gmap string (list PathHop) :=
  add_sources draw db config t' (if preparer_mode config then [] else at_positions rws l)
    <$> map_imap (path_from db rws (at_positions rws (asked l))) (results l).

Lemma elem_of_at_positions l s : s ∈ at_positions rws l <-> exists i, i ∈ l /\ rw_sources rws !! i = Some s.
Proof. unfold at_positions. by rewrite list_elem_of_omap. Qed.
Lemma at_positions_sources l s : s ∈ at_positions rws l -> s ∈ rw_sources rws.
Proof. intros (i & _ & Hi)%elem_of_at_positions. by apply list_elem_of_lookup_2 in Hi. Qed.
Lemma asked_searched l : searched t (asked_rses l) (rw_dest rws).
Proof.
  intros n Hn. unfold topology_db. cbn [rse_infos]. rewrite lookup_fmap. apply fmap_is_Some, rses_there. apply elem_of_app in Hn as [Hn|Hn].
  - apply elem_of_app. left. unfold asked_rses in Hn. apply list_elem_of_fmap in Hn as (s & -> & Hs%at_positions_sources). apply list_elem_of_fmap. by exists s.
  - apply elem_of_app. by right.
Qed.
Lemma results_found l :
  (forall t0, t0 = t \/ t0 = t' -> search t0 (asked_rses l) (rw_dest rws) limit = Ok (results l, t')) /\
  (forall u, u ∉ asked_rses l -> results l !! u = None) /\
  forall u, u ∈ asked_rses l -> u <> rw_dest rws -> answer_ok schemes_for tdb t' limit (rw_dest rws) (asked_rses l) u (results l !! u).
Proof.
  pose proof (asked_searched l) as Hs.
  destruct (search_shortest_paths_ok (Q := Q) schemes_for tdb t (asked_rses l) (rw_dest rws) limit) as (r & t1 & Ht1 & Hr & Hout & Hans); [done..|].
  rewrite loaded in Ht1. injection Ht1 as <-. pose proof Hr as Hr'. rewrite (search_loaded t t') in Hr' by done.
  assert (results l = r) as -> by (unfold results; by rewrite Hr'). split_and!; [by intros t0 [->| ->]|done|done].
Qed.

Definition cached (b : Builder) : gmap string (list PathHop) := default ∅ (definition_by_request_id b !! rw_id rws).
Definition at_hand (b : Builder) : Prop := b_topology b = t \/ b_topology b = t'.

Lemma build_first b l : at_hand b -> cached b = ∅ ->
  build_or_return_cached (Q := Q) draw db config rws l b
  = (Ok (defined l), MkBuilder t' (<[rw_id rws := defined l]> (definition_by_request_id b))).
Proof.
  intros Hb Hc. unfold build_or_return_cached, bindS, getsS, id. fold (cached b). rewrite (bool_decide_true (cached b = ∅)) by done.
  cbn [negb]. rewrite bool_decide_false by done. unfold create_transfer_definitions, bindS, getsS, id. fold (asked l). fold (asked_rses l). fold limit.
  by rewrite (proj1 (results_found l) (b_topology b) Hb).
Qed.
Lemma build_cached b l : cached b <> ∅ -> build_or_return_cached (Q := Q) draw db config rws l b = (Ok (cached b), b).
Proof.
  intros Hc. unfold build_or_return_cached, bindS, getsS, id. fold (cached b). by rewrite (bool_decide_false (cached b = ∅)).
Qed.

(** ** The default strategies *)

Lemma foldS_app {S A B} (f : B -> A -> ST S B) x l1 l2 s :
  foldS f x (l1 ++ l2) s = bindS (foldS f x l1) (fun y => foldS f y l2) s.
Proof. revert x s. induction l1 as [|a l1 IH]; intros x s; simpl; [done|]. unfold bindS at 1 2 3. destruct (f x a s) as [[y|e] s']; [|done]. apply IH. Qed.

(** What strategies leave of sources, with the costs and the strategies that reject *)
Fixpoint stages (c : Strategy -> RankingContext) (ss : list Strategy) (f : nat -> list Z) (l : list nat)
    : (nat -> list Z) * list nat * list Strategy :=
  match ss with
  | [] => (f, l, [])
  | s :: ss =>
      let '(f', l', r) := stages c ss (more_costs rws t s (c s) f) (List.filter (kept rws t s (c s)) l) in
      (f', l', rejects rws t s (c s) l ++ r)
  end.
Lemma stages_left c ss f l : (stages c ss f l).1.2 = foldl (fun l s => List.filter (kept rws t s (c s)) l) l ss.
Proof.
  revert f l. induction ss as [|s ss IH]; intros f l; simpl; [done|]. rewrite <-(IH (more_costs rws t s (c s) f)). by destruct (stages _ _ _ _) as [[??]?].
Qed.

Variable allowed : option (gset string).
Hypothesis allowed_found : allowed_sources db rws = Ok allowed.

Definition filters : list Strategy := [EnforceSourceRSEExpression; SkipBlocklistedRSEs; SkipRestrictedRSEs; EnforceStagingBuffer; RestrictTapeSources].
Definition on_paths : list Strategy := [SkipIntermediateTape; HighestAdjustedRankingFirst; PreferDiskOverTape; PathDistance; PreferSingleHop].
Definition filter_context (s : Strategy) : RankingContext := match s with EnforceSourceRSEExpression => Allowed allowed | _ => Plain end.
Definition accepted_positions : list nat := (stages filter_context filters (fun _ => []) (seq 0 (length (rw_sources rws)))).1.2.
Definition D : gmap string (list PathHop) := defined accepted_positions.
Definition path_context (s : Strategy) : RankingContext :=
  match s with HighestAdjustedRankingFirst | PreferDiskOverTape => Plain | _ => PathsFor D end.

Abbreviation run := (run_strategy (Q := Q) draw db config rws).
Lemma filters_run ss f l rej b : b_topology b = t -> (forall s, s ∈ ss -> s ∈ filters) ->
  foldS run (MkRanked (tagged f l) rej) ss b
  = (Ok (MkRanked (tagged (stages filter_context ss f l).1.1 (stages filter_context ss f l).1.2) (rej ++ (stages filter_context ss f l).2)), b).
Proof.
  intros Hb. revert f l rej. induction ss as [|s ss IH]; intros f l rej Hs; simpl; [by rewrite app_nil_r|].
  unfold bindS. rewrite (run_strategy_run rws t s (filter_context s) f l rej b b).
  - rewrite IH by (intros s' Hs'; apply Hs; by right). destruct (stages _ _ _ _) as [[f' l'] r]. simpl. by rewrite app_assoc.
  - done.
  - intros _. assert (s ∈ filters) as Hin by (apply Hs; by left). unfold filters in Hin. rewrite !elem_of_cons, elem_of_nil in Hin.
    destruct Hin as [->|[->|[->|[->|[->|[]]]]]]; [|done..]. cbn [for_request]. by rewrite allowed_found.
  - done.
Qed.

(** While paths are used, they are those found first; when there are none, they are searched again. *)
Definition settled (b : Builder) (l : list nat) : Prop :=
  at_hand b /\ (cached b = D /\ D <> ∅ \/ cached b = ∅ /\ (D = ∅ /\ l = accepted_positions \/ l = [])).

Lemma accepted_valid i : i ∈ accepted_positions -> is_Some (rw_sources rws !! i).
Proof.
  unfold accepted_positions. rewrite stages_left. simpl. intros Hi.
  repeat (apply elem_of_filter_bool in Hi as [Hi _]). apply lookup_lt_is_Some. apply elem_of_seq in Hi. lia.
Qed.
Lemma all_or_none s : D = ∅ -> s ∈ SkipSchemeMissmatch :: on_paths ->
  List.filter (kept rws t s (path_context s)) accepted_positions = accepted_positions \/
  List.filter (kept rws t s (path_context s)) accepted_positions = [].
Proof.
  intros HD Hs. assert (exists v, forall i, i ∈ accepted_positions -> kept rws t s (path_context s) i = v) as [v Hv].
  { unfold kept, verdict. unfold on_paths in Hs. rewrite !elem_of_cons, elem_of_nil in Hs.
    destruct Hs as [->|[->|[->|[->|[->|[->|[]]]]]]]; eexists; intros i [source ->]%accepted_valid; simpl; rewrite ?HD, ?lookup_empty; simpl; done. }
  destruct v; [left|right]; induction accepted_positions as [|i l IH]; try done; simpl; rewrite (Hv i) by (by left).
  - f_equal. apply IH. intros j Hj. apply Hv. by right.
  - apply IH. intros j Hj. apply Hv. by right.
Qed.
Lemma settled_step s b l : settled b l -> s ∈ SkipSchemeMissmatch :: on_paths -> settled b (List.filter (kept rws t s (path_context s)) l).
Proof.
  intros [Hb [Hc|[Hc [[HD ->]| ->]]]] Hs; split; try done; [by left| |by right; split; [|right]].
  right. split; [done|]. destruct (all_or_none s HD Hs) as [-> | ->]; [by left|by right].
Qed.
Lemma build_settled b l : settled b l -> l <> [] ->
  exists b', build_or_return_cached (Q := Q) draw db config rws l b = (Ok D, b') /\ settled b' l.
Proof.
  intros [Hb [[Hc HD]|[Hc [[HD ->]|Hl]]]] Hne; [|destruct (decide (accepted_positions = [])) as [|]; [done|]|done].
  - exists b. split; [|by split; [|left]]. rewrite <-Hc. apply build_cached. by rewrite Hc.
  - rewrite build_first by done. eexists. split; [done|]. split; [by right|]. right. split; [|by left].
    unfold cached. simpl. rewrite lookup_insert_eq. exact HD.
Qed.
Lemma for_request_settled s b l : settled b l -> l <> [] -> s ∈ SkipSchemeMissmatch :: on_paths ->
  exists b', for_request (Q := Q) draw db config s rws l b = (Ok (path_context s), b') /\ settled b' l.
Proof.
  intros Hset Hne Hs. destruct (build_settled b l Hset Hne) as (b' & Hrun & Hset'). unfold on_paths in Hs. rewrite !elem_of_cons, elem_of_nil in Hs.
  destruct Hs as [->|[->|[->|[->|[->|[->|[]]]]]]]; cbn [for_request]; unfold bindS, retS; rewrite ?Hrun; by eexists.
Qed.
Lemma filter_context_run s b b' f l rej : s ∈ SkipSchemeMissmatch :: on_paths ->
  (l <> [] -> for_request (Q := Q) draw db config s rws l b = (Ok (path_context s), b')) -> (l = [] -> b' = b) ->
  run (MkRanked (tagged f l) rej) s b
  = (Ok (MkRanked (tagged (more_costs rws t s (path_context s) f) (List.filter (kept rws t s (path_context s)) l)) (rej ++ rejects rws t s (path_context s) l)), b').
Proof. intros Hs H1 H2. apply run_strategy_run; [|done..]. intros ->. unfold on_paths in Hs. rewrite !elem_of_cons, elem_of_nil in Hs. naive_solver. Qed.
Lemma on_paths_run ss f l rej b : settled b l -> (forall s, s ∈ ss -> s ∈ SkipSchemeMissmatch :: on_paths) ->
  exists b', foldS run (MkRanked (tagged f l) rej) ss b
    = (Ok (MkRanked (tagged (stages path_context ss f l).1.1 (stages path_context ss f l).1.2) (rej ++ (stages path_context ss f l).2)), b') /\
    settled b' (stages path_context ss f l).1.2.
Proof.
  revert f l rej b. induction ss as [|s ss IH]; intros f l rej b Hset Hs; simpl; [exists b; by rewrite app_nil_r|].
  assert (s ∈ SkipSchemeMissmatch :: on_paths) as Hin by (apply Hs; by left).
  assert (exists b1, run (MkRanked (tagged f l) rej) s b = (Ok (MkRanked (tagged (more_costs rws t s (path_context s) f)
            (List.filter (kept rws t s (path_context s)) l)) (rej ++ rejects rws t s (path_context s) l)), b1) /\ settled b1 l) as (b1 & Hrun & Hset1).
  { destruct (decide (l = [])) as [->|Hne].
    - exists b. split; [|done]. by apply filter_context_run.
    - destruct (for_request_settled s b l Hset Hne Hin) as (b1 & Hr & Hset1). exists b1. split; [|done]. by apply filter_context_run. }
  unfold bindS. rewrite Hrun. edestruct IH as (b2 & Hrun2 & Hset2); [eapply settled_step; [exact Hset1|exact Hin]|intros s' Hs'; apply Hs; by right|].
  rewrite Hrun2. exists b2. destruct (stages _ _ _ _) as [[f' l'] r]. simpl in *. by rewrite app_assoc.
Qed.

(** All of them *)
Definition ranked : (nat -> list Z) * list nat * list Strategy := stages path_context (SkipSchemeMissmatch :: on_paths) (fun _ => []) accepted_positions.
Definition rejecting : list Strategy := (stages filter_context filters (fun _ => []) (seq 0 (length (rw_sources rws)))).2 ++ ranked.2.
Lemma no_costs : (stages filter_context filters (fun _ => []) (seq 0 (length (rw_sources rws)))).1.1 = (fun _ => []).
Proof. done. Qed.
Lemma rank_sources_run b : b_topology b = t -> cached b = ∅ ->
  exists b', rank_sources (Q := Q) draw db config default_strategies rws b = (Ok (MkRanked (tagged ranked.1.1 ranked.1.2) rejecting), b') /\
    settled b' ranked.1.2.
Proof.
  intros Hb Hc. unfold rank_sources. change default_strategies with (filters ++ SkipSchemeMissmatch :: on_paths). rewrite foldS_app. unfold bindS at 1.
  change ((fun i => (i, [])) <$> seq 0 (length (rw_sources rws))) with (tagged (fun _ => []) (seq 0 (length (rw_sources rws)))).
  rewrite filters_run by done. rewrite no_costs. fold accepted_positions. cbn [app].
  set (rej := (stages _ _ _ _).2). unfold rejecting, ranked. fold rej.
  assert (exists b1, run (MkRanked (tagged (fun _ => []) accepted_positions) rej) SkipSchemeMissmatch b
      = (Ok (MkRanked (tagged (fun _ => []) (List.filter (kept rws t SkipSchemeMissmatch (path_context SkipSchemeMissmatch)) accepted_positions))
               (rej ++ rejects rws t SkipSchemeMissmatch (path_context SkipSchemeMissmatch) accepted_positions)), b1) /\
      settled b1 (List.filter (kept rws t SkipSchemeMissmatch (path_context SkipSchemeMissmatch)) accepted_positions)) as (b1 & Hrun & Hset).
  { destruct (decide (accepted_positions = [])) as [He|Hne].
    - exists b. split; [apply (filter_context_run SkipSchemeMissmatch b b (fun _ => [])); [by left|done|done]|]. rewrite He. split; [by left|]. right. split; [done|by right].
    - eexists. split.
      + apply (filter_context_run SkipSchemeMissmatch b _ (fun _ => [])); [by left| |intros He; by destruct (Hne He)]. intros _. cbn [for_request]. unfold bindS.
        rewrite build_first by (done || by left). done.
      + apply (settled_step SkipSchemeMissmatch); [|by left]. split; [by right|]. unfold cached. simpl. rewrite lookup_insert_eq. simpl. fold D.
        destruct (decide (D = ∅)) as [HD|HD]; [right; split; [done|by left]|by left]. }
  cbn [foldS stages]. unfold bindS. rewrite Hrun. destruct (on_paths_run on_paths (fun _ => []) _ (rej ++ rejects rws t SkipSchemeMissmatch (path_context SkipSchemeMissmatch) accepted_positions) b1 Hset) as (b2 & Hrun2 & Hset2).
  { intros s Hs. by right. }
  rewrite Hrun2. exists b2. change (more_costs rws t SkipSchemeMissmatch (path_context SkipSchemeMissmatch) (fun _ => [])) with (fun _ : nat => @nil Z).
  destruct (stages path_context on_paths _ _) as [[f' l'] r]. simpl in *. by rewrite app_assoc.
Qed.

(** ** What is left *)

(** The first five strategies *)
Definition accepts (source : RequestSource) : bool :=
  match allowed with Some rses => bool_decide (rs_rse source ∈ rses) | None => true end
  && (of_rse db rd_availability_read (rs_rse source) || ignore_availability t)
  && negb (of_rse db (attribute_true "restricted_read") (rs_rse source) && negb (is_admin config (t_account (rw_transfer rws))))
  && negb (of_rse db is_tape_or_staging_required (rs_rse source) && negb (rw_allow_tape_source rws)).
Definition at_position (p : RequestSource -> bool) (i : nat) : bool := match rw_sources rws !! i with Some s => p s | None => false end.

Lemma filter_twice {A} (p q : A -> bool) l : List.filter p (List.filter q l) = List.filter (fun x => q x && p x) l.
Proof. induction l as [|x l IH]; simpl; [done|]. destruct (q x); simpl; [destruct (p x); by rewrite IH|done]. Qed.
Lemma at_positions_filter (sources : list RequestSource) p :
  omap (fun i => sources !! i) (List.filter (fun i => match sources !! i with Some s => p s | None => false end) (seq 0 (length sources)))
  = List.filter p sources.
Proof.
  induction sources as [|x sources IH] using rev_ind; [done|]. rewrite length_app, seq_app, !List.filter_app, omap_app. f_equal.
  - rewrite <-IH. assert (forall l, (forall i, i ∈ l -> (i < length sources)%nat) ->
      omap (fun i => (sources ++ [x]) !! i) (List.filter (fun i => match (sources ++ [x]) !! i with Some s => p s | None => false end) l)
      = omap (fun i => sources !! i) (List.filter (fun i => match sources !! i with Some s => p s | None => false end) l)) as Hl.
    { induction l as [|i l IHl]; intros Hlt; [done|]. assert (i < length sources)%nat as Hi by (apply Hlt; by left).
      assert (forall j, j ∈ l -> (j < length sources)%nat) as Hlt' by (intros j Hj; apply Hlt; by right). specialize (IHl Hlt').
      cbn [List.filter]. rewrite lookup_app_l by done. destruct (sources !! i) as [s|] eqn:Hs; [destruct (p s)|]; try exact IHl.
      cbn [omap list_omap]. rewrite lookup_app_l, Hs by done. f_equal. exact IHl. }
    apply Hl. intros i Hi%elem_of_seq. lia.
  - simpl. rewrite lookup_app_r, Nat.sub_diag by lia. simpl. destruct (p x); simpl; [|done]. by rewrite lookup_app_r, Nat.sub_diag by lia.
Qed.

Lemma accepted_filter : accepted_positions = List.filter (at_position accepts) (seq 0 (length (rw_sources rws))).
Proof.
  unfold accepted_positions. rewrite stages_left. simpl. rewrite !filter_twice. apply List.filter_ext. intros i. unfold kept, verdict, at_position, accepts.
  destruct (rw_sources rws !! i) as [s|]; [|done]. simpl. rewrite (bool_decide_false (_ = STAGEIN)) by done. unfold skip_if. simpl.
  destruct allowed as [rses|]; [destruct (bool_decide _)|]; destruct (of_rse db rd_availability_read _), (ignore_availability t), (of_rse db (attribute_true _) _),
    (is_admin config _), (of_rse db is_tape_or_staging_required _), (rw_allow_tape_source rws); done.
Qed.
Lemma elem_of_accepted i : i ∈ accepted_positions <-> exists s, rw_sources rws !! i = Some s /\ accepts s = true.
Proof.
  rewrite accepted_filter, elem_of_filter_bool, elem_of_seq. unfold at_position. destruct (rw_sources rws !! i) as [s|] eqn:Hs.
  - apply lookup_lt_Some in Hs. split; [intros [_ Ha]; by exists s|]. intros (s' & [= <-] & Ha). split; [lia|done].
  - split; [by intros []|by intros (s & ? & _)].
Qed.
Lemma accepted_sources : at_positions rws accepted_positions = List.filter accepts (rw_sources rws).
Proof. rewrite accepted_filter. apply at_positions_filter. Qed.

Definition intermediate_tape (path : list PathHop) : bool := existsb (fun hop => of_rse db is_tape_or_staging_required (ph_src hop)) (drop 1 path).
Definition usable (source : RequestSource) : bool :=
  match D !! rs_rse source with Some ((_ :: _) as path) => negb (intermediate_tape path) | _ => false end.
Definition price (source : RequestSource) : list Z :=
  let tape := of_rse db is_tape_or_staging_required (rs_rse source) in
  [- rs_ranking source + (if tape then 1 else 0); if tape then 1 else 0;
   match D !! rs_rse source with Some (hop :: _) => default 0 (rs_distance <$> head (ph_sources hop)) | _ => 0 end;
   match D !! rs_rse source with Some (_ :: _ :: _) => 1 | _ => 0 end]%Z.
Lemma ranked_left : ranked.1.2 = List.filter (at_position (fun s => accepts s && usable s)) (seq 0 (length (rw_sources rws))).
Proof.
  unfold ranked. rewrite stages_left. simpl. rewrite accepted_filter, !filter_twice. apply List.filter_ext. intros i. unfold kept, verdict, at_position.
  destruct (rw_sources rws !! i) as [s|]; [|done]. simpl. unfold usable, intermediate_tape, skip_if.
  destruct (accepts s); [|done]. destruct (D !! rs_rse s) as [[|hop path]|]; simpl; try done.
  unfold drop. by match goal with |- context [existsb ?f ?l] => destruct (existsb f l) end.
Qed.
Lemma ranked_costs i s : rw_sources rws !! i = Some s -> usable s = true -> ranked.1.1 i = price s.
Proof.
  intros Hs Hu. unfold ranked. simpl. unfold more_costs, verdict. simpl. rewrite Hs. simpl. unfold usable in Hu. unfold price.
  destruct (D !! rs_rse s) as [[|hop path]|]; [done| |done]. simpl. by destruct path.
Qed.
Lemma rejecting_tapes : RestrictTapeSources ∈ rejecting ->
  exists s, s ∈ rw_sources rws /\ of_rse db is_tape_or_staging_required (rs_rse s) = true /\ rw_allow_tape_source rws = false.
Proof.
  unfold rejecting, ranked. simpl. rewrite !elem_of_app, !elem_of_rejects, !elem_of_nil.
  intros Hr. assert (exists i, at_position (fun _ => true) i = true /\ kept rws t RestrictTapeSources Plain i = false) as (i & Hi & Hk).
  { destruct Hr as [Hr|Hr]; repeat destruct Hr as [Hr|Hr]; try done; try (by destruct Hr as [? _]).
    destruct Hr as (_ & i & Hi & Hk). exists i. split; [|done]. repeat (apply elem_of_filter_bool in Hi as [Hi _]). apply elem_of_seq in Hi.
    unfold at_position. destruct (rw_sources rws !! i) eqn:Hn; [done|]. apply lookup_ge_None in Hn. lia. }
  unfold at_position in Hi. unfold kept, verdict in Hk. destruct (rw_sources rws !! i) as [s|] eqn:Hs; [|done]. exists s.
  split; [by eapply list_elem_of_lookup_2|]. simpl in Hk. unfold skip_if in Hk. by destruct (of_rse _ _ _), (rw_allow_tape_source rws).
Qed.
Lemma rejecting_mismatch : SkipSchemeMissmatch ∈ rejecting -> exists s, s ∈ rw_sources rws /\ accepts s = true /\ D !! rs_rse s = Some [].
Proof.
  unfold rejecting, ranked. simpl. rewrite !elem_of_app, !elem_of_rejects, !elem_of_nil.
  intros Hr. assert (exists i, i ∈ accepted_positions /\ kept rws t SkipSchemeMissmatch (PathsFor D) i = false) as (i & Hi & Hk).
  { destruct Hr as [Hr|Hr]; repeat destruct Hr as [Hr|Hr]; try done; try (by destruct Hr as [? _]). by destruct Hr as [_ Hr]. }
  apply elem_of_accepted in Hi as (s & Hs & Ha). exists s. split; [by eapply list_elem_of_lookup_2|]. split; [done|].
  unfold kept, verdict in Hk. rewrite Hs in Hk. simpl in Hk. unfold skip_if in Hk. by destruct (D !! rs_rse s) as [[|??]|].
Qed.

(** ** Paths *)

Hypothesis all_requested : requested_source_only config = false.
Hypothesis distinct : NoDup (rs_rse <$> rw_sources rws).
Hypothesis elsewhere : rw_dest rws ∉ rs_rse <$> rw_sources rws.

(** Where a hop starts and ends, with the protocols there *)
Definition step : Type := string * string * list string * list string.
Definition step_of (h : PathHop) : step := (ph_src h, ph_dest h, default [] (rs_schemes <$> head (ph_sources h)), ph_dest_schemes h).
Definition hop_step (h : HopDict) : step :=
  (source_rse h, dest_rse h, option_list (source_scheme <$> chosen_scheme h), option_list (dest_scheme <$> chosen_scheme h)).
Fixpoint leads (from : string) (l : list step) (dst : string) : Prop :=
  match l with [] => from = dst | s :: l => s.1.1.1 = from /\ leads s.1.1.2 l dst end.
(** Both ends support the protocols, which are compatible. *)
Definition speaks (s : step) : Prop :=
  exists lim m, schemes_for s.1.1.1 s.1.1.2 lim = Some m /\ s.1.2 = [source_scheme m] /\ s.2 = [dest_scheme m].

Lemma itinerary_steps u hops d : itinerary schemes_for tdb t' limit (rw_dest rws) u hops d ->
  leads u (hop_step <$> hops) (rw_dest rws) /\ Forall speaks (hop_step <$> hops) /\
  forall hop rest, hops = hop :: rest -> cumulated_distance hop = d /\ source_rse hop = u.
Proof.
  induction 1 as [|u v p d Hit (IH1 & IH2 & _) Hin Hen]; [split_and!; [done|constructor|done]|]. split_and!.
  - by split.
  - constructor; [|done]. unfold edge_state_enabled in Hen. unfold speaks. simpl.
    destruct (edge_scheme _ _ _ u v) as [m|] eqn:Hm; [|done]. unfold edge_scheme in Hm. eexists _, m. by split_and!; [exact Hm|..].
  - by intros hop rest [= <- <-].
Qed.
Lemma add_sources_steps t0 sources path : Forall (fun h => ph_sources h <> []) path -> step_of <$> add_sources draw db config t0 sources path = step_of <$> path.
Proof.
  intros Hp. destruct path as [|h [|h2 path]]; [done| |done]. simpl. destruct (of_rse db is_tape (ph_src h)); [done|]. simpl. f_equal.
  unfold step_of, ph_src. simpl. apply Forall_inv in Hp. by destruct (ph_sources h).
Qed.
Lemma add_sources_heads t0 sources path : Forall (fun h => ph_sources h <> []) path ->
  (fun h => head (ph_sources h)) <$> add_sources draw db config t0 sources path = (fun h => head (ph_sources h)) <$> path.
Proof.
  intros Hp. destruct path as [|h [|h2 path]]; [done| |done]. simpl. destruct (of_rse db is_tape (ph_src h)); [done|]. simpl. f_equal.
  apply Forall_inv in Hp. by destruct (ph_sources h).
Qed.
Lemma hop_of_steps source (hops : list HopDict) : step_of <$> (hop_of db rws source <$> hops) = hop_step <$> hops.
Proof. rewrite <-list_fmap_compose. apply list_fmap_ext. intros _ h _. reflexivity. Qed.

Lemma sources_by_rse_lookup sources rse s : NoDup (rs_rse <$> sources) -> sources_by_rse sources !! rse = Some s <-> s ∈ sources /\ rs_rse s = rse.
Proof.
  unfold sources_by_rse. induction sources as [|x sources IH] using rev_ind; simpl.
  - intros _. rewrite lookup_empty. split; [done|]. by intros [?%elem_of_nil _].
  - rewrite fmap_app, foldl_app. intros Hnd. apply NoDup_app in Hnd as (Hnd & Hx & _). simpl.
    rewrite elem_of_app, list_elem_of_singleton. destruct (decide (rs_rse x = rse)) as [<-|Hne].
    + rewrite lookup_insert_eq. split; [intros [= <-]; split; [by right|done]|]. intros [[Hin| ->] He]; [|done]. exfalso.
      apply (Hx (rs_rse x)); [rewrite <-He; apply list_elem_of_fmap; by exists s|by left].
    + rewrite lookup_insert_ne by done. rewrite IH by done. naive_solver.
Qed.

Abbreviation accepted := (List.filter accepts (rw_sources rws)).
Abbreviation found := (results accepted_positions).
Lemma asked_all l : asked l = l.
Proof. unfold asked. rewrite all_requested. by destruct (rw_requested_source rws). Qed.
Lemma filter_sublist {A} (p : A -> bool) l : sublist (List.filter p l) l.
Proof. induction l as [|x l IH]; simpl; [constructor|]. by destruct (p x); constructor. Qed.
Lemma accepted_distinct : NoDup (rs_rse <$> accepted).
Proof. eapply sublist_NoDup; [exact distinct|]. apply fmap_sublist, filter_sublist. Qed.
Lemma asked_accepted : asked_rses accepted_positions = rs_rse <$> accepted.
Proof. unfold asked_rses. by rewrite asked_all, accepted_sources. Qed.
Lemma D_lookup s path : s ∈ accepted -> D !! rs_rse s = Some path <->
  exists hops, found !! rs_rse s = Some hops /\
    path = add_sources draw db config t' (if preparer_mode config then [] else accepted) (hop_of db rws s <$> hops).
Proof.
  intros Hs. unfold D, defined. rewrite asked_all, accepted_sources, lookup_fmap, map_lookup_imap. unfold path_from.
  rewrite (proj2 (sources_by_rse_lookup accepted (rs_rse s) s accepted_distinct)) by done.
  destruct (found !! rs_rse s) as [hops|]; simpl; [|split; [done|by intros (? & ? & _)]]. split; [intros [= <-]; by exists hops|]. by intros (? & [= <-] & ->).
Qed.
Lemma found_answers s : s ∈ accepted -> answer_ok schemes_for tdb t' limit (rw_dest rws) (rs_rse <$> accepted) (rs_rse s) (found !! rs_rse s).
Proof.
  intros Hs. destruct (results_found accepted_positions) as (_ & _ & Hans). rewrite asked_accepted in Hans. apply Hans; [apply list_elem_of_fmap; by exists s|].
  intros He. apply elsewhere. rewrite <-He. apply list_elem_of_fmap. exists s. split; [done|]. by apply elem_of_filter_bool in Hs as [Hs _].
Qed.
(** A path that is found *)
Lemma D_path s path hop rest : s ∈ accepted -> D !! rs_rse s = Some path -> path = hop :: rest ->
  ph_src hop = rs_rse s /\ leads (rs_rse s) (step_of <$> path) (rw_dest rws) /\ Forall speaks (step_of <$> path) /\
  exists hops d, found !! rs_rse s = Some hops /\ itinerary schemes_for tdb t' limit (rw_dest rws) (rs_rse s) hops d /\
    step_of <$> path = hop_step <$> hops /\ rs_distance <$> head (ph_sources hop) = Some d.
Proof.
  intros Hs (hops & Hf & Hpath)%(D_lookup s path Hs) Hcons. pose proof (found_answers s Hs) as Hans. rewrite Hf in Hans.
  assert (Forall (fun h => ph_sources h <> []) (hop_of db rws s <$> hops)) as Hne by (apply Forall_fmap, Forall_true; done).
  assert (step_of <$> path = hop_step <$> hops) as Hsteps by (by rewrite Hpath, add_sources_steps, hop_of_steps).
  destruct hops as [|h hops]; [by rewrite Hcons in Hsteps|]. destruct Hans as (d & Hit & _).
  destruct (itinerary_steps _ _ _ Hit) as (Hl & Hsp & Hd). destruct (Hd h hops eq_refl) as [Hcd Hsrc]. split_and!.
  - rewrite Hcons in Hsteps. injection Hsteps as Hsrc' _. by rewrite Hsrc', <-Hsrc.
  - by rewrite Hsteps.
  - by rewrite Hsteps.
  - exists (h :: hops), d. split_and!; [done..|]. pose proof (add_sources_heads t' (if preparer_mode config then [] else accepted) _ Hne) as Hh.
    rewrite <-Hpath, Hcons in Hh. injection Hh as Hh _. rewrite Hh. simpl. by rewrite bool_decide_true, Hcd.
Qed.

(** ** Candidates *)

Hypothesis submitting : preparer_mode config = false.
Abbreviation source_rses := (list_to_set (rs_rse <$> rw_sources rws) : gset string).

Lemma from_last_source_ok (srcs : gset string) path :
  match from_last_source srcs path with
  | Some p => exists pre hop rest, path = pre ++ p /\ p = hop :: rest /\ ph_src hop ∈ srcs /\ Forall (fun h => ph_src h ∉ srcs) rest
  | None => Forall (fun h => ph_src h ∉ srcs) path
  end.
Proof.
  induction path as [|h path IH]; simpl; [constructor|]. destruct (from_last_source srcs path) as [p|].
  - destruct IH as (pre & hop & rest & -> & Hp & Hh & Hr). by exists (h :: pre), hop, rest.
  - case_bool_decide; [by exists [], h, path|by constructor].
Qed.
Lemma compress_ok (srcs : gset string) hop rest : ph_src hop ∈ srcs ->
  exists pre hop' rest', compress srcs (hop :: rest) = Ok (hop' :: rest') /\ hop :: rest = pre ++ hop' :: rest' /\
    ph_src hop' ∈ srcs /\ Forall (fun h => ph_src h ∉ srcs) rest'.
Proof.
  intros Hh. unfold compress. case_bool_decide as Hl.
  - pose proof (from_last_source_ok srcs (hop :: rest)) as Hf. destruct (from_last_source srcs (hop :: rest)) as [p|].
    + destruct Hf as (pre & hop' & rest' & Hp & -> & H1 & H2). by exists pre, hop', rest'.
    + by apply Forall_inv in Hf.
  - exists [], hop, rest. destruct rest; [by repeat constructor|simpl in Hl; lia].
Qed.

(** The paths listed: compressed, from different RSEs, the first source's first *)
Definition compressed (s : RequestSource) (path : list PathHop) : Prop :=
  exists p, D !! rs_rse s = Some p /\ compress source_rses p = Ok path /\ path <> [].
Definition starts (paths : list (list PathHop)) : list (option string) := (fun p => ph_src <$> head p) <$> paths.
Lemma candidates_listed order acc :
  (forall s, s ∈ order -> exists path, compressed s path) ->
  (forall h, h ∈ acc.1 <-> Some h ∈ starts acc.2) -> [] ∉ acc.2 -> NoDup (starts acc.2) ->
  exists acc', foldM (next_candidate config source_rses D) acc (rs_rse <$> order) = Ok acc' /\
    NoDup (starts acc'.2) /\ [] ∉ acc'.2 /\ (forall path, path ∈ acc'.2 -> path ∈ acc.2 \/ exists s, s ∈ order /\ compressed s path) /\
    (exists more, acc'.2 = acc.2 ++ more) /\
    (forall s, head order = Some s -> acc.2 = [] -> exists path, compressed s path /\ head acc'.2 = Some path).
Proof.
  revert acc. induction order as [|s order IH]; intros acc Hord Hseen Hne Hnd.
  - exists acc. split_and!; [done..|by left|by exists []; rewrite app_nil_r|done].
  - destruct (Hord s) as (path & p & HD & Hc & Hp); [by left|]. destruct path as [|hop rest]; [done|]. cbn [fmap list_fmap foldM].
    unfold next_candidate at 1. rewrite HD. cbn [or_raise bindR]. rewrite submitting, Hc. cbn [bindR head or_raise].
    assert (compressed s (hop :: rest)) as Hcs by (by exists p).
    destruct (bool_decide (ph_src hop ∈ acc.1)) eqn:Hin; [apply bool_decide_eq_true in Hin|apply bool_decide_eq_false in Hin]; cbn [bindR].
    + destruct (IH acc) as (acc' & Hrun & H1 & H2 & H3 & H4 & _); [intros s' Hs'; apply Hord; by right|done..|].
      exists acc'. split_and!; [done..| |done|].
      * intros q Hq. destruct (H3 q Hq) as [|(s' & Hs' & Hcq)]; [by left|right]. exists s'. split; [by right|done].
      * intros s' _ Hnil. apply Hseen in Hin. rewrite Hnil in Hin. by apply elem_of_nil in Hin.
    + set (acc1 := ({[ph_src hop]} ∪ acc.1, acc.2 ++ [hop :: rest])).
      assert (starts acc1.2 = starts acc.2 ++ [Some (ph_src hop)]) as Hst by (unfold starts; simpl; by rewrite fmap_app).
      destruct (IH acc1) as (acc' & Hrun & H1 & H2 & H3 & (more & Hmore) & _).
      * intros s' Hs'. apply Hord. by right.
      * intros h. rewrite Hst, elem_of_app, list_elem_of_singleton. simpl. rewrite elem_of_union, elem_of_singleton, Hseen. naive_solver.
      * simpl. rewrite elem_of_app, list_elem_of_singleton. by intros [?|?].
      * rewrite Hst. apply NoDup_app. split_and!; [done| |apply NoDup_singleton]. intros x Hx ->%list_elem_of_singleton. by apply Hin, Hseen.
      * exists acc'. split_and!; [done..| | |].
        -- intros q Hq. destruct (H3 q Hq) as [Hq'|(s' & Hs' & Hcq)]; [|right; exists s'; split; [by right|done]]. simpl in Hq'.
           apply elem_of_app in Hq' as [Hq'| ->%list_elem_of_singleton]; [by left|right]. exists s. split; [by left|done].
        -- exists ((hop :: rest) :: more). rewrite Hmore. simpl. by rewrite <-app_assoc.
        -- intros s' [= <-] Hnil. exists (hop :: rest). split; [done|]. rewrite Hmore. simpl. by rewrite Hnil.
Qed.

(** ** What a request gets *)

(** A source that can be used: its shortest path passes through no tape. *)
Definition serves (paths : gmap string (list HopDict)) (s : RequestSource) (hops : list HopDict) : Prop :=
  s ∈ accepted /\ paths !! rs_rse s = Some hops /\ hops <> [] /\
  Forall (fun h => of_rse db is_tape_or_staging_required (source_rse h) = false) (drop 1 hops).
(** Ranking, tapes last, then distance, then direct transfers first *)
Definition hop_price (s : RequestSource) (hops : list HopDict) : list Z :=
  let tape := of_rse db is_tape_or_staging_required (rs_rse s) in
  [- rs_ranking s + (if tape then 1 else 0); if tape then 1 else 0; default 0 (cumulated_distance <$> head hops);
   if bool_decide (1 < length hops)%nat then 1 else 0]%Z.
(** From a source to the destination, through no tape and no other source *)
Definition good_path (path : list PathHop) : Prop :=
  path <> [] /\ Forall speaks (step_of <$> path) /\ (exists s, s ∈ rw_sources rws /\ leads (rs_rse s) (step_of <$> path) (rw_dest rws)) /\
  Forall (fun h => ph_src h ∉ rs_rse <$> rw_sources rws /\ of_rse db is_tape_or_staging_required (ph_src h) = false) (drop 1 path).

Lemma leads_app from pre s l dst : leads from (pre ++ s :: l) dst -> leads s.1.1.1 (s :: l) dst.
Proof. revert from. induction pre as [|s' pre IH]; intros from; simpl; [by intros [_ Hl]|]. intros [_ Hl]. by eapply IH. Qed.
Lemma tapes_steps path hops : step_of <$> path = hop_step <$> hops ->
  intermediate_tape path = existsb (fun h => of_rse db is_tape_or_staging_required (source_rse h)) (drop 1 hops).
Proof.
  intros Hs. unfold intermediate_tape. apply (f_equal (fmap (fun s : step => s.1.1.1))) in Hs. rewrite <-!list_fmap_compose in Hs.
  apply (f_equal (drop 1)) in Hs. rewrite <-!fmap_drop in Hs. revert Hs. generalize (drop 1 path) (drop 1 hops). clear.
  induction l as [|h l IH]; intros [|h' l']; simpl; try done. intros [= Hh Hl]. by rewrite Hh, (IH l').
Qed.
Lemma not_existsb {A} (p : A -> bool) l : existsb p l = false <-> Forall (fun x => p x = false) l.
Proof. induction l as [|x l IH]; simpl; [by split|]. rewrite orb_false_iff, IH, Forall_cons. done. Qed.

Lemma usable_serves s : s ∈ accepted -> usable s = true <-> exists hops, serves found s hops.
Proof.
  intros Hs. unfold usable. split.
  - destruct (D !! rs_rse s) as [[|hop rest]|] eqn:HD; [done| |done]. intros Ht%negb_true_iff.
    destruct (D_path s _ hop rest Hs HD eq_refl) as (_ & _ & _ & hops & d & Hf & _ & Hst & _). exists hops. split_and!; [done|done|by intros ->|].
    apply not_existsb. by rewrite <-(tapes_steps _ _ Hst).
  - intros (hops & _ & Hf & Hne & Ht). destruct (D !! rs_rse s) as [path|] eqn:HD.
    2: { apply eq_None_not_Some in HD. destruct HD. eexists. apply D_lookup; [done|]. by exists hops. }
    destruct path as [|hop rest].
    { apply (D_lookup s _ Hs) in HD as (hops' & Hf' & Hp). rewrite Hf in Hf'. injection Hf' as <-. apply (f_equal (fmap step_of)) in Hp.
      rewrite add_sources_steps, hop_of_steps in Hp by (apply Forall_fmap, Forall_true; done). by destruct hops. }
    destruct (D_path s _ hop rest Hs HD eq_refl) as (_ & _ & _ & hops' & d & Hf' & _ & Hst & _). rewrite Hf in Hf'. injection Hf' as <-.
    rewrite (tapes_steps _ _ Hst). apply negb_true_iff, not_existsb. exact Ht.
Qed.
Lemma price_hops s hops : serves found s hops -> price s = hop_price s hops.
Proof.
  intros (Hs & Hf & Hne & _). unfold price, hop_price. destruct (D !! rs_rse s) as [path|] eqn:HD.
  2: { apply eq_None_not_Some in HD. destruct HD. eexists. apply D_lookup; [done|]. by exists hops. }
  destruct path as [|hop rest].
  { apply (D_lookup s _ Hs) in HD as (hops' & Hf' & Hp). rewrite Hf in Hf'. injection Hf' as <-. apply (f_equal (fmap step_of)) in Hp.
    rewrite add_sources_steps, hop_of_steps in Hp by (apply Forall_fmap, Forall_true; done). by destruct hops. }
  destruct (D_path s _ hop rest Hs HD eq_refl) as (_ & _ & _ & hops' & d & Hf' & Hit & Hst & Hd). rewrite Hf in Hf'. injection Hf' as <-.
  rewrite Hd. destruct hops as [|h hops]; [done|]. destruct (itinerary_steps _ _ _ Hit) as (_ & _ & Hcd). destruct (Hcd h hops eq_refl) as [Hcd' _].
  simpl. rewrite Hcd'. do 4 f_equal. apply (f_equal length) in Hst. rewrite !length_fmap in Hst. simpl in Hst. destruct rest, hops; simpl in *; try done; try lia.
Qed.
Lemma compressed_good s : s ∈ accepted -> usable s = true ->
  (exists path, compressed s path) /\ forall path, compressed s path -> good_path path /\ forall hops, serves found s hops -> (step_of <$> path) `suffix_of` (hop_step <$> hops).
Proof.
  intros Hs Hu. unfold usable in Hu. destruct (D !! rs_rse s) as [[|hop rest]|] eqn:HD; [done| |done]. apply negb_true_iff in Hu.
  destruct (D_path s _ hop rest Hs HD eq_refl) as (Hsrc & Hl & Hsp & hops & d & Hf & _ & Hst & _).
  assert (ph_src hop ∈ source_rses) as Hin.
  { apply elem_of_list_to_set, list_elem_of_fmap. exists s. split; [done|]. by apply elem_of_filter_bool in Hs as [Hs _]. }
  destruct (compress_ok source_rses hop rest Hin) as (pre & hop' & rest' & Hc & Hpre & Hin' & Hno).
  split; [exists (hop' :: rest'); by exists (hop :: rest)|]. intros path (p & HD' & Hc' & Hne). rewrite HD in HD'. injection HD' as <-.
  rewrite Hc in Hc'. injection Hc' as <-. split.
  - split_and!; [done| | |].
    + rewrite Hpre, fmap_app in Hsp. by apply Forall_app in Hsp as [_ Hsp].
    + apply elem_of_list_to_set, list_elem_of_fmap in Hin' as (s' & He & Hs'). exists s'. split; [done|]. rewrite Hpre, fmap_app in Hl. simpl in Hl.
      apply leads_app in Hl. simpl in *. split; [done|]. by destruct Hl as [_ Hl].
    + cbn [drop]. apply not_existsb in Hu. assert (rest' `sublist_of` drop 1 (hop :: rest)) as Hsub.
      { rewrite Hpre. destruct pre as [|x pre]; simpl; [done|]. apply sublist_inserts_l. by constructor. }
      apply Forall_forall. intros h Hh. split.
      * eapply Forall_forall in Hno; [|exact Hh]. intros Hx. apply Hno. by apply elem_of_list_to_set.
      * eapply Forall_forall in Hu; [exact Hu|]. by eapply sublist_subseteq.
  - intros hops' (_ & Hf' & _). rewrite Hf in Hf'. injection Hf' as <-. rewrite <-Hst, Hpre, fmap_app. by eexists.
Qed.

(** Nothing may be written to the destination. *)
Definition destination_closed : bool :=
  negb (ignore_availability t || of_rse db rd_availability_write (rw_dest rws))
  || negb (is_admin config (t_account (rw_transfer rws))) && of_rse db (attribute_true "restricted_write") (rw_dest rws).
(** The request asks for a tool that the submitter does not have. *)
Definition tool_unsupported : bool :=
  match rw_transfertool rws ≫= or_none with
  | Some tool => negb (bool_decide (transfertools config = [])) && negb (bool_decide (tool ∈ transfertools config))
  | None => false
  end.

Definition served_open (paths_found : gmap string (list HopDict)) (o : Outcome) : Prop :=
  match o with
  | Candidate paths =>
      NoDup (starts paths) /\ (forall path, path ∈ paths -> good_path path) /\
      exists best hops path, serves paths_found best hops /\ (forall s' hops', serves paths_found s' hops' -> list_le (hop_price best hops) (hop_price s' hops') = true) /\
        head paths = Some path /\ (step_of <$> path) `suffix_of` (hop_step <$> hops)
  | UnsupportedTransfertool => False
  | _ => (forall s hops, ~ serves paths_found s hops) /\
      match o with
      | OnlyTapeSource => exists s, s ∈ rw_sources rws /\ of_rse db is_tape_or_staging_required (rs_rse s) = true /\ rw_allow_tape_source rws = false
      | SchemeMismatch => exists s, s ∈ accepted /\ paths_found !! rs_rse s = Some []
      | _ => True
      end
  end.
Definition served (paths_found : gmap string (list HopDict)) (o : Outcome) : Prop :=
  if destination_closed || bool_decide (rw_sources rws = []) then o = NoSource
  else if tool_unsupported then o = UnsupportedTransfertool
  else served_open paths_found o.

Lemma ranked_sources x : x ∈ tagged ranked.1.1 ranked.1.2 ->
  exists s, rw_sources rws !! x.1 = Some s /\ s ∈ accepted /\ usable s = true /\ x.2 = price s.
Proof.
  unfold tagged. rewrite ranked_left. intros (i & -> & Hi)%list_elem_of_fmap. apply elem_of_filter_bool in Hi as [_ Hi]. unfold at_position in Hi. simpl.
  destruct (rw_sources rws !! i) as [s|] eqn:Hs; [|done]. apply andb_true_iff in Hi as [Ha Hu]. exists s. split_and!; [done| |done|by apply ranked_costs].
  apply elem_of_filter_bool. split; [by eapply list_elem_of_lookup_2|done].
Qed.
Lemma sources_ranked s : s ∈ accepted -> usable s = true -> exists i, (i, price s) ∈ tagged ranked.1.1 ranked.1.2.
Proof.
  intros [Hs Ha]%elem_of_filter_bool Hu. apply list_elem_of_lookup in Hs as [i Hi]. exists i. apply list_elem_of_fmap. exists i.
  split; [by rewrite (ranked_costs i s)|]. rewrite ranked_left. apply elem_of_filter_bool. split.
  - apply lookup_lt_Some in Hi. apply elem_of_seq. lia.
  - unfold at_position. by rewrite Hi, Ha, Hu.
Qed.
Lemma nothing_serves : ranked.1.2 = [] -> forall s hops, ~ serves found s hops.
Proof.
  intros Hnil s hops Hs. assert (s ∈ accepted) as Ha by apply Hs. destruct (sources_ranked s Ha) as [i Hi]; [apply usable_serves; [done|by exists hops]|].
  rewrite Hnil in Hi. by apply elem_of_nil in Hi.
Qed.

Lemma ensure_sources_loaded b : forS (fun s => ensure_loaded db (rs_rse s)) (rw_sources rws) b = (Ok tt, b).
Proof.
  assert (forall s, s ∈ rw_sources rws -> is_Some (pd_rses db !! rs_rse s)) as Hl.
  { intros s Hs. apply rses_there, elem_of_app. left. apply list_elem_of_fmap. by exists s. }
  revert Hl. generalize (rw_sources rws). clear. intros l Hl. induction l as [|s l IH]; simpl; [done|]. unfold bindS, ensure_loaded. rewrite bool_decide_true by (apply Hl; by left).
  cbn. apply IH. intros s' Hs'. apply Hl. by right.
Qed.
Lemma request_paths_run b : b_topology b = t -> cached b = ∅ ->
  exists o b', request_paths (Q := Q) draw db config default_strategies rws b = (Ok o, b') /\ at_hand b' /\ served found o.
Proof.
  intros Hb Hc. unfold request_paths, bindS, ensure_loaded at 1. rewrite bool_decide_true by (apply rses_there, elem_of_app; right; by left).
  cbn [skipS retS]. unfold skipS, retS at 1. rewrite ensure_sources_loaded. unfold getsS. rewrite Hb.
  unfold served, destination_closed. rewrite (orb_comm _ (bool_decide (rw_sources rws = []))). case_bool_decide as Hsrc; [exists NoSource, b; split; [done|]; split; [by left|done]|].
  destruct (negb (_ || _)); [exists NoSource, b; split; [done|]; split; [by left|done]|].
  destruct (negb (is_admin _ _) && _); [exists NoSource, b; split; [done|]; split; [by left|done]|]. cbn [orb]. fold tool_unsupported.
  destruct tool_unsupported; [exists UnsupportedTransfertool, b; split; [done|]; split; [by left|done]|].
  destruct (rank_sources_run b Hb Hc) as (b1 & -> & Hset). cbn [cost_vectors rejected_sources].
  assert (fst <$> tagged ranked.1.1 ranked.1.2 = ranked.1.2) as -> by (unfold tagged; rewrite <-list_fmap_compose; apply list_fmap_id).
  destruct (decide (ranked.1.2 = [])) as [Hnil|Hne].
  - assert (exists T b2, build_or_return_cached (Q := Q) draw db config rws ranked.1.2 b1 = (Ok T, b2) /\ at_hand b2) as (T & b2 & -> & Hat).
    { destruct (decide (cached b1 = ∅)) as [He|He]; [eexists _, _; split; [apply build_first; [apply Hset|done]|by right]|eexists _, _; split; [by apply build_cached|apply Hset]]. }
    rewrite Hnil. cbn. unfold liftS, retS. cbn. pose proof (nothing_serves Hnil) as Hno. pose proof rejecting_mismatch as Hmis. pose proof rejecting_tapes as Htape.
    case_bool_decide; [|case_bool_decide]; eexists _, b2; (split; [done|]); (split; [done|]); simpl; (split; [done|]); [by apply Htape| |done].
    destruct Hmis as (s & Hs & Ha & HD); [done|]. assert (s ∈ accepted) as Hacc by (by apply elem_of_filter_bool). exists s. split; [done|].
    apply (D_lookup s _ Hacc) in HD as (hops & Hf & Hp). apply (f_equal (fmap step_of)) in Hp.
    rewrite add_sources_steps, hop_of_steps in Hp by (apply Forall_fmap, Forall_true; done). by destruct hops.
  - destruct (build_settled b1 _ Hset Hne) as (b2 & -> & Hset2). unfold liftS, retS.
    set (order := at_positions rws (fst <$> stable_sort cheaper (tagged ranked.1.1 ranked.1.2))).
    assert (forall s, s ∈ order -> s ∈ accepted /\ usable s = true) as Horder.
    { intros s (i & Hi & Hs)%elem_of_at_positions. apply list_elem_of_fmap in Hi as (x & -> & Hx). rewrite stable_sort_Permutation in Hx.
      destruct (ranked_sources x Hx) as (s' & Hs' & Ha & Hu & _). by simplify_eq. }
    destruct (candidates_listed order (∅, [])) as ([seen paths] & Hrun & Hnd & Hno & Hall & _ & Hhead).
    { intros s Hs. destruct (Horder s Hs). by apply compressed_good. }
    { intros h. simpl. by rewrite elem_of_empty, elem_of_nil. }
    { apply not_elem_of_nil. } { constructor. }
    unfold candidate_paths. rewrite Hrun. cbn [bindR snd fst] in *.
    assert (existsb (fun path : list PathHop => bool_decide (path = [])) (take 4 paths) = false) as ->.
    { apply not_existsb, Forall_take, Forall_forall. intros p Hp. apply bool_decide_eq_false. by intros ->. }
    destruct (stable_sort cheaper (tagged ranked.1.1 ranked.1.2)) as [|x xs] eqn:Hsort.
    { pose proof (stable_sort_Permutation cheaper (tagged ranked.1.1 ranked.1.2)) as Hp. rewrite Hsort in Hp.
      symmetry in Hp. apply Permutation_nil_r in Hp. exfalso. apply Hne. by apply fmap_nil_inv in Hp. }
    destruct (head_cheapest (tagged ranked.1.1 ranked.1.2) x) as [Hx Hmin]; [by rewrite Hsort|].
    destruct (ranked_sources x Hx) as (best & Hi & Ha & Hu & Hpr). destruct (proj1 (usable_serves best Ha) Hu) as [hops Hserves].
    destruct (Hhead best) as (path & Hcp & Hpath); [unfold order, at_positions; simpl; by rewrite Hi|done|].
    destruct paths as [|p0 paths]; [done|]. injection Hpath as ->. eexists _, b2. split; [done|]. split; [apply Hset2|]. simpl. split_and!; [done| |].
    + intros p Hp. destruct (Hall p Hp) as [?%elem_of_nil|(s & Hs & Hcs)]; [done|]. destruct (Horder s Hs). by apply (compressed_good s).
    + exists best, hops, path. split_and!; [done| |done|by apply (compressed_good best)].
      intros s' hops' Hs'. assert (s' ∈ accepted) as Ha' by apply Hs'. destruct (sources_ranked s' Ha') as [i' Hi']; [apply usable_serves; [done|by exists hops']|].
      specialize (Hmin _ Hi'). cbn [snd] in Hmin. by rewrite Hpr, (price_hops _ _ Hserves), (price_hops _ _ Hs') in Hmin.
Qed.

End builds.

(** What is asked of a request and its surroundings: it is no STAGEIN one, the submitter builds its paths, its sources are on
    different RSEs that are known, not at the destination, and the topology is well formed. *)
Record servable (rws : RequestWithSources) (t : Topology) (allowed : option (gset string)) : Prop := {
  sv_wf : topo_wf t;
  sv_dest : known t (rw_dest rws);
  sv_penalties : penalties_ok tdb;
  sv_penalty : (0 <= hop_penalty t)%Z;
  sv_rses n : n ∈ (rs_rse <$> rw_sources rws) ++ [rw_dest rws] ++ elements (multihop_nodes t) -> is_Some (pd_rses db !! n);
  sv_transfer : t_request_type (rw_transfer rws) <> STAGEIN;
  sv_allowed : allowed_sources db rws = Ok allowed;
  sv_all : requested_source_only config = false;
  sv_distinct : NoDup (rs_rse <$> rw_sources rws);
  sv_elsewhere : rw_dest rws ∉ rs_rse <$> rw_sources rws;
  sv_submitting : preparer_mode config = false;
}.

(** One request *)
Lemma request_served rws t t' allowed b :
  servable rws t allowed -> ensure_edges_loaded tdb t = Ok t' -> b_topology b = t -> definition_by_request_id b !! rw_id rws = None ->
  exists found, search t (rs_rse <$> List.filter (accepts rws t allowed) (rw_sources rws)) (rw_dest rws) (limit rws) = Ok (found, t') /\
  exists o b', request_paths (Q := Q) draw db config default_strategies rws b = (Ok o, b') /\ at_hand t t' b' /\ served rws t allowed found o.
Proof.
  intros [] Ht Hb Hc. exists (results rws t' (accepted_positions rws t allowed)). split.
  - erewrite <-asked_accepted by done. eapply results_found; try done. by left.
  - eapply request_paths_run; try done. unfold cached. by rewrite Hc.
Qed.

(** Other requests' paths stay. *)
Lemma build_others rws l id x : rw_id rws <> id ->
  preserves (fun b => definition_by_request_id b !! id = x) (build_or_return_cached (Q := Q) draw db config rws l).
Proof.
  intros Hne. unfold build_or_return_cached. apply preserves_bind; [apply preserves_gets|]. intros b. apply preserves_if; [apply preserves_ret|].
  apply preserves_bind.
  - apply preserves_if; [apply preserves_ret|]. unfold create_transfer_definitions. apply preserves_bind; [apply preserves_gets|]. intros b1.
    destruct (search_shortest_paths _ _ _ _ _ _) as [[paths t1]|e]; [|apply preserves_raise].
    apply preserves_bind; [by apply preserves_modify|]. intros _. apply preserves_ret.
  - intros d. apply preserves_bind; [|intros _; apply preserves_ret]. apply preserves_modify. intros b1 <-. simpl. by rewrite lookup_insert_ne.
Qed.
Lemma preserves_fold {A B} (I : Builder -> Prop) (f : B -> A -> ST Builder B) x l : (forall y a, preserves I (f y a)) -> preserves I (foldS f x l).
Proof. intros Hf. revert x. induction l as [|a l IH]; intros x; simpl; [apply preserves_ret|]. apply preserves_bind; [apply Hf|]. intros y. apply IH. Qed.
Lemma request_others strategies rws id x : rw_id rws <> id ->
  preserves (fun b => definition_by_request_id b !! id = x) (request_paths (Q := Q) draw db config strategies rws).
Proof.
  intros Hne. assert (forall n, preserves (fun b => definition_by_request_id b !! id = x) (ensure_loaded db n)) as Hload.
  { intros n. apply preserves_if; [apply preserves_ret|apply preserves_raise]. }
  unfold request_paths. apply preserves_bind; [apply Hload|]. intros _. apply preserves_bind; [apply preserves_for; intros s _; apply Hload|].
  intros _. apply preserves_bind; [apply preserves_gets|]. intros t. do 4 (apply preserves_if; [apply preserves_ret|]).
  apply preserves_bind.
  - apply preserves_fold. intros r s. apply preserves_if; [apply preserves_ret|]. apply preserves_bind.
    + destruct s; cbn [for_request]; try apply preserves_ret; (apply preserves_bind; [first [apply preserves_lift|by apply build_others]|intros ?; apply preserves_ret]).
    + intros ctx. apply preserves_bind; [apply preserves_gets|]. intros t1. apply preserves_ret.
  - intros ranked. apply preserves_bind; [by apply build_others|]. intros transfers. apply preserves_bind; [apply preserves_lift|]. intros paths. apply preserves_ret.
Qed.

(** The same is asked, and shown, when the edges are loaded. *)
Lemma servable_loaded rws t t' allowed : ensure_edges_loaded tdb t = Ok t' -> servable rws t allowed -> servable rws t' allowed.
Proof.
  intros Ht []. destruct (ensure_edges_loaded_ok tdb t) as (t1 & Ht1 & Hwf & Hk); [done|]. rewrite Ht in Ht1. injection Ht1 as <-.
  destruct (ensure_edges_loaded_same_multihop _ _ _ Ht) as (Hmn & Hhp & _). pose proof (loaded_availability _ _ Ht) as Hia.
  split; try done; [by apply Hk|by rewrite Hhp|by rewrite Hmn].
Qed.
Lemma accepts_loaded rws t t' allowed : ensure_edges_loaded tdb t = Ok t' -> accepts rws t' allowed = accepts rws t allowed.
Proof. intros Ht. unfold accepts. by rewrite (loaded_availability _ _ Ht). Qed.
Lemma served_loaded rws t t' allowed found o : ensure_edges_loaded tdb t = Ok t' -> served rws t' allowed found o -> served rws t allowed found o.
Proof. intros Ht. unfold served, destination_closed, served_open, serves. by rewrite (accepts_loaded _ _ _ _ Ht), (loaded_availability _ _ Ht). Qed.

(** ** Sorting requests out *)

(** In which of the five results a request is *)
Definition sorted_into (b : Built) (id : option nat) : Outcome -> Prop := fun o =>
  candidate_paths_by_request_id b !! id = match o with Candidate paths => Some paths | _ => None end /\
  (id ∈ reqs_no_source b <-> o = NoSource) /\ (id ∈ reqs_scheme_mismatch b <-> o = SchemeMismatch) /\
  (id ∈ reqs_only_tape_source b <-> o = OnlyTapeSource) /\ (id ∈ reqs_unsupported_transfertool b <-> o = UnsupportedTransfertool).
Definition absent (b : Built) (id : option nat) : Prop :=
  candidate_paths_by_request_id b !! id = None /\ id ∉ reqs_no_source b /\ id ∉ reqs_scheme_mismatch b /\
  id ∉ reqs_only_tape_source b /\ id ∉ reqs_unsupported_transfertool b.
Lemma sort_out_own rws o b : absent b (rw_id rws) -> sorted_into (sort_out rws o b) (rw_id rws) o.
Proof. intros (H1 & H2 & H3 & H4 & H5). destruct o; split_and!; simpl; rewrite ?lookup_insert_eq; try done; set_solver. Qed.
Lemma sort_out_other rws o b id : rw_id rws <> id ->
  (absent (sort_out rws o b) id <-> absent b id) /\ forall o', sorted_into (sort_out rws o b) id o' <-> sorted_into b id o'.
Proof.
  intros Hne. assert (candidate_paths_by_request_id (sort_out rws o b) !! id = candidate_paths_by_request_id b !! id) as H1
    by (destruct o; simpl; rewrite ?lookup_insert_ne; done).
  assert ((id ∈ reqs_no_source (sort_out rws o b) <-> id ∈ reqs_no_source b) /\ (id ∈ reqs_scheme_mismatch (sort_out rws o b) <-> id ∈ reqs_scheme_mismatch b) /\
    (id ∈ reqs_only_tape_source (sort_out rws o b) <-> id ∈ reqs_only_tape_source b) /\
    (id ∈ reqs_unsupported_transfertool (sort_out rws o b) <-> id ∈ reqs_unsupported_transfertool b)) as (H2 & H3 & H4 & H5) by (destruct o; simpl; set_solver).
  split; [unfold absent; rewrite H1; tauto|]. intros o'. unfold sorted_into. rewrite H1. tauto.
Qed.

(** C13: [build_transfer_paths] gives every request its best paths.  The requests are no STAGEIN ones, and have
    sources on different RSEs, not at the destination, all known; the strategies are the default ones; the submitter asks,
    so not in the preparer's mode, and not for requested sources only; the topology is well formed.  Then it never fails,
    and every request is in exactly one of the five results: without a source when it has none or nothing may be written to its
    destination, with an unsupported tool when it asks for one that is not there, and otherwise as follows.  The
    search from its accepted sources succeeds, and either every path offered leads, over protocols both
    ends support, from a source to the destination through no tape and no other source, the paths start at
    different RSEs and the first is the shortest path (or its end, from the last source on it) of a source
    no other usable one is ranked before; or no accepted source has a path through no tape, and the reason
    given holds. *)
Theorem requests_get_best_paths topology requests :
  NoDup (rw_id <$> requests) -> (forall rws, rws ∈ requests -> exists allowed, servable rws topology allowed) ->
  exists built b, build_transfer_paths (Q := Q) draw db config topology None requests = Ok (built, b) /\
    forall rws, rws ∈ requests -> exists allowed found t' o,
      allowed_sources db rws = Ok allowed /\
      search topology (rs_rse <$> List.filter (accepts rws topology allowed) (rw_sources rws)) (rw_dest rws) (limit rws) = Ok (found, t') /\
      served rws topology allowed found o /\ sorted_into built (rw_id rws) o.
Proof.
  intros Hids Hreqs. unfold build_transfer_paths. cbn [default].
  change (foldM _ [] (external_name <$> default_strategies)) with (Ok default_strategies). cbn [bindR].
  enough (forall l b0 b, (forall rws, rws ∈ l -> rws ∈ requests) -> NoDup (rw_id <$> l) ->
    (requests <> [] -> exists t', ensure_edges_loaded tdb topology = Ok t' /\ at_hand topology t' b) ->
    (forall rws, rws ∈ l -> absent b0 (rw_id rws) /\ definition_by_request_id b !! rw_id rws = None) ->
    exists built b', foldS (fun b rws => let! o := request_paths (Q := Q) draw db config default_strategies rws in retS (sort_out rws o b)) b0 l b = (Ok built, b') /\
      (forall rws, rws ∈ l -> exists allowed found t' o, allowed_sources db rws = Ok allowed /\
        search topology (rs_rse <$> List.filter (accepts rws topology allowed) (rw_sources rws)) (rw_dest rws) (limit rws) = Ok (found, t') /\
        served rws topology allowed found o /\ sorted_into built (rw_id rws) o) /\
      (forall id, id ∉ rw_id <$> l -> forall o, sorted_into b0 id o -> sorted_into built id o)) as Hgen.
  { destruct (Hgen requests (MkBuilt ∅ ∅ ∅ ∅ ∅) (MkBuilder topology ∅)) as (built & b' & -> & Hall & _); [done..| | |by exists built, b'].
    - destruct requests as [|r rs]; [done|]. intros _. destruct (Hreqs r) as (al & []); [by left|].
      destruct (ensure_edges_loaded_ok tdb topology) as (t' & Ht & _); [done|]. exists t'. split; [done|by left].
    - intros rws _. split; [|done]. split_and!; [done|set_solver..]. }
  induction l as [|rws l IH]; intros b0 b Hin Hnd Ht Hnew; simpl.
  { exists b0, b. split_and!; [done|by intros ? ?%elem_of_nil|done]. }
  apply NoDup_cons in Hnd as [Hown Hnd]. destruct (Hreqs rws) as (allowed & Hsv); [apply Hin; by left|].
  destruct Ht as (t' & Ht & Hat); [intros ->; by destruct (not_elem_of_nil rws); apply Hin; left|].
  destruct (Hnew rws) as [Habs Hc]; [by left|].
  assert (exists o b1 found, request_paths (Q := Q) draw db config default_strategies rws b = (Ok o, b1) /\ at_hand topology t' b1 /\
    search topology (rs_rse <$> List.filter (accepts rws topology allowed) (rw_sources rws)) (rw_dest rws) (limit rws) = Ok (found, t') /\
    served rws topology allowed found o) as (o & b1 & found & Hrun & Hat1 & Hsearch & Hserved).
  { destruct Hat as [Hb|Hb].
    - destruct (request_served rws topology t' allowed b) as (found & Hs & o & b1 & Hrun & Hat1 & Hserved); [done..|]. by exists o, b1, found.
    - destruct (request_served rws t' t' allowed b) as (found & Hs & o & b1 & Hrun & Hat1 & Hserved); [by eapply servable_loaded|by eapply loaded_twice|done..|].
      exists o, b1, found. split_and!; [done|destruct Hat1; by right| |by eapply served_loaded].
      rewrite (accepts_loaded _ _ _ _ Ht) in Hs. rewrite (search_loaded topology t'); [done|done|]. destruct Hsv as [? ? ? ? Hrses].
      intros n Hn. unfold topology_db. cbn [rse_infos]. rewrite lookup_fmap. apply fmap_is_Some, Hrses. rewrite !elem_of_app in Hn |- *.
      destruct Hn as [Hn|Hn]; [left|by right]. apply list_elem_of_fmap in Hn as (s & -> & Hs'%elem_of_filter_bool). apply list_elem_of_fmap. exists s. by destruct Hs'. }
  unfold bindS. rewrite Hrun. unfold retS.
  destruct (IH (sort_out rws o b0) b1) as (built & b' & Hrun' & Hall & Hkept).
  - intros r Hr. apply Hin. by right.
  - done.
  - intros _. by exists t'.
  - intros r Hr. assert (rw_id rws <> rw_id r) as Hne by (intros He; apply Hown; rewrite He; apply list_elem_of_fmap; by exists r).
    destruct (Hnew r) as [Habs' Hc']; [by right|]. split; [by apply sort_out_other|].
    pose proof (request_others default_strategies rws (rw_id r) None Hne b Hc') as Hp. unfold wp in Hp. by rewrite Hrun in Hp.
  - exists built, b'. split; [done|]. split.
    + intros r [->|Hr]%elem_of_cons; [|by apply Hall]. exists allowed, found, t', o. split_and!; [by destruct Hsv|done|done|].
      apply Hkept; [done|]. by apply sort_out_own.
    + intros id Hid o' Ho'. apply not_elem_of_cons in Hid as [Hid1 Hid2]. apply Hkept; [done|]. by apply sort_out_other.
Qed.
End paths.

(** ** Examples *)

Open Scope string_scope.

Definition https : Protocol :=
  MkProtocol "https" "rucio.rse.protocols.gfal.Default" {[ "wan" := {[ "third_party_copy_read" := Some 1%Z; "third_party_copy_write" := Some 1%Z ]} ]}.
Definition disk (name : string) (attributes : gmap string AttrValue) : RseData := MkRseData name RT_DISK true true attributes [https].
(** [A] is far from [B] but for the way through [C]; [T] is a tape, [D] is restricted. *)
Definition demo_path_db : PathDB :=
  MkPathDB demo_session
    {[ "A" := disk "A" ∅; "B" := disk "B" ∅; "C" := disk "C" ∅; "D" := disk "D" {[ "restricted_read" := ABool true ]};
       "T" := MkRseData "T" RT_TAPE true true ∅ [https] ]}
    [("A", "B", Some 20%Z); ("A", "C", Some 1%Z); ("C", "B", Some 2%Z); ("D", "B", Some 1%Z); ("T", "B", Some 1%Z)] 5 ["C"].
Definition demo_config : PathConfig := MkPathConfig [] [] [] 4 [] false false [].
Definition demo_topology (nodes : list string) : Topology :=
  match configure_multihop (topology_db demo_path_db) None (new_topology nodes false) with Ok t => t | Err _ => new_topology nodes false end.
Definition source_at (rse : string) : RequestSource := new_source rse None None None [] None.
Definition demo_request (id : nat) (expression : option string) (rses : list string) : RequestWithSources :=
  MkRequestWithSources (Some id)
    (MkTransfer "B" ("data", "f1") "r1" TRANSFER (Some 0%Z) (InternalAccount "alice" DEFAULT_VO) (Some 0%Z) "User" expression None None 10 None None (Some 3%Z))
    true None None (source_at <$> rses) None.
Definition demo_requests : list RequestWithSources := [demo_request 1 None ["A"; "T"; "D"]; demo_request 2 None ["D"]].
Definition routes (paths : list (list PathHop)) : list (list (string * string)) := map (map (fun h => (ph_src h, ph_dest h))) paths.

Abbreviation demo_build := (@build_transfer_paths name_expressions low_draws (PriorityQueue string) _ (fun _ _ => 0%nat) demo_path_db).

(** The disk comes first, through [C], and then the tape; nothing is left of the restricted RSE. *)
Example demo_built :
  match demo_build demo_config (demo_topology ["A"; "B"; "D"; "T"]) None demo_requests with
  | Ok (built, _) => option_map routes (candidate_paths_by_request_id built !! Some 1%nat) = Some [[("A", "C"); ("C", "B")]; [("T", "B")]] /\
      reqs_no_source built = {[ Some 2%nat ]}
  | Err _ => False
  end.
Proof. vm_compute. done. Qed.

(** A source that was rejected is read from when it lies on the path of another: the request asks for the
    source [A] alone. *)
Example rejected_source_is_used :
  match demo_build demo_config (demo_topology ["A"; "B"; "C"]) None [demo_request 1 (Some "A") ["A"; "C"]] with
  | Ok (built, _) => option_map routes (candidate_paths_by_request_id built !! Some 1%nat) = Some [[("C", "B")]]
  | Err _ => False
  end.
Proof. vm_compute. done. Qed.

Lemma demo_topology_wf nodes : topo_wf (demo_topology nodes).
Proof.
  unfold demo_topology. destruct (configure_multihop_ok (topology_db demo_path_db) None (new_topology nodes false)) as (t & -> & Hx & _).
  - intros n. unfold new_topology, is_multihop_node. simpl. rewrite elem_of_empty. split; [|done].
    destruct (list_to_map _ !! n) as [x|] eqn:Hn; [|done]. apply elem_of_list_to_map_2, list_elem_of_fmap in Hn as (i & [= -> ->] & _). done.
  - intros n Hn. simpl in Hn. apply list_elem_of_singleton in Hn as ->. by eexists.
  - by apply (extends_wf _ _ Hx), new_topology_wf.
Qed.
Lemma demo_paths_penalties : penalties_ok (topology_db demo_path_db).
Proof.
  split; [done|]. intros n info v p Hi Hv _. exfalso. simpl in Hi. rewrite lookup_fmap in Hi. apply fmap_Some in Hi as (r & Hr & ->). simpl in Hv.
  repeat (rewrite lookup_insert in Hr; case_decide; [simplify_eq; by vm_compute in Hv|]). rewrite lookup_singleton in Hr. by case_decide; simplify_eq.
Qed.

Lemma requests_get_best_paths_witness :
  exists built b, demo_build demo_config (demo_topology ["A"; "B"; "D"; "T"]) None demo_requests = Ok (built, b) /\
    forall rws, rws ∈ demo_requests -> exists allowed found t' o,
      @allowed_sources name_expressions demo_path_db rws = Ok allowed /\
      search_shortest_paths (Q := PriorityQueue string) (@find_schemes low_draws (fun _ _ => 0%nat) demo_path_db) (topology_db demo_path_db)
        (demo_topology ["A"; "B"; "D"; "T"])
        (rs_rse <$> List.filter (accepts demo_path_db demo_config rws (demo_topology ["A"; "B"; "D"; "T"]) allowed) (rw_sources rws)) (rw_dest rws)
        (limit demo_config rws) = Ok (found, t') /\
      @served low_draws (fun _ _ => 0%nat) demo_path_db demo_config rws (demo_topology ["A"; "B"; "D"; "T"]) allowed found o /\
      sorted_into built (rw_id rws) o.
Proof.
  apply requests_get_best_paths.
  - apply (bool_decide_unpack _). by vm_compute.
  - intros rws Hr. exists None. unfold demo_requests in Hr. rewrite !elem_of_cons, elem_of_nil in Hr.
    destruct Hr as [->|[->|[]]]; (split; [apply demo_topology_wf|by eexists|apply demo_paths_penalties|done| |done|done|done|
      apply (bool_decide_unpack _); by vm_compute|apply (bool_decide_unpack _); by vm_compute|done]);
      intros n Hn; vm_compute in Hn; repeat (apply elem_of_cons in Hn as [->|Hn]; [by eexists|]); by apply elem_of_nil in Hn.
Defined.
