(* ===== verification/Heartbeats.v ===== *)
(** * Heartbeats: [lib/rucio/core/heartbeat.py], [lib/rucio/daemons/common.py], [lib/rucio/db/sqla/__init__.py]

    The workers of a daemon register themselves in a table, from which each of them learns its number and
    how many they are; the numbers share out the rows of a query. *)

From S2P Require Import Prelude StateError.

(** A worker is at a place: host, process and thread; the rows have the hash of the executable too. *)
Definition Place : Type := string * Z * Z.
Record Heartbeat := MkHeartbeat {
  hb_readable : string;
  hb_thread_name : string;
  hb_payload : option string;
  hb_updated_at : Z;
}.
Abbreviation Heartbeats := (gmap (string * Place) Heartbeat).

(** How the database orders host names *)
Class Collation := {
  host_le : string -> string -> Prop;
  host_le_dec :: RelDecision host_le;
  host_le_order :: TotalOrder host_le;
}.

Record Thread := MkThread { ident : Z; thread_name : string }.
Definition DEFAULT_EXPIRATION_DELAY : Z := 24 * 60 * 60.

Section heartbeats.
Context `{Collation}.
Variables (sha256 : string -> string) (pid_exists : Z -> bool).

Definition calc_hash (executable : string) : string := sha256 executable.
Definition hash_of (executable : string) (hash_executable : option string) : string :=
  match hash_executable with Some (String _ _ as h) => h | _ => calc_hash executable end.
Definition remove (P : string * Place -> Heartbeat -> bool) : ST Heartbeats unit :=
  modifyS (filter (fun x : (string * Place) * Heartbeat => P x.1 x.2 = false)).

(** [cardiac_arrest]: no age, or the age 0, removes all heartbeats. *)
Definition older (t : Z) (older_than : option Z) (hb : Heartbeat) : bool :=
  match older_than with
  | Some d => if bool_decide (d = 0)%Z then true else bool_decide (hb_updated_at hb < t - d)%Z
  | None => true
  end.
Definition cardiac_arrest (t : Z) (older_than : option Z) : ST Heartbeats unit := remove (fun _ hb => older t older_than hb).

(** [_sanity_check]: the processes of this host that are gone *)
Definition dead_pid (executable hostname : string) (hash_executable : option string) (k : string * Place) : bool :=
  bool_decide (k.2.1.1 = hostname) && (bool_decide (executable = ""%string) || bool_decide (k.1 = hash_of executable hash_executable))
  && negb (pid_exists k.2.1.2).
Definition _sanity_check (t : Z) (executable hostname : string) (hash_executable : option string) (expiration_delay : Z) : ST Heartbeats unit :=
  do! remove (fun k _ => dead_pid executable hostname hash_executable k) in
  whenS (negb (bool_decide (expiration_delay = 0)%Z)) (cardiac_arrest t (Some expiration_delay)).

(** ** The numbers of the workers *)

Definition place_le (a b : Place) : Prop :=
  strict host_le a.1.1 b.1.1 \/ a.1.1 = b.1.1 /\ (a.1.2 < b.1.2 \/ a.1.2 = b.1.2 /\ a.2 <= b.2)%Z.
#[export] Instance place_le_dec : RelDecision place_le.
Proof. intros a b. unfold place_le. apply _. Defined.
Definition is_live (t older_than : Z) (h : string) (x : (string * Place) * Heartbeat) : bool :=
  bool_decide (x.1.1 = h) && bool_decide (t - older_than <= hb_updated_at x.2)%Z.
Definition workers (t older_than : Z) (h : string) (table : Heartbeats) : list Place :=
  stable_sort place_le (snd ∘ fst <$> List.filter (is_live t older_than h) (map_to_list table)).

(** [live]: the number of a place and how many there are *)
Definition beat (t : Z) (h readable thread_name : string) (place : Place) (payload : option string) (table : Heartbeats) : Heartbeats :=
  <[(h, place) := match table !! (h, place) with
                  | Some hb => MkHeartbeat (hb_readable hb) (hb_thread_name hb) payload t
                  | None => MkHeartbeat (String.substring 0 4000 readable) thread_name payload t
                  end]> table.
Definition position (place : Place) (l : list Place) : nat := default 0%nat (fst <$> list_find (eq place) l).
Definition live (t : Z) (executable hostname : string) (pid : Z) (thread : option Thread) (older_than : Z) (hash_executable payload : option string)
    : ST Heartbeats (nat * nat) :=
  let h := hash_of executable hash_executable in
  let '(thread_id, name) := match thread with Some th => (ident th, thread_name th) | None => (0%Z, "thread"%string) end in
  do! modifyS (beat t h executable name (hostname, pid, thread_id) payload) in
  let! table := getsS id in
  let l := workers t older_than h table in
  retS (position (hostname, pid, thread_id) l, length l).

Definition die (t : Z) (executable hostname : string) (pid : Z) (thread : Thread) (older_than : option Z) (hash_executable : option string)
    : ST Heartbeats unit :=
  remove (fun k hb => bool_decide (k = (hash_of executable hash_executable, (hostname, pid, ident thread))) && older t older_than hb).

(** [sanity_check] *)
Definition sanity_check (t : Z) (executable hostname : string) (hash_executable : option string) (pid : option Z) (thread : option Thread)
    (expiration_delay : Z) : ST Heartbeats unit :=
  do! _sanity_check t executable hostname hash_executable expiration_delay in
  match pid with
  | Some p => if bool_decide (p = 0)%Z then skipS else do! live t executable hostname p thread 600 None None in skipS
  | None => skipS
  end.

(** [list_payload_counts], not in the order of the database *)
Definition payloads (t older_than : Z) (h : string) (table : Heartbeats) : list string :=
  omap (fun x => if is_live t older_than h x then hb_payload x.2 else None) (map_to_list table).
Definition list_payload_counts (t : Z) (executable : string) (older_than : Z) (hash_executable : option string) (table : Heartbeats) : gmap string nat :=
  let l := payloads t older_than (hash_of executable hash_executable) table in
  list_to_map ((fun p => (p, length (List.filter (fun p' => bool_decide (p' = p)) l))) <$>
               List.filter (fun p => negb (bool_decide (p = ""%string))) (remove_dups l)).

(** ** [HeartbeatHandler] *)

Record Handler := MkHandler {
  hh_executable : string;
  hh_renewal_interval : Z;
  hh_hostname : string;
  hh_pid : Z;
  hh_thread : Thread;
  last_heart_beat : option (nat * nat);
  last_time : option Z;
  last_payload : option string;
}.
Definition new_handler (executable : string) (renewal_interval : Z) (hostname : string) (pid : Z) (thread : Thread) : Handler :=
  MkHandler executable renewal_interval hostname pid thread None None None.
Definition handler_older_than (h : Handler) : Z :=
  if bool_decide (0 < hh_renewal_interval h)%Z then hh_renewal_interval h * 10 else 600.
Definition must_renew (t : Z) (force_renew : bool) (payload : option string) (h : Handler) : bool :=
  force_renew
  || match last_time h, last_heart_beat h with Some l, Some _ => bool_decide (l < t - hh_renewal_interval h)%Z | _, _ => true end
  || negb (bool_decide (last_payload h = payload)).
Definition handler_live (t : Z) (force_renew : bool) (payload : option string) (h : Handler) : ST Heartbeats (Handler * (nat * nat)) :=
  let! numbers :=
    if must_renew t force_renew payload h
    then live t (hh_executable h) (hh_hostname h) (hh_pid h) (Some (hh_thread h)) (handler_older_than h) None payload
    else retS (default (0, 0)%nat (last_heart_beat h)) in
  retS (if must_renew t force_renew payload h
        then MkHandler (hh_executable h) (hh_renewal_interval h) (hh_hostname h) (hh_pid h) (hh_thread h) (Some numbers) (Some t) payload
        else h, numbers).
Definition handler_enter (t : Z) (h : Handler) : ST Heartbeats Handler :=
  do! sanity_check t (hh_executable h) (hh_hostname h) None None None DEFAULT_EXPIRATION_DELAY in
  let! '(h, _) := handler_live t false None h in retS h.
Definition handler_exit (t : Z) (h : Handler) : ST Heartbeats unit :=
  if bool_decide (is_Some (last_heart_beat h)) then die t (hh_executable h) (hh_hostname h) (hh_pid h) (hh_thread h) None None else skipS.
Definition short_executable (h : Handler) : string :=
  if bool_decide (String.length (hh_executable h) <= String.length (calc_hash (hh_executable h)))%nat then hh_executable h else calc_hash (hh_executable h).
End heartbeats.

(** [filter_thread_work]: the rows whose number, out of as many as there are workers, is that of the worker;
    some databases do not share out the rows. *)
Definition filter_thread_work {A} (bucket : option (nat -> A -> nat)) (total_threads thread_id : nat) (row : A) : bool :=
  match bucket with
  | Some number => if bool_decide (1 < total_threads)%nat then bool_decide (number total_threads row = thread_id) else true
  | None => true
  end.
