(* ===== verification/HeartbeatsFacts.v ===== *)
(** * Numbers of workers

    Workers that have all registered get different numbers, from 0 on, and know how many they are. *)

From S2P Require Import Prelude StateError Heartbeats.

Section heartbeats.
Context `{Collation}.
Variables (sha256 : string -> string) (executable : string).
Local Abbreviation h := (calc_hash sha256 executable).

(** ** Sorted places *)

Lemma place_le_refl a : place_le a a.
Proof. right. split; [done|]. right. split; [done|lia]. Qed.
Lemma place_le_total a b : ~ place_le a b -> place_le b a.
Proof.
  unfold place_le. intros Hn. destruct (trichotomy (strict host_le) a.1.1 b.1.1) as [Hl|[He|Hl]]; [by destruct Hn; left| |by left].
  rewrite He. right. split; [done|]. destruct (decide (b.1.2 < a.1.2 \/ b.1.2 = a.1.2 /\ b.2 <= a.2)%Z) as [?|Hm]; [done|].
  destruct Hn. right. split; [done|]. lia.
Qed.
Lemma place_le_trans a b c : place_le a b -> place_le b c -> place_le a c.
Proof.
  unfold place_le. intros [Hab|[Hab Hab']] [Hbc|[Hbc Hbc']].
  - left. by etrans.
  - left. by rewrite <-Hbc.
  - left. by rewrite Hab.
  - right. split; [congruence|lia].
Qed.
Lemma place_le_antisymm a b : place_le a b -> place_le b a -> a = b.
Proof.
  destruct a as [[h1 p1] t1], b as [[h2 p2] t2]. unfold place_le. simpl. intros [Hab|[Hab Hab']] [Hba|[Hba Hba']].
  - exfalso. apply (irreflexivity (strict host_le) h1). by trans h2.
  - rewrite Hba in Hab. by destruct (irreflexivity (strict host_le) _ Hab).
  - rewrite Hab in Hba. by destruct (irreflexivity (strict host_le) _ Hba).
  - subst. assert (p1 = p2) by lia. assert (t1 = t2) by lia. by subst.
Qed.
Lemma sorted_places_unique l1 l2 : StronglySorted place_le l1 -> StronglySorted place_le l2 -> l1 ≡ₚ l2 -> l1 = l2.
Proof.
  revert l2. induction l1 as [|a l1 IH]; intros l2 H1 H2 Hp.
  - by apply Permutation_nil_l in Hp as ->.
  - destruct l2 as [|b l2]; [by apply Permutation_nil_r in Hp|]. apply StronglySorted_inv in H1 as [H1 Ha], H2 as [H2 Hb].
    assert (a = b) as ->.
    { rewrite Forall_forall in Ha, Hb. assert (a ∈ b :: l2) as Hin by (rewrite <-Hp; by left). assert (b ∈ a :: l1) as Hin' by (rewrite Hp; by left).
      apply elem_of_cons in Hin as [->|Hin]; [done|]. apply elem_of_cons in Hin' as [->|Hin']; [done|].
      apply place_le_antisymm; [by apply Ha|by apply Hb]. }
    f_equal. apply IH; [done..|]. by apply Permutation_cons_inv in Hp.
Qed.

(** ** The live workers *)

Definition is_at (t older_than : Z) (table : Heartbeats) (p : Place) : Prop :=
  exists hb, table !! (h, p) = Some hb /\ (t - older_than <= hb_updated_at hb)%Z.
Lemma elem_of_workers t o table p : p ∈ workers t o h table <-> is_at t o table p.
Proof.
  unfold workers. rewrite stable_sort_Permutation, list_elem_of_fmap. split.
  - intros (((h', p') & hb) & -> & Hin). apply elem_of_filter_bool in Hin as [Hin Hl]. apply elem_of_map_to_list in Hin.
    unfold is_live in Hl. simpl in *. apply andb_true_iff in Hl as [->%bool_decide_eq_true Hl%bool_decide_eq_true]. by exists hb.
  - intros (hb & Hl & Ht). exists ((h, p), hb). split; [done|]. apply elem_of_filter_bool. split; [by apply elem_of_map_to_list|].
    unfold is_live. simpl. rewrite !bool_decide_eq_true_2; done.
Qed.
Lemma NoDup_workers t o table : NoDup (workers t o h table).
Proof.
  unfold workers. rewrite stable_sort_Permutation. assert (forall l : list ((string * Place) * Heartbeat), NoDup l.*1 ->
    NoDup (snd ∘ fst <$> List.filter (is_live t o h) l)) as Hgen; [|by apply Hgen, NoDup_fst_map_to_list].
  induction l as [|((h', p) & hb) l IH]; simpl; [constructor|]. rewrite NoDup_cons. intros [Hn Hd].
  destruct (is_live t o h (h', p, hb)) eqn:Hl; [|by apply IH]. simpl. constructor; [|by apply IH].
  rewrite list_elem_of_fmap. intros (((h'' & p') & hb') & Heq & Hin). simpl in Heq. subst p'. apply elem_of_filter_bool in Hin as [Hin Hl'].
  unfold is_live in Hl, Hl'. simpl in *. apply andb_true_iff in Hl as [->%bool_decide_eq_true _], Hl' as [->%bool_decide_eq_true _].
  apply Hn. apply list_elem_of_fmap. by exists (h, p, hb').
Qed.
Lemma workers_are t o table l : NoDup l -> (forall p, is_at t o table p <-> p ∈ l) -> workers t o h table = stable_sort place_le l.
Proof.
  intros Hd Hl. apply sorted_places_unique; [apply stable_sort_sorted; [apply place_le_total|apply place_le_trans]..|].
  rewrite stable_sort_Permutation. apply NoDup_Permutation; [apply NoDup_workers|done|]. intros p. by rewrite elem_of_workers, Hl.
Qed.
Lemma position_ok p l : p ∈ l -> l !! position p l = Some p.
Proof.
  intros Hp. unfold position. destruct (list_find (eq p) l) as [[i q]|] eqn:Hf; simpl.
  - apply list_find_Some in Hf as (Hi & -> & _). done.
  - apply list_find_None in Hf. rewrite Forall_forall in Hf. by destruct (Hf p Hp).
Qed.

(** ** Rounds of beats *)

(** A worker of the daemon beats at some time. *)
Record Worker := MkWorker { wk_hostname : string; wk_pid : Z; wk_thread : Thread }.
Definition place_of (k : Worker) : Place := (wk_hostname k, wk_pid k, ident (wk_thread k)).
Definition call (older_than : Z) (c : Z * Worker) : ST Heartbeats (nat * nat) :=
  live sha256 c.1 executable (wk_hostname c.2) (wk_pid c.2) (Some (wk_thread c.2)) older_than None None.
Fixpoint calls (older_than : Z) (l : list (Z * Worker)) : ST Heartbeats (list (nat * nat)) :=
  match l with
  | [] => retS []
  | c :: l => let! n := call older_than c in let! ns := calls older_than l in retS (n :: ns)
  end.

Section rounds.
Variables (o t0 : Z) (ws : list Place).
Hypothesis distinct : NoDup ws.
(** Everything happens within the time a heartbeat is good for. *)
Definition timely (c : Z * Worker) : Prop := (t0 <= c.1 <= t0 + o)%Z /\ place_of c.2 ∈ ws.
(** Only these workers are alive, and [done] have beaten. *)
Record registered (done : list Place) (table : Heartbeats) : Prop := {
  only p hb : table !! (h, p) = Some hb -> p ∈ ws \/ (hb_updated_at hb < t0 - o)%Z;
  recent p : p ∈ done -> exists hb, table !! (h, p) = Some hb /\ (t0 <= hb_updated_at hb)%Z;
}.
Lemma call_registers done table c : registered done table -> timely c ->
  exists n table', call o c table = (Ok n, table') /\ registered (place_of c.2 :: done) table' /\
    ((forall p, p ∈ ws -> p ∈ place_of c.2 :: done) -> n = (position (place_of c.2) (stable_sort place_le ws), length ws)).
Proof.
  intros [Honly Hrec] [Ht Hin]. destruct c as [t k]. simpl in *. unfold call, live, hash_of, bindS, modifyS, getsS, retS. simpl.
  change (wk_hostname k, wk_pid k, ident (wk_thread k)) with (place_of k).
  set (table' := beat t h executable (thread_name (wk_thread k)) (place_of k) None table).
  assert (forall p, p <> place_of k -> table' !! (h, p) = table !! (h, p)) as Hother by (intros p Hp; unfold table', beat; by rewrite lookup_insert_ne by congruence).
  assert (exists hb, table' !! (h, place_of k) = Some hb /\ hb_updated_at hb = t) as (hb & Hown & Hup).
  { eexists. split; [unfold table', beat; apply lookup_insert_eq|]. by destruct (table !! _). }
  assert (registered (place_of k :: done) table') as Hreg.
  { split.
    - intros p hb' Hp. destruct (decide (p = place_of k)) as [->|Hne]; [by left|]. rewrite Hother in Hp by done. by apply Honly in Hp.
    - intros p [->|Hp]%elem_of_cons; [exists hb; split; [done|lia]|]. destruct (decide (p = place_of k)) as [->|Hne]; [exists hb; split; [done|lia]|].
      rewrite Hother by done. by apply Hrec. }
  eexists _, table'. split; [done|]. split; [done|]. intros Hall.
  rewrite (workers_are _ _ _ ws); [|done|].
  - by rewrite (Permutation_length (stable_sort_Permutation place_le ws)).
  - intros p. destruct Hreg as [Ho Hr]. split.
    + intros (hb' & Hp & Hl). destruct (Ho _ _ Hp) as [?|?]; [done|lia].
    + intros Hp. destruct (Hr p) as (hb' & Hp' & Hl); [by apply Hall|]. exists hb'. split; [done|lia].
Qed.
Lemma calls_register l : forall done table, registered done table -> Forall timely l ->
  exists ns table', calls o l table = (Ok ns, table') /\ registered (reverse (place_of ∘ snd <$> l) ++ done) table' /\
    ((forall p, p ∈ ws -> p ∈ done) -> ns = (fun c => (position (place_of c.2) (stable_sort place_le ws), length ws)) <$> l).
Proof.
  induction l as [|c l IH]; intros done table Hreg Hl; [by exists [], table|]. apply Forall_cons in Hl as [Hc Hl].
  destruct (call_registers done table c Hreg Hc) as (n & table1 & Hcall & Hreg1 & Hn).
  destruct (IH _ _ Hreg1 Hl) as (ns & table2 & Hcalls & Hreg2 & Hns). exists (n :: ns), table2. simpl. unfold bindS. rewrite Hcall, Hcalls.
  split; [done|]. split; [rewrite reverse_cons, <-app_assoc; done|]. intros Hall. rewrite Hn, Hns; [done| |]; intros p Hp; apply elem_of_cons; right; by apply Hall.
Qed.
(** Once all have beaten, a second round gives each its number. *)
Lemma second_round_numbers first second table : registered [] table -> Forall timely first -> Forall timely second ->
  (place_of ∘ snd <$> first) ≡ₚ ws -> (place_of ∘ snd <$> second) ≡ₚ ws ->
  exists ns table1 ns2 table2, calls o first table = (Ok ns, table1) /\ calls o second table1 = (Ok ns2, table2) /\
    fst <$> ns2 ≡ₚ seq 0 (length ws) /\ forall n, n ∈ ns2 -> n.2 = length ws.
Proof.
  intros Hreg H1 H2 Hp1 Hp2. destruct (calls_register first [] table Hreg H1) as (ns & table1 & Hc1 & Hreg1 & _).
  destruct (calls_register second _ table1 Hreg1 H2) as (ns2 & table2 & Hc2 & _ & Hns). exists ns, table1, ns2, table2. split; [done|]. split; [done|].
  rewrite Hns; [|intros p Hp; rewrite app_nil_r, reverse_Permutation, Hp1; done]. split.
  - rewrite <-list_fmap_compose. change (fst ∘ _) with (fun c : Z * Worker => position (place_of c.2) (stable_sort place_le ws)).
    assert ((fun c : Z * Worker => position (place_of c.2) (stable_sort place_le ws)) <$> second = (fun p => position p (stable_sort place_le ws)) <$> (place_of ∘ snd <$> second)) as ->
      by (by rewrite <-list_fmap_compose).
    rewrite Hp2. rewrite <-(stable_sort_Permutation place_le ws) at 1. rewrite <-(Permutation_length (stable_sort_Permutation place_le ws)).
    assert (NoDup (stable_sort place_le ws)) as Hd by (by rewrite stable_sort_Permutation). revert Hd. generalize (stable_sort place_le ws). clear. intros l Hd.
    assert ((fun p => position p l) <$> l = seq 0 (length l)) as ->; [|done]. apply list_eq. intros i. rewrite list_lookup_fmap.
    destruct (l !! i) as [p|] eqn:Hi; simpl.
    + pose proof (lookup_lt_Some _ _ _ Hi) as Hlt. rewrite lookup_seq_lt by done. f_equal. simpl. eapply NoDup_lookup; [done| |done]. apply position_ok. by eapply list_elem_of_lookup_2.
    + symmetry. apply lookup_seq_ge. by apply lookup_ge_None.
  - intros n (c & -> & _)%list_elem_of_fmap. done.
Qed.
End rounds.
End heartbeats.
