(* ===== verification/RequestListing.v ===== *)
(** * Handing requests to daemons: [lib/rucio/core/request.py]

    The queries that give a worker the requests it takes care of, with the replicas they may be served
    from, and mark them, so that the daemon does not get them again for a while. *)

From S2P Require Import Prelude StateError PyString Types Database RseSelector LockTables RuleGrouping RuleEngine Requests Heartbeats TransferPaths.

(** Columns that the rows do not have here, and the table of distances; how the database numbers a request
    for some workers, if it can; what the local time is ahead of UTC *)
Record Columns := MkColumns {
  request_transfertool : nat -> option string;
  request_allows_tape : nat -> bool;
  replica_path : DID -> string -> option string;
  distances : list (string * string * option Z);
  request_bucket : option (nat -> nat * Request -> nat);
  utc_offset : Z;
}.

(** The arguments of [list_and_mark_transfer_requests_and_source_replicas]; the RSEs are given as a set. *)
Record Selection := MkSelection {
  sel_processed_by : option string;
  sel_processed_at_delay : Z;
  sel_total_workers : nat;
  sel_worker_number : nat;
  sel_limit : option nat;
  sel_activity : option string;
  sel_older_than : option Z;
  sel_rses : gset string;
  sel_request_type : option (list RequestType);
  sel_request_state : option RequestState;
  sel_required_source_rse_attrs : list string;
  sel_ignore_availability : bool;
  sel_transfertool : option string;
}.

Section listing.
Variable cols : Columns.

(** ** Which requests *)

Definition given (o : option string) : option string := o ≫= or_none.
Definition is_asked (asked found : option string) : bool := match given asked with Some a => bool_decide (found = Some a) | None => true end.
(** Nobody else is at it: it was never handed out, or to another daemon, or some time ago. *)
Definition unprocessed (t : Z) (processed_by : option string) (delay : Z) (r : Request) : bool :=
  match given processed_by with
  | None => true
  | Some daemon =>
      match rq_last_processed_by r with None => true | Some d => negb (bool_decide (d = daemon)) end
      || match rq_last_processed_at r with Some p => bool_decide (p < t - delay)%Z | None => false end
  end.
(** The rule, if there is one, did not expire, or has a child. *)
Definition rule_alive (w : World) (r : Request) : bool :=
  match w_rules w !! t_rule_id (rq_transfer r) with
  | Some rule => bool_decide (is_Some (ru_child_rule_id rule))
                 || match ru_expires_at rule with Some e => bool_decide (now (w_session w) < e)%Z | None => true end
  | None => true
  end.
Definition rse_there (w : World) (rse : string) (P : RSERow -> bool) : bool :=
  existsb (fun x => bool_decide (Database.rse_id x = rse) && negb (rse_deleted x) && P x) (rses (w_session w)).
Definition previous_hops (w : World) (id : nat) : list (nat * nat * nat) := List.filter (fun h => bool_decide (h.1.2 = id)) (w_hops w).

Definition waiting (w : World) (s : Selection) (x : nat * Request) : bool :=
  let '(id, r) := x in
  let t := now (w_session w) in
  persistent_request r
  && bool_decide (rq_state r = default Q_QUEUED (sel_request_state s))
  && bool_decide (t_request_type (rq_transfer r) ∈ default [TRANSFER] (sel_request_type s))
  && rule_alive w r
  && rse_there w (t_dest_rse_id (rq_transfer r)) (fun x => sel_ignore_availability s || rse_availability_write x)
  && bool_decide (previous_hops w id = [])
  && match sel_older_than s with
     | Some o => match t_requested_at (rq_transfer r) with Some a => bool_decide (a < o)%Z | None => false end
     | None => true
     end
  && is_asked (sel_activity s) (Some (t_activity (rq_transfer r)))
  && is_asked (sel_transfertool s) (request_transfertool cols id)
  && (bool_decide (sel_rses s = ∅) || bool_decide (t_dest_rse_id (rq_transfer r) ∈ sel_rses s)).
Definition due_request (w : World) (s : Selection) (x : nat * Request) : bool :=
  waiting w s x && unprocessed (now (w_session w)) (sel_processed_by s) (sel_processed_at_delay s) x.2.

(** A limit of 0 is none. *)
Definition limited {A} (limit : option nat) (l : list A) : list A :=
  match limit with Some (S n) => take (S n) l | _ => l end.
Definition earlier (a b : nat * Request) : Prop := (rq_created_at a.2 <= rq_created_at b.2)%Z.
#[export] Instance earlier_dec : RelDecision earlier.
Proof. intros a b. unfold earlier. apply _. Defined.
Definition sub_requests (w : World) (s : Selection) : list (nat * Request) :=
  limited (sel_limit s)
    (stable_sort earlier
       (List.filter (fun x => due_request w s x && filter_thread_work (request_bucket cols) (sel_total_workers s) (sel_worker_number s) x)
          (imap pair (w_requests w)))).

(** ** Their sources *)

Definition source_replica (w : World) (r : Request) (p : Replica) : bool :=
  persistent_replica p && bool_decide (rp_did p = t_did (rq_transfer r)) && bool_decide (rp_state p = R_AVAILABLE)
  && negb (bool_decide (rp_rse_id p = t_dest_rse_id (rq_transfer r))) && rse_there w (rp_rse_id p) (fun _ => true).
Definition source_of (w : World) (id : nat) (r : Request) (p : Replica) : RequestSource :=
  let row := List.find (fun so => bool_decide (so_request_id so = id) && bool_decide (so_rse_id so = rp_rse_id p)) (w_sources w) in
  let distance := List.find (fun d => bool_decide (d.1 = (rp_rse_id p, t_dest_rse_id (rq_transfer r)))) (distances cols) in
  new_source (rp_rse_id p) (row ≫= so_ranking) (distance ≫= snd) (replica_path cols (rp_did p) (rp_rse_id p)) [] (row ≫= so_url).
Definition has_attributes (w : World) (attrs : list string) (rse : string) : bool :=
  forallb (fun a => bool_decide (is_Some (rse_attribute (w_session w) rse a))) attrs.
Definition sources_found (w : World) (s : Selection) (id : nat) (r : Request) : list RequestSource :=
  source_of w id r <$> List.filter (fun p => source_replica w r p && has_attributes w (sel_required_source_rse_attrs s) (rp_rse_id p)) (w_replicas w).
(** When the destination itself stages *)
Definition staging_source (w : World) (r : Request) : list RequestSource :=
  let dest := t_dest_rse_id (rq_transfer r) in
  if bool_decide (t_request_type (rq_transfer r) = STAGEIN) && RseSelector.attribute_true (rse_attribute (w_session w) dest "staging_required")
  then [new_source dest None None None [] None] else [].
(** The last source with the RSE that is asked for, among those from replicas *)
Definition requested_position (offset : nat) (rse : option string) (sources : list RequestSource) : option nat :=
  match rse with
  | Some rse => fst <$> last (List.filter (fun x : nat * RequestSource => bool_decide (rs_rse x.2 = rse)) (imap (fun i s => ((offset + i)%nat, s)) sources))
  | None => None
  end.
(** [RequestWithSources]: the defaults of its constructor, and the priority of the column *)
Definition transfer_of (w : World) (r : Request) : Transfer :=
  let t := rq_transfer r in
  MkTransfer (t_dest_rse_id t) (t_did t) (t_rule_id t) (t_request_type t) (Some (default 0%Z (t_retry_count t))) (t_account t)
    (Some (default (now (w_session w)) (t_requested_at t))) (t_activity t) (t_source_replica_expression t) (t_lifetime t) (t_ds t)
    (t_bytes t) (t_md5 t) (t_adler32 t) (Some (default 3%Z (rq_priority r))).
Definition request_with_sources (w : World) (s : Selection) (x : nat * Request) : RequestWithSources :=
  let '(id, r) := x in
  let staging := staging_source w r in
  let found := sources_found w s id r in
  MkRequestWithSources (Some id) (transfer_of w r) (request_allows_tape cols id) (rq_previous_attempt_id r) (request_transfertool cols id)
    (staging ++ found) (requested_position (length staging) (rq_source_rse_id r) found).
(** With required attributes, a request without any source that has them is not found at all. *)
Definition listed (w : World) (s : Selection) (x : nat * Request) : option RequestWithSources :=
  if negb (bool_decide (sel_required_source_rse_attrs s = [])) && bool_decide (sources_found w s x.1 x.2 = []) then None
  else Some (request_with_sources w s x).

Definition mark_processed (daemon : string) (ids : list nat) : ST World unit :=
  let! w := getsS id in
  do! update_where (fun i _ => bool_decide (i ∈ ids)) (upd_rq_last_processed daemon (now (w_session w) + utc_offset cols)) in skipS.
Definition list_and_mark_transfer_requests_and_source_replicas (s : Selection) : ST World (list RequestWithSources) :=
  let! w := getsS id in
  let found := omap (listed w s) (sub_requests w s) in
  do! match given (sel_processed_by s) with Some daemon => mark_processed daemon (omap rw_id found) | None => skipS end in
  retS found.

(** ** [get_and_mark_next] *)

Record Next := MkNext {
  nx_request_type : list RequestType;
  nx_state : list RequestState;
  nx_processed_by : option string;
  nx_processed_at_delay : Z;
  nx_limit : nat;
  nx_older_than : option Z;
  nx_rse_id : option string;
  nx_activity : option string;
  nx_total_workers : nat;
  nx_worker_number : nat;
  nx_mode_all : bool;
  nx_activity_shares : list (string * nat);
  nx_include_dependent : bool;
  nx_transfertool : option string;
}.
Definition next_due (w : World) (n : Next) (share : option string) (x : nat * Request) : bool :=
  let '(id, r) := x in
  persistent_request r
  && bool_decide (rq_state r ∈ nx_state n)
  && bool_decide (t_request_type (rq_transfer r) ∈ nx_request_type n)
  && unprocessed (now (w_session w)) (nx_processed_by n) (nx_processed_at_delay n) r
  && is_asked (nx_transfertool n) (request_transfertool cols id)
  && (nx_include_dependent n || bool_decide (previous_hops w id = []))
  && match nx_older_than n with Some o => bool_decide (rq_updated_at r < o)%Z | None => true end
  && is_asked (nx_rse_id n) (Some (t_dest_rse_id (rq_transfer r)))
  && match given share with
     | Some a => bool_decide (t_activity (rq_transfer r) = a)
     | None => is_asked (nx_activity n) (Some (t_activity (rq_transfer r)))
     end
  && filter_thread_work (request_bucket cols) (nx_total_workers n) (nx_worker_number n) x.
Definition longer_untouched (a b : nat * Request) : Prop := (rq_updated_at a.2 <= rq_updated_at b.2)%Z.
#[export] Instance longer_untouched_dec : RelDecision longer_untouched.
Proof. intros a b. unfold longer_untouched. apply _. Defined.
Definition next_rows (w : World) (n : Next) (share : option (string * nat)) : list (nat * Request) :=
  take (match share with Some (String _ _, limit) => limit | _ => nx_limit n end)
    (stable_sort longer_untouched (List.filter (next_due w n (fst <$> share)) (imap pair (w_requests w)))).
(** The names of the RSEs *)
Definition next_names (x : nat * Request) : ST World unit :=
  do! get_rse_name (t_dest_rse_id (rq_transfer x.2)) in
  match rq_source_rse_id x.2 with Some src => do! get_rse_name src in skipS | None => skipS end.
(** What was found for the shares before is marked again. *)
Definition next_of_share (n : Next) (result : list (nat * Request)) (share : option (string * nat)) : ST World (list (nat * Request)) :=
  let! w := getsS id in
  let rows := next_rows w n share in
  do! whenS (nx_mode_all n) (forS next_names rows) in
  let result := result ++ rows in
  do! match given (nx_processed_by n) with
      | Some daemon => if bool_decide (result = []) then skipS else mark_processed daemon (fst <$> result)
      | None => skipS
      end in
  retS result.
Definition get_and_mark_next (n : Next) : ST World (list (nat * Request)) :=
  foldS (next_of_share n) [] (match nx_activity_shares n with [] => [None] | shares => Some <$> shares end).
End listing.
