(* ===== verification/RequestFacts.v ===== *)
(** * The throttler and the hops

    Requests that wait are released oldest first, and no more of them than the volume allows; the
    walks along hops end. *)

From S2P Require Import Prelude StateError Counting Types Database Role RseSelector LockTables RuleGrouping RuleEngine Requests RuleDemo.

#[local] Arguments Z.add : simpl never.
#[local] Arguments Z.sub : simpl never.

(** ** Sums over lists *)

Definition total {A} (f : A -> Z) (l : list A) : Z := foldr Z.add 0%Z (f <$> l).

Lemma total_cons {A} (f : A -> Z) x l : total f (x :: l) = (f x + total f l)%Z.
Proof. done. Qed.
Lemma total_nonneg {A} (f : A -> Z) l : (forall x, x ∈ l -> 0 <= f x)%Z -> (0 <= total f l)%Z.
Proof.
  induction l as [|x l IH]; intros Hf; [done|]. rewrite total_cons.
  specialize (Hf x) as Hx. assert (0 <= total f l)%Z; [apply IH; set_solver|]. assert (0 <= f x)%Z; [set_solver|lia].
Qed.
Lemma total_filter_mono {A} (f : A -> Z) (P Q : A -> bool) l :
  (forall x, x ∈ l -> 0 <= f x)%Z -> (forall x, x ∈ l -> P x = true -> Q x = true) ->
  (total f (List.filter P l) <= total f (List.filter Q l))%Z.
Proof.
  induction l as [|x l IH]; intros Hf HPQ; simpl; [done|].
  assert (total f (List.filter P l) <= total f (List.filter Q l))%Z by (apply IH; set_solver).
  assert (0 <= f x)%Z by set_solver. specialize (HPQ x (list_elem_of_here _ _)).
  destruct (P x); [rewrite (HPQ eq_refl)|destruct (Q x)]; rewrite ?total_cons; lia.
Qed.
Lemma total_filter_or {A} (f : A -> Z) (P Q : A -> bool) l :
  (forall x, P x && Q x = false) ->
  total f (List.filter (fun x => P x || Q x) l) = (total f (List.filter P l) + total f (List.filter Q l))%Z.
Proof.
  intros Hd. induction l as [|x l IH]; simpl; [done|]. specialize (Hd x).
  destruct (P x), (Q x); simpl in *; try done; rewrite ?total_cons; lia.
Qed.
Lemma total_nil {A} (f : A -> Z) : total f [] = 0%Z.
Proof. done. Qed.

(** The total by key *)
Lemma total_by {A K} `{EqDecision K} (key : A -> K) (f : A -> Z) (l : list A) (ks : list K) :
  NoDup ks ->
  total f (List.filter (fun x => bool_decide (key x ∈ ks)) l) = total (fun k => total f (List.filter (fun x => bool_decide (key x = k)) l)) ks.
Proof.
  induction ks as [|k ks IH]; intros Hnd.
  - induction l as [|x l IHl]; [done|]. cbn [List.filter]. by rewrite bool_decide_false by apply not_elem_of_nil.
  - apply NoDup_cons in Hnd as [Hk Hnd]. rewrite total_cons, <-IH by done. rewrite <-total_filter_or.
    + f_equal. apply filter_ext. intros x. apply Bool.eq_iff_eq_true.
      rewrite orb_true_iff, !bool_decide_eq_true. apply elem_of_cons.
    + intros x. repeat case_bool_decide; try done. by subst.
Qed.

(** The greatest element of a list, for a total preorder *)
Lemma greatest {A} (le : A -> A -> bool) (l : list A) :
  (forall a b, le a b = true \/ le b a = true) -> (forall a b c, le a b = true -> le b c = true -> le a c = true) ->
  l <> [] -> exists m, m ∈ l /\ forall a, a ∈ l -> le a m = true.
Proof.
  intros Htot Htr. induction l as [|x l IH]; [done|]. intros _.
  assert (le x x = true) as Hx by (destruct (Htot x x); done).
  destruct (decide (l = [])) as [->|Hl]; [exists x; set_solver|].
  destruct (IH Hl) as (m & Hm & Hmax). destruct (Htot x m) as [Hle|Hle].
  - exists m. split; [set_solver|]. intros a [->|Ha]%elem_of_cons; auto.
  - exists x. split; [set_solver|]. intros a [->|Ha]%elem_of_cons; eauto.
Qed.

(** ** What a release changes *)

Lemma not_after_total b x y : not_after b x y = true \/ not_after b y x = true.
Proof. destruct b, x, y; simpl; auto; rewrite !bool_decide_eq_true; lia. Qed.
Lemma not_after_trans b x y z : not_after b x y = true -> not_after b y z = true -> not_after b x z = true.
Proof. destruct b, x, y, z; simpl; try done; rewrite !bool_decide_eq_true; lia. Qed.

Lemma imap_same {A B} (g : A -> B) (l : list A) : imap (fun _ x => g x) l = g <$> l.
Proof. induction l as [|x l IH]; simpl; [done|]. f_equal. exact IH. Qed.

Definition released (t : Z) (r : Request) : Request := upd_rq_state (fun _ => Q_QUEUED) (upd_rq_updated_at (fun _ => t) r).

Lemma release_run P w :
  (release P w).2 = upd_w_requests (imap (fun i r => if hit P i r then released (now (w_session w)) r else r)) w.
Proof. done. Qed.

Lemma bytes_of_cons r rs : bytes_of (r :: rs) = (t_bytes (rq_transfer r) + bytes_of rs)%Z.
Proof. done. Qed.

Section volume.
Context (w : World) (src dest : option string).

Lemma active_released (H : Request -> bool) :
  (forall r, r ∈ w_requests w -> H r = true -> persistent_request r && waiting src dest r = true) ->
  bytes_of (List.filter (fun r => persistent_request r && active src dest r)
             ((fun r => if H r then released (now (w_session w)) r else r) <$> w_requests w)) =
  (active_volume w src dest + total (t_bytes ∘ rq_transfer) (List.filter H (w_requests w)))%Z.
Proof.
  unfold active_volume. induction (w_requests w) as [|r l IH]; intros HH; [done|]. cbn [fmap list_fmap List.filter].
  assert (forall r, r ∈ l -> H r = true -> persistent_request r && waiting src dest r = true) as HH' by set_solver.
  specialize (IH HH'). specialize (HH r (list_elem_of_here _ _)).
  destruct (H r) eqn:Hr.
  - specialize (HH eq_refl). unfold waiting in HH. apply andb_true_iff in HH as [Hp [Hw Hm]%andb_true_iff]. apply bool_decide_eq_true in Hw.
    assert (persistent_request (released (now (w_session w)) r) && active src dest (released (now (w_session w)) r) = true) as ->
      by (apply andb_true_iff; split; [exact Hp|exact Hm]).
    assert (persistent_request r && active src dest r = false) as -> by (unfold active; rewrite Hw; cbn; by rewrite andb_false_r).
    rewrite bytes_of_cons, total_cons. change (t_bytes (rq_transfer (released (now (w_session w)) r))) with (t_bytes (rq_transfer r)).
    change ((t_bytes ∘ rq_transfer) r) with (t_bytes (rq_transfer r)). lia.
  - destruct (persistent_request r && active src dest r); rewrite ?bytes_of_cons; lia.
Qed.

Lemma volume_nonneg ds : (forall r, r ∈ w_requests w -> 0 <= t_bytes (rq_transfer r))%Z -> (0 <= volume_of w src dest ds)%Z.
Proof.
  intros Hb. apply total_nonneg. intros r Hr. unfold group_of, waiting_rows in Hr. rewrite !list_elem_of_In, !filter_In in Hr.
  apply Hb, list_elem_of_In, Hr.
Qed.

(** The datasets that are chosen fit into what is free. *)
Lemma chosen_fit (free : Z) (small : list DID) :
  (forall ds, 0 <= volume_of w src dest ds)%Z ->
  let chosen := List.filter (fun ds => bool_decide (cumulated w src dest (volume_of w src dest) small ds <= free)%Z) small in
  chosen <> [] -> (total (volume_of w src dest) chosen <= free)%Z.
Proof.
  intros Hv chosen Hne.
  destruct (greatest (fun a b => not_after (nulls_first w) (oldest_in w src dest a) (oldest_in w src dest b)) chosen) as (m & Hm & Hmax).
  - intros a b. apply not_after_total.
  - intros a b c. apply not_after_trans.
  - done.
  - unfold chosen in Hm. rewrite list_elem_of_In, filter_In, bool_decide_eq_true in Hm. destruct Hm as [_ Hm].
    etrans; [|exact Hm]. apply total_filter_mono; [done|]. intros x Hx Hc. apply Hmax. unfold chosen. rewrite list_elem_of_In, filter_In.
    split; [by apply list_elem_of_In|done].
Qed.
End volume.

Lemma filter_andb {A} (P Q : A -> bool) l : List.filter (fun x => P x && Q x) l = List.filter Q (List.filter P l).
Proof. induction l as [|x l IH]; simpl; [done|]. destruct (P x); simpl; [|done]. destruct (Q x); by rewrite IH. Qed.

Section per_volume.
Context (w : World) (src dest : option string) (volume : Z).
Let free : Z := (volume - active_volume w src dest)%Z.
Let small : list DID := List.filter (fun ds => bool_decide (volume_of w src dest ds <= free)%Z) (datasets_waiting w src dest).
Let fits (ds : DID) : bool :=
  bool_decide (ds ∈ small) && bool_decide (cumulated w src dest (volume_of w src dest) small ds <= free)%Z.
Let chosen : list DID := List.filter (fun ds => bool_decide (cumulated w src dest (volume_of w src dest) small ds <= free)%Z) small.
Let leaves (r : Request) : bool := persistent_request r && (waiting src dest r && fits (dataset_of w (t_did (rq_transfer r)))).

Lemma per_volume_requests :
  w_requests (release_waiting_requests_per_free_volume dest src volume w).2 =
  (fun r => if leaves r then released (now (w_session w)) r else r) <$> w_requests w.
Proof. rewrite <-imap_same. done. Qed.

Lemma fits_chosen ds : fits ds = bool_decide (ds ∈ chosen).
Proof.
  unfold fits, chosen. apply Bool.eq_iff_eq_true. rewrite andb_true_iff, !bool_decide_eq_true, !list_elem_of_In, filter_In.
  by rewrite bool_decide_eq_true.
Qed.

Lemma released_total : total (t_bytes ∘ rq_transfer) (List.filter leaves (w_requests w)) = total (volume_of w src dest) chosen.
Proof.
  assert (List.filter leaves (w_requests w) = List.filter (fun r => bool_decide (dataset_of w (t_did (rq_transfer r)) ∈ chosen)) (waiting_rows w src dest)) as ->.
  { unfold waiting_rows. rewrite <-filter_andb. apply filter_ext. intros r. unfold leaves. by rewrite <-fits_chosen, andb_assoc. }
  apply (total_by (fun r => dataset_of w (t_did (rq_transfer r)))).
  unfold chosen, small. rewrite NoDup_ListNoDup. apply List.NoDup_filter, List.NoDup_filter. rewrite <-NoDup_ListNoDup. apply NoDup_remove_dups.
Qed.
End per_volume.

(** C14: The throttler never makes more transfers active than a volume allows: after it released the
    waiting requests that fit, the bytes under way to (or from) an RSE are at most the volume, unless they
    were more before, and then none was added. *)
Theorem throttler_respects_volume dest src volume w n w' :
  (forall r, r ∈ w_requests w -> 0 <= t_bytes (rq_transfer r))%Z ->
  release_waiting_requests_per_free_volume dest src volume w = (Ok n, w') ->
  (active_volume w src dest <= active_volume w' src dest <= Z.max volume (active_volume w src dest))%Z.
Proof.
  intros Hb Hrun. assert (w' = (release_waiting_requests_per_free_volume dest src volume w).2) as -> by (by rewrite Hrun).
  unfold active_volume at 2 3. rewrite per_volume_requests, active_released.
  - rewrite released_total. set (chosen := List.filter _ _).
    assert (forall ds, 0 <= volume_of w src dest ds)%Z as Hv by (intros ds; by apply volume_nonneg).
    assert (0 <= total (volume_of w src dest) chosen)%Z by (apply total_nonneg; auto).
    destruct (decide (chosen = [])) as [->|Hne]; [rewrite total_nil; lia|].
    assert (total (volume_of w src dest) chosen <= volume - active_volume w src dest)%Z by exact (chosen_fit w src dest _ _ Hv Hne). lia.
  - intros r _ Hl. apply andb_true_iff in Hl as [-> [-> _]%andb_true_iff]. done.
Qed.

(** ** First in, first out *)

Lemma imap_pair_fst {A} (l : list A) : (imap pair l).*1 = seq 0 (length l).
Proof.
  apply list_eq. intros i. rewrite list_lookup_fmap, list_lookup_imap. destruct (l !! i) eqn:Hi; simpl.
  - symmetry. apply lookup_seq. split; [done|]. by apply lookup_lt_Some in Hi.
  - symmetry. apply lookup_ge_None in Hi. apply lookup_ge_None. by rewrite length_seq.
Qed.

(** The rows an update changes *)
Lemma hits_elem P l i : i ∈ (List.filter (fun x : nat * Request => hit P x.1 x.2) (imap pair l)).*1 <-> exists r, l !! i = Some r /\ hit P i r = true.
Proof.
  rewrite list_elem_of_fmap. split.
  - intros ([j r] & -> & Hj). rewrite list_elem_of_In, filter_In in Hj. destruct Hj as [Hj Hh]. apply list_elem_of_In, elem_of_lookup_imap in Hj as (k & y & [= -> ->] & Hk).
    by exists y.
  - intros (r & Hr & Hh). exists (i, r). split; [done|]. rewrite list_elem_of_In, filter_In. split; [|done].
    apply list_elem_of_In, elem_of_lookup_imap. by exists i, r.
Qed.
Lemma NoDup_filter_fst {A B} (f : A * B -> bool) (l : list (A * B)) : NoDup l.*1 -> NoDup (List.filter f l).*1.
Proof.
  induction l as [|x l IH]; simpl; [done|]. intros [Hx Hnd]%NoDup_cons. destruct (f x); simpl; [|by apply IH].
  apply NoDup_cons. split; [|by apply IH]. intros (y & Hy & [Hin _]%elem_of_filter_bool)%list_elem_of_fmap. apply Hx. rewrite Hy.
  apply list_elem_of_fmap. by exists y.
Qed.
Lemma hits_NoDup P l : NoDup (List.filter (fun x : nat * Request => hit P x.1 x.2) (imap pair l)).*1.
Proof. apply NoDup_filter_fst. rewrite imap_pair_fst. apply NoDup_seq. Qed.

#[export] Instance requested_before_trans w : Transitive (requested_before w).
Proof. intros i j k. apply not_after_trans. Qed.
#[export] Instance requested_before_total w : Total (requested_before w).
Proof. intros i j. apply not_after_total. Qed.

(** Those that wait *)
Definition queue_of (P : Request -> bool) (w : World) : list nat := select (fun r => persistent_request r && P r) (w_requests w).

Section fifo.
Context (P : Request -> bool) (count : nat) (w : World).
Hypothesis HP : forall t r, P (released t r) = false.
Let ids := oldest_waiting w P count.
Let w' := (release (fun i _ => bool_decide (i ∈ ids)) w).2.
Let sorted := merge_sort (requested_before w) (queue_of P w).

Lemma fifo_sorted : ids ++ drop count sorted = sorted.
Proof. apply take_drop. Qed.
Lemma sorted_queue : sorted ≡ₚ queue_of P w.
Proof. apply merge_sort_Permutation. Qed.
Lemma sorted_NoDup : NoDup (ids ++ drop count sorted).
Proof. rewrite fifo_sorted, sorted_queue. apply select_NoDup. Qed.
Lemma ids_queue i : i ∈ ids -> i ∈ queue_of P w.
Proof. intros Hi. rewrite <-sorted_queue, <-fifo_sorted. set_solver. Qed.

Lemma queue_after i : i ∈ queue_of P w' <-> i ∈ drop count sorted.
Proof.
  assert (i ∈ drop count sorted <-> i ∈ queue_of P w /\ i ∉ ids) as ->.
  { assert (i ∈ queue_of P w <-> i ∈ ids \/ i ∈ drop count sorted) as -> by (rewrite <-elem_of_app, fifo_sorted; by rewrite sorted_queue).
    pose proof sorted_NoDup as (_ & Hd & _)%NoDup_app.
    split; [intros Hi; split; [by right|intros H; by eapply Hd]|by intros [[?|?] ?]]. }
  unfold queue_of. rewrite !elem_of_select. unfold w'. rewrite release_run. cbn [w_requests upd_w_requests]. setoid_rewrite list_lookup_imap. split.
  - intros (r' & Hr' & [Hp HPr]%andb_true_iff). destruct (w_requests w !! i) as [r|]; simplify_eq/=. unfold hit in *.
    destruct (persistent_request r && bool_decide (i ∈ ids)) eqn:Hh; [by rewrite HP in HPr|].
    rewrite Hp in Hh. apply bool_decide_eq_false in Hh. split; [|done]. exists r. by rewrite Hp, HPr.
  - intros [(r & Hr & HPr) Hi]. exists r. rewrite Hr. cbn. unfold hit. by rewrite (bool_decide_false (i ∈ ids)), andb_false_r by done.
Qed.

Lemma fifo_count : (release (fun i _ => bool_decide (i ∈ ids)) w).1 = Ok (length ids).
Proof.
  unfold release, update_where. cbn [fst]. f_equal. rewrite <-(length_fmap fst). apply Permutation_length, NoDup_Permutation.
  - apply hits_NoDup.
  - by pose proof sorted_NoDup as (Hnd & _)%NoDup_app.
  - intros i. rewrite hits_elem. unfold hit. split.
    + by intros (r & _ & [_ Hi%bool_decide_eq_true]%andb_true_iff).
    + intros Hi. pose proof (ids_queue i Hi) as (r & Hr & [Hp _]%andb_true_iff)%elem_of_select. exists r.
      by rewrite Hp, (bool_decide_true (i ∈ ids)).
Qed.

Lemma fifo_order i j : i ∈ ids -> j ∈ queue_of P w' -> requested_before w i j.
Proof.
  intros Hi Hj%queue_after. assert (StronglySorted (requested_before w) (ids ++ drop count sorted)) as Hs.
  { rewrite fifo_sorted. apply StronglySorted_merge_sort; apply _. }
  by eapply StronglySorted_app_1_elem_of.
Qed.

Lemma fifo_length : length ids = Nat.min count (length (queue_of P w)) /\ (length ids + length (queue_of P w') = length (queue_of P w))%nat.
Proof.
  assert (length (queue_of P w') = length (drop count sorted)) as ->.
  { apply Permutation_length, NoDup_Permutation; [apply select_NoDup| |apply queue_after].
    by pose proof sorted_NoDup as (_ & _ & Hnd)%NoDup_app. }
  rewrite <-sorted_queue, <-length_app, fifo_sorted. split; [|done]. unfold ids, oldest_waiting. by rewrite length_take.
Qed.
End fifo.

(** C15: First in, first out: of the requests that wait, as many as asked for are released (all, when
    there are fewer), the others wait on, and none that was released had been requested after one that
    still waits. *)
Theorem fifo_releases_oldest dest src activity count account w n w' :
  let queue := queue_of (fun r => waiting src dest r && of_activity activity account r) in
  release_waiting_requests_fifo dest src activity count account w = (Ok n, w') ->
  n = Nat.min count (length (queue w)) /\ (n + length (queue w') = length (queue w))%nat /\
  forall i j, i ∈ queue w -> i ∉ queue w' -> j ∈ queue w' -> requested_before w i j.
Proof.
  set (P := fun r => waiting src dest r && of_activity activity account r). intros queue Hrun.
  assert (forall t r, P (released t r) = false) as HP by done.
  change (release (fun i _ => bool_decide (i ∈ oldest_waiting w P count)) w = (Ok n, w')) in Hrun.
  assert (w' = (release (fun i _ => bool_decide (i ∈ oldest_waiting w P count)) w).2) as -> by (by rewrite Hrun).
  pose proof (fifo_count P count w HP) as Hn. rewrite Hrun in Hn. injection Hn as ->.
  destruct (fifo_length P count w HP) as [Hlen Hsum]. split_and!; [done|done|]. intros i j Hi Hni Hj.
  apply (fifo_order P count w HP); [|done]. unfold queue in Hi. rewrite <-(sorted_queue P w), <-(fifo_sorted P count w) in Hi.
  apply elem_of_app in Hi as [Hi|Hi]; [done|]. by apply queue_after in Hi.
Qed.

(** ** Walking back along hops *)

Section walking.
Context (parents : gmap nat nat) (rank : nat -> nat).
Hypothesis Hrank : forall cur p, parents !! cur = Some p -> (rank p < rank cur)%nat.

Lemma walk_back_total fuel cur (seen : gset nat) :
  seen ⊆ dom parents -> (forall x, x ∈ seen -> rank cur < rank x)%nat -> (size (dom parents) < size seen + fuel)%nat ->
  exists path, walk_back fuel parents cur = Ok path.
Proof.
  revert cur seen. induction fuel as [|fuel IH]; intros cur seen Hsub Hlt Hsize.
  - pose proof (subseteq_size _ _ Hsub). lia.
  - simpl. destruct (parents !! cur) as [p|] eqn:Hp; [|eauto].
    destruct (IH p ({[cur]} ∪ seen)) as [path Hpath]; [..|rewrite Hpath; simpl; eauto].
    + apply elem_of_dom_2 in Hp. set_solver.
    + intros x [->%elem_of_singleton|Hx]%elem_of_union; [by apply Hrank|]. specialize (Hrank _ _ Hp). specialize (Hlt x Hx). lia.
    + rewrite size_union, size_singleton; [lia|]. assert (cur ∉ seen); [intros Hc; specialize (Hlt cur Hc); lia|set_solver].
Qed.
End walking.

(** A path from hop to hop *)
Fixpoint linked (next : nat -> nat -> Prop) (path : list nat) : Prop :=
  match path with
  | a :: (b :: _) as path => next a b /\ linked next path
  | _ => True
  end.
Lemma linked_snoc next path a b : linked next (path ++ [a]) -> next a b -> linked next ((path ++ [a]) ++ [b]).
Proof. induction path as [|x [|y path] IH]; simpl in *; [done|naive_solver|naive_solver]. Qed.

Lemma walk_back_linked fuel (parents : gmap nat nat) cur path :
  walk_back fuel parents cur = Ok path ->
  (exists init, path = init ++ [cur]) /\ (exists start, head path = Some start /\ parents !! start = None) /\
  linked (fun a b => parents !! b = Some a) path.
Proof.
  revert cur path. induction fuel as [|fuel IH]; intros cur path; simpl; [done|].
  destruct (parents !! cur) as [p|] eqn:Hp; [|intros [= <-]; split_and!; [by exists []|by exists cur|done]].
  destruct (walk_back fuel parents p) as [path'|] eqn:Hw; [|done]. simpl. intros [= <-].
  destruct (IH p path' Hw) as ((init & ->) & (start & Hs & Hnone) & Hl). split_and!; [by exists (init ++ [p])| |by apply linked_snoc].
  exists start. split; [by destruct init|done].
Qed.

Lemma traverse_succeeds {A B} (f : A -> result B) l : (forall a, a ∈ l -> exists b, f a = Ok b) -> exists bs, traverse f l = Ok bs.
Proof.
  induction l as [|a l IH]; intros Hf; simpl; [eauto|]. destruct (Hf a) as [b ->]; [set_solver|]. simpl.
  destruct IH as [bs ->]; [set_solver|]. simpl. eauto.
Qed.

Lemma linked_mono (next next' : nat -> nat -> Prop) path :
  (forall a b, next a b -> next' a b) -> linked next path -> linked next' path.
Proof. intros Hn. induction path as [|x [|y path] IH]; simpl in *; [done..|]. naive_solver. Qed.

Definition parents_of (w : World) (id initial : nat) : gmap nat nat :=
  list_to_map (rev ((fun h : nat * nat * nat => (h.1.2, h.1.1)) <$>
    List.filter (fun h => bool_decide (h.2 = initial)) (List.filter (concerned w id) (w_hops w)))).
Lemma parents_hops w id initial cur p : parents_of w id initial !! cur = Some p -> (p, cur, initial) ∈ w_hops w.
Proof.
  intros Hp%elem_of_list_to_map_2. rewrite list_elem_of_In, <-in_rev, <-list_elem_of_In in Hp.
  apply list_elem_of_fmap in Hp as ([[a b] c] & [= -> ->] & Hin).
  rewrite list_elem_of_In, !filter_In in Hin. destruct Hin as [[Hin _] Hi]. apply bool_decide_eq_true in Hi.
  simpl in Hi. subst c. by apply list_elem_of_In.
Qed.
(** The hops of a transfer that the request is on *)
Definition on_transfer (w : World) (id initial : nat) : Prop := exists from to, (from, to, initial) ∈ w_hops w /\ (from = id \/ initial = id).
Lemma concerned_true w id h : concerned w id h = true <-> on_transfer w id h.2.
Proof.
  unfold concerned. rewrite existsb_elem. split.
  - intros ([[a b] c] & Hin & [Hc%bool_decide_eq_true Hid]%andb_true_iff). cbn in *. subst c. exists a, b. split; [done|].
    apply orb_true_iff in Hid as [Ha%bool_decide_eq_true|Ha%bool_decide_eq_true]; tauto.
  - intros (a & b & Hin & Hid). exists (a, b, h.2). split; [done|]. cbn. rewrite bool_decide_true by done.
    apply orb_true_iff. rewrite !bool_decide_eq_true. tauto.
Qed.
Lemma concerned_hops w id initial : initial ∈ remove_dups (List.filter (concerned w id) (w_hops w)).*2 <-> on_transfer w id initial.
Proof.
  rewrite elem_of_remove_dups, list_elem_of_fmap. split.
  - intros (h & -> & [_ Hc]%elem_of_filter_bool). by apply concerned_true.
  - intros Ht. pose proof Ht as (a & b & Hin & _). exists (a, b, initial). split; [done|]. apply elem_of_filter_bool. split; [done|]. by apply concerned_true.
Qed.
Lemma parents_none w id initial cur p : on_transfer w id initial -> parents_of w id initial !! cur = None -> (p, cur, initial) ∉ w_hops w.
Proof.
  intros Ht Hnone%not_elem_of_list_to_map Hin. apply Hnone. apply list_elem_of_fmap. exists (cur, p). split; [done|].
  rewrite list_elem_of_In, <-in_rev, <-list_elem_of_In. apply list_elem_of_fmap. exists (p, cur, initial). split; [done|].
  apply elem_of_filter_bool. split; [|by apply bool_decide_eq_true]. apply elem_of_filter_bool. split; [done|]. by apply concerned_true.
Qed.
Lemma size_of_list {A} (l : list (nat * A)) : (size (list_to_map l : gmap nat A) <= length l)%nat.
Proof. induction l as [|[k v] l IH]; simpl; [by rewrite map_size_empty|]. rewrite map_size_insert. destruct (_ !! k); simpl; lia. Qed.
Lemma parents_size w id initial : (size (dom (parents_of w id initial)) <= length (List.filter (concerned w id) (w_hops w)))%nat.
Proof.
  rewrite size_dom. unfold parents_of. etrans; [apply size_of_list|]. rewrite length_rev, length_fmap. apply List.filter_length_le.
Qed.

(** C16: When the hops of every transfer go up in some rank, and so never in a circle, the paths a request is on are found without
    running out of rounds: exactly one for every transfer that has a hop from the request, or that is for the request itself.
    Each path ends at the request of its transfer, has the transfer's hops of the table between its requests, and starts where
    the transfer has no earlier hop. *)
Theorem paths_of_hops w id (rank : nat -> nat) :
  (forall from to final, (from, to, final) ∈ w_hops w -> rank from < rank to)%nat ->
  exists paths, fetch_paths w id = Ok paths /\
    NoDup paths.*1 /\ (forall initial, initial ∈ paths.*1 <-> on_transfer w id initial) /\
    forall initial path, (initial, path) ∈ paths ->
      (exists init, path = init ++ [initial]) /\
      (exists start, head path = Some start /\ forall p, (p, start, initial) ∉ w_hops w) /\
      linked (fun a b => (a, b, initial) ∈ w_hops w) path.
Proof.
  intros Hrank. set (hops := List.filter (concerned w id) (w_hops w)).
  set (f := fun initial => let* path := walk_back (S (S (length hops))) (parents_of w id initial) initial in Ok (initial, path)).
  assert (forall initial, exists path, f initial = Ok (initial, path) /\ walk_back (S (S (length hops))) (parents_of w id initial) initial = Ok path) as Hpath.
  { intros initial. destruct (walk_back_total (parents_of w id initial) rank) with (fuel := S (S (length hops))) (cur := initial) (seen := ∅ : gset nat) as [path Hpath].
    - intros cur p Hp%parents_hops. by apply (Hrank _ _ initial).
    - set_solver.
    - set_solver.
    - rewrite size_empty. pose proof (parents_size w id initial) as Hsize. fold hops in Hsize. lia.
    - exists path. unfold f. by rewrite Hpath. }
  destruct (traverse_succeeds f (remove_dups hops.*2)) as [paths Hpaths].
  { intros initial _. destruct (Hpath initial) as (path & -> & _). eauto. }
  exists paths. split; [exact Hpaths|]. apply traverse_Ok in Hpaths.
  assert (paths.*1 = remove_dups hops.*2) as Hkeys.
  { clear -Hpaths Hpath. induction Hpaths as [|i p l l' Hi _ IH]; [done|]. cbn. destruct (Hpath i) as (path & Hf & _). rewrite Hf in Hi.
    injection Hi as <-. by rewrite IH. }
  rewrite Hkeys. split_and!; [apply NoDup_remove_dups|intros initial; apply concerned_hops|]. intros initial path Hin.
  assert (on_transfer w id initial) as Ht.
  { apply concerned_hops. fold hops. rewrite <-Hkeys. apply list_elem_of_fmap. by exists (initial, path). }
  apply list_elem_of_lookup in Hin as [i Hi]. destruct (Forall2_lookup_r _ _ _ _ _ Hpaths Hi) as (initial' & _ & Hrun).
  destruct (Hpath initial') as (path' & Hf & Hwalk). rewrite Hf in Hrun. simplify_eq.
  apply walk_back_linked in Hwalk as (Hend & (start & Hs & Hnone) & Hl). split_and!; [done| |].
  - exists start. split; [done|]. intros p. by eapply parents_none.
  - eapply linked_mono; [|exact Hl]. intros a b. apply parents_hops.
Qed.

(** ** An example: three files wait for B, a transfer of another is under way *)

#[local] Open Scope list_scope.

Definition demo_waits (file : string) (requested bytes : Z) (state : RequestState) : Request :=
  MkRequest (MkTransfer "B" ("data", file)%string "r1" TRANSFER (Some 0%Z) alice (Some requested) "User" None None None bytes None None None)
    state (Some "A"%string) None None None None false None None None 0 0 Persistent.
Definition demo_queue : World :=
  upd_w_requests (fun _ => [demo_waits "f3" 5 10 Q_WAITING; demo_waits "f4" 3 20 Q_WAITING; demo_waits "f5" 4 15 Q_WAITING; demo_waits "f6" 1 40 Q_SUBMITTED])
    demo_world.

(** A volume of 80 leaves room for the two files requested first. *)
Lemma throttler_respects_volume_witness :
  exists w', release_waiting_requests_per_free_volume (Some "B"%string) None 80 demo_queue = (Ok 2%nat, w') /\
    (active_volume demo_queue None (Some "B"%string) <= active_volume w' None (Some "B"%string) <= Z.max 80 (active_volume demo_queue None (Some "B"%string)))%Z.
Proof.
  eexists. split; [by vm_compute|]. eapply (throttler_respects_volume (Some "B"%string) None 80 demo_queue 2); [|by vm_compute].
  intros r Hr. repeat (apply elem_of_cons in Hr as [->|Hr]; [by vm_compute|]). by apply elem_of_nil in Hr.
Defined.

Lemma fifo_releases_oldest_witness :
  exists w', release_waiting_requests_fifo (Some "B"%string) None None 2 None demo_queue = (Ok 2%nat, w') /\
    queue_of (fun r => waiting None (Some "B"%string) r && of_activity None None r) w' = [0%nat] /\
    requested_before demo_queue 1 0.
Proof.
  eexists. split; [by vm_compute|]. split; [by vm_compute|].
  edestruct (fifo_releases_oldest (Some "B"%string) None None 2 None demo_queue 2) as (_ & _ & Horder); [by vm_compute|].
  apply (Horder 1%nat 0%nat).
  - apply (bool_decide_unpack _). by vm_compute.
  - apply (bool_decide_unpack _). by vm_compute.
  - apply (bool_decide_unpack _). by vm_compute.
Defined.

(** Two hops lead to request 0. *)
Definition demo_multihop : World := upd_w_hops (fun _ => [(2, 1, 0); (1, 0, 0)]%nat) demo_queue.
Lemma paths_of_hops_witness :
  exists paths, fetch_paths demo_multihop 1 = Ok paths /\ paths = [(0, [2; 1; 0])]%nat /\
    (forall initial, initial ∈ paths.*1 <-> on_transfer demo_multihop 1 initial).
Proof.
  destruct (paths_of_hops demo_multihop 1 (fun i => 2 - i)%nat) as (paths & Hpaths & _ & Hspec & _).
  - intros from to final Hin. repeat (apply elem_of_cons in Hin as [[= -> -> ->]|Hin]; [lia|]). by apply elem_of_nil in Hin.
  - exists paths. split; [exact Hpaths|]. split; [|exact Hspec].
    assert (fetch_paths demo_multihop 1 = Ok [(0, [2; 1; 0])]%nat) as Hrun by (by vm_compute). rewrite Hrun in Hpaths. by injection Hpaths as <-.
Defined.
