(* ===== verification/RequestListingFacts.v ===== *)
(** * What daemons are handed

    A query hands out the oldest requests that are due, each with exactly the replicas that can serve it, and
    not to the same daemon again for a while; and workers that have numbers share out all requests. *)

From S2P Require Import Prelude StateError PyString Types Database RseSelector LockTables RuleGrouping RuleEngine Requests RequestFacts RuleInvariant.
From S2P Require Import Role RuleDemo Heartbeats HeartbeatsFacts TransferPaths RequestListing.

Section listing.
Variable cols : Columns.

(** ** What a query does *)

Definition mine (s : Selection) (x : nat * Request) : bool := filter_thread_work (request_bucket cols) (sel_total_workers s) (sel_worker_number s) x.
Definition found (w : World) (s : Selection) : list RequestWithSources := omap (listed cols w s) (sub_requests cols w s).
Definition handed (daemon : string) (t : Z) (r : Request) : Request :=
  upd_rq_last_processed daemon (t + utc_offset cols) (upd_rq_updated_at (fun _ => t) r).
Definition handed_out (daemon : string) (ids : list nat) (w : World) : World :=
  upd_w_requests (imap (fun i r => if persistent_request r && bool_decide (i ∈ ids) then handed daemon (now (w_session w)) r else r)) w.
Definition after_listing (w : World) (s : Selection) : World :=
  match given (sel_processed_by s) with Some daemon => handed_out daemon (omap rw_id (found w s)) w | None => w end.
Lemma listing_run s w :
  list_and_mark_transfer_requests_and_source_replicas cols s w = (Ok (found w s), after_listing w s).
Proof.
  unfold list_and_mark_transfer_requests_and_source_replicas, after_listing, bindS, getsS. simpl. by destruct (given (sel_processed_by s)).
Qed.

Lemma earlier_total a b : ~ earlier a b -> earlier b a.
Proof. unfold earlier. lia. Qed.
Lemma earlier_trans a b c : earlier a b -> earlier b c -> earlier a c.
Proof. unfold earlier. lia. Qed.

Lemma limited_prefix {A} limit (l : list A) : exists rest, l = limited limit l ++ rest /\ (rest <> [] -> exists n, limit = Some (S n) /\ length (limited limit l) = S n).
Proof.
  destruct limit as [[|n]|]; try by exists []; rewrite app_nil_r.
  exists (drop (S n) l). split; [symmetry; apply (take_drop (S n))|]. intros Hr. exists n. split; [done|].
  cbn [limited]. rewrite length_take. destruct (le_lt_dec (S n) (length l)); [lia|]. destruct Hr. apply drop_ge. lia.
Qed.

Lemma omap_shorter {A B} (f : A -> option B) (l : list A) : length (omap f l) <= length l.
Proof. induction l as [|a l IH]; simpl; [done|]. destruct (f a); simpl; unfold omap in IH; lia. Qed.

Definition due_rows (w : World) (s : Selection) : list (nat * Request) :=
  List.filter (fun x => due_request cols w s x && mine s x) (imap pair (w_requests w)).
Lemma elem_of_due_rows w s i r : (i, r) ∈ due_rows w s <-> w_requests w !! i = Some r /\ due_request cols w s (i, r) = true /\ mine s (i, r) = true.
Proof.
  unfold due_rows. rewrite elem_of_filter_bool, andb_true_iff, elem_of_lookup_imap. split.
  - intros ((j & r' & [= <- <-] & Hr) & Hd). done.
  - intros (Hr & Hd). split; [by exists i, r|done].
Qed.
Lemma NoDup_due_rows w s : NoDup (due_rows w s).*1.
Proof. apply NoDup_filter_fst. rewrite imap_pair_fst. apply NoDup_seq. Qed.
(** The rows handed out are the first of those that are due, in the order of creation. *)
Lemma sub_requests_first w s : exists rest, sub_requests cols w s ++ rest ≡ₚ due_rows w s /\ StronglySorted earlier (sub_requests cols w s ++ rest) /\
  (rest <> [] -> exists n, sel_limit s = Some (S n) /\ length (sub_requests cols w s) = S n).
Proof.
  unfold sub_requests. fold (mine s). change (List.filter _ _) with (due_rows w s).
  destruct (limited_prefix (sel_limit s) (stable_sort earlier (due_rows w s))) as (rest & He & Hr). exists rest.
  rewrite <-He. split; [apply stable_sort_Permutation|]. split; [apply stable_sort_sorted; [apply earlier_total|apply earlier_trans]|done].
Qed.
Lemma elem_of_sub_requests w s x : x ∈ sub_requests cols w s -> x ∈ due_rows w s.
Proof. destruct (sub_requests_first w s) as (rest & Hp & _). intros Hx. rewrite <-Hp. apply elem_of_app. by left. Qed.

Lemma listed_id w s x rws : listed cols w s x = Some rws -> rws = request_with_sources cols w s x /\ rw_id rws = Some x.1.
Proof. unfold listed. destruct (_ && _); [done|]. intros [= <-]. by destruct x. Qed.
Lemma elem_of_found w s rws : rws ∈ found w s <-> exists x, x ∈ sub_requests cols w s /\ listed cols w s x = Some rws.
Proof. unfold found. by rewrite list_elem_of_omap. Qed.
Lemma found_all w s : sel_required_source_rse_attrs s = [] -> length (found w s) = length (sub_requests cols w s).
Proof.
  intros Ha. unfold found. induction (sub_requests cols w s) as [|x l IH]; [done|]. cbn. unfold listed at 1. rewrite Ha. cbn. by f_equal.
Qed.
Lemma found_ids w s : omap rw_id (found w s) = fst <$> List.filter (fun x => bool_decide (is_Some (listed cols w s x))) (sub_requests cols w s).
Proof.
  unfold found. induction (sub_requests cols w s) as [|x l IH]; simpl; [done|]. destruct (listed cols w s x) as [rws|] eqn:Hl; simpl.
  - apply listed_id in Hl as [_ ->]. simpl. f_equal. apply IH.
  - apply IH.
Qed.
Lemma handed_lookup daemon ids w i r : w_requests w !! i = Some r ->
  w_requests (handed_out daemon ids w) !! i = Some (if persistent_request r && bool_decide (i ∈ ids) then handed daemon (now (w_session w)) r else r).
Proof. intros Hr. unfold handed_out. simpl. by rewrite list_lookup_imap, Hr. Qed.

(** ** The sources of a request *)

(** The RSEs that can serve it: those with an available replica that are not deleted and have the attributes
    asked for, and its destination when that stages. *)
Definition can_serve (w : World) (s : Selection) (r : Request) (rse : string) : Prop :=
  let dest := t_dest_rse_id (rq_transfer r) in
  rse = dest /\ t_request_type (rq_transfer r) = STAGEIN /\ RseSelector.attribute_true (rse_attribute (w_session w) dest "staging_required") = true \/
  rse <> dest /\ rse_there w rse (fun _ => true) = true /\ has_attributes w (sel_required_source_rse_attrs s) rse = true /\
  exists p, p ∈ w_replicas w /\ persistent_replica p = true /\ rp_did p = t_did (rq_transfer r) /\ rp_rse_id p = rse /\ rp_state p = R_AVAILABLE.
Lemma elem_of_sources_found w s id r rse : rse ∈ rs_rse <$> sources_found cols w s id r <->
  rse <> t_dest_rse_id (rq_transfer r) /\ rse_there w rse (fun _ => true) = true /\ has_attributes w (sel_required_source_rse_attrs s) rse = true /\
  exists p, p ∈ w_replicas w /\ persistent_replica p = true /\ rp_did p = t_did (rq_transfer r) /\ rp_rse_id p = rse /\ rp_state p = R_AVAILABLE.
Proof.
  unfold sources_found. rewrite list_elem_of_fmap. setoid_rewrite list_elem_of_fmap. setoid_rewrite elem_of_filter_bool. unfold source_replica.
  setoid_rewrite andb_true_iff. setoid_rewrite andb_true_iff. split.
  - intros (src & -> & p & -> & Hp & Hsrc & Ha). rewrite !andb_true_iff, negb_true_iff, bool_decide_eq_false, !bool_decide_eq_true in Hsrc.
    simpl. destruct Hsrc as ((((? & ?) & ?) & ?) & ?). split_and!; [done..|]. by exists p.
  - intros (Hne & Hthere & Ha & p & Hp & Hper & Hd & <- & Hst). exists (source_of cols w id r p). split; [done|]. exists p. split; [done|]. split; [done|]. split; [|done].
    split; [|done]. rewrite !andb_true_iff, negb_true_iff, bool_decide_eq_false, !bool_decide_eq_true. done.
Qed.
Lemma elem_of_sources w s id r rse : rse ∈ rs_rse <$> rw_sources (request_with_sources cols w s (id, r)) <-> can_serve w s r rse.
Proof.
  simpl. rewrite fmap_app, elem_of_app, elem_of_sources_found. unfold can_serve, staging_source. apply or_iff_compat_r.
  destruct (decide (t_request_type (rq_transfer r) = STAGEIN)) as [Ht|Ht].
  - rewrite bool_decide_eq_true_2 by done. destruct (RseSelector.attribute_true _); simpl.
    + rewrite list_elem_of_singleton. tauto.
    + split; [by intros ?%elem_of_nil|by intros (_ & _ & ?)].
  - rewrite bool_decide_eq_false_2 by done. simpl. split; [by intros ?%elem_of_nil|by intros (_ & ? & _)].
Qed.
Lemma NoDup_sources w s id r : replica_keys_ok (core w) -> NoDup (rs_rse <$> rw_sources (request_with_sources cols w s (id, r))).
Proof.
  intros Hkeys. simpl. rewrite fmap_app. apply NoDup_app. split_and!.
  - unfold staging_source. destruct (_ && _); simpl; [apply NoDup_singleton|constructor].
  - intros rse Hs Hf. apply elem_of_sources_found in Hf as [Hne _]. unfold staging_source in Hs. destruct (_ && _); simpl in Hs; [|by apply elem_of_nil in Hs].
    by apply list_elem_of_singleton in Hs.
  - unfold sources_found. rewrite <-list_fmap_compose. unfold replica_keys_ok in Hkeys. change (k_replicas (core w)) with (w_replicas w) in Hkeys. revert Hkeys.
    assert (forall (f : Replica -> bool) l, (forall p, f p = true -> persistent_replica p = true /\ rp_did p = t_did (rq_transfer r)) ->
      (forall i j p q, l !! i = Some p -> l !! j = Some q -> persistent_replica p = true -> persistent_replica q = true -> replica_key p = replica_key q -> i = j) ->
      NoDup (rs_rse ∘ source_of cols w id r <$> List.filter f l)) as Hgen.
    { intros f l Hf. induction l as [|p l IH]; intros Hk; [constructor|]. cbn [List.filter].
      assert (NoDup (rs_rse ∘ source_of cols w id r <$> List.filter f l)) as Hd.
      { apply IH. intros i j q q' Hi Hj ? ? ?. assert (S i = S j) as [=]; [|done]. by apply (Hk (S i) (S j) q q'). }
      destruct (f p) eqn:Hfp; [|done]. rewrite fmap_cons. apply NoDup_cons. split; [|done]. intros (q & Hq & [Hin Hfq]%elem_of_filter_bool)%list_elem_of_fmap.
      apply list_elem_of_lookup in Hin as [j Hj]. destruct (Hf p Hfp), (Hf q Hfq). assert (0 = S j) as [=]. apply (Hk 0 (S j) p q); [done..|].
      unfold replica_key. simpl in Hq. congruence. }
    intros Hkeys. apply Hgen; [|done]. intros p Hp. unfold source_replica in Hp. rewrite !andb_true_iff, !bool_decide_eq_true in Hp. tauto.
Qed.
Lemma requested_position_ok w s id r i : rw_requested_source (request_with_sources cols w s (id, r)) = Some i ->
  exists src, rw_sources (request_with_sources cols w s (id, r)) !! i = Some src /\ Some (rs_rse src) = rq_source_rse_id r.
Proof.
  simpl. unfold requested_position. destruct (rq_source_rse_id r) as [rse|]; [|done]. intros ([j src] & Hl & Hi)%fmap_Some. simpl in Hi. subst j.
  apply last_Some in Hl as [pre Hl]. assert ((i, src) ∈ List.filter (fun x : nat * RequestSource => bool_decide (rs_rse x.2 = rse))
    (imap (fun i0 s0 => ((length (staging_source w r) + i0)%nat, s0)) (sources_found cols w s id r))) as Hin by (rewrite Hl; apply elem_of_app; right; by left).
  apply elem_of_filter_bool in Hin as [Hin Hr]. apply elem_of_lookup_imap in Hin as (k & src' & Heq & Hk). injection Heq as -> <-. exists src.
  split; [by rewrite lookup_app_r, Nat.add_comm, Nat.add_sub by lia|]. apply bool_decide_eq_true in Hr. simpl in Hr. congruence.
Qed.

Lemma due_persistent w s i r : due_request cols w s (i, r) = true -> persistent_request r = true.
Proof. unfold due_request, waiting. rewrite !andb_true_iff. tauto. Qed.
Lemma found_due w s rws : rws ∈ found w s -> exists id r, rw_id rws = Some id /\ w_requests w !! id = Some r /\ due_request cols w s (id, r) = true /\
  mine s (id, r) = true /\ rws = request_with_sources cols w s (id, r).
Proof.
  intros ([id r] & Hx & [-> _]%listed_id)%elem_of_found. apply elem_of_sub_requests, elem_of_due_rows in Hx as (Hr & Hd & Hm). by exists id, r.
Qed.
Lemma elem_of_found_ids w s id : id ∈ omap rw_id (found w s) <-> Some id ∈ rw_id <$> found w s.
Proof.
  rewrite list_elem_of_omap, list_elem_of_fmap. split.
  - intros (rws & Hin & Hid). by exists rws.
  - intros (rws & Hid & Hin). by exists rws.
Qed.
Lemma NoDup_found w s : NoDup (rw_id <$> found w s).
Proof.
  assert (rw_id <$> found w s = Some <$> omap rw_id (found w s)) as ->.
  { assert (forall rws, rws ∈ found w s -> is_Some (rw_id rws)) as Hall by (intros rws (id & r & -> & _)%found_due; done).
    revert Hall. generalize (found w s). clear. intros l. induction l as [|rws l IH]; intros Hall; [done|]. simpl.
    destruct (Hall rws) as [id ->]; [by left|]. simpl. f_equal. apply IH. intros. apply Hall. by right. }
  apply (NoDup_fmap_2 Some). rewrite found_ids. apply NoDup_filter_fst. destruct (sub_requests_first w s) as (rest & Hp & _).
  pose proof (NoDup_due_rows w s) as Hd. rewrite <-Hp, fmap_app in Hd. by apply NoDup_app in Hd as [? _].
Qed.
(** A request that is due and not handed out has no source with the attributes asked for, or is younger than
    all that are handed out, which are as many as the limit. *)
Lemma not_found w s id r : w_requests w !! id = Some r -> due_request cols w s (id, r) = true -> mine s (id, r) = true -> Some id ∉ rw_id <$> found w s ->
  sel_required_source_rse_attrs s <> [] /\ (forall rse, rse <> t_dest_rse_id (rq_transfer r) -> ~ can_serve w s r rse) \/
  exists n, sel_limit s = Some (S n) /\ length (sub_requests cols w s) = S n /\
    forall id' r', Some id' ∈ rw_id <$> found w s -> w_requests w !! id' = Some r' -> (rq_created_at r' <= rq_created_at r)%Z.
Proof.
  intros Hr Hd Hm Hnot. destruct (sub_requests_first w s) as (rest & Hp & Hs & Hl). assert ((id, r) ∈ sub_requests cols w s ++ rest) as Hin.
  { rewrite Hp. by apply elem_of_due_rows. }
  apply elem_of_app in Hin as [Hin|Hin].
  - left. destruct (listed cols w s (id, r)) as [rws|] eqn:Hlist.
    + destruct Hnot. apply list_elem_of_fmap. exists rws. apply listed_id in Hlist as Hid. split; [by destruct Hid|]. apply elem_of_found. by exists (id, r).
    + unfold listed in Hlist. destruct (_ && _) eqn:Hb; [|done]. apply andb_true_iff in Hb as [Ha%negb_true_iff Hn%bool_decide_eq_true].
      apply bool_decide_eq_false in Ha. split; [done|]. intros rse Hne [(? & _)|Hs']; [done|]. simpl in Hn.
      assert (rse ∈ rs_rse <$> sources_found cols w s id r) as Hx by (by apply elem_of_sources_found). rewrite Hn in Hx. by apply elem_of_nil in Hx.
  - right. destruct Hl as (n & Hn & Hlen); [by intros ->; apply elem_of_nil in Hin|]. exists n. split; [done|]. split; [done|]. intros id' r' Hid' Hr'.
    apply list_elem_of_fmap in Hid' as (rws & Hid' & ([j q] & Hq & [_ Hj]%listed_id)%elem_of_found). simpl in Hj. assert (j = id') as -> by congruence.
    pose proof (elem_of_sub_requests _ _ _ Hq) as (Hq' & _)%elem_of_due_rows. assert (q = r') as -> by congruence.
    exact (StronglySorted_app_1_elem_of _ _ _ _ _ Hs Hq Hin).
Qed.

End listing.

(** ** Workers share the requests out *)

Definition with_worker (s : Selection) (number : nat * nat) : Selection :=
  MkSelection (sel_processed_by s) (sel_processed_at_delay s) number.2 number.1 (sel_limit s) (sel_activity s) (sel_older_than s) (sel_rses s)
    (sel_request_type s) (sel_request_state s) (sel_required_source_rse_attrs s) (sel_ignore_availability s) (sel_transfertool s).
(** The workers query in turn, each with its number and their number. *)
Fixpoint in_turn (cols : Columns) (s : Selection) (numbers : list (nat * nat)) : ST World (list (list RequestWithSources)) :=
  match numbers with
  | [] => retS []
  | number :: numbers =>
      let! found := list_and_mark_transfer_requests_and_source_replicas cols (with_worker s number) in
      let! rest := in_turn cols s numbers in
      retS (found :: rest)
  end.

Section sharing.
Variables (cols : Columns) (bucket : nat -> nat * Request -> nat) (n : nat) (s : Selection).
Hypothesis bucketed : request_bucket cols = Some bucket.
Hypothesis bucket_bound : forall x, bucket n x < n.
(** Rows are numbered by what does not change when they are handed out. *)
Hypothesis bucket_stable : forall i daemon t r, bucket n (i, handed cols daemon t r) = bucket n (i, r).

Definition share (w : World) (j : nat) (i : nat) : Prop :=
  exists r, w_requests w !! i = Some r /\ due_request cols w s (i, r) = true /\ bucket n (i, r) = j.
Lemma mine_bucket j x : j < n -> mine cols (with_worker s (j, n)) x = true <-> bucket n x = j.
Proof.
  intros Hj. unfold mine, filter_thread_work. rewrite bucketed. cbn [sel_total_workers sel_worker_number with_worker fst snd].
  destruct (decide (1 < n)) as [Hn|Hn]; [by rewrite (bool_decide_eq_true_2 (1 < n)), bool_decide_eq_true by done|].
  rewrite bool_decide_eq_false_2 by done. pose proof (bucket_bound x). split; [lia|done].
Qed.
Lemma found_share w j i : j < n -> Some i ∈ rw_id <$> found cols w (with_worker s (j, n)) -> share w j i.
Proof.
  intros Hj (rws & Hid & (id & r & Hid' & Hr & Hd & Hm & _)%found_due)%list_elem_of_fmap. assert (id = i) as -> by congruence.
  exists r. split; [done|]. split; [done|]. by apply mine_bucket.
Qed.
(** Why a request is in nobody's list: it has no source with the attributes asked for, or the worker it is
    for has the list [l], as long as the limit, of older requests. *)
Definition left_out (w : World) (r : Request) (l : list RequestWithSources) : Prop :=
  sel_required_source_rse_attrs s <> [] /\ (forall rse, rse <> t_dest_rse_id (rq_transfer r) -> ~ can_serve w s r rse) \/
  exists m, sel_limit s = Some (S m) /\ (sel_required_source_rse_attrs s = [] -> length l = S m) /\
    forall i' r', Some i' ∈ rw_id <$> l -> w_requests w !! i' = Some r' -> (rq_created_at r' <= rq_created_at r)%Z.
Lemma share_found w j i r : j < n -> w_requests w !! i = Some r -> due_request cols w s (i, r) = true -> bucket n (i, r) = j ->
  let l := found cols w (with_worker s (j, n)) in Some i ∈ rw_id <$> l \/ left_out w r l.
Proof.
  intros Hj Hr Hd Hb l. destruct (decide (Some i ∈ rw_id <$> l)) as [?|Hnot]; [by left|right].
  destruct (not_found cols w (with_worker s (j, n)) i r) as [?|(m & Hm & Hlen & Hold)]; [done|done|by apply mine_bucket|done|by left|].
  right. exists m. split; [done|]. split; [|done]. intros Ha. rewrite <-Hlen. by apply found_all.
Qed.

(** What some workers, with the numbers [js], leave for the others *)
Definition left_by (js : list nat) (w w' : World) : Prop :=
  w' = upd_w_requests (fun _ => w_requests w') w /\
  forall i, match w_requests w !! i, w_requests w' !! i with
            | Some r, Some r' => r' = r \/ bucket n (i, r') = bucket n (i, r) /\ bucket n (i, r) ∈ js
            | None, None => True
            | _, _ => False
            end.
Lemma left_same js w w' j i r : left_by js w w' -> j ∉ js -> bucket n (i, r) = j -> w_requests w' !! i = Some r <-> w_requests w !! i = Some r.
Proof.
  intros [_ Hrow] Hj Hb. specialize (Hrow i). destruct (w_requests w !! i) as [r0|], (w_requests w' !! i) as [r'|]; [|done..].
  destruct Hrow as [->|[Hb' Hin]]; [done|]. split; intros [= ->]; destruct Hj; congruence.
Qed.
Lemma left_due js w w' x : left_by js w w' -> due_request cols w' s x = due_request cols w s x.
Proof. intros [-> _]. done. Qed.
Lemma left_share js w w' j i : left_by js w w' -> j ∉ js -> share w' j i -> share w j i.
Proof.
  intros Hleft Hj (r & Hr & Hd & Hb). exists r. rewrite (left_due js w w') in Hd by done. split; [by apply (left_same js w w' j i r)|done].
Qed.
Lemma left_out_same js w w' j r : left_by js w w' -> j ∉ js -> j < n ->
  let l := found cols w' (with_worker s (j, n)) in left_out w' r l -> left_out w r l.
Proof.
  intros Hleft Hj Hlt l [[Ha Hno]|(m & Hm & Hlen & Hold)]; [left; split; [done|]|right; exists m; split_and!; [done..|]].
  - destruct Hleft as [Hw _]. intros rse Hne. rewrite Hw in Hno. by apply Hno.
  - intros i' r' Hi' Hr'. apply (Hold i'); [done|]. pose proof (found_share w' j i' Hlt Hi') as (r2 & Hr2 & _ & Hb).
    assert (w_requests w !! i' = Some r2) as Hr2' by by apply (left_same js w w' j). congruence.
Qed.
Lemma left_after js w w' j : left_by js w w' -> j ∉ js -> j < n -> left_by (j :: js) w (after_listing cols w' (with_worker s (j, n))).
Proof.
  intros Hleft Hj Hlt. unfold after_listing. destruct (given _) as [daemon|].
  - destruct Hleft as [Hw Hrow0]. split; [by rewrite Hw|]. intros i. pose proof (Hrow0 i) as Hrow.
    destruct (w_requests w !! i) as [r|] eqn:Hr, (w_requests w' !! i) as [r'|] eqn:Hr'; [|done..|].
    + rewrite (handed_lookup _ _ _ _ _ _ Hr'). destruct (persistent_request r' && _) eqn:Hb.
      * right. rewrite bucket_stable. apply andb_true_iff in Hb as [_ Hin%bool_decide_eq_true]. apply elem_of_found_ids, found_share in Hin; [|done].
        destruct (left_share js w w' j i (conj Hw Hrow0) Hj Hin) as (q & Hq & _ & Hbj). assert (q = r) as -> by congruence.
        destruct Hrow as [->|[-> _]]; (split; [done|]; rewrite Hbj; by left).
      * destruct Hrow as [->|[? ?]]; [by left|]. right. split; [done|]. by right.
    + unfold handed_out. simpl. by rewrite list_lookup_imap, Hr'.
  - destruct Hleft as [Hw Hrow]. split; [done|]. intros i. specialize (Hrow i). destruct (_ !! i), (_ !! i); try done.
    destruct Hrow as [->|[? ?]]; [by left|]. right. split; [done|]. by right.
Qed.
(** What a worker with the number [j] gets *)
Definition gets (w : World) (j : nat) (l : list RequestWithSources) : Prop :=
  (forall i, Some i ∈ rw_id <$> l -> share w j i) /\
  forall i r, w_requests w !! i = Some r -> due_request cols w s (i, r) = true -> bucket n (i, r) = j -> Some i ∈ rw_id <$> l \/ left_out w r l.
Lemma in_turn_shares numbers : forall js w w', left_by js w w' -> NoDup (fst <$> numbers) ->
  (forall x, x ∈ numbers -> x.1 ∉ js /\ x.1 < n /\ x.2 = n) ->
  exists lists w2, in_turn cols s numbers w' = (Ok lists, w2) /\ Forall2 (fun x => gets w x.1) numbers lists.
Proof.
  induction numbers as [|[j m] numbers IH]; intros js w w' Hleft Hd Hn; [exists [], w'; by split; [|constructor]|].
  simpl in Hd. apply NoDup_cons in Hd as [Hj Hd]. destruct (Hn (j, m)) as (Hjs & Hlt & Hm); [by left|]. simpl in Hjs, Hlt, Hm. subst m.
  destruct (IH (j :: js) w (after_listing cols w' (with_worker s (j, n)))) as (lists & w2 & Hrun & Hall); [by apply left_after|done| |].
  { intros [k m] Hin. destruct (Hn (k, m)) as (? & ? & ?); [by right|]. split; [|done]. intros [Hk|?]%elem_of_cons; [|done].
    simpl in Hk. subst k. apply Hj. apply list_elem_of_fmap. by exists (j, m). }
  exists (found cols w' (with_worker s (j, n)) :: lists), w2. simpl. unfold bindS. rewrite listing_run, Hrun. split; [done|]. constructor; [|done].
  split; cbn [fst].
  - intros i Hi%found_share; [|done]. by eapply left_share.
  - intros i r Hr Hdue Hb. destruct (share_found w' j i r) as [?|?]; [done|by apply (left_same js w w' j)|by rewrite (left_due js w w')|done|by left|].
    right. by eapply left_out_same.
Qed.
End sharing.


(** ** Examples *)

Open Scope string_scope.

(** Three requests are queued; the file [f1] is at [A]. *)
Definition queued_at (created : Z) (file dest : string) : Request :=
  MkRequest (MkTransfer dest ("data", file) "r1" TRANSFER (Some 0%Z) alice (Some created) "User" None None None 10 None None (Some 3%Z))
    Q_QUEUED None None None None None false (Some 3%Z) None None created created Persistent.
Definition demo_listing : World :=
  upd_w_requests (fun _ => [queued_at 7 "f1" "B"; queued_at 5 "f2" "B"; queued_at 6 "f2" "C"]) demo_world.
(** The number of a request is its id, modulo the number of workers. *)
Definition demo_columns (utc_offset : Z) : Columns :=
  MkColumns (fun _ => None) (fun _ => true) (fun _ _ => None) [("A", "B", Some 3%Z)] (Some (fun n x => x.1 `mod` n)) utc_offset.
Definition submitter (limit : option nat) : Selection :=
  MkSelection (Some "conveyor-submitter") 600 1 0 limit None None ∅ None None [] false None.


(** Where the local time is behind UTC by more than the delay, the requests are handed out again and again. *)
Example listed_again_behind_utc :
  match in_turn (demo_columns (-3600)) (submitter None) [(0, 1); (0, 1)] demo_listing with
  | (Ok [found; again], _) => rw_id <$> found = rw_id <$> again /\ length again = 3
  | _ => False
  end.
Proof. by vm_compute. Qed.

(** Host names in some order *)
#[export] Program Instance encoded_order : Collation := {| host_le := fun a b => (encode a <= encode b)%positive |}.
Next Obligation. intros a b. apply _. Defined.
Next Obligation.
  split; [split; [split|]|].
  - intros a. apply Pos.le_refl.
  - intros a b c. apply Pos.le_trans.
  - intros a b Hab Hba. apply (inj encode). by apply Pos.le_antisym.
  - intros a b. destruct (Pos.lt_total (encode a) (encode b)) as [Hl|[He|Hl]].
    + left. split; lia.
    + right. left. by apply (inj encode).
    + right. right. split; lia.
Qed.

Definition thread_of_demo (i : Z) : Worker := MkWorker "daemon.example.org" 42 (MkThread i "worker").
Definition demo_places : list Place := [("daemon.example.org", 42%Z, 1%Z); ("daemon.example.org", 42%Z, 2%Z)].
Definition demo_calls := calls (fun e => e) "conveyor-submitter" 600.
