(* ===== verification/Deletion.v ===== *)
(** * Deleting replicas: the reaper's part of [lib/rucio/core/replica.py]

    Replicas with a tombstone and no lock are marked; once their files are deleted from storage the
    replicas are deleted, and with the last replica of a file the file itself, its place in
    collections, collections that are empty then, and what was known from archives. *)

From S2P Require Import Prelude StateError Counting Types Database RseSelector LockTables RuleGrouping RuleEngine RuleRepair.

Section deletion.
(** When the row of a replica was last written; the setting reaper/remove_open_did *)
Variables (last_update : World -> nat -> Z) (remove_open_did : bool).

(** ** Marking *)

Definition due (t : Z) (only_delete_obsolete : bool) (r : Replica) : bool :=
  match rp_tombstone r with
  | Some e => if only_delete_obsolete then bool_decide (e = OBSOLETE) else bool_decide (e < t)%Z
  | None => false
  end.
Definition is_source (w : World) (r : Replica) : bool :=
  existsb (fun so => bool_decide (so_did so = rp_did r) && bool_decide (so_rse_id so = rp_rse_id r)) (w_sources w).
Definition may_go (w : World) (delay_seconds : Z) (i : nat) (r : Replica) : bool :=
  match rp_state r with
  | R_AVAILABLE | R_UNAVAILABLE | R_BAD => true
  | R_BEING_DELETED => bool_decide (last_update w i < now (w_session w) - delay_seconds)%Z
  | _ => false
  end.

(** The replicas with a tombstone that nothing needs, the oldest first *)
Definition tombstone_of (w : World) (i : nat) : Z := default 0%Z (w_replicas w !! i ≫= rp_tombstone).
Definition sooner (w : World) (i j : nat) : Prop :=
  (tombstone_of w i < tombstone_of w j \/ tombstone_of w i = tombstone_of w j /\ last_update w i <= last_update w j)%Z.
#[local] Instance sooner_dec w : RelDecision (sooner w).
Proof. intros i j. unfold sooner. apply _. Defined.
Definition is_unlocked (w : World) (rse_id : string) (delay_seconds : Z) (only_delete_obsolete : bool) (i : nat) : bool :=
  match w_replicas w !! i with
  | Some r =>
      persistent_replica r && bool_decide (rp_lock_cnt r = 0)%Z && bool_decide (rp_rse_id r = rse_id)
      && due (now (w_session w)) only_delete_obsolete r && may_go w delay_seconds i r && negb (is_source w r)
  | None => false
  end.
Definition unlocked_replicas (w : World) (rse_id : string) (delay_seconds : Z) (only_delete_obsolete : bool) : list nat :=
  merge_sort (sooner w) (List.filter (is_unlocked w rse_id delay_seconds only_delete_obsolete) (seq 0 (length (w_replicas w)))).

(** The last replica of a file stays while there are requests for it. *)
Definition expendable (w : World) (i : nat) : bool :=
  match w_replicas w !! i with
  | Some r =>
      bool_decide (is_Some (w_dids w !! rp_did r))
      && (existsb (fun r' => persistent_replica r' && bool_decide (rp_did r' = rp_did r) && negb (bool_decide (rp_rse_id r' = rp_rse_id r))
                              && bool_decide (rp_state r' = R_AVAILABLE)) (w_replicas w)
          || negb (existsb (fun q => persistent_request q && bool_decide (t_did (rq_transfer q) = rp_did r)) (w_requests w)))
  | None => false
  end.

(** [chunks] of [common/utils.py], over an iterator *)
Fixpoint chunks_of {A} (fuel n : nat) (l : list A) : list (list A) :=
  match fuel with
  | 0%nat => []
  | S fuel => match take n l with [] => [] | c => c :: chunks_of fuel n (drop n l) end
  end.
Definition chunks {A} (l : list A) (n : nat) : list (list A) := chunks_of (length l) n l.

Section marking.
Variables (w : World) (limit : nat) (needed_space : option Z) (only_delete_obsolete : bool).
Definition enough (rows : list nat) (total_bytes : Z) : bool :=
  bool_decide (limit <= length rows)%nat
  || negb only_delete_obsolete && match needed_space with Some n => bool_decide (n < total_bytes)%Z | None => false end.
Fixpoint take_rows (rows : list nat) (total_bytes : Z) (l : list nat) : list nat * Z :=
  match l with
  | [] => (rows, total_bytes)
  | i :: l =>
      if enough rows total_bytes then (rows, total_bytes)
      else
        let bytes := match w_replicas w !! i with
                     | Some r => if bool_decide (rp_state r = R_UNAVAILABLE) then 0%Z else rp_bytes r
                     | None => 0%Z
                     end in
        take_rows (rows ++ [i]) (total_bytes + bytes)%Z l
  end.
Fixpoint take_chunks (rows : list nat) (total_bytes : Z) (cs : list (list nat)) : list nat :=
  match cs with
  | [] => rows
  | c :: cs =>
      let '(rows, total_bytes) := take_rows rows total_bytes
                                    (take (limit - length rows) (merge_sort (sooner w) (List.filter (expendable w) c))) in
      if enough rows total_bytes then rows else take_chunks rows total_bytes cs
  end.
End marking.

(** [list_and_mark_unlocked_replicas] *)
Definition mark_being_deleted (r : Replica) : Replica :=
  upd_rp_tombstone (fun _ => Some OBSOLETE) (upd_rp_state (fun _ => R_BEING_DELETED) r).
Definition list_and_mark_unlocked_replicas (limit : nat) (bytes : option Z) (rse_id : string) (delay_seconds : Z)
    (only_delete_obsolete : bool) : ST World (list nat) :=
  let! w := getsS id in
  let rows := take_chunks w limit bytes only_delete_obsolete [] 0
                (chunks (unlocked_replicas w rse_id delay_seconds only_delete_obsolete) ((5 * limit + 3) / 4)) in
  do! forS (alter_replica mark_being_deleted) rows in
  retS rows.

(** ** What goes with the last replica of a file *)

Definition has_replica (w : World) (did : DID) : bool :=
  existsb (fun r => persistent_replica r && bool_decide (rp_did r = did)) (w_replicas w).
Definition is_constituent (w : World) (did : DID) : bool := existsb (fun a : DID * DID => bool_decide (a.2 = did)) (w_archive_contents w).
Definition is_lost (w : World) (did : DID) : bool := match w_dids w !! did with Some d => d_lost d | None => false end.
Definition orphaned (w : World) (did : DID) : bool := negb (is_lost w did) && negb (has_replica w did) && negb (is_constituent w did).

(** [generate_did_detach_messages] *)
Definition detach_messages (c : Content) : list Message :=
  (if bool_decide (c_parent_type c = CONTAINER) then [ERASED (c_parent c) (c_child c)] else []) ++ [DETACHED (c_parent c) (c_child c)].

(** The collections that were complete *)
Definition note_incomplete (w : World) (acc : list Message * list DID) (p : DID) : list Message * list DID :=
  match w_dids w !! p with
  | Some d =>
      if (bool_decide (d_complete d = Some true) || bool_decide (d_complete d = None)) && negb (existsb (fun m =>
           match m with INCOMPLETE p' t => bool_decide (p' = p) && bool_decide (t = d_type d) | _ => false end) acc.1)
      then (acc.1 ++ [INCOMPLETE p (d_type d)], acc.2 ++ [p]) else acc
  | None => acc
  end.

(** The loop over the levels of the hierarchy: the messages, the collections that are incomplete now,
    and the attachments that went from each level *)
Record Detached := MkDetached { dt_messages : list Message; dt_incomplete : list DID; dt_levels : list (list Content) }.
Definition goes_with (w : World) (children : list DID) (c : Content) : bool :=
  bool_decide (c_child c ∈ children) && orphaned w (c_child c).
Fixpoint detach_upwards (fuel : nat) (children : list DID) (acc : Detached) : ST World Detached :=
  match children with
  | [] => retS acc
  | _ =>
      match fuel with
      | 0%nat => raiseS OutOfFuel
      | S fuel =>
          let! w := getsS id in
          let rows := List.filter (goes_with w children) (w_contents w) in
          let parents := remove_dups (c_parent <$> rows) in
          let '(messages, incomplete) := foldl (note_incomplete w) (dt_messages acc ++ concat (detach_messages <$> rows), dt_incomplete acc) parents in
          do! modifyS (upd_w_content_history (fun l => l ++ rows)) in
          do! modifyS (upd_w_contents (List.filter (fun c => negb (goes_with w children c)))) in
          detach_upwards fuel parents (MkDetached messages incomplete (dt_levels acc ++ [rows]))
      end
  end.

Definition is_parent (w : World) (did : DID) : bool := existsb (fun c => bool_decide (c_parent c = did)) (w_contents w).
Definition is_child (w : World) (did : DID) : bool := existsb (fun c => bool_decide (c_child c = did)) (w_contents w).

(** The data identifiers to delete: files without replicas, and collections that were emptied; there is
    a condition for each file and for each attachment, and a query for ten conditions. *)
Definition known_and (P : DIDRow -> bool) (w : World) (did : DID) : bool := match w_dids w !! did with Some d => P d | None => false end.
Definition did_condition (w : World) (files : list DID) (rows : list Content) : list (DID * bool) :=
  ((fun f => (f, known_and (fun _ => true) w f && orphaned w f)) <$> files)
  ++ ((fun c => (c_parent c, known_and (fun d => remove_open_did || bool_decide (d_open d = Some false)) w (c_parent c)
                             && negb (is_child w (c_parent c)) && negb (is_parent w (c_parent c)))) <$> rows).
Definition dids_found (w : World) (files : list DID) (rows : list Content) : list (list DID) :=
  (fun chunk => remove_dups (fst <$> List.filter snd chunk)) <$> chunks (did_condition w files rows) 10.
Definition erased_datasets (w : World) (l : list DID) : list Message :=
  ERASED_DATASET <$> List.filter (known_and (fun d => bool_decide (d_type d = DATASET)) w) l.

(** The rules that wait for approval or are suspended go with their data identifiers; rules with locks,
    and the children of other rules, cannot be deleted. *)
Definition delete_idle_rules (dids : list DID) : ST World unit :=
  let! w := getsS id in
  let goes (r : Rule) := bool_decide (ru_did r ∈ dids) && (bool_decide (ru_state r = RS_SUSPENDED) || bool_decide (ru_state r = RS_WAITING_APPROVAL)) in
  let gone (id : string) := match w_rules w !! id with Some r => goes r | None => false end in
  if existsb (fun l => persistent_lock l && gone (lk_rule_id l)) (w_locks w)
     || existsb (fun kv : (DID * string * string) * DatasetLock => gone kv.1.1.2) (map_to_list (w_dataset_locks w))
     || existsb (fun kv : string * Rule => negb (goes kv.2) && match ru_child_rule_id kv.2 with Some id => gone id | None => false end) (map_to_list (w_rules w))
  then raiseS IntegrityError
  else modifyS (upd_w_rules (filter (fun kv => goes kv.2 = false))).

(** The foreign keys to a data identifier; what is in collections or archives goes with it. *)
Definition referenced (w : World) (did : DID) : bool :=
  is_parent w did || has_replica w did
  || existsb (fun kv : (DID * string) * DIDType => bool_decide (kv.1.1 = did)) (map_to_list (w_collection_replicas w))
  || existsb (fun kv : string * Rule => bool_decide (ru_did kv.2 = did)) (map_to_list (w_rules w))
  || existsb (fun kv : (DID * string * string) * DatasetLock => bool_decide (kv.1.1.1 = did)) (map_to_list (w_dataset_locks w))
  || existsb (fun q => persistent_request q && bool_decide (t_did (rq_transfer q) = did)) (w_requests w)
  || existsb (fun a : DID * DID => bool_decide (a.1 = did)) (w_archive_contents w).
Definition delete_dids (dids : list DID) : ST World unit :=
  let! w := getsS id in
  if existsb (referenced w) dids then raiseS IntegrityError
  else
    do! modifyS (upd_w_contents (List.filter (fun c => negb (bool_decide (c_child c ∈ dids))))) in
    do! modifyS (upd_w_archive_contents (List.filter (fun a : DID * DID => negb (bool_decide (a.2 ∈ dids))))) in
    modifyS (upd_w_dids (filter (fun kv => kv.1 ∉ dids))).

(** Collections with a child that is not an archive are no archives any more. *)
Definition set_not_archive (level : list DID) : ST World unit :=
  modifyS (fun w =>
    upd_w_dids (map_imap (fun did d =>
      Some (if bool_decide (did ∈ level) && d_is_archive d
               && existsb (fun c => bool_decide (c_parent c = did) && negb (known_and d_is_archive w (c_child c))) (w_contents w)
            then upd_d_is_archive (fun _ => false) d else d))) w).

(** The collections of the files that have a replica on the RSE *)
Definition note_collections (rse_id : string) (files : list DID) : ST World unit :=
  let! w := getsS id in
  modifyS (upd_w_updated_col_rep (fun l => l ++
    ((fun p => (p, DATASET, Some rse_id)) <$> remove_dups (c_parent <$> List.filter (fun c =>
       bool_decide (c_child c ∈ files) && bool_decide (is_Some (w_collection_replicas w !! (c_parent c, rse_id)))) (w_contents w))))).
(** The collection replicas of the collections that are empty now *)
Definition drop_collection_replicas (parents : list DID) : ST World unit :=
  modifyS (fun w => upd_w_collection_replicas (filter (fun kv =>
    negb (bool_decide (kv.1.1 ∈ parents) && known_and (fun _ => true) w kv.1.1 && negb (is_parent w kv.1.1)) = true)) w).
Definition set_incomplete (incomplete : list DID) : ST World unit :=
  modifyS (upd_w_dids (map_imap (fun did d =>
    Some (if bool_decide (did ∈ incomplete) && bool_decide (d_complete d = Some true)
          then upd_d_complete (fun _ => Some false) d else d)))).

(** What was in archives that have no replica any more *)
Definition constituent_of (w : World) (files : list DID) (a : DID * DID) : bool :=
  bool_decide (a.1 ∈ files) && negb (is_lost w a.1) && negb (has_replica w a.1).
Definition remove_constituents (files : list DID) : ST World (list DID) :=
  let! w := getsS id in
  let constituents := List.filter (constituent_of w files) (w_archive_contents w) in
  do! modifyS (upd_w_archive_history (fun l => l ++ constituents)) in
  do! modifyS (upd_w_archive_contents (List.filter (fun a => negb (constituent_of w files a)))) in
  retS (remove_dups constituents.*2).

(** What is deleted at the end, with the messages *)
Definition delete_found (gone : list DID) (messages : list Message) : ST World unit :=
  match gone with
  | [] => skipS
  | _ =>
      do! delete_idle_rules gone in
      do! modifyS (upd_w_messages (fun l => l ++ messages)) in
      delete_dids gone
  end.

(** [__cleanup_after_replica_deletion]; [fuel] bounds how deep archives contain archives. *)
Fixpoint cleanup_after_replica_deletion (fuel : nat) (rse_id : string) (files : list DID) : ST World unit :=
  match fuel with
  | 0%nat => raiseS OutOfFuel
  | S fuel =>
      do! note_collections rse_id files in
      let! w := getsS id in
      let! detached := detach_upwards (S (length (w_contents w))) files (MkDetached [] [] []) in
      let rows := concat (dt_levels detached) in
      do! drop_collection_replicas (c_parent <$> rows) in
      do! set_incomplete (dt_incomplete detached) in
      let! w := getsS id in
      let found := dids_found w files rows in
      let! removed := remove_constituents files in
      do! forS (cleanup_after_replica_deletion fuel rse_id) (chunks removed 200) in
      do! delete_found (remove_dups (concat found)) (dt_messages detached ++ erased_datasets w (concat found)) in
      forS set_not_archive ((fun rows => remove_dups (c_parent <$> rows)) <$> dt_levels detached)
  end.

(** ** Deleting *)

Definition rse_decrease (rse_id : string) (files bytes : Z) : ST World unit := rse_increase rse_id (- files) (- bytes).

(** [delete_replicas] *)
Definition delete_replicas (rse_id : string) (files : list DID) (ignore_availability : bool) : ST World unit :=
  match files with
  | [] => skipS
  | _ =>
      let! rse := get_rse rse_id in
      if negb (rse_availability_delete rse) && negb ignore_availability then raiseS ResourceTemporaryUnavailable
      else if negb (bool_decide (NoDup files)) then raiseS IntegrityError
      else
        do! modifyS (upd_w_sources (List.filter (fun so => negb (bool_decide (so_did so ∈ files) && bool_decide (so_rse_id so = rse_id))))) in
        let! found := select_replicas (fun r => bool_decide (rp_did r ∈ files) && bool_decide (rp_rse_id r = rse_id)) in
        let! w := getsS id in
        do! forS (alter_replica (upd_rp_status (fun _ => Deleted))) found in
        if negb (bool_decide (length found = length files)) then raiseS ReplicaNotFound
        else
          do! modifyS (upd_w_bad_replicas (fmap (fun b : DID * string * BadFilesStatus =>
                if bool_decide (b.1.1 ∈ files) && bool_decide (b.1.2 = rse_id) && bool_decide (b.2 = B_BAD) then (b.1, B_DELETED) else b))) in
          do! cleanup_after_replica_deletion (S (length (w_archive_contents w))) rse_id files in
          rse_decrease rse_id (Z.of_nat (length found)) (foldr Z.add 0%Z (rp_bytes ∘ snd <$> objects (w_replicas w) found))
  end.

End deletion.
