(* ===== verification/Undertaker.v ===== *)
(** * Deleting data identifiers: [lib/rucio/core/did.py], [lib/rucio/daemons/undertaker/undertaker.py]

    Data identifiers that expired are deleted with their rules; the files stay, but may be cleaned up by
    the reaper then.  The instance is not under the policy of ATLAS: no datasets are archived before.  The
    generic metadata, the followers and the history of deleted data identifiers are tables of their own
    that nothing here reads. *)

From S2P Require Import Prelude StateError Types Database RseSelector LockTables RuleGrouping RuleEngine Deletion Heartbeats RequestListing.

Section undertaker.
(** The settings undertaker/expire_rules_locks_size, undertaker/purge_all_replicas, deletion/archive_content *)
Variables (expire_rules_locks_size : Z) (purge_all_replicas archive_content : bool).

(** A data identifier to delete, as the caller describes it *)
Record Unwanted := MkUnwanted { un_did : DID; un_type : DIDType; un_purge_replicas : option bool }.
Definition files_of_unwanted (l : list Unwanted) : list DID := un_did <$> List.filter (fun u => bool_decide (un_type u = FILE)) l.
Definition collections_of_unwanted (l : list Unwanted) : list DID := un_did <$> List.filter (fun u => negb (bool_decide (un_type u = FILE))) l.
Definition not_purge_replicas (l : list Unwanted) : list DID := un_did <$> List.filter (fun u => bool_decide (un_purge_replicas u = Some false)) l.

(** ** Rules *)

(** [set_metadata] with the key [lifetime] *)
Definition set_lifetime (did : DID) (seconds : Z) : ST World unit :=
  let! w := getsS id in
  if bool_decide (is_Some (w_dids w !! did))
  then modifyS (upd_w_dids (alter (upd_d_expired_at (fun _ => Some (now (w_session w) + seconds)%Z)) did))
  else raiseS DataIdentifierNotFound.
Definition rules_on (dids : list DID) (w : World) : list Rule := List.filter (fun r => bool_decide (ru_did r ∈ dids)) (snd <$> map_to_list (w_rules w)).
Definition too_large (expire_rules : bool) (rule : Rule) : bool :=
  expire_rules && bool_decide (expire_rules_locks_size < ru_locks_ok_cnt rule + ru_locks_replicating_cnt rule + ru_locks_stuck_cnt rule)%Z.
(** Large rules only expire, and whether there were any; the counters are those before any rule is deleted. *)
Fixpoint remove_rules (expire_rules : bool) (keep_replicas : list DID) (rules : list Rule) : ST World bool :=
  match rules with
  | [] => retS false
  | rule :: rules =>
      let purge := negb (bool_decide (ru_did rule ∈ keep_replicas)) in
      do! (if too_large expire_rules rule
           then do! delete_rule (ru_id rule) (Some purge) true true false in set_lifetime (ru_did rule) (3600 * 24)
           else delete_rule (ru_id rule) (Some purge) false true false) in
      let! expired := remove_rules expire_rules keep_replicas rules in
      retS (too_large expire_rules rule || expired)
  end.

(** ** [delete_dids] *)

Definition erase_message (u : Unwanted) : ST World unit :=
  do! whenS archive_content
        (modifyS (fun w => upd_w_content_history (fun l => l ++ List.filter (fun c => bool_decide (c_parent c = un_did u)) (w_contents w)) w)) in
  add_message (ERASED_DATASET (un_did u)).
(** Bad replicas of the files need no recovery any more. *)
Definition forget_bad (files : list DID) : ST World unit :=
  modifyS (upd_w_bad_replicas (fmap (fun b : DID * string * BadFilesStatus =>
    if bool_decide (b.1.1 ∈ files) && bool_decide (b.2 = B_BAD) then (b.1, B_DELETED) else b))).
Definition purged (files : list DID) (r : Replica) : Replica :=
  if persistent_replica r && bool_decide (rp_did r ∈ files) && bool_decide (rp_lock_cnt r = 0)%Z && bool_decide (is_Some (rp_tombstone r))
  then upd_rp_tombstone (fun _ => Some OBSOLETE) r else r.
Definition resolved_files (collections : list DID) (w : World) : list DID :=
  c_child <$> List.filter (fun c => bool_decide (c_parent c ∈ collections) && bool_decide (c_child_type c = FILE)) (w_contents w).
Definition empty_collections (collections : list DID) : ST World unit :=
  let! files := getsS (resolved_files collections) in
  do! forget_bad files in
  do! whenS purge_all_replicas (modifyS (upd_w_replicas (fmap (purged files)))) in
  do! modifyS (upd_w_contents (List.filter (fun c => negb (bool_decide (c_parent c ∈ collections))))) in
  modifyS (upd_w_collection_replicas (filter (fun x : (DID * string) * DIDType => x.1.1 ∉ collections))).
Definition attachments (dids : list DID) (w : World) : list Content := List.filter (fun c => bool_decide (c_child c ∈ dids)) (w_contents w).
(** The rows of collections go, unless others refer to them; those of files only forget that they expire,
    for the reaper. *)
Definition is_collection (t : DIDType) : bool := bool_decide (t = CONTAINER) || bool_decide (t = DATASET).
Definition collection_rows (collections : list DID) (w : World) : list DID :=
  List.filter (fun did => match w_dids w !! did with Some d => is_collection (d_type d) | None => false end) collections.
Definition delete_rows (files collections : list DID) : ST World unit :=
  let! rows := getsS (collection_rows collections) in
  do! delete_dids rows in
  modifyS (upd_w_dids (map_imap (fun did d =>
    Some (if bool_decide (did ∈ files) && bool_decide (d_type d = FILE) then upd_d_expired_at (fun _ => None) d else d)))).

Definition delete_dids_and_rules (unwanted : list Unwanted) (expire_rules : bool) : ST World unit :=
  let dids := un_did <$> unwanted in
  let files := files_of_unwanted unwanted in
  let collections := collections_of_unwanted unwanted in
  do! forS erase_message unwanted in
  let! rules := getsS (rules_on dids) in
  let! skip_deletion := remove_rules expire_rules (not_purge_replicas unwanted) rules in
  if skip_deletion then skipS
  else
    let! attached := getsS (attachments dids) in
    do! forS (fun c => detach_did (c_parent c) (c_child c)) attached in
    do! forget_bad files in
    do! empty_collections collections in
    if bool_decide (attached = []) then delete_rows files collections else skipS.

(** ** The undertaker *)

(** [list_expired_dids]: those without locked rules, the longest expired first; where the database does not
    share out rows, which is SQLite, another worker than the first hashes a string that is not encoded, at the first row. *)
Variable purge_replicas_column : DID -> bool.
Definition expires_first (a b : DID * DIDRow) : Prop := (default 0 (d_expired_at a.2) <= default 0 (d_expired_at b.2))%Z.
#[export] Instance expires_first_dec : RelDecision expires_first.
Proof. intros a b. unfold expires_first. apply _. Defined.
Definition expired_did (bucket : option (nat -> DID -> nat)) (worker_number total_workers : nat) (w : World) (x : DID * DIDRow) : bool :=
  match d_expired_at x.2 with Some e => bool_decide (e < now (w_session w))%Z | None => false end
  && negb (existsb (fun rule => bool_decide (ru_did rule = x.1) && ru_locked rule) (snd <$> map_to_list (w_rules w)))
  && filter_thread_work bucket total_workers worker_number x.1.
Definition list_expired_dids (bucket : option (nat -> DID -> nat)) (worker_number total_workers : nat) (limit : option nat) : ST World (list Unwanted) :=
  let! expired := getsS (fun w => stable_sort expires_first (List.filter (expired_did bucket worker_number total_workers w) (map_to_list (w_dids w)))) in
  let sqlite := bool_decide (bucket = None) in
  if sqlite && negb (bool_decide (worker_number = 0)) && negb (bool_decide (total_workers = 0))
  then if bool_decide (expired = []) then retS [] else raiseS TypeError
  else retS ((fun x : DID * DIDRow => MkUnwanted x.1 (d_type x.2) (Some (purge_replicas_column x.1))) <$> limited limit expired).

(** [run_once], without the pauses of data identifiers whose rows others hold: a part of the list is a
    transaction, and one that fails is left for the next time. *)
Definition bury (chunk : list Unwanted) : ST World unit := fun w =>
  match delete_dids_and_rules chunk true w with
  | (Ok _, w') => (Ok tt, w')
  | (Err RuleNotFound, _) | (Err UnsupportedOperation, _) | (Err IntegrityError, _) => (Ok tt, w)
  | (Err e, _) => (Err e, w)
  end.
Definition run_once (bucket : option (nat -> DID -> nat)) (worker_number total_workers chunk_size : nat) : ST World unit :=
  tryS (let! l := list_expired_dids bucket worker_number total_workers (Some 10000%nat) in forS bury (chunks l chunk_size)) (fun _ => Some skipS).
End undertaker.
