(* ===== verification/Conveyor.v ===== *)
(** * From the submission of transfers to their end

    What the daemons of the conveyor write: the states of submitted and polled transfers
    ([lib/rucio/core/transfer.py]), and the finisher ([lib/rucio/daemons/conveyor/finisher.py]), which
    settles locks and replicas, archives requests and queues new attempts. *)

From S2P Require Import Prelude StateError Counting PyString PyFloat Types Database RseSelector LockTables RuleGrouping RuleEngine Requests ReplicaWrites Deletion.

(** ** Submission *)

(** What the submitter knows of a transfer: the request it is made for, if there is one yet, what that
    request says, and its sources (RSE, ranking and URL), the one it is made from first *)
Record DirectTransfer := MkDirect {
  dt_request_id : option nat;
  dt_request : Transfer;
  dt_src : string;
  dt_sources : list (string * option Z * string);
}.

(** [applicable_rse_transfer_limits]: the limits of an RSE by activity, or for all of them *)
Definition limit_for {L} (activity : option string) (limits : list (option string * L)) : list L :=
  match activity with
  | Some a => snd <$> List.filter (fun l : option string * L => bool_decide (l.1 = Some a)) limits
  | None => []
  end.
Definition limit_for_all {L} (limits : list (option string * L)) : list L :=
  snd <$> List.filter (fun l : option string * L => bool_decide (l.1 = None)) limits.
Definition applicable_rse_transfer_limits {L} (source_limits dest_limits : list (option string * L)) (activity : option string) : list L :=
  limit_for activity source_limits ++ limit_for activity dest_limits ++ limit_for_all source_limits ++ limit_for_all dest_limits.

(** [prepare_transfers]: the first path all hops of which have a transfer tool decides on the source;
    where there are limits the request waits for the throttler. *)
Record Candidates := MkCandidates { ca_request_id : nat; ca_activity : string; ca_dest : string; ca_paths : list (list (string * string)) }.
Section preparing.
Context {L : Type} (supported : string -> string -> bool) (source_limits dest_limits : string -> list (option string * L)).
Definition throttler_request_state (activity source dest : string) : RequestState :=
  if bool_decide (applicable_rse_transfer_limits (source_limits source) (dest_limits dest) (Some activity) = []) then Q_QUEUED else Q_WAITING.
Fixpoint select_source (paths : list (list (string * string))) : result (option string) :=
  match paths with
  | [] => Ok None
  | [] :: _ => Err IndexError
  | (((source, _) :: _) as path) :: paths =>
      if forallb (fun hop => supported hop.1 hop.2) path then Ok (Some source) else select_source paths
  end.
Definition prepare_transfer (c : Candidates) : ST World (list nat * list nat) :=
  if bool_decide (ca_paths c = []) then raiseS IndexError
  else
    let! source := liftS (select_source (ca_paths c)) in
    match source with
    | None => retS ([], [ca_request_id c])
    | Some s =>
        do! update_request (ca_request_id c) (Some (throttler_request_state (ca_activity c) s (ca_dest c))) (Some s) None None false in
        retS ([ca_request_id c], [])
    end.
Fixpoint prepare_transfers (candidates : list Candidates) : ST World (list nat * list nat) :=
  match candidates with
  | [] => retS ([], [])
  | c :: candidates =>
      let! one := prepare_transfer c in
      let! others := prepare_transfers candidates in
      retS (one.1 ++ others.1, one.2 ++ others.2)
  end.
End preparing.

Definition mark_submitting (id : nat) (external_host : string) : ST World unit :=
  let! n := update_where (fun i r => has_id id i r && bool_decide (rq_state r = Q_QUEUED))
              (fun r => upd_rq_external_host (fun _ => Some external_host) (upd_rq_external_id (fun _ => None) (upd_rq_state (fun _ => Q_SUBMITTING) r))) in
  if bool_decide (n = 0%nat) then raiseS RequestNotFound else skipS.

(** [ensure_db_sources]: the sources of a hop are those of the transfer the path is for, too.  A source
    is a replica, of a request. *)
Definition source_row (id : nat) (t : DirectTransfer) (s : string * option Z * string) : Source :=
  MkSource id (t_did (dt_request t)) s.1.1 (t_dest_rse_id (dt_request t)) s.1.2 (Some (t_bytes (dt_request t))) (Some s.2) true.
Definition hop_sources (final : option nat) (x : nat * DirectTransfer) : list Source :=
  concat ((fun s => source_row x.1 x.2 s :: match final with Some f => [source_row f x.2 s] | None => [] end) <$> dt_sources x.2).
Fixpoint desired_sources (final : nat) (path : list (nat * DirectTransfer)) : list Source :=
  match path with
  | [] => []
  | [t] => hop_sources None t
  | t :: path => hop_sources (Some final) t ++ desired_sources final path
  end.
Definition ensure_source (so : Source) : ST World unit :=
  let same so' := bool_decide (so_request_id so' = so_request_id so) && bool_decide (so_rse_id so' = so_rse_id so) in
  let! w := getsS id in
  if existsb same (w_sources w)
  then modifyS (upd_w_sources (fmap (fun so' => if same so' then upd_so_is_using (fun _ => true) so' else so')))
  else if bool_decide (is_Some (request_row w (so_request_id so))) && replica_exists w (so_did so) (so_rse_id so)
  then modifyS (upd_w_sources (fun l => l ++ [so]))
  else raiseS IntegrityError.
Definition ensure_db_sources (path : list (nat * DirectTransfer)) : ST World unit :=
  match last path with Some t => forS ensure_source (desired_sources t.1 path) | None => skipS end.

Definition set_transfers_state (transfers : list (nat * string)) (state : RequestState) (external_host external_id : string) : ST World unit :=
  forS (fun t : nat * string =>
    let! n := update_where (fun i r => has_id t.1 i r && bool_decide (rq_state r = Q_SUBMITTING))
                (fun r => upd_rq_source_rse_id (fun _ => Some t.2) (upd_rq_external_host (fun _ => Some external_host)
                            (upd_rq_external_id (fun _ => Some external_id) (upd_rq_state (fun _ => state) r)))) in
    if bool_decide (n = 0%nat) then raiseS RucioException
    else add_message (REQUEST_SUBMITTED t.1 state t.2)) transfers.

(** ** Paths of hops: [lib/rucio/daemons/conveyor/common.py] *)

(** [__assign_to_transfertool]: how many of the hops left the first tool that takes any takes *)
Section assigning.
Variable submission_builder_for_path : string -> list DirectTransfer -> nat.
Fixpoint first_tool (transfertools : list string) (hops : list DirectTransfer) : option (string * nat) :=
  match transfertools with
  | [] => None
  | tool :: transfertools =>
      match submission_builder_for_path tool hops with 0%nat => first_tool transfertools hops | S n => Some (tool, S n) end
  end.
Fixpoint assign_hops (fuel : nat) (transfertools : list string) (hops : list DirectTransfer) : list (string * list DirectTransfer) :=
  match fuel with
  | 0%nat => []
  | S fuel =>
      match first_tool transfertools hops with
      | None => []
      | Some (tool, n) =>
          match drop n hops with
          | [] => [(tool, hops)]
          | rest => match assign_hops fuel transfertools rest with [] => [] | l => (tool, take n hops) :: l end
          end
      end
  end.
Definition assign_to_transfertool (transfertools : option (list string)) (path : list DirectTransfer) : list (option string * list DirectTransfer) :=
  match transfertools with
  | None => [(None, path)]
  | Some tools => (fun x => (Some x.1, x.2)) <$> match path with [] => [] | _ => assign_hops (length path) tools path end
  end.
End assigning.

(** The rule of a request for a hop *)
Definition no_rule : string := "00000000000000000000000000000000".

Section hops.
Variables (volatile deterministic : Session -> string -> bool) (pfn_error : Session -> string -> list (DID * string) -> option exn).
Variable default_tombstone_delay : Z.

(** [__create_missing_replicas_and_requests], for a hop without a request: its id, and whether it was there already *)
Definition hop_file (t : Transfer) (tombstone : option Z) : NewFile :=
  MkNewFile (t_did t) (t_bytes t) (t_md5 t) (t_adler32 t) None None (Some R_COPYING) 0 tombstone.
Definition hop_request (hop : DirectTransfer) (src : string) (t : Z) : NewRequest :=
  let r := dt_request hop in
  MkNewRequest (MkTransfer (t_dest_rse_id r) (t_did r) no_rule (t_request_type r) (t_retry_count r) (t_account r) (Some t) (t_activity r)
                  (Some src) (t_lifetime r) (t_ds r) (t_bytes r) (t_md5 r) (t_adler32 r) (t_priority r))
    (Some Q_QUEUED) (Some (dt_src hop)) None true [].
Definition hop_tombstone (w : World) (dest : string) : result (option Z) :=
  match rse_attribute (w_session w) dest "multihop_tombstone_delay" with
  | Some v => tombstone_from_delay (now (w_session w)) (Some v)
  | None => Ok (tombstone_after (now (w_session w)) default_tombstone_delay)
  end.
Definition save_hop (h : nat * nat * nat) : ST World unit :=
  let! w := getsS id in
  if bool_decide (h ∈ w_hops w) || negb (forallb (fun i => bool_decide (is_Some (request_row w i))) [h.1.1; h.1.2; h.2])
  then raiseS IntegrityError
  else modifyS (upd_w_hops (fun l => l ++ [h])).
Definition create_hop (initial next : nat) (hop : DirectTransfer) : ST World (option (nat * bool)) :=
  let t := dt_request hop in
  let! w := getsS id in
  match hop_tombstone w (t_dest_rse_id t) with
  | Err ValueError => retS None
  | Err e => raiseS e
  | Ok tombstone =>
      do! swallow (do! add_replicas volatile deterministic pfn_error (t_dest_rse_id t) [hop_file t tombstone] (t_account t) false in
                   update_replicas_states [MkReplicaUpdate (t_did t, t_dest_rse_id t) R_COPYING None None None]) in
      let! src := get_rse_name (dt_src hop) in
      let! new := queue_all [hop_request hop src (now (w_session w))] in
      let! '(request_id, must_skip) :=
        match new with
        | request_id :: _ => retS (request_id, false)
        | [] => let! request_id := get_request_by_did (t_did t) (t_dest_rse_id t) None in retS (request_id, true)
        end in
      do! save_hop (request_id, next, initial) in
      retS (Some (request_id, must_skip))
  end.

(** The hops from the last to the first: those with their requests, whether all were made, and whether
    part of the path is under way already *)
Fixpoint create_hops (initial next : nat) (hops : list DirectTransfer) (done : list (nat * DirectTransfer)) (must_skip : bool)
    : ST World (list (nat * DirectTransfer) * bool * bool) :=
  match hops with
  | [] => retS (done, true, must_skip)
  | hop :: hops =>
      match dt_request_id hop with
      | Some id => create_hops initial id hops ((id, hop) :: done) must_skip
      | None =>
          let! created := create_hop initial next hop in
          match created with
          | None => retS (done, false, must_skip)
          | Some (id, skip) => create_hops initial id hops ((id, hop) :: done) (must_skip || skip)
          end
      end
  end.
Definition create_missing_replicas_and_requests (path : list DirectTransfer) : ST World (list (nat * DirectTransfer) * bool * bool) :=
  match last path ≫= dt_request_id with
  | Some initial => create_hops initial initial (rev path) [] false
  | None => raiseS IntegrityError
  end.

(** [__assign_paths_to_transfertool_and_create_hops]: the hops to submit now.  Paths that take fewer
    tools come first. *)
Variable submission_builder_for_path : string -> list DirectTransfer -> nat.
Definition Assigned : Type := list DirectTransfer * list (option string * list DirectTransfer).
Definition fewer_tools (a b : Assigned) : Prop := (length a.2 <= length b.2)%nat.
#[export] Instance fewer_tools_dec : RelDecision fewer_tools.
Proof. intros a b. unfold fewer_tools. apply _. Defined.
Fixpoint first_path (l : list Assigned) : ST World (list (nat * DirectTransfer) * nat * bool) :=
  match l with
  | [] => retS ([], 0%nat, false)
  | (_, []) :: l => first_path l
  | (path, (_, hops) :: _) :: l =>
      let! '(done, created, must_skip) := create_missing_replicas_and_requests path in
      if created then retS (done, length hops, must_skip)
      else if must_skip then retS ([], 0%nat, must_skip)
      else first_path l
  end.
Definition assign_path (transfertools : option (list string)) (candidate_paths : list (list DirectTransfer)) : ST World (list (nat * DirectTransfer)) :=
  let! '(best_path, n, must_skip) :=
    first_path (stable_sort fewer_tools ((fun p => (p, assign_to_transfertool submission_builder_for_path transfertools p)) <$> candidate_paths)) in
  do! ensure_db_sources best_path in
  retS (if must_skip : bool then [] else take n best_path).
End hops.

(** ** Polling *)

(** The message to the monitoring *)
Definition add_monitor_message (id : nat) (r : Request) (state : option RequestState) : ST World unit :=
  match state with
  | None => raiseS AttributeError
  | Some _ =>
      do! match rq_source_rse_id r with Some s => do! get_rse_name s in skipS | None => skipS end in
      do! get_rse_name (t_dest_rse_id (rq_transfer r)) in
      add_message (REQUEST_STATE id state)
  end.

(** What the transfer tool reports of a request *)
Record Report := MkReport { rep_state : option RequestState; rep_external_id : option string; rep_source_rse_id : option string; rep_err_msg : option string }.

(** [update_transfer_state]: the number of requests changed *)
Definition update_transfer_state (id : nat) (fields : option Report) : ST World nat :=
  tryS
    (match fields with
     | None => do! update_request id None None None None true in retS 0%nat
     | Some f =>
         let! request := get_request id in
         let! updated := transition_request_state id (rep_state f) (rep_external_id f) (rep_source_rse_id f) (rep_err_msg f) request in
         match request with
         | Some r =>
             if updated then
               let! dependent := if bool_decide (rep_state f = Some Q_FAILED) && rq_intermediate_hop r
                                 then handle_failed_intermediate_hop id else retS 0%nat in
               do! add_monitor_message id r (rep_state f) in
               retS (S dependent)
             else retS 0%nat
         | None => retS 0%nat
         end
     end)
    (fun _ => Some (retS 0%nat)).

Definition mark_transfer_lost (id : nat) (request : Request) : ST World unit :=
  do! transition_request_state id (Some Q_LOST) (rq_external_id request) None (get_transfer_error Q_LOST (Some "The FTS job lost"%string)) None in
  add_monitor_message id request (Some Q_LOST).

Definition touch_transfer (transfer_id : string) : ST World unit :=
  let! t := getsS (fun w => now (w_session w)) in
  do! update_where (fun _ r => bool_decide (rq_external_id r = Some transfer_id) && bool_decide (rq_state r = Q_SUBMITTED)
                               && bool_decide (rq_updated_at r < t - 30)%Z) (fun r => r) in skipS.

(** ** The finisher *)

(** What becomes of the replica a request was for *)
Record Terminated := MkTerminated {
  tm_request_id : nat;
  tm_request : Request;
  tm_state : ReplicaState;
  tm_error_message : option string;
}.
Definition tm_update (x : Terminated) : ReplicaUpdate :=
  MkReplicaUpdate (t_did (rq_transfer (tm_request x)), t_dest_rse_id (rq_transfer (tm_request x))) (tm_state x) (tm_error_message x) None None.

(** Keys in the order they are first seen *)
Definition firsts {A} `{EqDecision A} (l : list A) : list A := rev (remove_dups (rev l)).

Section finishing.
Variables (volatile deterministic : Session -> string -> bool) (pfn_error : Session -> string -> list (DID * string) -> option exn).
(** Where a file was written, and whether its path on an RSE that is not deterministic can be told *)
Variables (dest_url : nat -> option string) (path_known : nat -> Request -> bool).
Variable retry_protocol_mismatches : bool.

Definition retried (s : RequestState) : option bool :=
  match s with
  | Q_FAILED => Some true
  | Q_SUBMITTING | Q_SUBMISSION_FAILED | Q_LOST | Q_NO_SOURCES | Q_ONLY_TAPE_SOURCES | Q_MISMATCH_SCHEME => Some false
  | _ => None
  end.
Definition message_of (r : Request) : option string :=
  match rq_err_msg r with Some (String _ _ as m) => Some m | _ => get_transfer_error (rq_state r) None end.

(** The loop of [_finish_requests], for a request as it was read: a new attempt is a transaction of its
    own; an error leaves the request for the next time. *)
Definition retry_or_give_up (id : nat) (r : Request) (source_ranking_update : bool) : ST World (list Terminated) :=
  if should_retry_request r retry_protocol_mismatches
  then do! swallow (transaction (do! requeue_and_archive id source_ranking_update retry_protocol_mismatches in skipS)) in retS []
  else retS [MkTerminated id r R_UNAVAILABLE (message_of r)].
Definition finish_request (x : nat * Request) : ST World (list Terminated) :=
  let '(id, r) := x in
  match rq_state r with
  | Q_DONE => retS (if path_known id r then [MkTerminated id r R_AVAILABLE None] else [])
  | s => match retried s with
         | Some source_ranking_update => retry_or_give_up id r source_ranking_update
         | None => retS []
         end
  end.

(** [__update_bulk_replicas] and [__update_replica], of a replica that may be gone by now *)
Definition update_bulk_replicas (l : list Terminated) : ST World unit :=
  do! update_replicas_states (tm_update <$> l) in
  forS (fun x => archive_request (tm_request_id x)) l.
Definition dark_file (x : Terminated) (t : Z) (pfn : option string) : NewFile :=
  let tr := rq_transfer (tm_request x) in
  MkNewFile (t_did tr) (t_bytes tr) None (t_adler32 tr) None pfn None 0 (Some t).
Definition register_dark_file (x : Terminated) : ST World unit :=
  let tr := rq_transfer (tm_request x) in
  let! t := getsS (fun w => now (w_session w)) in
  let root := InternalAccount "root" (calc_external (t_did tr).1).1 in
  let add pfn := add_replicas volatile deterministic pfn_error (t_dest_rse_id tr) [dark_file x t pfn] root true in
  tryS (add (dest_url (tm_request_id x) ≫= or_none))
       (fun e => match e with RSEProtocolNotSupported => Some (add None) | _ => None end).
Definition update_replica (x : Terminated) : ST World unit :=
  let! found := tryS (do! update_replicas_states [tm_update x] in retS true)
                     (fun e => match e with ReplicaNotFound => Some (retS false) | _ => None end) in
  do! whenS (negb found && bool_decide (tm_state x = R_AVAILABLE)
             && negb (bool_decide (t_request_type (rq_transfer (tm_request x)) = STAGEIN))) (register_dark_file x) in
  archive_request (tm_request_id x).

(** [__handle_terminated_replicas], by type of request and rule *)
Definition type_of (r : Request) : RequestType := t_request_type (rq_transfer r).
Definition rule_of (r : Request) : string := t_rule_id (rq_transfer r).
Definition by_type_and_rule (reqs : list Request) (l : list Terminated) : list (list Terminated) :=
  concat ((fun ty => (fun rule => List.filter (fun x => bool_decide (type_of (tm_request x) = ty) && bool_decide (rule_of (tm_request x) = rule)) l)
                     <$> firsts (rule_of <$> List.filter (fun r => bool_decide (type_of r = ty)) reqs))
          <$> firsts (type_of <$> reqs)).
Definition handle_group (l : list Terminated) : ST World unit :=
  tryS (transaction (update_bulk_replicas l))
       (fun e => match e with
                 | UnsupportedOperation | ReplicaNotFound => Some (forS (fun x => swallow (transaction (update_replica x))) l)
                 | _ => Some skipS
                 end).
Definition finish_requests (reqs : list (nat * Request)) : ST World unit :=
  let! terminated := concatS finish_request reqs in
  forS handle_group (by_type_and_rule reqs.*2 terminated).
Definition handle_requests (reqs : list (nat * Request)) (bulk : nat) : ST World unit :=
  forS (fun chunk => swallow (finish_requests chunk)) (chunks reqs bulk).
End finishing.

(** ** The conveyor as a machine *)

(** What the daemons know from outside the tables: which tools transfer between RSEs, limits, physical
    names and settings *)
Record Surroundings := MkSurroundings {
  supported : string -> string -> bool;
  source_limits : string -> list (option string * Z);
  dest_limits : string -> list (option string * Z);
  submission_builder_for_path : string -> list DirectTransfer -> nat;
  default_tombstone_delay : Z;
  volatile : Session -> string -> bool;
  deterministic : Session -> string -> bool;
  pfn_error : Session -> string -> list (DID * string) -> option exn;
  dest_url : nat -> option string;
  path_known : nat -> Request -> bool;
  retry_protocol_mismatches : bool;
}.

Inductive operation :=
  | Queue (requests : list Transfer)
  | Cancel (did : DID) (rse_id : string)
  | Drop (did : DID) (rse_id : string)
  | Prepare (candidates : list Candidates)
  | AssignPath (transfertools : option (list string)) (candidate_paths : list (list DirectTransfer))
  | MarkSubmitting (id : nat) (external_host : string)
  | SetState (transfers : list (nat * string)) (state : RequestState) (external_host external_id : string)
  | Transition (ids : list nat) (state : RequestState)
  | Poll (id : nat) (fields : option Report)
  | MarkLost (id : nat) (request : Request)
  | Touch (transfer_id : string)
  | ResetStale (time_limit : Z)
  | Reprioritise (priority : Z) (f : PriorityFilter)
  | ReleaseFifo (dest_rse_id source_rse_id activity : option string) (count : nat) (account : option InternalType)
  | ReleaseAll (dest_rse_id source_rse_id activity : option string) (account : option InternalType)
  | ReleaseGrouped (dest_rse_id source_rse_id : option string) (count deadline volume : Z)
  | Finish (reqs : list (nat * Request)) (bulk : nat).

Definition ignore {A} (m : ST World A) : ST World unit := do! m in skipS.
Definition perform (s : Surroundings) (o : operation) : ST World unit :=
  match o with
  | Queue requests => queue_requests requests
  | Cancel did rse_id => cancel_request_did did rse_id
  | Drop did rse_id => delete_requests did rse_id
  | Prepare candidates => ignore (prepare_transfers (supported s) (source_limits s) (dest_limits s) candidates)
  | AssignPath tools paths =>
      ignore (assign_path (volatile s) (deterministic s) (pfn_error s) (default_tombstone_delay s) (submission_builder_for_path s) tools paths)
  | MarkSubmitting id external_host => mark_submitting id external_host
  | SetState transfers state external_host external_id => set_transfers_state transfers state external_host external_id
  | Transition ids state => transition_requests_state_if_possible ids state
  | Poll id fields => ignore (update_transfer_state id fields)
  | MarkLost id request => mark_transfer_lost id request
  | Touch transfer_id => touch_transfer transfer_id
  | ResetStale time_limit => reset_stale_waiting_requests time_limit
  | Reprioritise priority f => ignore (update_requests_priority priority f)
  | ReleaseFifo dest src activity count account => ignore (release_waiting_requests_fifo dest src activity count account)
  | ReleaseAll dest src activity account => ignore (release_all_waiting_requests dest src activity account)
  | ReleaseGrouped dest src count deadline volume => ignore (release_waiting_requests_grouped_fifo dest src count deadline volume)
  | Finish reqs bulk =>
      handle_requests (volatile s) (deterministic s) (pfn_error s) (dest_url s) (path_known s) (retry_protocol_mismatches s) reqs bulk
  end.
