(* ===== verification/DeletionFacts.v ===== *)
(** * What the reaper may delete

    Marking takes unlocked replicas that nothing needs; the clean-up after a deletion ends, keeps the
    invariants of the rule engine and of the hierarchy, and leaves no file behind without replicas. *)

From S2P Require Import Prelude StateError Counting Types Database RseSelector LockTables RuleGrouping RuleEngine RuleInvariant RuleEvents RuleLosses RuleRepair RuleDemo Deletion.

#[local] Arguments Z.add : simpl never.
#[local] Arguments Z.sub : simpl never.

(** ** Chunks *)

Lemma concat_chunks_of {A} fuel n (l : list A) : length l <= fuel -> 0 < n -> concat (chunks_of fuel n l) = l.
Proof.
  intros Hf Hn. revert l Hf. induction fuel as [|fuel IH]; intros l Hf; simpl.
  - by destruct l; [|simpl in Hf; lia].
  - destruct l as [|x l]; [by rewrite take_nil|]. destruct n as [|n]; [lia|]. simpl in *.
    rewrite IH; [by rewrite take_drop|]. rewrite length_drop. lia.
Qed.
Lemma concat_chunks {A} n (l : list A) : 0 < n -> concat (chunks l n) = l.
Proof. intros. by apply concat_chunks_of. Qed.

Lemma chunks_of_sub {A} fuel n (l : list A) c x : c ∈ chunks_of fuel n l -> x ∈ c -> x ∈ l.
Proof.
  revert l. induction fuel as [|fuel IH]; intros l; simpl; [by intros ?%elem_of_nil|].
  destruct (take n l) eqn:Ht; [by intros ?%elem_of_nil|]. rewrite <-Ht.
  intros [->|Hc]%elem_of_cons Hx; [by eapply elem_of_take in Hx as (? & ? & _); eapply list_elem_of_lookup_2|].
  eapply subseteq_drop, IH; [|done]. eassumption.
Qed.

(** ** Marking *)

Section marking.
Variables (last_update : World -> nat -> Z) (w : World) (limit : nat) (needed_space : option Z) (only_delete_obsolete : bool).
Notation enough := (enough limit needed_space only_delete_obsolete).
Notation take_rows := (take_rows w limit needed_space only_delete_obsolete).
Notation take_chunks := (take_chunks last_update w limit needed_space only_delete_obsolete).

Lemma take_rows_spec rows total l rows' total' :
  take_rows rows total l = (rows', total') ->
  exists k, rows' = rows ++ take k l /\ (length rows <= limit -> length rows' <= limit) /\ (rows' = rows ++ l \/ enough rows' total' = true).
Proof.
  revert rows total. induction l as [|i l IH]; intros rows total; simpl.
  { intros [= <- <-]. exists 0. simpl. rewrite app_nil_r. split_and!; auto. }
  destruct (enough rows total) eqn:He.
  { intros [= <- <-]. exists 0. simpl. rewrite app_nil_r. split_and!; auto. }
  intros (k & -> & Hle & Hall)%IH. exists (S k). simpl. rewrite <-!app_assoc in Hall. rewrite <-!app_assoc. simpl in *. rewrite <-!app_assoc in Hle.
  split_and!; [done| |done]. intros Hr. apply Hle. rewrite length_app. simpl. unfold enough in He. apply orb_false_iff in He as [?%bool_decide_eq_false _]. lia.
Qed.

Lemma enough_unless_space rows total : needed_space = None -> enough rows total = true -> limit <= length rows.
Proof. intros Hs. unfold enough. rewrite Hs, andb_false_r, orb_false_r. apply bool_decide_eq_true. Qed.

Lemma take_chunks_spec rows total cs :
  exists new, take_chunks rows total cs = rows ++ new /\ new ⊆+ concat cs /\ (length rows <= limit -> length (rows ++ new) <= limit) /\
    (forall i, i ∈ new -> expendable w i = true) /\
    (needed_space = None -> length (rows ++ new) < limit -> forall i, i ∈ concat cs -> expendable w i = true -> i ∈ new).
Proof.
  revert rows total. induction cs as [|c cs IH]; intros rows total; simpl.
  { exists []. rewrite app_nil_r. split_and!; [done..|by intros i ?%elem_of_nil|by intros ? ? i ?%elem_of_nil]. }
  set (sorted := merge_sort (sooner last_update w) (List.filter (expendable w) c)).
  assert (sorted ≡ₚ List.filter (expendable w) c) as Hsorted by apply merge_sort_Permutation.
  assert (forall i, i ∈ sorted <-> i ∈ c /\ expendable w i = true) as Hin.
  { intros i. rewrite Hsorted, !list_elem_of_In. apply filter_In. }
  assert (forall k k', take k (take k' sorted) ⊆+ c) as Hsub.
  { intros k k'. etrans; [apply sublist_submseteq, sublist_take|]. etrans; [apply sublist_submseteq, sublist_take|]. rewrite Hsorted.
    apply sublist_submseteq. clear. induction c as [|x c IH]; simpl; [done|]. destruct (expendable w x); by constructor. }
  destruct (take_rows rows total _) as [rows1 total1] eqn:Hr. apply take_rows_spec in Hr as (k & -> & Hle & Hall).
  assert (forall i, i ∈ take k (take (limit - length rows) sorted) -> expendable w i = true) as Hexp.
  { intros i Hi. apply (subseteq_take k), (subseteq_take _) in Hi. by apply Hin. }
  destruct (enough _ _) eqn:He.
  - exists (take k (take (limit - length rows) sorted)). split_and!; [done|by apply submseteq_inserts_r|done|done|].
    intros Hs Hlt. apply enough_unless_space in He; [lia|done].
  - destruct Hall as [Hall|]; [|congruence]. destruct (IH (rows ++ take k (take (limit - length rows) sorted)) total1) as (new & -> & Hnew & Hle' & Hexp' & Hcomp).
    exists (take k (take (limit - length rows) sorted) ++ new). rewrite <-app_assoc in *. split_and!; [done|by apply submseteq_app| | |].
    + intros Hr. apply Hle'. apply Hle, Hr.
    + intros i [Hi|Hi]%elem_of_app; auto.
    + intros Hs Hlt i Hi Hei. rewrite elem_of_app. apply elem_of_app in Hi as [Hi|Hi]; [left|right; by apply Hcomp].
      apply app_inv_head in Hall. rewrite Hall in *. rewrite take_ge; [by apply Hin|].
      rewrite !length_app, length_take in Hlt. lia.
Qed.
End marking.

(** ** The invariant of the rule engine *)

Lemma mark_core j r c :
  core_ok c -> k_replicas c !! j = Some r -> rp_lock_cnt r = 0%Z -> core_ok (k_replica mark_being_deleted j c).
Proof.
  intros Hok Hr Hz. apply replica_core with r; [done..|]. intros Hp. destruct (core_replicas c Hok j r Hr Hp) as [Hle _].
  unfold replica_ok. cbn. rewrite Hz in *. pose proof (count_nonneg (fun _ => lock_on_key (replica_key r)) (k_locks c)).
  unfold replica_key in *. cbn. lia.
Qed.

(** A replica with a tombstone may go. *)
Lemma replica_gone_core j r c :
  core_ok c -> k_replicas c !! j = Some r -> is_Some (rp_tombstone r) -> core_ok (k_replica (upd_rp_status (fun _ => Deleted)) j c).
Proof.
  intros Hok Hr Ht.
  assert (forall i r', alter (upd_rp_status (fun _ => Deleted)) j (k_replicas c) !! i = Some r' -> persistent_replica r' = true ->
            i <> j /\ k_replicas c !! i = Some r') as Hback.
  { intros i r'. destruct (decide (i = j)) as [->|Hi]; [|by rewrite list_lookup_alter_ne].
    rewrite list_lookup_alter_eq, Hr. by intros [= <-]. }
  split; red; cbn [k_replica k_rules k_locks k_replicas]; try apply Hok.
  - intros i1 i2 r1 r2 H1 H2 Hp1 Hp2. apply Hback in H1 as [_ H1], H2 as [_ H2]; [|done..]. by apply (core_replica_keys c Hok i1 i2 r1 r2).
  - intros i r' Hr' Hp. apply Hback in Hr' as [_ Hr']; [|done]. by apply (core_replicas c Hok i).
  - intros i l Hl Hp. destruct (core_homes c Hok i l Hl Hp) as (j' & r' & Hr' & Hp' & Hk).
    exists j', r'. split_and!; [|done..]. rewrite list_lookup_alter_ne; [done|]. intros <-.
    rewrite Hr in Hr'. injection Hr' as <-. destruct (core_replicas c Hok j r Hr Hp') as [_ Hz]. specialize (Hz Ht).
    assert (lock_on_key (replica_key r) l = false) as Hon by (refine (proj1 (count_zero _ _) _ i l Hl); apply Z.eq_le_incl, Hz).
    unfold lock_on_key in Hon. rewrite Hp, Hk in Hon. simpl in Hon. by rewrite (proj2 (on_file_key _ _ _) eq_refl) in Hon.
Qed.

(** Rules without locks may go. *)
Lemma rules_gone_core m c :
  core_ok c -> m ⊆ k_rules c -> (forall i l, k_locks c !! i = Some l -> persistent_lock l = true -> is_Some (m !! lk_rule_id l)) ->
  core_ok (MkCore m (k_locks c) (k_replicas c)).
Proof.
  intros Hok Hm Hl. split; red; cbn [k_rules k_locks k_replicas]; try apply Hok; [| |exact Hl].
  - intros id v st Hv. apply (core_counters c Hok). by eapply lookup_weaken.
  - intros id v Hv. apply (core_states c Hok id). by eapply lookup_weaken.
Qed.

Lemma delete_idle_rules_ok dids w : engine_ok w -> wpo (delete_idle_rules dids) (fun _ => engine_ok) w.
Proof.
  intros Hok. apply wpo_bind, wp_gets. change (id w) with w. cbv zeta.
  destruct (existsb _ (w_locks w) || _ || _) eqn:Hno; [done|]. apply wp_modify. apply orb_false_iff in Hno as [[Hno _]%orb_false_iff _].
  apply (rules_gone_core (view <$> filter _ (w_rules w)) (core w) Hok).
  - apply map_fmap_mono, map_filter_subseteq.
  - intros i l Hl Hp. destruct (core_rules _ Hok i l Hl Hp) as [v Hv]. cbn in Hv. apply lookup_fmap_Some in Hv as (r & _ & Hr).
    rewrite lookup_fmap. rewrite map_lookup_filter_Some_2 with (x := r); [by eexists|done|].
    assert (l ∈ w_locks w) as Hin by (by eapply list_elem_of_lookup_2). apply list_elem_of_In in Hin.
    cbn. destruct (bool_decide _ && _) eqn:Hgo; [|done]. exfalso. eapply not_true_iff_false; [exact Hno|].
    apply existsb_exists. exists l. rewrite Hp, Hr. cbn [andb]. by rewrite Hgo.
Qed.

(** Operations that keep the invariant *)
Definition sound_op {A} (m : ST World A) : Prop := forall w, engine_ok w -> wpo m (fun _ => engine_ok) w.
Lemma sound_frames {A} (m : ST World A) : frames m -> sound_op m.
Proof. intros Hm w Hok. apply wpo_frames; [done|]. unfold engine_ok. by intros a w' ->. Qed.
Lemma sound_bind {A B} (m : ST World A) (f : A -> ST World B) : sound_op m -> (forall a, sound_op (f a)) -> sound_op (bindS m f).
Proof. intros Hm Hf w Hok. apply wpo_bind. eapply wpo_mono; [by apply Hm|]. intros a w' Hw'. by apply Hf. Qed.
Lemma sound_for {A} (f : A -> ST World unit) l : (forall a, sound_op (f a)) -> sound_op (forS f l).
Proof. intros Hf. induction l; simpl; [by apply sound_frames, frames_ret|]. by apply sound_bind. Qed.

Lemma frames_note_collections rse files : frames (note_collections rse files).
Proof. unfold note_collections. frames. Qed.
Lemma frames_detach_upwards fuel children acc : frames (detach_upwards fuel children acc).
Proof.
  revert children acc. induction fuel as [|fuel IH]; intros [|child children] acc; simpl; [apply frames_ret|apply frames_raise|apply frames_ret|].
  apply frames_bind; [apply frames_gets|]. intros w. destruct (foldl _ _ _) as [messages incomplete].
  apply frames_bind; [frames|]. intros _. apply frames_bind; [frames|]. intros _. apply IH.
Qed.
Lemma frames_drop_collection_replicas parents : frames (drop_collection_replicas parents).
Proof. unfold drop_collection_replicas. frames. Qed.
Lemma frames_set_incomplete l : frames (set_incomplete l).
Proof. unfold set_incomplete. frames. Qed.
Lemma frames_remove_constituents files : frames (remove_constituents files).
Proof. unfold remove_constituents. frames. Qed.
Lemma frames_delete_dids l : frames (delete_dids l).
Proof. unfold delete_dids. frames. Qed.
Lemma frames_set_not_archive l : frames (set_not_archive l).
Proof. unfold set_not_archive. frames. Qed.
#[export] Hint Resolve frames_note_collections frames_detach_upwards frames_drop_collection_replicas frames_set_incomplete
  frames_remove_constituents frames_delete_dids frames_set_not_archive : frames.

Lemma delete_found_ok gone messages : sound_op (delete_found gone messages).
Proof.
  destruct gone as [|d gone]; [by apply sound_frames, frames_ret|]. apply sound_bind; [intros w; apply delete_idle_rules_ok|].
  intros _. apply sound_frames. frames.
Qed.

Lemma cleanup_ok remove_open_did fuel rse files : sound_op (cleanup_after_replica_deletion remove_open_did fuel rse files).
Proof.
  revert files. induction fuel as [|fuel IH]; intros files; [by apply sound_frames, frames_raise|]. simpl.
  apply sound_bind; [apply sound_frames; frames|]. intros _. apply sound_bind; [apply sound_frames; frames|]. intros w.
  apply sound_bind; [apply sound_frames; frames|]. intros d. apply sound_bind; [apply sound_frames; frames|]. intros _.
  apply sound_bind; [apply sound_frames; frames|]. intros _. apply sound_bind; [apply sound_frames; frames|]. intros w'.
  apply sound_bind; [apply sound_frames; frames|]. intros removed. apply sound_bind; [by apply sound_for|]. intros _.
  apply sound_bind; [apply delete_found_ok|]. intros _. apply sound_frames. frames.
Qed.

Section reaper.
Variables (last_update : World -> nat -> Z) (remove_open_did : bool).
Notation is_unlocked := (is_unlocked last_update).
Notation unlocked_replicas := (unlocked_replicas last_update).
Notation list_and_mark_unlocked_replicas := (list_and_mark_unlocked_replicas last_update).

Lemma elem_of_unlocked w rse delay obsolete i : i ∈ unlocked_replicas w rse delay obsolete <-> is_unlocked w rse delay obsolete i = true.
Proof.
  unfold Deletion.unlocked_replicas. rewrite merge_sort_Permutation, list_elem_of_In, filter_In, in_seq. split; [tauto|].
  intros Hi. split; [|done]. unfold Deletion.is_unlocked in Hi. destruct (w_replicas w !! i) eqn:Hr; [|done].
  apply lookup_lt_Some in Hr. lia.
Qed.
Lemma unlocked_NoDup w rse delay obsolete : NoDup (unlocked_replicas w rse delay obsolete).
Proof.
  unfold Deletion.unlocked_replicas. rewrite merge_sort_Permutation. apply NoDup_ListNoDup, List.NoDup_filter, List.seq_NoDup.
Qed.

Lemma alter_all f rows w :
  NoDup rows -> exists w', forS (alter_replica f) rows w = (Ok tt, w') /\
    (forall i, i ∈ rows -> w_replicas w' !! i = f <$> w_replicas w !! i) /\
    (forall i, i ∉ rows -> w_replicas w' !! i = w_replicas w !! i) /\
    (exists g, w' = upd_w_replicas g w).
Proof.
  revert w. induction rows as [|j rows IH]; intros w Hnd; simpl.
  { exists w. split_and!; [done|by intros i ?%elem_of_nil|done|]. exists id. by destruct w. }
  apply NoDup_cons in Hnd as [Hj Hnd]. destruct (IH (upd_w_replicas (alter f j) w) Hnd) as (w' & Hrun & Hin & Hout & g & ->).
  eexists. split; [exact Hrun|]. split_and!.
  - intros i [->|Hi]%elem_of_cons; [rewrite Hout by done; apply list_lookup_alter_eq|].
    rewrite Hin by done. simpl. by rewrite list_lookup_alter_ne by (intros ->; done).
  - intros i [? ?]%not_elem_of_cons. rewrite Hout by done. by apply list_lookup_alter_ne.
  - by eexists (fun l => g (alter f j l)).
Qed.

(** What it takes for a replica to be deleted *)
Definition unneeded (w : World) (rse : string) (obsolete : bool) (r : Replica) : Prop :=
  persistent_replica r = true /\ rp_rse_id r = rse /\ rp_lock_cnt r = 0%Z /\
  (exists e, rp_tombstone r = Some e /\ (if obsolete then e = OBSOLETE else (e < now (w_session w))%Z)) /\
  (forall so, so ∈ w_sources w -> so_did so = rp_did r -> so_rse_id so <> rse) /\
  ((exists r', r' ∈ w_replicas w /\ persistent_replica r' = true /\ rp_did r' = rp_did r /\ rp_rse_id r' <> rse /\ rp_state r' = R_AVAILABLE) \/
   forall q, q ∈ w_requests w -> persistent_request q = true -> t_did (rq_transfer q) <> rp_did r).

Lemma unlocked_unneeded w rse delay obsolete i :
  is_unlocked w rse delay obsolete i = true -> expendable w i = true -> exists r, w_replicas w !! i = Some r /\ unneeded w rse obsolete r.
Proof.
  unfold Deletion.is_unlocked, expendable, unneeded. destruct (w_replicas w !! i) as [r|] eqn:Hr; [|done].
  rewrite !andb_true_iff, !bool_decide_eq_true. intros (((((Hp & Hz) & <-) & Hdue) & _) & Hsrc) (_ & Hlast). exists r. split_and!; try done.
  - unfold due in Hdue. destruct (rp_tombstone r) as [e|]; [|done]. exists e. split; [done|]. destruct obsolete; by apply bool_decide_eq_true in Hdue.
  - intros so Hso Hdid Hrse. apply negb_true_iff, not_true_iff_false in Hsrc. apply Hsrc, existsb_elem. exists so. by rewrite !bool_decide_true.
  - apply orb_true_iff in Hlast as [(r' & Hr' & Hcopy)%existsb_elem|Hreq].
    + left. exists r'. split; [done|]. rewrite !andb_true_iff, negb_true_iff, !bool_decide_eq_true, bool_decide_eq_false in Hcopy. tauto.
    + right. intros q Hq Hpq Hdid. apply negb_true_iff, not_true_iff_false in Hreq. apply Hreq, existsb_elem. exists q.
      by rewrite Hpq, bool_decide_true.
Qed.

(** C5: The reaper is given at most as many replicas as it asks for, each once, and each of them is on
    the RSE, due for deletion, free of locks, no source of a transfer, and not the last copy of a file
    that is requested; they are marked as being deleted and no other replica is touched.  When it gets
    fewer than it asked for without a limit of space, it gets all such replicas. *)
Theorem reaper_marks_unneeded_replicas limit space rse delay obsolete w :
  0 < limit ->
  exists rows w', list_and_mark_unlocked_replicas limit space rse delay obsolete w = (Ok rows, w') /\
    NoDup rows /\ length rows <= limit /\
    (forall i, i ∈ rows -> exists r, w_replicas w !! i = Some r /\ unneeded w rse obsolete r /\
       w_replicas w' !! i = Some (mark_being_deleted r)) /\
    (forall i, i ∉ rows -> w_replicas w' !! i = w_replicas w !! i) /\
    (space = None -> length rows < limit -> forall i, is_unlocked w rse delay obsolete i = true -> expendable w i = true -> i ∈ rows).
Proof.
  intros Hlimit. unfold Deletion.list_and_mark_unlocked_replicas.
  set (l := unlocked_replicas w rse delay obsolete).
  destruct (take_chunks_spec last_update w limit space obsolete [] 0 (chunks l ((5 * limit + 3) / 4))) as (rows & Hrows & Hsub & Hle & Hexp & Hcomp).
  rewrite concat_chunks in Hsub, Hcomp by (apply Nat.div_str_pos; lia). rewrite app_nil_l in *.
  assert (NoDup rows) as Hnd.
  { destruct (submseteq_Permutation _ _ Hsub) as [k Hk]. pose proof (unlocked_NoDup w rse delay obsolete) as Hnd. fold l in Hnd.
    rewrite Hk in Hnd. by apply NoDup_app in Hnd as [? _]. }
  destruct (alter_all mark_being_deleted rows w Hnd) as (w' & Hrun & Hin & Hout & _). exists rows, w'.
  unfold bindS at 1, getsS at 1. cbv beta iota zeta. change (id w) with w. fold l. rewrite Hrows.
  unfold bindS. rewrite Hrun. split_and!; [done|done|apply Hle, Nat.le_0_l| |done|].
  - intros i Hi. destruct (unlocked_unneeded w rse delay obsolete i) as (r & Hr & Hun).
    + apply elem_of_unlocked. by eapply elem_of_submseteq.
    + by apply Hexp.
    + exists r. split_and!; [done|done|]. by rewrite Hin, Hr.
  - intros Hs Hlt i Hi%elem_of_unlocked He. by apply Hcomp.
Qed.

Lemma marking_ok limit space rse delay obsolete : sound_op (list_and_mark_unlocked_replicas limit space rse delay obsolete).
Proof.
  intros w Hok. apply wpo_bind, wp_gets. change (id w) with w. cbv zeta. apply wpo_bind.
  set (rows := take_chunks _ _ _ _ _ _ _ _).
  assert (forall j, j ∈ rows -> exists r, w_replicas w !! j = Some r /\ rp_lock_cnt r = 0%Z) as Hrows.
  { intros j Hj. destruct (take_chunks_spec last_update w limit space obsolete [] 0
      (chunks (unlocked_replicas w rse delay obsolete) ((5 * limit + 3) / 4))) as (new & Hnew & Hsub & _).
    fold rows in Hnew. rewrite Hnew in Hj. simpl in Hj. eapply elem_of_submseteq in Hj; [|exact Hsub].
    rewrite list_elem_of_In in Hj. apply in_concat in Hj as (c & Hc & Hj). apply list_elem_of_In in Hc, Hj.
    eapply chunks_of_sub, elem_of_unlocked in Hj; [|exact Hc]. unfold Deletion.is_unlocked in Hj.
    destruct (w_replicas w !! j) as [r|]; [|done]. exists r. split; [done|].
    rewrite !andb_true_iff, bool_decide_eq_true in Hj. tauto. }
  clearbody rows. revert w Hok Hrows. induction rows as [|j rows IH]; intros w Hok Hrows; simpl; [done|].
  apply wpo_alter_replica. intros w' Hw'. destruct (Hrows j) as (r & Hr & Hz); [by left|]. apply IH.
  - unfold engine_ok. rewrite Hw'. by apply mark_core with r.
  - intros i Hi. change (w_replicas w') with (k_replicas (core w')). rewrite Hw'. cbn.
    destruct (decide (i = j)) as [->|]; [|rewrite list_lookup_alter_ne by done; apply Hrows; by right].
    rewrite list_lookup_alter_eq, Hr. by eexists.
Qed.

(** The replicas of the files on the RSE are up for deletion. *)
Definition marked (rse : string) (files : list DID) (w : World) : Prop :=
  forall j r, w_replicas w !! j = Some r -> persistent_replica r = true -> rp_did r ∈ files -> rp_rse_id r = rse -> is_Some (rp_tombstone r).
Lemma marked_check rse files w :
  forallb (fun r => implb (persistent_replica r && bool_decide (rp_did r ∈ files) && bool_decide (rp_rse_id r = rse))
                          (bool_decide (is_Some (rp_tombstone r)))) (w_replicas w) = true -> marked rse files w.
Proof.
  intros Hall j r Hr Hp Hd He. apply list_elem_of_lookup_2, list_elem_of_In in Hr.
  apply forallb_forall with (x := r) in Hall; [|done]. rewrite Hp, !bool_decide_true in Hall by done. simpl in Hall.
  by apply bool_decide_eq_true in Hall.
Qed.

Lemma remove_replicas_ok found w :
  engine_ok w -> NoDup found -> (forall j, j ∈ found -> exists r, w_replicas w !! j = Some r /\ is_Some (rp_tombstone r)) ->
  wpo (forS (alter_replica (upd_rp_status (fun _ => Deleted))) found) (fun _ => engine_ok) w.
Proof.
  revert w. induction found as [|j found IH]; intros w Hok Hnd Hf; simpl; [done|]. apply NoDup_cons in Hnd as [Hj Hnd].
  destruct (Hf j) as (r & Hr & Ht); [by left|]. apply wpo_alter_replica. intros w' Hw'. apply IH; [|done|].
  - unfold engine_ok. rewrite Hw'. by apply replica_gone_core with r.
  - intros i Hi. change (w_replicas w') with (k_replicas (core w')). rewrite Hw'. cbn.
    rewrite list_lookup_alter_ne by (by intros ->). apply Hf. by right.
Qed.

Lemma delete_replicas_ok rse files ignore w :
  engine_ok w -> marked rse files w -> wpo (delete_replicas remove_open_did rse files ignore) (fun _ => engine_ok) w.
Proof.
  intros Hok Hm. unfold delete_replicas. destruct files as [|f files]; [done|]. set (fs := f :: files) in *. clearbody fs.
  apply wpo_skip; [unfold get_rse; frames|]. intros row w1 H1. destruct (_ && _); [done|]. destruct (negb (bool_decide (NoDup fs))); [done|].
  apply wpo_skip; [frames|]. intros _ w2 H2. apply wpo_bind, wp_gets. apply wpo_bind, wp_gets. change (id w2) with w2.
  assert (w_replicas w2 = w_replicas w) as Hw2 by (change (k_replicas (core w2) = k_replicas (core w)); congruence).
  apply wpo_bind. eapply wpo_mono; [apply remove_replicas_ok|].
  - unfold engine_ok. by rewrite H2, H1.
  - apply select_NoDup.
  - intros j (r & Hr & [Hp [?%bool_decide_eq_true ?%bool_decide_eq_true]%andb_true_iff]%andb_true_iff)%elem_of_select.
    exists r. split; [done|]. rewrite Hw2 in Hr. by eapply Hm.
  - intros [] w3 Hw3. destruct (negb _); [done|]. revert w3 Hw3. apply sound_bind; [apply sound_frames; frames|].
    intros _. apply sound_bind; [apply cleanup_ok|]. intros _. apply sound_frames. unfold rse_decrease. frames.
Qed.
End reaper.

(** ** No file is left behind, and the clean-up ends *)

(** What the clean-up decides on: the replicas, the archives, and which data identifiers are known and lost *)
Record Knowledge := MkKnowledge { kn_replicas : list Replica; kn_archives : list (DID * DID); kn_lost : gmap DID bool }.
Definition knowledge (w : World) : Knowledge := MkKnowledge (w_replicas w) (w_archive_contents w) (d_lost <$> w_dids w).
Definition replicated (k : Knowledge) (did : DID) : bool :=
  existsb (fun r => persistent_replica r && bool_decide (rp_did r = did)) (kn_replicas k).
Definition archived (k : Knowledge) (did : DID) : bool := existsb (fun a : DID * DID => bool_decide (a.2 = did)) (kn_archives k).
Definition orphan (k : Knowledge) (did : DID) : bool :=
  negb (bool_decide (kn_lost k !! did = Some true)) && negb (replicated k did) && negb (archived k did).

Lemma is_lost_knowledge w did : is_lost w did = bool_decide (kn_lost (knowledge w) !! did = Some true).
Proof. unfold is_lost. cbn. rewrite lookup_fmap. destruct (w_dids w !! did) as [d|]; simpl; [|done]. by destruct (d_lost d). Qed.
Lemma orphaned_knowledge w did : orphaned w did = orphan (knowledge w) did.
Proof. unfold orphaned. by rewrite is_lost_knowledge. Qed.
Lemma known_knowledge w did : is_Some (kn_lost (knowledge w) !! did) <-> is_Some (w_dids w !! did).
Proof. cbn. by rewrite lookup_fmap, fmap_is_Some. Qed.

(** From [k] to [k'], nothing known has become an orphan, and none of the files is one. *)
Record clean (files : list DID) (k k' : Knowledge) : Prop := {
  clean_replicas : kn_replicas k' = kn_replicas k;
  clean_archives : kn_archives k' `sublist_of` kn_archives k;
  clean_lost : kn_lost k' ⊆ kn_lost k;
  clean_orphans did : is_Some (kn_lost k' !! did) -> orphan k' did = true -> did ∉ files /\ orphan k did = true;
}.
Lemma clean_refl k : clean [] k k.
Proof. split; [done..|]. intros did _ Ho. split; [apply not_elem_of_nil|done]. Qed.
Lemma clean_trans files files' k k' k'' : clean files k k' -> clean files' k' k'' -> clean (files ++ files') k k''.
Proof.
  intros [Hr Ha Hl Ho] [Hr' Ha' Hl' Ho']. split; [congruence|by etrans|by etrans|].
  intros did Hk Hor. destruct (Ho' did Hk Hor) as [? Hor']. destruct (Ho did) as [? ?]; [|done|].
  - destruct Hk as [b Hb]. exists b. by eapply lookup_weaken.
  - split; [|done]. by apply not_elem_of_app.
Qed.

(** Computations that leave what is known alone, and end *)
Definition knows (k : Knowledge) {A} (m : ST World A) : Prop :=
  forall w, knowledge w = k -> wp m (fun _ w' => knowledge w' = k) (fun e _ => e <> OutOfFuel) w.
Lemma knows_bind k {A B} (m : ST World A) (f : A -> ST World B) : knows k m -> (forall a, knows k (f a)) -> knows k (bindS m f).
Proof. intros Hm Hf w Hw. apply wp_bind. eapply wp_mono; [by apply Hm| |done]. intros a w' Hw'. by apply Hf. Qed.
Lemma knows_modify k f : (forall w, knowledge (f w) = knowledge w) -> knows k (modifyS f).
Proof. intros Hf w <-. apply wp_modify, Hf. Qed.
Lemma knows_gets k {A} (f : World -> A) : knows k (getsS f).
Proof. by intros w Hw. Qed.
Lemma knows_for k {A} (f : A -> ST World unit) l : (forall a, knows k (f a)) -> knows k (forS f l).
Proof. intros Hf. induction l; simpl; [by intros w Hw|]. by apply knows_bind. Qed.
(** A step that leaves what is known alone before the rest *)
Lemma wp_knows {A B} (m : ST World A) (f : A -> ST World B) Q w :
  knows (knowledge w) m -> (forall a w', knowledge w' = knowledge w -> wp (f a) Q (fun e _ => e <> OutOfFuel) w') ->
  wp (bindS m f) Q (fun e _ => e <> OutOfFuel) w.
Proof. intros Hm Hf. apply wp_bind. eapply wp_mono; [by apply Hm| |done]. intros a w'. apply Hf. Qed.

(** A data identifier row that changes, but not in what is known of it *)
Lemma knowledge_map_dids g w :
  (forall did d, d_lost (g did d) = d_lost d) -> knowledge (upd_w_dids (map_imap (fun did d => Some (g did d))) w) = knowledge w.
Proof.
  intros Hg. unfold knowledge. cbn. f_equal. apply map_eq. intros did. rewrite !lookup_fmap, map_lookup_imap.
  destruct (w_dids w !! did); simpl; [by rewrite Hg|done].
Qed.

Lemma detach_upwards_knows k fuel children acc w :
  knowledge w = k -> length (w_contents w) < fuel ->
  wp (detach_upwards fuel children acc) (fun _ w' => knowledge w' = k) (fun e _ => e <> OutOfFuel) w.
Proof.
  revert children acc w. induction fuel as [|fuel IH]; intros [|child children] acc w Hk Hlt; simpl; [done|lia|done|].
  apply wp_bind, wp_gets. change (id w) with w.
  destruct (foldl _ _ _) as [messages incomplete]. apply wp_bind, wp_modify, wp_bind, wp_modify.
  destruct (List.filter (goes_with w (child :: children)) (w_contents w)) as [|c rows] eqn:Hrows.
  - by destruct fuel.
  - apply IH; [done|]. cbn. enough (length (List.filter (fun c => negb (goes_with w (child :: children) c)) (w_contents w)) < length (w_contents w)) by lia.
    rewrite <-(filter_length (goes_with w (child :: children)) (w_contents w)), Hrows. simpl. lia.
Qed.

Lemma note_collections_knows k rse files : knows k (note_collections rse files).
Proof. apply knows_bind; [apply knows_gets|]. intros w. by apply knows_modify. Qed.
Lemma drop_collection_replicas_knows k l : knows k (drop_collection_replicas l).
Proof. by apply knows_modify. Qed.
Lemma set_incomplete_knows k l : knows k (set_incomplete l).
Proof. apply knows_modify. intros w. apply knowledge_map_dids. intros did d. by case_match. Qed.
Lemma set_not_archive_knows k l : knows k (set_not_archive l).
Proof. apply knows_modify. intros w. apply knowledge_map_dids. intros did d. by case_match. Qed.

Lemma filter_sublist_of {A} (f : A -> bool) l : List.filter f l `sublist_of` l.
Proof. induction l as [|x l IH]; simpl; [done|]. destruct (f x); by constructor. Qed.


(** Fewer rows of archives: who becomes an orphan was in one that is gone. *)
Lemma orphan_archives k k' (removed : list DID) did :
  kn_replicas k' = kn_replicas k -> kn_lost k' ⊆ kn_lost k -> is_Some (kn_lost k' !! did) ->
  (forall a, a ∈ kn_archives k -> a ∉ kn_archives k' -> a.2 ∈ removed) ->
  orphan k' did = true -> orphan k did = true \/ did ∈ removed.
Proof.
  intros Hr Hl [b Hb] Ha Ho. unfold orphan in *. pose proof (lookup_weaken _ _ _ _ Hb Hl) as Hb'. rewrite Hb in Ho. rewrite Hb'.
  apply andb_true_iff in Ho as [[Hlost Hrep]%andb_true_iff Harch]. rewrite Hlost. unfold replicated in *. rewrite <-Hr, Hrep. simpl.
  destruct (archived k did) eqn:Hin; [|by left]. right. apply existsb_elem in Hin as (a & Hin & <-%bool_decide_eq_true).
  apply Ha; [done|]. intros Hin'. apply negb_true_iff in Harch. apply not_true_iff_false in Harch. apply Harch, existsb_elem.
  exists a. by rewrite bool_decide_true.
Qed.

Definition shorter (removed : list DID) (k k' : Knowledge) : Prop :=
  removed = [] \/ length (kn_archives k') < length (kn_archives k).

Lemma remove_constituents_spec files w :
  wp (remove_constituents files) (fun removed w' =>
    kn_replicas (knowledge w') = kn_replicas (knowledge w) /\ kn_lost (knowledge w') = kn_lost (knowledge w) /\
    kn_archives (knowledge w') `sublist_of` kn_archives (knowledge w) /\ shorter removed (knowledge w) (knowledge w') /\
    (forall a, a ∈ kn_archives (knowledge w) -> a ∉ kn_archives (knowledge w') -> a.2 ∈ removed)) (fun e _ => e <> OutOfFuel) w.
Proof.
  apply wp_bind, wp_gets. change (id w) with w. apply wp_bind, wp_modify, wp_bind, wp_modify, wp_ret. cbn.
  split_and!; [done|done|apply filter_sublist_of| |].
  - unfold shorter. cbn. destruct (List.filter (constituent_of w files) (w_archive_contents w)) as [|a l] eqn:Hl; [by left|right].
    rewrite <-(filter_length (constituent_of w files) (w_archive_contents w)), Hl. simpl. lia.
  - intros a Ha Hnot. apply elem_of_remove_dups, list_elem_of_fmap. exists a. split; [done|]. apply elem_of_filter_bool. split; [done|].
    destruct (constituent_of w files a) eqn:Hc; [done|]. exfalso. apply Hnot, elem_of_filter_bool. by rewrite Hc.
Qed.

Lemma delete_idle_rules_knows k l : knows k (delete_idle_rules l).
Proof. apply knows_bind; [apply knows_gets|]. intros w. cbv zeta. destruct (_ || _ || _); [by intros ? ?; apply wp_raise|by apply knows_modify]. Qed.

Lemma delete_found_spec gone messages w :
  wp (delete_found gone messages) (fun _ w' =>
    clean gone (knowledge w) (knowledge w')) (fun e _ => e <> OutOfFuel) w.
Proof.
  unfold delete_found. destruct gone as [|g gone]; [apply clean_refl|]. set (gs := g :: gone). clearbody gs.
  apply wp_knows; [apply delete_idle_rules_knows|]. intros _ w1 <-. apply wp_knows; [by apply knows_modify|]. intros _ w2 <-.
  apply wp_bind, wp_gets. destruct (existsb _ _); [done|]. apply wp_bind, wp_modify, wp_bind, wp_modify, wp_modify.
  assert (d_lost <$> filter (fun kv : DID * DIDRow => kv.1 ∉ gs) (w_dids w2) ⊆ d_lost <$> w_dids w2) as Hsub
    by (apply map_fmap_mono, map_filter_subseteq).
  split; cbn; [done|apply filter_sublist_of|exact Hsub|].
  intros did Hk Ho. assert (did ∉ gs) as Hn.
  { rewrite lookup_fmap, fmap_is_Some in Hk. by destruct Hk as [d [_ Hd]%map_lookup_filter_Some]. }
  split; [done|]. eapply (orphan_archives (knowledge w2) _ gs) in Ho as [|]; [done|done|done|exact Hsub|exact Hk|].
  intros a Ha Hnot. destruct (decide (a.2 ∈ gs)) as [|Hn']; [done|]. exfalso. apply Hnot, elem_of_filter_bool. by rewrite bool_decide_false.
Qed.

Lemma elem_of_chunks {A} n (l : list A) x : 0 < n -> x ∈ l -> exists c, c ∈ chunks l n /\ x ∈ c.
Proof.
  intros Hn. rewrite <-(concat_chunks n l Hn) at 1. rewrite list_elem_of_In. intros (c & Hc & Hx)%in_concat.
  exists c. by rewrite !list_elem_of_In.
Qed.

(** The files that are orphans are found. *)
Lemma orphans_found remove_open_did w files rows did :
  did ∈ files -> is_Some (w_dids w !! did) -> orphaned w did = true -> did ∈ concat (dids_found remove_open_did w files rows).
Proof.
  intros Hf [d Hd] Ho. set (cond := did_condition remove_open_did w files rows).
  assert ((did, true) ∈ cond) as Hin.
  { apply elem_of_app. left. apply list_elem_of_fmap. exists did. unfold known_and. by rewrite Hd, Ho. }
  destruct (elem_of_chunks 10 cond (did, true)) as (c & Hc & Hdc); [lia|done|].
  rewrite list_elem_of_In, in_concat. exists (remove_dups (fst <$> List.filter snd c)). split.
  - apply list_elem_of_In, list_elem_of_fmap. by exists c.
  - apply list_elem_of_In, elem_of_remove_dups, list_elem_of_fmap. exists (did, true). split; [done|]. by apply elem_of_filter_bool.
Qed.

Lemma cleanup_clean remove_open_did fuel rse files w :
  length (w_archive_contents w) < fuel ->
  wp (cleanup_after_replica_deletion remove_open_did fuel rse files) (fun _ w' => clean files (knowledge w) (knowledge w'))
    (fun e _ => e <> OutOfFuel) w.
Proof.
  revert files w. induction fuel as [|fuel IH]; intros files w Hlt; [lia|]. cbn [cleanup_after_replica_deletion].
  assert (length (kn_archives (knowledge w)) < S fuel) as Hfuel by done. clear Hlt. remember (knowledge w) as k eqn:Hk.
  rewrite Hk. apply wp_knows; [apply note_collections_knows|]. rewrite <-Hk. intros _ w1 H1. apply wp_bind, wp_gets. change (id w1) with w1.
  apply wp_bind. eapply wp_mono; [apply detach_upwards_knows with (k := k); [done|lia]| |done]. intros detached w2 H2.
  set (rows := concat (dt_levels detached)). apply wp_knows; [apply drop_collection_replicas_knows|]. rewrite H2.
  intros _ w3 H3. apply wp_knows; [apply set_incomplete_knows|]. rewrite H3. intros _ w4 H4.
  apply wp_bind, wp_gets. change (id w4) with w4.
  set (gone := concat (dids_found remove_open_did w4 files rows)). apply wp_bind.
  eapply wp_mono; [apply remove_constituents_spec| |done]. rewrite H4. intros removed w5 (Hr5 & Hl5 & Ha5 & Hs5 & Hin5). apply wp_bind.
  eapply wp_mono; [apply (wp_for _ _ (fun d _ w' => clean (concat d) (knowledge w5) (knowledge w')) (fun e _ => e <> OutOfFuel))|..|done].
  { intros d c todo w6 Hsplit H6. eapply wp_mono; [apply IH| |done].
    - destruct Hs5 as [->|Hs5]; [by apply app_cons_not_nil in Hsplit|]. pose proof (sublist_length _ _ (clean_archives _ _ _ H6)) as Hle.
      cbn in *. lia.
    - intros [] w7 H7. rewrite concat_app. simpl. rewrite app_nil_r. by eapply clean_trans. }
  { apply clean_refl. }
  rewrite concat_chunks by lia. intros [] w6 H6. apply wp_bind. eapply wp_mono; [apply delete_found_spec| |done]. intros [] w7 H7.
  eapply wp_mono; [apply (knows_for (knowledge w7) _ _ (set_not_archive_knows _) w7 eq_refl)| |done]. intros [] w8 ->.
  pose proof (clean_trans _ _ _ _ _ H6 H7) as [Hr Ha Hl Ho]. split.
  - congruence.
  - by etrans.
  - by rewrite <-Hl5.
  - intros did Hknown Horph. destruct (Ho did Hknown Horph) as [[Hrem Hgone]%not_elem_of_app Ho5].
    assert (is_Some (kn_lost (knowledge w5) !! did)) as Hknown5 by (destruct Hknown as [b Hb]; exists b; by eapply lookup_weaken).
    eapply (orphan_archives k _ removed) in Ho5 as [Ho5|]; [|done|exact Hr5|by rewrite Hl5|exact Hknown5|exact Hin5]. split; [|done].
    intros Hf. apply Hgone, elem_of_remove_dups, orphans_found; [done| |by rewrite orphaned_knowledge, H4].
    apply known_knowledge. by rewrite H4, <-Hl5.
Qed.

Lemma get_rse_knows k rse : knows k (get_rse rse).
Proof.
  apply knows_bind; [apply knows_gets|]. intros o w Hw. unfold wp, liftS. by destruct o.
Qed.

(** Of the files that are not deleted, all replicas stay. *)
Lemma removed_orphans w w' (found : list nat) did :
  (forall i, i ∉ found -> w_replicas w' !! i = w_replicas w !! i) ->
  (forall i r, i ∈ found -> w_replicas w !! i = Some r -> rp_did r <> did) ->
  w_archive_contents w' = w_archive_contents w -> w_dids w' = w_dids w -> orphan (knowledge w') did = true -> orphan (knowledge w) did = true.
Proof.
  intros Hout Hfound Ha Hd Ho. unfold orphan, archived in *. cbn in *. rewrite Ha, Hd in Ho.
  apply andb_true_iff in Ho as [[Hlost Hrep]%andb_true_iff Harch]. rewrite Hlost, Harch, andb_true_r. simpl.
  apply negb_true_iff. apply negb_true_iff in Hrep. apply not_true_iff_false. apply not_true_iff_false in Hrep. contradict Hrep.
  apply existsb_elem in Hrep as (r & Hr & Hpr). apply existsb_elem. exists r. split; [|done].
  apply list_elem_of_lookup_1 in Hr as [i Hi]. apply andb_true_iff in Hpr as [_ Hdid%bool_decide_eq_true].
  apply list_elem_of_lookup_2 with i. cbn. rewrite Hout; [done|]. intros Hin. by eapply Hfound.
Qed.

(** C4: Deleting replicas ends, however deep archives contain archives, and makes no orphans:
    of the files it is given, those that are still known have another replica, are lost, or are in an
    archive; and nothing else that is known has lost its last replica or its last archive by it: what is
    known without any of these afterwards was so before. *)
Theorem deletion_makes_no_orphans remove_open_did rse files ignore w :
  (delete_replicas remove_open_did rse files ignore w).1 <> Err OutOfFuel /\
  forall w', delete_replicas remove_open_did rse files ignore w = (Ok tt, w') ->
    forall did, is_Some (w_dids w' !! did) -> is_lost w' did = false -> has_replica w' did = false -> is_constituent w' did = false ->
      did ∉ files /\ is_lost w did = false /\ has_replica w did = false /\ is_constituent w did = false.
Proof.
  assert (wp (delete_replicas remove_open_did rse files ignore) (fun _ w' => forall did,
            is_Some (kn_lost (knowledge w') !! did) -> orphan (knowledge w') did = true -> did ∉ files /\ orphan (knowledge w) did = true)
          (fun e _ => e <> OutOfFuel) w) as Hwp.
  { unfold delete_replicas. destruct files as [|f files]; [by apply wp_ret, (clean_refl (knowledge w))|]. set (fs := f :: files) in *. clearbody fs.
    apply wp_knows; [apply get_rse_knows|]. intros row w1 H1. destruct (_ && _); [done|]. destruct (negb (bool_decide (NoDup fs))); [done|].
    rewrite <-H1. apply wp_knows; [by apply knows_modify|]. intros _ w2 H2. apply wp_bind, wp_gets, wp_bind, wp_gets.
    change (id w2) with w2. set (found := select _ (w_replicas w2)).
    destruct (alter_all (upd_rp_status (fun _ => Deleted)) found w2) as (w3 & Hrun & _ & Hout & g & Hw3); [apply select_NoDup|].
    apply wp_bind. unfold wp at 1. rewrite Hrun. destruct (negb _); [done|]. rewrite <-H2.
    assert (forall did, did ∉ fs -> orphan (knowledge w3) did = true -> orphan (knowledge w2) did = true) as Hback.
    { intros did Hdid. apply removed_orphans with found; [done| |by subst w3..].
      intros i r Hi Hr Hd. subst did. apply elem_of_select in Hi as (r' & Hr' & Hp). rewrite Hr in Hr'. injection Hr' as <-.
      apply andb_true_iff in Hp as [_ [Hin%bool_decide_eq_true _]%andb_true_iff]. done. }
    apply wp_bind, wp_modify, wp_bind. eapply wp_mono; [by apply cleanup_clean; rewrite Hw3; apply Nat.lt_succ_diag_r| |done].
    intros [] w4 Hclean. apply wp_modify. intros did Hk Ho. destruct (clean_orphans _ _ _ Hclean did Hk Ho) as [Hn Ho3].
    split; [done|]. by apply Hback. }
  unfold wp in Hwp. destruct (delete_replicas _ _ _ _ w) as [[[]|e] w1]; [|split; [by intros [= ->]|done]].
  split; [done|]. intros w' [= <-] did Hk Hlost Hrep Harch. destruct (Hwp did) as [Hn Ho].
  - by apply known_knowledge.
  - rewrite <-orphaned_knowledge. unfold orphaned. by rewrite Hlost, Hrep, Harch.
  - split; [done|]. rewrite <-orphaned_knowledge in Ho. unfold orphaned in Ho. rewrite !andb_true_iff, !negb_true_iff in Ho. tauto.
Qed.

(** ** Examples *)

#[local] Open Scope string_scope.
#[local] Open Scope list_scope.

(** A dataset of two files in a closed container; each file has one replica, which nothing protects. *)
Definition free_replica (file : string) (tombstone : option Z) : Replica :=
  MkReplica "A" ("data", file) 10 None None R_AVAILABLE 0 None tombstone (Some 0%Z) Persistent.
Definition closed (t : DIDType) : DIDRow := upd_d_open (fun _ => Some false) (demo_did t).
Definition demo_reaper : World :=
  upd_w_rules (fun _ => ∅) (upd_w_locks (fun _ => []) (upd_w_replicas (fun _ => [free_replica "f1" (Some 500%Z); free_replica "f2" None])
  (upd_w_dids (<[("data", "cont") := closed CONTAINER]>)
  (upd_w_contents (fun l => l ++ [MkContent ("data", "cont") CONTAINER ("data", "ds") DATASET 20 None None false]) demo_world)))).
Definition never_written (w : World) (i : nat) : Z := 0%Z.

Lemma reaper_marks_unneeded_replicas_witness :
  0 < 10 /\ exists rows w', list_and_mark_unlocked_replicas never_written 10 None "A" 600 false demo_reaper = (Ok rows, w') /\
    rows = [0] /\ NoDup rows /\ (rp_state <$> w_replicas w') = [R_BEING_DELETED; R_AVAILABLE].
Proof.
  split; [lia|].
  destruct (reaper_marks_unneeded_replicas never_written 10 None "A" 600 false demo_reaper) as (rows & w' & Hrun & Hnd & _); [lia|].
  exists rows, w'. split; [done|]. split; [|split; [done|]]; vm_compute in Hrun; by injection Hrun as <- <-.
Defined.

Definition demo_deleted : World := (delete_replicas false "A" [("data", "f1")] true demo_reaper).2.

Lemma deletion_makes_no_orphans_witness :
  delete_replicas false "A" [("data", "f1")] true demo_reaper = (Ok tt, demo_deleted) /\
  is_Some (w_dids demo_deleted !! ("data", "ds")) /\ w_dids demo_deleted !! ("data", "f1") = None /\
  ("data", "ds") ∉ [("data", "f1")] /\ is_constituent demo_reaper ("data", "ds") = false.
Proof.
  assert (delete_replicas false "A" [("data", "f1")] true demo_reaper = (Ok tt, demo_deleted)) as Hrun by (by vm_compute).
  assert (is_Some (w_dids demo_deleted !! ("data", "ds"))) as Hds by (by apply (bool_decide_unpack _); vm_compute).
  destruct (deletion_makes_no_orphans false "A" [("data", "f1")] true demo_reaper) as [_ Hclean].
  destruct (Hclean demo_deleted Hrun ("data", "ds") Hds) as (Hn & _ & _ & Hc); [by vm_compute..|].
  split_and!; [exact Hrun|exact Hds|by vm_compute|exact Hn|exact Hc].
Defined.

(** With the last replica of one file of the dataset, the dataset leaves its container though it still
    has the other file, and the container, empty now, is deleted. *)
Example deletion_detaches_full_datasets :
  has_replica demo_deleted ("data", "f2") = true /\ w_contents demo_deleted = [demo_content "f2"] /\
  w_dids demo_reaper !! ("data", "cont") = Some (closed CONTAINER) /\ w_dids demo_deleted !! ("data", "cont") = None.
Proof. by vm_compute. Qed.

(** Eleven files of an emptied dataset: the message that it is erased is sent twice. *)
Definition file_number (i : nat) : string := String.concat "" (replicate (S i) "f").
Definition demo_many : World :=
  let files := file_number <$> seq 0 11 in
  upd_w_dids (fun _ => list_to_map ((("data", "ds"), closed DATASET) :: ((fun f => (("data", f), demo_did FILE)) <$> files)))
  (upd_w_contents (fun _ => demo_content <$> files) (upd_w_replicas (fun _ => (fun f => free_replica f None) <$> files)
  (upd_w_rules (fun _ => ∅) (upd_w_locks (fun _ => []) demo_world)))).
Example erased_twice :
  let w := (delete_replicas false "A" ((fun i => ("data", file_number i)) <$> seq 0 11) true demo_many).2 in
  length (List.filter (fun m => match m with ERASED_DATASET _ => true | _ => false end) (w_messages w)) = 2.
Proof. by vm_compute. Qed.
