(* ===== verification/UndertakerInvariant.v ===== *)
(** * Deleting data identifiers keeps the invariant of the rule engine *)

From S2P Require Import Prelude StateError Counting Types Database RseSelector LockTables RuleGrouping RuleEngine RuleInvariant RuleEvents RuleLosses RuleRepair Deletion DeletionFacts Undertaker.

(** A replica may become obsolete when it has a tombstone. *)
Lemma replicas_map_core (f : Replica -> Replica) c :
  (forall r, persistent_replica (f r) = persistent_replica r /\ replica_key (f r) = replica_key r /\ rp_lock_cnt (f r) = rp_lock_cnt r /\
     (is_Some (rp_tombstone (f r)) -> is_Some (rp_tombstone r))) ->
  core_ok c -> core_ok (MkCore (k_rules c) (k_locks c) (f <$> k_replicas c)).
Proof.
  intros Hf Hok. split; red; cbn [k_rules k_locks k_replicas]; try apply Hok.
  - intros i j r r' (r0 & -> & Hi)%list_lookup_fmap_Some (r0' & -> & Hj)%list_lookup_fmap_Some.
    destruct (Hf r0) as (-> & -> & _), (Hf r0') as (-> & -> & _). by apply (core_replica_keys c Hok i j r0 r0').
  - intros j r (r0 & -> & Hj)%list_lookup_fmap_Some. destruct (Hf r0) as (-> & Hk & Hl & Ht). intros Hp.
    destruct (core_replicas c Hok j r0 Hj Hp) as [Hle Hz]. unfold replica_ok. rewrite Hk, Hl. split; [done|]. auto.
  - intros i l Hl Hp. destruct (core_homes c Hok i l Hl Hp) as (j & r & Hr & Hpr & Hk). exists j, (f r).
    rewrite list_lookup_fmap, Hr. destruct (Hf r) as (-> & -> & _). done.
Qed.

Lemma purged_replica files r :
  persistent_replica (purged files r) = persistent_replica r /\ replica_key (purged files r) = replica_key r /\
  rp_lock_cnt (purged files r) = rp_lock_cnt r /\ (is_Some (rp_tombstone (purged files r)) -> is_Some (rp_tombstone r)).
Proof. unfold purged. destruct (_ && _) eqn:Hp; [|done]. apply andb_true_iff in Hp as [_ Ht%bool_decide_eq_true]. done. Qed.

Section invariants.
Variables (size : Z) (purge_all archive : bool).

Lemma frames_set_lifetime did s : frames (set_lifetime did s).
Proof. unfold set_lifetime. frames. Qed.

Lemma remove_rules_ok expire keep rules : sound_op (remove_rules size expire keep rules).
Proof.
  induction rules as [|r rules IH]; simpl; [by apply sound_frames, frames_ret|]. apply sound_bind.
  - destruct (too_large _ _ _); [|intros w; apply delete_rule_ok]. apply sound_bind; [intros w; apply delete_rule_ok|].
    intros _. apply sound_frames, frames_set_lifetime.
  - intros _. apply sound_bind; [done|]. intros b. apply sound_frames. frames.
Qed.

Lemma empty_collections_ok collections : sound_op (empty_collections purge_all collections).
Proof.
  apply sound_bind; [apply sound_frames; frames|]. intros files. apply sound_bind; [apply sound_frames; unfold forget_bad; frames|]. intros _.
  apply sound_bind; [|intros _; apply sound_frames; frames]. unfold whenS. destruct purge_all; [|by apply sound_frames, frames_ret].
  intros w Hok. apply wp_modify. apply (replicas_map_core (purged files) (core w)); [apply purged_replica|done].
Qed.

Lemma delete_dids_and_rules_ok unwanted expire : sound_op (delete_dids_and_rules size purge_all archive unwanted expire).
Proof.
  unfold delete_dids_and_rules. cbv zeta. apply sound_bind; [apply sound_frames; unfold erase_message; frames|]. intros _.
  apply sound_bind; [apply sound_frames; frames|]. intros rules. apply sound_bind; [apply remove_rules_ok|]. intros [|]; [by apply sound_frames, frames_ret|].
  apply sound_bind; [apply sound_frames; frames|]. intros attached. apply sound_bind; [apply sound_frames; frames|]. intros _.
  apply sound_bind; [apply sound_frames; unfold forget_bad; frames|]. intros _. apply sound_bind; [apply empty_collections_ok|]. intros _.
  apply sound_frames. unfold delete_rows. frames.
Qed.

End invariants.

