(* ===== verification/ConveyorFacts.v ===== *)
(** * The conveyor keeps the promises of rules

    Whatever the daemons of the conveyor do, the invariant of rules, locks and replicas holds: a
    transaction of theirs settles locks and replicas, or leaves all as it was. *)

From S2P Require Import Prelude StateError Counting Types Database RseSelector LockTables RuleGrouping RuleEngine Requests ReplicaWrites RuleInvariant RuleEvents RuleLosses Deletion DeletionFacts Conveyor.

#[local] Arguments Z.add : simpl never.
#[local] Arguments Z.sub : simpl never.

(** ** Operations that only touch requests *)

Lemma frames_update_where P f : frames (update_where P f).
Proof. intros c w <-. done. Qed.
#[export] Hint Resolve frames_update_where : frames.
Lemma frames_get_request id : frames (get_request id).
Proof. apply frames_gets. Qed.
Lemma frames_update_request id st src err prio b : frames (update_request id st src err prio b).
Proof. unfold update_request. frames. Qed.
#[export] Hint Resolve frames_get_request frames_update_request : frames.
Lemma frames_transition id st ext src err r : frames (transition_request_state id st ext src err r).
Proof. unfold transition_request_state. frames. Qed.
#[export] Hint Resolve frames_transition : frames.
Lemma frames_try_some {A} (m : ST World A) (k : exn -> option (ST World A)) :
  frames m -> (forall e, match k e with Some m' => frames m' | None => True end) -> frames (tryS m k).
Proof. intros Hm Hk. apply frames_try; [done|]. intros e m' He. specialize (Hk e). by rewrite He in Hk. Qed.
Lemma frames_transitions ids st : frames (transition_requests_state_if_possible ids st).
Proof.
  apply frames_for. intros id. apply frames_try_some; [frames|]. intros []; try exact I. apply frames_ret.
Qed.
Lemma frames_monitor id r st : frames (add_monitor_message id r st).
Proof. unfold add_monitor_message. frames. Qed.
Lemma frames_failed_hop id : frames (handle_failed_intermediate_hop id).
Proof. unfold handle_failed_intermediate_hop. apply frames_bind; [apply frames_run|]. intros paths. frames. Qed.
#[export] Hint Resolve frames_transitions frames_monitor frames_failed_hop : frames.
Lemma frames_prepare s d l c : frames (@prepare_transfers Z s d l c).
Proof. induction c as [|c cs IH]; simpl; [apply frames_ret|]. unfold prepare_transfer. frames. Qed.
Lemma frames_poll id f : frames (update_transfer_state id f).
Proof. unfold update_transfer_state. apply frames_try_some; [frames|]. intros e. apply frames_ret. Qed.
Lemma frames_ensure_source so : frames (ensure_source so).
Proof. unfold ensure_source. frames. Qed.
#[export] Hint Resolve frames_prepare frames_poll frames_ensure_source : frames.
Lemma frames_ensure_sources path : frames (ensure_db_sources path).
Proof. unfold ensure_db_sources. frames. Qed.
Lemma frames_save_hop h : frames (save_hop h).
Proof. unfold save_hop. frames. Qed.
Lemma frames_released_requests P : frames (release P).
Proof. apply frames_update_where. Qed.
#[export] Hint Resolve frames_ensure_sources frames_save_hop frames_released_requests : frames.
Lemma frames_by_did did rse t : frames (get_request_by_did did rse t).
Proof. unfold get_request_by_did. frames. Qed.
Lemma frames_requeue id b p : frames (requeue_and_archive id b p).
Proof. unfold requeue_and_archive. frames. Qed.
#[export] Hint Resolve frames_by_did frames_requeue : frames.

(** ** New replicas *)

(** A new object of a replica: it is no row, or a row with a key of its own, and nothing is locked on it. *)
Lemma new_replica_core c r :
  core_ok c ->
  (persistent_replica r = true -> (0 <= rp_lock_cnt r)%Z /\
     forall j r', k_replicas c !! j = Some r' -> persistent_replica r' = true -> replica_key r' <> replica_key r) ->
  core_ok (MkCore (k_rules c) (k_locks c) (k_replicas c ++ [r])).
Proof.
  intros Hok Hr.
  assert (forall j r', (k_replicas c ++ [r]) !! j = Some r' -> k_replicas c !! j = Some r' \/ r' = r /\ j = length (k_replicas c)) as Hback.
  { intros j r' [Hj|[Hlen Hj]]%lookup_app_Some; [by left|right]. apply list_lookup_singleton_Some in Hj as [? <-]. split; [done|lia]. }
  split; red; cbn [k_rules k_locks k_replicas]; try apply Hok.
  - intros i j r1 r2 [H1|[-> ->]]%Hback [H2|[-> ->]]%Hback Hp1 Hp2 Hk.
    + by eapply (core_replica_keys c Hok).
    + destruct (Hr Hp2) as [_ Hne]. by destruct (Hne i r1 H1 Hp1).
    + destruct (Hr Hp1) as [_ Hne]. by destruct (Hne j r2 H2 Hp2).
    + done.
  - intros j r' [Hj|[-> _]]%Hback Hp; [by eapply core_replicas|]. destruct (Hr Hp) as [Hcnt Hne]. unfold replica_ok.
    assert (count (fun _ => lock_on_key (replica_key r)) (k_locks c) = 0)%Z as ->; [|done].
    destruct (replica_key r) as [did rse] eqn:Hk. apply no_locks_on. intros i (l & Hl & Hpl & Hon%on_file_key).
    destruct (core_homes c Hok i l Hl Hpl) as (j0 & r0 & Hr0 & Hp0 & Hk0). destruct (Hne j0 r0 Hr0 Hp0). congruence.
  - intros i l Hl Hpl. destruct (core_homes c Hok i l Hl Hpl) as (j & r' & Hj & Hp & Hk). exists j, r'. split_and!; [|done..].
    by apply lookup_app_l_Some.
Qed.

(** Operations that keep the invariant even when they raise *)
Definition safe_op {A} (m : ST World A) : Prop := preserves engine_ok m.

Lemma safe_frames {A} (m : ST World A) : frames m -> safe_op m.
Proof.
  intros Hm w Hok. eapply wp_mono; [by apply (Hm (core w))| |]; unfold engine_ok; [by intros a w' ->|by intros e w' ->].
Qed.
Lemma safe_bind {A B} (m : ST World A) (f : A -> ST World B) : safe_op m -> (forall a, safe_op (f a)) -> safe_op (bindS m f).
Proof. intros Hm Hf. by apply preserves_bind. Qed.
Lemma safe_for {A} (f : A -> ST World unit) l : (forall a, a ∈ l -> safe_op (f a)) -> safe_op (forS f l).
Proof. apply preserves_for. Qed.
Lemma safe_sound {A} (m : ST World A) : safe_op m -> sound_op m.
Proof. intros Hm w Hok. by eapply wp_mono; [apply Hm| |]. Qed.
Lemma safe_transaction {A} (m : ST World A) : sound_op m -> safe_op (transaction m).
Proof. intros Hm w Hok. specialize (Hm w Hok). unfold wpo, wp, transaction in *. by destruct (m w) as [[a|e] w']. Qed.
Lemma safe_swallow m : safe_op m -> safe_op (swallow m).
Proof. intros Hm. apply preserves_try; [done|]. intros e k [= <-]. apply preserves_ret. Qed.

Lemma insert_replica_safe rse t f : (0 <= nf_lock_cnt f)%Z -> safe_op (insert_replica rse t f).
Proof.
  intros Hcnt w Hok. unfold insert_replica, bindS, make_replica, tryS, wp. set (r := MkReplica _ _ _ _ _ _ _ _ _ _ _).
  set (w1 := upd_w_replicas (fun rs => rs ++ [r]) w).
  assert (w_replicas w1 !! length (w_replicas w) = Some r) as Hr by (by apply list_lookup_middle).
  assert (engine_ok w1) as Hok1 by (by apply (new_replica_core (core w) r)).
  unfold add_replica, bindS, replica_at, select_replicas, getsS. rewrite Hr. cbn [fst snd].
  destruct (select _ (w_replicas w1)) as [|j js] eqn:Hsel; [|done].
  unfold alter_replica, modifyS. set (r' := upd_rp_status (fun _ => Persistent) (upd_rp_created_at (fun _ => Some (now (w_session w1))) r)).
  assert (core (upd_w_replicas (alter (fun r => upd_rp_status (fun _ => Persistent) (upd_rp_created_at (fun _ => Some (now (w_session w1))) r)) (length (w_replicas w))) w1)
          = MkCore (k_rules (core w)) (k_locks (core w)) (k_replicas (core w) ++ [r'])) as Hc.
  { unfold core. cbn [w_replicas w_rules w_locks upd_w_replicas w1 k_rules k_locks k_replicas]. f_equal.
    rewrite <-(Nat.add_0_r (length (w_replicas w))). by rewrite alter_app_r. }
  unfold engine_ok. rewrite Hc. apply new_replica_core; [done|]. intros _. split; [done|]. intros j r0 Hj Hp Hk.
  assert (j ∈ select (fun x => persistent_replica x && bool_decide (replica_key x = replica_key r)) (w_replicas w1)) as Hin.
  { apply elem_of_select. exists r0. split; [by apply lookup_app_l_Some|]. by rewrite Hp, bool_decide_true. }
  rewrite Hsel in Hin. by apply elem_of_nil in Hin.
Qed.

Section adding.
Variables (volatile deterministic : Session -> string -> bool) (pfn_error : Session -> string -> list (DID * string) -> option exn).

Lemma add_replicas_safe rse files account ignore :
  (forall f, f ∈ files -> 0 <= nf_lock_cnt f)%Z -> safe_op (add_replicas volatile deterministic pfn_error rse files account ignore).
Proof.
  intros Hcnt. unfold add_replicas. apply safe_bind; [apply safe_frames; unfold get_rse; frames|]. intros row.
  apply safe_bind; [apply safe_frames; frames|]. intros w. destruct (volatile _ _); [apply safe_frames; frames|].
  destruct (_ && _); [apply safe_frames; frames|]. destruct (_ && _); [apply safe_frames; frames|].
  apply safe_bind; [apply safe_frames; unfold bulk_add_file_dids, add_file_did; frames|]. intros _.
  apply safe_bind; [apply safe_frames; frames|]. intros _.
  apply safe_bind; [|intros [n b]; apply safe_frames; frames].
  unfold bulk_add_replicas. apply safe_bind; [apply safe_frames; frames|]. intros w1.
  apply safe_bind; [apply safe_frames; frames|]. intros t. apply safe_bind; [|intros _; apply safe_frames; frames].
  apply safe_for. intros f [Hf _]%elem_of_filter_bool. by apply insert_replica_safe, Hcnt.
Qed.
End adding.

(** ** The states of replicas *)

Lemma in_state_safe s i : s <> R_BEING_DELETED -> safe_op (alter_replica (in_state s) i).
Proof.
  intros Hs w Hok. apply wp_modify. unfold engine_ok. rewrite core_alter_replica. apply replica_touch; [done|]. intros r.
  unfold in_state. rewrite bool_decide_false by done. done.
Qed.

Lemma update_replica_state_sound u : ru_new_state u <> R_BEING_DELETED -> sound_op (update_replica_state u).
Proof.
  intros Hs. unfold update_replica_state. destruct (ru_replica u) as [did rse]. apply sound_bind; [by apply sound_frames; frames|].
  intros [|i js]; [apply sound_frames; frames|]. apply sound_bind; [|intros _; by apply safe_sound, in_state_safe].
  destruct (ru_new_state u); try (apply sound_frames, frames_ret).
  - apply sound_bind; [intros w; apply successful_transfer_ok|]. intros _. apply sound_frames. frames.
  - intros w. apply failed_transfer_ok.
Qed.
Lemma update_replicas_states_sound l : (forall u, u ∈ l -> ru_new_state u <> R_BEING_DELETED) -> sound_op (update_replicas_states l).
Proof.
  induction l as [|u l IH]; intros Hl; [by apply sound_frames, frames_ret|].
  apply sound_bind; [apply update_replica_state_sound, Hl; by left|]. intros _. apply IH. intros u' Hu'. apply Hl. by right.
Qed.

(** ** The finisher *)

(** The engine does not say that a replica is missing. *)
Lemma never_open did : never ReplicaNotFound (fun w => (did_open w did, w)).
Proof.
  apply never_ok. intros w e. unfold did_open. simpl. destruct (w_dids w !! did) as [d|]; simpl; [case_bool_decide|]; naive_solver.
Qed.
#[local] Hint Resolve never_open : never.
Lemma never_notify rule keys : never ReplicaNotFound (notify_closed_datasets rule keys).
Proof.
  induction keys as [|[did rse] keys IH]; cbn [notify_closed_datasets]; [by apply never_ok|].
  apply never_bind; [by apply never_ok|]. intros w. unfold did_open.
  destruct (w_dids w !! did) as [d|] eqn:Hd; simpl; [|exact IH]. case_bool_decide; [by apply never_ok; intros ? ? [= <-]|].
  case_bool_decide; [exact IH|]. destruct (d_length d); [|by apply never_ok]. apply never_bind; [never|done].
Qed.
#[local] Hint Resolve never_notify : never.
Lemma never_successful did rse : never ReplicaNotFound (successful_transfer did rse).
Proof. never. Qed.
Lemma never_failed did rse e b m : never ReplicaNotFound (failed_transfer did rse e b m).
Proof. never. Qed.

(** When the replica is missing, nothing has changed. *)
Lemma never_replica_update u i : never ReplicaNotFound
  (do! match ru_new_state u with
       | R_AVAILABLE => do! successful_transfer (ru_replica u).1 (ru_replica u).2 in modifyS (upd_w_bad_replicas (fmap (repaired (ru_replica u).1 (ru_replica u).2)))
       | R_UNAVAILABLE => failed_transfer (ru_replica u).1 (ru_replica u).2 (ru_error_message u) (ru_broken_rule_id u) (ru_broken_message u)
       | _ => skipS
       end in
   alter_replica (in_state (ru_new_state u)) i).
Proof.
  apply never_bind; [|intros ?; by apply never_ok]. destruct (ru_new_state u); try by apply never_ok.
  - apply never_bind; [apply never_successful|by intros ?; apply never_ok].
  - apply never_failed.
Qed.
Lemma update_state_missing u w :
  ru_new_state u <> R_BEING_DELETED -> engine_ok w ->
  wp (update_replica_state u) (fun _ => engine_ok) (fun e w' => e = ReplicaNotFound -> core w' = core w) w.
Proof.
  intros Hs Hok. pose proof (update_replica_state_sound u Hs w Hok) as Hsound.
  enough (wp (update_replica_state u) (fun _ _ => True) (fun e w' => e = ReplicaNotFound -> core w' = core w) w) as Herr.
  { eapply wp_mono; [exact (wp_and _ _ _ _ _ _ Hsound Herr)| |]; cbn beta; tauto. }
  clear Hsound. unfold update_replica_state. pose proof (never_replica_update u) as Hnever. destruct (ru_replica u) as [did rse].
  apply wp_bind, wp_gets. destruct (select _ _) as [|i js].
  - eapply wp_mono; [apply (frames_bind _ _ (frames_rse_name rse) (fun _ => frames_raise ReplicaNotFound) (core w)); done|done|done].
  - eapply wp_mono; [apply (Hnever i)|done|]. intros e w' He ->. done.
Qed.

Section finishing.
Variables (volatile deterministic : Session -> string -> bool) (pfn_error : Session -> string -> list (DID * string) -> option exn).
Variables (dest_url : nat -> option string) (path_known : nat -> Request -> bool) (retry_protocol_mismatches : bool).

Definition settled (x : Terminated) : Prop := tm_state x = R_AVAILABLE \/ tm_state x = R_UNAVAILABLE.
Lemma settled_update x : settled x -> ru_new_state (tm_update x) <> R_BEING_DELETED.
Proof. intros [H|H]; cbn; by rewrite H. Qed.

Lemma register_safe x : safe_op (register_dark_file volatile deterministic pfn_error dest_url x).
Proof.
  unfold register_dark_file. apply safe_bind; [by apply safe_frames; frames|]. intros t.
  assert (forall pfn, safe_op (add_replicas volatile deterministic pfn_error (t_dest_rse_id (rq_transfer (tm_request x))) [dark_file x t pfn]
            (InternalAccount "root" (calc_external (t_did (rq_transfer (tm_request x))).1).1) true)) as Hadd.
  { intros pfn. apply add_replicas_safe. by intros f ->%list_elem_of_singleton. }
  apply preserves_try; [apply Hadd|]. intros [] k Hk; simplify_eq/=. apply Hadd.
Qed.

Lemma conclude_replica_ok (found : bool) x :
  sound_op (do! whenS (negb found && bool_decide (tm_state x = R_AVAILABLE) && negb (bool_decide (t_request_type (rq_transfer (tm_request x)) = STAGEIN)))
              (register_dark_file volatile deterministic pfn_error dest_url x) in archive_request (tm_request_id x)).
Proof.
  apply sound_bind; [|intros _; apply sound_frames; frames]. unfold whenS. case_match; [apply safe_sound, register_safe|apply sound_frames, frames_ret].
Qed.
Lemma update_replica_ok x : settled x -> sound_op (update_replica volatile deterministic pfn_error dest_url x).
Proof.
  intros Hx w Hok. unfold update_replica. apply wpo_bind, wp_try, wp_bind.
  unfold update_replicas_states. cbn [forS]. apply wp_bind. eapply wp_mono; [apply (update_state_missing (tm_update x)); [by apply settled_update|done]| |].
  - intros [] w1 H1. apply wp_ret, wp_ret. by apply (conclude_replica_ok true).
  - intros e w1 He. destruct e; try done. apply wp_ret, (conclude_replica_ok false). unfold engine_ok. by rewrite He.
Qed.

Lemma update_bulk_ok l : (forall x, x ∈ l -> settled x) -> sound_op (update_bulk_replicas l).
Proof.
  intros Hl. unfold update_bulk_replicas. apply sound_bind; [|intros _; apply sound_frames; frames].
  apply update_replicas_states_sound. intros u (x & -> & Hx)%list_elem_of_fmap. by apply settled_update, Hl.
Qed.

Lemma handle_group_safe l : (forall x, x ∈ l -> settled x) -> safe_op (handle_group volatile deterministic pfn_error dest_url l).
Proof.
  intros Hl. apply preserves_try; [by apply safe_transaction, update_bulk_ok|]. intros e k Hk.
  assert (k = skipS \/ k = forS (fun x => swallow (transaction (update_replica volatile deterministic pfn_error dest_url x))) l) as [->| ->]
    by (destruct e; naive_solver).
  - apply preserves_ret.
  - apply safe_for. intros x Hx. by apply safe_swallow, safe_transaction, update_replica_ok, Hl.
Qed.

(** What is left of the requests that ended *)
Lemma finish_request_settles x :
  forall w, engine_ok w -> wp (finish_request path_known retry_protocol_mismatches x) (fun l w' => engine_ok w' /\ forall t, t ∈ l -> settled t) (fun _ => engine_ok) w.
Proof.
  intros w Hok. destruct x as [id r]. unfold finish_request.
  assert (forall b, wp (retry_or_give_up retry_protocol_mismatches id r b) (fun l w' => engine_ok w' /\ forall t, t ∈ l -> settled t) (fun _ => engine_ok) w) as Hretry.
  { intros b. unfold retry_or_give_up. destruct (should_retry_request _ _).
    - apply wp_bind. eapply wp_mono; [refine (safe_swallow _ (safe_transaction _ (sound_frames _ _)) w Hok); frames| |done].
      intros [] w1 H1. apply wp_ret. split; [done|]. by intros t ?%elem_of_nil.
    - apply wp_ret. split; [done|]. intros t ->%list_elem_of_singleton. by right. }
  destruct (rq_state r); cbn [retried]; try apply Hretry; apply wp_ret; (split; [done|]); intros t; try by intros ?%elem_of_nil.
  destruct (path_known id r); [intros ->%list_elem_of_singleton; by left|by intros ?%elem_of_nil].
Qed.

Lemma by_type_and_rule_in reqs l g x : g ∈ by_type_and_rule reqs l -> x ∈ g -> x ∈ l.
Proof.
  intros Hg Hx. unfold by_type_and_rule in Hg. apply elem_of_concat_map in Hg as (ty & _ & (rule & -> & _)%list_elem_of_fmap).
  by apply elem_of_filter_bool in Hx as [Hx _].
Qed.

Lemma finish_requests_safe reqs : safe_op (finish_requests volatile deterministic pfn_error dest_url path_known retry_protocol_mismatches reqs).
Proof.
  intros w Hok. unfold finish_requests. apply wp_bind.
  eapply wp_mono with (Q := fun l w' => engine_ok w' /\ forall t, t ∈ l -> settled t) (E := fun _ => engine_ok); [| |done].
  - revert w Hok. induction reqs as [|x reqs IH]; intros w Hok; cbn [concatS].
    + apply wp_ret. split; [done|]. by intros t ?%elem_of_nil.
    + apply wp_bind. eapply wp_mono; [by apply finish_request_settles| |done]. intros l [w1] [H1 Hl]. apply wp_bind.
      eapply wp_mono; [by apply IH| |done]. intros l' w2 [H2 Hl']. apply wp_ret. split; [done|].
      intros t [Ht|Ht]%elem_of_app; auto.
  - intros l w1 [H1 Hl]. refine (safe_for _ _ _ w1 H1). intros g Hg. apply handle_group_safe. intros x Hx. eapply Hl, by_type_and_rule_in; done.
Qed.
Lemma handle_requests_safe reqs bulk : safe_op (handle_requests volatile deterministic pfn_error dest_url path_known retry_protocol_mismatches reqs bulk).
Proof. apply safe_for. intros c _. apply safe_swallow, finish_requests_safe. Qed.
End finishing.

(** ** Hops *)

Section hops.
Variables (volatile deterministic : Session -> string -> bool) (pfn_error : Session -> string -> list (DID * string) -> option exn).
Variables (default_tombstone_delay : Z) (builder : string -> list DirectTransfer -> nat).

Lemma create_hop_safe initial next hop : safe_op (create_hop volatile deterministic pfn_error default_tombstone_delay initial next hop).
Proof.
  unfold create_hop. apply safe_bind; [by apply safe_frames; frames|]. intros w.
  destruct (hop_tombstone _ w _) as [t|e]; [|destruct e; by apply safe_frames; frames].
  apply safe_bind; [|intros _; apply safe_frames; frames]. apply safe_swallow, safe_bind.
  - apply add_replicas_safe. by intros f ->%list_elem_of_singleton.
  - intros _. apply safe_for. intros u ->%list_elem_of_singleton. unfold update_replica_state. simpl.
    apply safe_bind; [by apply safe_frames; frames|]. intros [|i js]; [apply safe_frames; frames|].
    apply safe_bind; [by apply safe_frames, frames_ret|]. intros _. by apply in_state_safe.
Qed.
Lemma create_hops_safe initial next hops done skip :
  safe_op (create_hops volatile deterministic pfn_error default_tombstone_delay initial next hops done skip).
Proof.
  revert next done skip. induction hops as [|hop hops IH]; intros next done skip; simpl; [by apply safe_frames, frames_ret|].
  destruct (dt_request_id hop) as [id|]; [apply IH|]. apply safe_bind; [apply create_hop_safe|].
  intros [[id s]|]; [apply IH|by apply safe_frames, frames_ret].
Qed.
Lemma first_path_safe l : safe_op (first_path volatile deterministic pfn_error default_tombstone_delay l).
Proof.
  induction l as [|[path [|[tool hops] a]] l IH]; simpl; [by apply safe_frames, frames_ret|done|]. apply safe_bind.
  - unfold create_missing_replicas_and_requests. destruct (last path ≫= dt_request_id); [apply create_hops_safe|by apply safe_frames, frames_raise].
  - intros [[hs created] skip]. destruct created; [by apply safe_frames, frames_ret|]. destruct skip; [by apply safe_frames, frames_ret|done].
Qed.
Lemma assign_path_safe tools paths : safe_op (assign_path volatile deterministic pfn_error default_tombstone_delay builder tools paths).
Proof. unfold assign_path. apply safe_bind; [apply first_path_safe|]. intros [[best n] skip]. apply safe_frames. frames. Qed.
End hops.

(** ** All operations *)

Lemma frames_grouped dest src count deadline volume : frames (release_waiting_requests_grouped_fifo dest src count deadline volume).
Proof.
  unfold release_waiting_requests_grouped_fifo, release_waiting_requests_per_deadline, release_waiting_requests_per_free_volume, release_datasets. frames.
Qed.

Lemma perform_safe s o : safe_op (perform s o).
Proof.
  destruct o; simpl; unfold ignore; try (apply safe_frames; solve [frames | unfold set_transfers_state, mark_submitting, mark_transfer_lost,
    touch_transfer, reset_stale_waiting_requests, update_requests_priority, release_waiting_requests_fifo, release_all_waiting_requests; frames]).
  - apply safe_bind; [apply assign_path_safe|intros _; apply safe_frames, frames_ret].
  - apply safe_frames, frames_bind; [apply frames_grouped|intros _; apply frames_ret].
  - apply handle_requests_safe.
Qed.
