(* ===== verification/RuleDetach.v ===== *)
(** * Data identifiers that lost children

    The locks on files that left go, with all that counts them; and so does, by mistake, the wait
    for approval of a rule. *)

From S2P Require Import Prelude StateError Counting Types Database RseExpression RseSelector LockTables RuleGrouping RuleEngine RuleInvariant RuleEvents RuleLosses RuleRepair RuleDemo.

#[local] Arguments Z.add : simpl never.
#[local] Arguments Z.sub : simpl never.

(** The view of a rule, were it suspended: true counters are all that is asked of it. *)
Definition suspended : View -> View := v_set_state RS_SUSPENDED.

(** The invariant while the locks of the rule are looked at; [u] is its view, from [u0]. *)
Definition detaching (id : string) (u0 : View) (w0 w : World) : Prop :=
  exists u, k_rules (core w) !! id = Some u /\ core_ok (k_true id (suspended u) (core w)) /\ v_state u = v_state u0 /\
    (forall st, v_cnt st u <= v_cnt st u0)%Z /\
    (forall id', id' <> id -> k_rules (core w) !! id' = k_rules (core w0) !! id').

Lemma suspended_drop st v : suspended (v_drop st v) = v_drop st (suspended v).
Proof. by destruct st. Qed.

Lemma detach_lock_spec id files purge u0 w0 i w :
  detaching id u0 w0 w -> (forall l, w_locks w !! i = Some l -> persistent_lock l = true /\ lk_rule_id l = id) ->
  wpo (detach_lock id files purge i)
    (fun _ w' => detaching id u0 w0 w' /\ forall j, j <> i -> w_locks w' !! j = w_locks w !! j) w.
Proof.
  intros (u & Hu & Hok & Hst & Hcnt & Hrs) Hi. apply wpo_lock_at. intros l Hl. destruct (Hi l Hl) as [Hp Hid].
  case_bool_decide; [apply wp_ret; split; [by exists u|done]|]. apply wpo_bind.
  apply wpo_bind. apply wpo_frames; [frames|]. intros l1 w1 H1. apply wpo_bind.
  assert (w_locks w1 !! i = Some l) as Hl1 by (change (k_locks (core w1) !! i = Some l); by rewrite H1).
  eapply wpo_mono; [apply (delete_lock_spec id purge i l (suspended u)); try done; by rewrite H1|].
  intros b w2 (Hr2 & [t Hl2] & Hok2). rewrite H1 in *. apply wp_ret.
  apply (wpo_alter_rule _ (v_drop (lk_state l))); [intros; apply view_upd_cnt|]. intros w3 H3. apply wp_ret.
  rewrite (k_rule_Some _ _ _ u) in H3 by (by rewrite Hr2). split.
  - exists (v_drop (lk_state l) u). rewrite H3. cbn [k_rules k_locks k_replicas]. split_and!.
    + by rewrite lookup_insert_eq.
    + unfold k_true in *. cbn [k_rules k_locks k_replicas]. by rewrite insert_insert_eq, suspended_drop.
    + rewrite <-Hst. by destruct (lk_state l).
    + intros s. rewrite v_drop_cnt. specialize (Hcnt s). destruct (bool_decide _); cbn [Z.b2z]; lia.
    + intros id' Hne. by rewrite lookup_insert_ne, Hr2, Hrs.
  - intros j Hj. change (k_locks (core w3) !! j = w_locks w !! j). rewrite H3. cbn [k_locks]. rewrite Hl2. by rewrite list_lookup_alter_ne.
Qed.

(** A rule whose counters went down has the state [settled] gives it. *)
Lemma settled_less u u0 :
  state_ok u0 -> v_state u = v_state u0 -> (forall st, 0 <= v_cnt st u <= v_cnt st u0)%Z -> state_ok (settled u).
Proof.
  intros Hok Hst Hcnt. pose proof (Hcnt L_REPLICATING). pose proof (Hcnt L_STUCK). pose proof (Hcnt L_OK). unfold state_ok, settled in *.
  destruct u as [s o r k], u0 as [s0 o0 r0 k0]; cbn in *; subst. destruct s0; cbn in *; repeat (case_bool_decide; cbn in *); try done; lia.
Qed.

Lemma detached_ok id u0 u w0 w :
  engine_ok w0 -> detaching id u0 w0 w -> k_rules (core w) !! id = Some u -> state_ok (settled u) ->
  core_ok (MkCore (<[id := settled u]> (k_rules (core w))) (k_locks (core w)) (k_replicas (core w))).
Proof.
  intros H0 (u' & Hu' & Hok & _ & _ & Hrs) Hu Hst. rewrite Hu in Hu'. injection Hu' as <-.
  split; red; cbn [k_rules k_locks k_replicas].
  - intros id' v st [[<- <-]|[Hne Hv]]%lookup_insert_Some.
    + rewrite v_cnt_settled, <-(v_cnt_set_state RS_SUSPENDED). apply (core_counters _ Hok id). cbn. by rewrite lookup_insert_eq.
    + apply (core_counters _ Hok id'). cbn. by rewrite lookup_insert_ne.
  - intros id' v [[_ <-]|[Hne Hv]]%lookup_insert_Some; [done|]. rewrite Hrs in Hv by done. by eapply (core_states _ H0).
  - intros i l Hl Hp. pose proof (core_rules _ Hok i l Hl Hp) as Hr. cbn in Hr. apply lookup_insert_is_Some in Hr. by apply lookup_insert_is_Some.
  - apply Hok.
  - apply Hok.
  - apply Hok.
  - apply Hok.
Qed.

Section detach.
Variable force_epoch : bool.

Lemma evaluate_rule_detach_spec t id r w :
  engine_ok w -> w_rules w !! id = Some r ->
  wpo (evaluate_rule_detach force_epoch t id)
    (fun _ w' => engine_ok w' /\ exists u, k_rules (core w') !! id = Some (settled u) /\ v_state u = ru_state r /\
                   forall st, (0 <= v_cnt st u <= cnt st r)%Z) w.
Proof.
  intros Hok Hr. apply wpo_the_rule. intros r0 Hr0. rewrite Hr in Hr0. injection Hr0 as <-. apply core_rule in Hr as Hu0.
  apply wpo_skip; [frames|]. intros w1 w1' H1. apply wpo_skip; [frames|]. intros files w2 H2.
  apply wpo_select_locks. intros ls Hnd Hls. rewrite H2, H1 in Hls. apply wpo_bind.
  eapply wpo_mono.
  - apply (wp_concat (detach_lock id files _) ls (fun _ rest w' => detaching id (view r) w w' /\ NoDup rest /\
      forall i l, i ∈ rest -> w_locks w' !! i = Some l -> persistent_lock l = true /\ lk_rule_id l = id) (fun _ _ => True)).
    + intros d i rest w' _ (Hd & [Hi Hndr]%NoDup_cons & Hrest). eapply wpo_mono; [apply (detach_lock_spec id files _ (view r) w i w' Hd)|].
      * intros l Hl. apply (Hrest i l); [by left|done].
      * intros x w3 [Hd3 Hsame]. split_and!; [done|done|]. intros j l Hj Hl. apply (Hrest j l); [by right|].
        rewrite <-Hsame by (intros ->; done). done.
    + split_and!; [|done|].
      * exists (view r). rewrite H2, H1. split_and!; [done|by apply start_deleting|done|done|done].
      * intros i l (l0 & Hl0 & ? & Hid%bool_decide_eq_true)%Hls Hl. change (k_locks (core w2) !! i = Some l) in Hl. rewrite H2, H1 in Hl. naive_solver.
  - intros gone w3 (Hd & _ & _). pose proof Hd as (u & Hu & Hoku & Hst & Hcnt & Hrs).
    apply wpo_skip; [frames|]. intros _ w4 H4. apply wpo_bind.
    assert (forall s, 0 <= v_cnt s u <= v_cnt s (view r))%Z as Hless.
    { intros s. split; [|apply Hcnt]. rewrite <-(v_cnt_set_state RS_SUSPENDED). apply (counters_nonneg _ id _ _ Hoku). cbn.
      by rewrite lookup_insert_eq. }
    assert (state_ok (settled u)) as Hsettled by (apply (settled_less u (view r)); [by eapply (core_states _ Hok)|done|done]).
    assert (core w4 = MkCore (<[id := u]> (k_rules (core w3))) (k_locks (core w3)) (k_replicas (core w3))) as Hc4.
    { rewrite H4, insert_id by done. done. }
    eapply wpo_mono; [eapply settle_rule_spec; [|exact Hc4]; frames|]. intros [] w5 H5.
    apply wpo_skip; [frames|]. intros _ w6 H6. apply wp_ret. unfold engine_ok. rewrite H6, H5.
    split; [by apply (detached_ok id (view r) u w)|]. exists u. cbn [k_rules]. rewrite lookup_insert_eq. split_and!; [done|done|].
    intros s. rewrite <-view_cnt. apply Hless.
Qed.

Lemma evaluate_rule_detach_ok t id w :
  engine_ok w -> wpo (evaluate_rule_detach force_epoch t id) (fun _ => engine_ok) w.
Proof.
  intros Hok. destruct (w_rules w !! id) as [r|] eqn:Hr.
  - eapply wpo_mono; [by eapply evaluate_rule_detach_spec|]. by intros x w' [? _].
  - apply wpo_the_rule. intros r Hr'. congruence.
Qed.

Lemma evaluate_did_detach_ok did t w : engine_ok w -> wpo (evaluate_did_detach force_epoch did t) (fun _ => engine_ok) w.
Proof.
  intros Hok. apply wpo_skip; [frames|]. intros rules w1 H1. apply wpo_bind.
  eapply wpo_mono.
  - apply (wp_concat (evaluate_rule_detach force_epoch t) rules (fun _ _ => engine_ok) (fun _ _ => True)).
    + intros d id rest w' _ Hw'. by apply evaluate_rule_detach_ok.
    + unfold engine_ok. by rewrite H1.
  - intros gone w2 Hw2. apply wpo_frames; [frames|]. unfold engine_ok. intros _ w3 ->. done.
Qed.

(** A rule that waits for approval, or to be injected, is OK once its data identifier lost a
    child: it was never approved and has no lock, but it counts as satisfied. *)
Theorem detach_skips_approval t id r w gone w' :
  engine_ok w -> w_rules w !! id = Some r -> ru_state r = RS_WAITING_APPROVAL \/ ru_state r = RS_INJECT ->
  evaluate_rule_detach force_epoch t id w = (Ok gone, w') ->
  exists r', w_rules w' !! id = Some r' /\ ru_state r' = RS_OK /\ ru_locks_ok_cnt r' = 0%Z.
Proof.
  intros Hok Hr Hst Hrun. pose proof (evaluate_rule_detach_spec t id r w Hok Hr) as Hd. unfold wpo, wp in Hd. rewrite Hrun in Hd.
  destruct Hd as (_ & u & Hu & Hus & Hless). destruct (rule_core _ _ _ Hu) as (r' & Hr' & Hview). exists r'. split; [done|].
  pose proof (core_states _ Hok _ _ (core_rule _ _ _ Hr)) as Hz. unfold state_ok in Hz. cbn [view v_state v_ok v_replicating v_stuck] in Hz.
  pose proof (Hless L_OK). pose proof (Hless L_REPLICATING). pose proof (Hless L_STUCK).
  change (ru_state r') with (v_state (view r')). change (ru_locks_ok_cnt r') with (v_cnt L_OK (view r')). rewrite Hview, v_cnt_settled.
  unfold settled. rewrite Hus. cbn in *.
  destruct Hst as [Hst|Hst]; rewrite Hst in *; (split; [|cbn; lia]); repeat (case_bool_decide; cbn in *); try done; lia.
Qed.
End detach.

(** ** An example *)

(** A rule for the dataset that waits for approval *)
Definition waiting_rule : Rule :=
  upd_ru_state (fun _ => RS_WAITING_APPROVAL) (upd_ru_locks_ok_cnt (fun _ => 0%Z) (upd_ru_locks_replicating_cnt (fun _ => 0%Z) demo_rule)).
Definition waiting_world : World := upd_w_locks (fun _ => []) (upd_w_rules (fun _ => {[ "r1"%string := waiting_rule ]}) demo_world).

Lemma waiting_ok : engine_ok waiting_world.
Proof. engine_example. Qed.

Lemma detach_skips_approval_witness :
  exists r', w_rules (evaluate_rule_detach false DATASET "r1" waiting_world).2 !! "r1"%string = Some r' /\ ru_state r' = RS_OK /\
    ru_locks_ok_cnt r' = 0%Z.
Proof.
  apply (detach_skips_approval false DATASET "r1" waiting_rule waiting_world [] _); [apply waiting_ok|by vm_compute|by left|by vm_compute].
Defined.
