(* ===== verification/RuleAttach.v ===== *)
(** * Rules that follow their data

    A rule that is applied to the new files of a data identifier, without being cut short, has all
    its new locks counted and the state they say; a rule that is cut short has not. *)

From S2P Require Import Prelude StateError Counting Types Database RseExpression RseSelector RseSelectorFacts LockTables RuleGrouping RuleEngine RuleInvariant RuleEvents RuleLosses RuleRepair RuleApply RuleDemo.

#[local] Arguments Z.add : simpl never.
#[local] Arguments Z.sub : simpl never.

(** ** What is resolved is in the database *)

Lemma dict_for_lookup {A} (f : DID -> A) files did x : dict_for f files !! did = Some x -> x = f did.
Proof.
  unfold dict_for. intros Hx. apply elem_of_list_to_map_2, list_elem_of_fmap in Hx as (d & [= -> ->] & _). done.
Qed.

Lemma elem_of_replicas_where w P j : j ∈ replicas_where w P -> exists r, w_replicas w !! j = Some r /\ persistent_replica r = true /\ P r = true.
Proof. intros (r & Hr & [? ?]%andb_true_iff)%elem_of_select. by exists r. Qed.

Lemma dict_ok_for w P files :
  (forall did r, P did r = true -> rp_did r = did) -> dict_ok w (dict_for (fun did => replicas_where w (P did)) files).
Proof.
  intros HP did js j Hd Hj. apply dict_for_lookup in Hd as ->. apply elem_of_replicas_where in Hj as (r & ? & ? & Hr). exists r. eauto.
Qed.

Lemma dict_ok_empty w : dict_ok w ∅.
Proof. intros did js j Hd. by rewrite lookup_empty in Hd. Qed.
Lemma dict_ok_union w a b : dict_ok w a -> dict_ok w b -> dict_ok w (a ∪ b).
Proof. intros Ha Hb did js j [Hd|[_ Hd]]%lookup_union_Some_raw; [by eapply Ha|by eapply Hb]. Qed.

Lemma file_replicas_ok w rses files : dict_ok w (dict_for (fun did => get_and_lock_file_replicas w did rses) files).
Proof.
  apply (dict_ok_for w (fun did r => bool_decide (rp_did r = did) && not_being_deleted r && in_few_rses rses (rp_rse_id r))).
  intros did r [[Hd%bool_decide_eq_true _]%andb_true_iff _]%andb_true_iff. done.
Qed.

Lemma resolve_dataset_ok w ds rses sources stuck r : resolve_dataset w ds rses sources stuck = Ok r -> dict_ok w (res_replicas r).
Proof.
  unfold resolve_dataset. destruct stuck; simpl.
  - destruct (traverse _ _); intros; simplify_eq/=. apply file_replicas_ok.
  - intros [= <-]. apply file_replicas_ok.
Qed.

Lemma joined_ok w parts acc :
  dict_ok w (res_replicas acc) -> Forall (fun r => dict_ok w (res_replicas r)) parts ->
  dict_ok w (res_replicas (foldl join_resolved acc parts)).
Proof.
  intros Hacc Hparts. revert acc Hacc. induction Hparts as [|r parts Hr _ IH]; intros acc Hacc; simpl; [done|].
  apply IH. by apply dict_ok_union.
Qed.

Lemma resolve_did_ok w did t rses sources stuck r :
  resolve_did_to_locks_and_replicas w did t rses sources stuck = Ok r -> dict_ok w (res_replicas r).
Proof.
  unfold resolve_did_to_locks_and_replicas. destruct t; intros Hr; try done.
  - destruct (file_info w did); simplify_eq/=. apply (file_replicas_ok w rses [did]).
  - by eapply resolve_dataset_ok.
  - destruct (traverse _ _) as [parts|] eqn:Hp; simplify_eq/=.
    assert (dict_ok w (res_replicas (foldl join_resolved nothing_resolved parts))) as Hall.
    { apply joined_ok; [apply dict_ok_empty|]. apply traverse_Ok in Hp. clear -Hp. induction Hp; constructor; [by eapply resolve_dataset_ok|done]. }
    by destruct stuck.
Qed.

Lemma resolve_dids_ok w did children rses sources r :
  resolve_dids_to_locks_and_replicas w did children rses sources = Ok r -> dict_ok w (res_replicas r).
Proof.
  unfold resolve_dids_to_locks_and_replicas. destruct children as [|c children]; [done|]. case_bool_decide; intros Hr.
  - simplify_eq/=. apply (dict_ok_for w (fun did r => bool_decide (rp_did r = did) && not_being_deleted r && in_rses rses (rp_rse_id r))).
    intros d r [[Hd%bool_decide_eq_true _]%andb_true_iff _]%andb_true_iff. done.
  - apply bind_Ok in Hr as (parts & Hp & Hr). injection Hr as <-. apply joined_ok; [apply dict_ok_empty|].
    apply traverse_Ok in Hp. clear -Hp. induction Hp as [|c0 r0 children0 parts Hr _ IH]; constructor; [|done].
    destruct (w_dids w !! c_child c0) as [d|]; [simpl in Hr; by eapply resolve_did_ok|done].
Qed.

(** ** The state of a rule that was applied *)

(** The invariant, but for the state of one rule *)
Definition all_but (id : string) (c : Core) : Prop :=
  counted c /\ forall id' v, k_rules c !! id' = Some v -> id' <> id -> state_ok v.

Lemma counted_nonneg c id v st : counted c -> k_rules c !! id = Some v -> (0 <= v_cnt st v)%Z.
Proof. intros Hc Hv. rewrite (counted_counters c Hc id v st Hv). apply count_nonneg. Qed.

Lemma all_but_done id c v : all_but id c -> k_rules c !! id = Some v -> state_ok v -> core_ok c.
Proof.
  intros [Hc Hst] Hv Hok. apply core_ok_counted. split; [done|]. intros id' v' Hv'. destruct (decide (id' = id)) as [->|Hne]; [|by eapply Hst].
  rewrite Hv in Hv'. by injection Hv' as <-.
Qed.

(** The rule takes a true state. *)
Lemma all_but_set id st c v :
  all_but id c -> k_rules c !! id = Some v -> state_ok (v_set_state st v) ->
  core_ok (MkCore (<[id := v_set_state st v]> (k_rules c)) (k_locks c) (k_replicas c)).
Proof.
  intros [Hc Hst] Hv Hok. apply core_ok_counted. split; [split; try apply Hc|]; red; cbn [k_rules k_locks k_replicas].
  - intros id' v' s [[<- <-]|[_ Hv']]%lookup_insert_Some; [rewrite v_cnt_set_state|]; by eapply (counted_counters c Hc).
  - intros i l Hl Hp. apply lookup_insert_is_Some. destruct (decide (id = lk_rule_id l)); [by left|right]. split; [done|]. by eapply (counted_rules c Hc).
  - intros id' v' [[_ <-]|[Hne Hv']]%lookup_insert_Some; [done|]. by eapply Hst.
Qed.

Lemma wpo_conclude st id v w (m : ST World unit) :
  all_but id (core w) -> k_rules (core w) !! id = Some v -> state_ok (v_set_state st v) -> frames m ->
  wpo (do! set_rule_state id st in m) (fun _ => engine_ok) w.
Proof.
  intros Hall Hv Hok Hm. apply (wpo_alter_rule _ (v_set_state st)); [done|]. intros w' Hw'. apply wpo_frames; [done|].
  intros _ w2 H2. unfold engine_ok. rewrite H2, Hw', (k_rule_Some _ _ _ v Hv). by apply all_but_set.
Qed.

Lemma conclude_attach_ok id okb stuckb w v :
  all_but id (core w) -> k_rules (core w) !! id = Some v -> (stuckb = v_stuck v -> state_ok v \/ v_stuck v = 0%Z) ->
  wpo (conclude_attach id okb stuckb) (fun _ => engine_ok) w.
Proof.
  intros Hall Hv Hold. apply (wpo_lookup_rule _ v); [done|]. intros r _ Hr.
  pose proof (counted_nonneg _ id v L_STUCK (proj1 Hall) Hv) as Hs. pose proof (counted_nonneg _ id v L_REPLICATING (proj1 Hall) Hv) as Hrep.
  rewrite <-Hr in *. cbn [view v_cnt v_stuck v_replicating v_state] in *.
  case_bool_decide as Hst; [apply wp_ret; apply (all_but_done id _ (view r)); [done|done|]; unfold state_ok; cbn [view v_state]; by rewrite Hst|].
  case_bool_decide as Hpos.
  - case_bool_decide as Heq.
    + apply wp_ret. destruct (Hold Heq) as [?|?]; [by apply (all_but_done id _ (view r))|lia].
    + apply (wpo_conclude _ _ (view r)); [done..|]. frames.
  - case_bool_decide as Hr1.
    + apply (wpo_conclude _ _ (view r)); [done|done| |frames]. split; [done|]. cbn. lia.
    + destruct (_ && _) eqn:Hz; [|].
      * apply (wpo_conclude _ _ (view r)); [done|done| |frames]. split; cbn; lia.
      * exfalso. rewrite (bool_decide_true (ru_locks_replicating_cnt r = 0)%Z), (bool_decide_true (ru_locks_stuck_cnt r = 0)%Z) in Hz by lia. done.
Qed.

Lemma wpo_objects {A} sel r (m : ST Grouping A) Q w :
  wpg m (fun a g => Q a (g_world g)) (MkGrouping w sel 0 (res_locks r) (res_replicas r) [] [] [] []) -> wpo (with_objects sel r m) Q w.
Proof. unfold wpo, wpg, wp, with_objects. by destruct (m _) as [[] ?]. Qed.

Section attach.
Context `{RSEExpressions} `{Random}.

(** A rule is applied to what was resolved, and gets its state. *)
Definition apply_to_new_files (rule : Rule) (sel : RSESelector) (r : Resolved) (preferred sources : list string) : ST World unit :=
  with_objects sel r
    (do! create_locks_replicas_transfers rule (res_source_replicas r) preferred sources (datasetfiles r) in
     on_world (conclude_attach (ru_id rule) (ru_locks_ok_cnt rule) (ru_locks_stuck_cnt rule))).

Lemma apply_to_new_files_ok rule sel r preferred sources w :
  engine_ok w -> w_rules w !! ru_id rule = Some rule -> dict_ok w (res_replicas r) ->
  wpo (apply_to_new_files rule sel r preferred sources) (fun _ => engine_ok) w.
Proof.
  intros Hok Hrule Hdict. apply wpo_objects. set (g := MkGrouping w sel 0 (res_locks r) (res_replicas r) [] [] [] []).
  pose proof (proj1 (core_ok_counted _) Hok) as [Hcounted Hstates].
  apply wpg_bind. eapply wpg_mono; [apply create_ok; [done|done|by eexists]|]. intros [] g' [Hc Hfrom]. cbn [g g_world] in Hfrom.
  apply wpg_world. cbn [g_world upd_g_world].
  destruct (k_rules (core (g_world g')) !! ru_id rule) as [v|] eqn:Hv.
  - apply (conclude_attach_ok _ _ _ _ v).
    + split; [done|]. intros id' v' Hv' Hne. destruct (Hfrom id' v' Hv') as (r0 & Hr0 & _ & Heq). rewrite Heq by done.
      eapply Hstates. by apply core_rule.
    + done.
    + intros Hs. destruct (Hfrom _ v Hv) as (r0 & Hr0 & Hst & _). rewrite Hrule in Hr0. injection Hr0 as <-.
      pose proof (Hstates _ _ (core_rule _ _ _ Hrule)) as Hok0. unfold state_ok in *. cbn [view v_state v_stuck v_ok v_replicating] in Hok0.
      rewrite Hst. destruct (ru_state rule); try (by left); right; rewrite <-Hs; by apply Hok0.
  - apply wpo_the_rule. intros r' Hr'. apply core_rule in Hr'. congruence.
Qed.
End attach.

(** ** A rule that is cut short *)

(** Two new files, and an account with room for the first one on two RSEs; a replica of it is there. *)
Definition new_content (file : string) : Content := MkContent ("data", "ds")%string DATASET ("data", file)%string FILE 10 None None true.
Definition new_rule : Rule :=
  MkRule "r1" None (ru_account demo_rule) (ru_did demo_rule) (ru_did_type demo_rule) (ru_state demo_rule) None "*" 2 None None false 2 2 0
    None None G_NONE N_NO None false false false (Some 3%Z) None None None false None 0 0.
Definition tight_quotas : QuotaDB :=
  MkQuotaDB (list_to_map [(("alice", "A"), 15%Z); (("alice", "B"), 15%Z); (("alice", "C"), 15%Z)]%string) [] ∅ ∅ ∅.
Definition free_replica : Replica := MkReplica "A" ("data", "f3") 10 None None R_AVAILABLE 0 None (Some 500%Z) (Some 0%Z) Persistent.
Definition new_world : World :=
  upd_w_quotas (fun _ => tight_quotas) (upd_w_rules (fun _ => {[ "r1"%string := new_rule ]})
    (upd_w_replicas (fun l => l ++ [free_replica])%list (upd_w_contents (fun l => l ++ [new_content "f3"; new_content "f4"])%list demo_world))).

Lemma new_ok : engine_ok new_world.
Proof. engine_example. Qed.

Definition cut_short : World := (@evaluate_did_attach name_expressions low_draws (fun _ => "") ("data", "ds")%string new_world).2.

(** A rule whose application to new files is cut short by the limits of the account keeps the
    counters of locks that were never made, and the replica of one of them keeps a lock count
    without a lock: the invariant is lost, and the replica is not deleted any more. *)
Theorem cut_short_rule_miscounts :
  engine_ok new_world /\
  (@evaluate_did_attach name_expressions low_draws (fun _ => "") ("data", "ds")%string new_world).1 = Ok tt /\
  (exists r, w_rules cut_short !! "r1"%string = Some r /\ ru_state r = RS_STUCK /\
     ru_locks_ok_cnt r = 3%Z /\ count (fun _ => lock_of "r1" L_OK) (w_locks cut_short) = 2%Z) /\
  (exists j r, w_replicas cut_short !! j = Some r /\ persistent_replica r = true /\ rp_tombstone r = None /\ rp_lock_cnt r = 1%Z /\
     count (fun _ => lock_on_key (replica_key r)) (w_locks cut_short) = 0%Z) /\
  ~ engine_ok cut_short.
Proof.
  assert (exists r, w_rules cut_short !! "r1"%string = Some r /\ ru_state r = RS_STUCK /\
     ru_locks_ok_cnt r = 3%Z /\ count (fun _ => lock_of "r1" L_OK) (w_locks cut_short) = 2%Z) as Hcnt.
  { eexists. split; [by vm_compute|]. by vm_compute. }
  split_and!; [apply new_ok|by vm_compute|done| |].
  - exists 4%nat. eexists. split; [by vm_compute|]. by vm_compute.
  - intros Hok. destruct Hcnt as (r & Hr & _ & Hc & Hn). apply core_rule in Hr.
    pose proof (core_counters _ Hok _ _ L_OK Hr) as Hbad. cbn [view v_cnt v_ok] in Hbad. rewrite Hc in Hbad.
    change (k_locks (core cut_short)) with (w_locks cut_short) in Hbad. by rewrite Hn in Hbad.
Qed.

(** ** A repair that is given up *)

(** A rule for one copy is stuck at [B] and [C]; the account has room at [A], for one file. *)
Definition stuck_rule : Rule :=
  MkRule "r1" None (ru_account demo_rule) (ru_did demo_rule) (ru_did_type demo_rule) RS_STUCK None "*" 1 None None false 0 0 2
    None None G_NONE N_NO (Some 900%Z) false false false (Some 3%Z) None None None false None 0 0.
Definition stuck_world : World :=
  upd_w_quotas (fun _ => MkQuotaDB (list_to_map [(("alice", "A"), 15%Z)]%string) [] ∅ ∅ ∅) (upd_w_rules (fun _ => {[ "r1"%string := stuck_rule ]})
    (upd_w_locks (fun _ => [demo_lock "f1" "B" L_STUCK; demo_lock "f2" "C" L_STUCK])
      (upd_w_replicas (fun _ => [demo_replica "f1" "B" R_UNAVAILABLE; demo_replica "f2" "C" R_UNAVAILABLE]) demo_world))).

Lemma stuck_ok : engine_ok stuck_world.
Proof. engine_example. Qed.

Definition given_up : World := (@repair_rule name_expressions low_draws (fun _ => "") "r1"%string stuck_world).2.

(** The lock of the first file is to move to [A], and its replica at [B] is given up, before the second file
    finds no room: then the old lock stays, on a replica with a tombstone, and the counters of the rule
    count the new lock, which is never made. *)
Theorem given_up_repair_leaves_tombstone :
  engine_ok stuck_world /\ (@repair_rule name_expressions low_draws (fun _ => "") "r1"%string stuck_world).1 = Ok tt /\
  (exists l r, w_locks given_up !! 0%nat = Some l /\ persistent_lock l = true /\ w_replicas given_up !! 0%nat = Some r /\
     replica_key r = (lk_did l, lk_rse_id l) /\ is_Some (rp_tombstone r) /\ rp_lock_cnt r = 0%Z) /\
  (exists r, w_rules given_up !! "r1"%string = Some r /\ ru_locks_stuck_cnt r = 1%Z /\ count (fun _ => lock_of "r1" L_STUCK) (w_locks given_up) = 2%Z).
Proof.
  split_and!; [apply stuck_ok|by vm_compute| |].
  - do 2 eexists. split; [by vm_compute|]. split; [done|]. split; [by vm_compute|].
    split; [by vm_compute|]. split; [by vm_compute; eexists|done].
  - eexists. split; [by vm_compute|]. by vm_compute.
Qed.
