(* ===== verification/RuleCreationFacts.v ===== *)
(** * New rules keep the invariant

    A rule that is made has the counters and the state its new locks give it, whether it is applied
    at once or injected later, and rules that wait have no locks. *)

From stdpp Require Import relations.
From S2P Require Import Prelude StateError Counting PyString Types Database RseSelector LockTables RuleGrouping RuleEngine RuleInvariant RuleEvents RuleLosses RuleRepair Hierarchy RuleCreation RuleApply RuleAttach.

#[local] Open Scope list_scope.

(** ** Applying *)

(** What applying a rule upholds: the rule is there, and all locks are counted. *)
Definition applied (olds : gmap string Rule) (rule_id : string) (g : Grouping) : Prop :=
  counted_from olds rule_id (g_world g) /\ is_Some (k_rules (core (g_world g)) !! rule_id).

Lemma counted_from_trans olds mids rule_id w :
  rules_from olds rule_id mids -> counted_from mids rule_id w -> counted_from olds rule_id w.
Proof.
  intros Hmid [Hw Hfrom]. split; [done|]. intros id v Hv. destruct (Hfrom id v Hv) as (r1 & H1 & Hs1 & Hv1).
  destruct (Hmid id r1 H1) as (r0 & H0 & Hs0 & Hv0). exists r0. split_and!; [done|congruence|].
  intros Hne. rewrite Hv1 by done. by apply Hv0.
Qed.

Lemma counted_from_rules olds rule_id w : counted_from olds rule_id w -> rules_from olds rule_id (w_rules w).
Proof. intros [_ Hfrom] id r Hr. apply (Hfrom id (view r)). by apply core_rule. Qed.

Section applying.
Context `{RSEExpressions} `{Random}.
Variables (max_partition_size : Z) (on_thread : nat -> nat -> string -> bool).
Variables (rule : Rule) (rses source_rses : list string).

Definition upholds {A} (x : ST Grouping A) : Prop :=
  forall olds g, applied olds (ru_id rule) g -> wpg x (fun _ => applied olds (ru_id rule)) g.

Lemma upholds_ret {A} (a : A) : upholds (retS a).
Proof. by intros olds g. Qed.
Lemma upholds_gets {A} (f : Grouping -> A) : upholds (getsS f).
Proof. by intros olds g. Qed.
Lemma upholds_lift {A} (r : result A) : upholds (liftS r).
Proof. intros olds g Hg. by apply wp_lift. Qed.
Lemma upholds_bind {A B} (x : ST Grouping A) (f : A -> ST Grouping B) : upholds x -> (forall a, upholds (f a)) -> upholds (bindS x f).
Proof. intros Hx Hf olds g Hg. apply wpg_bind. eapply wpg_mono; [by apply Hx|]. intros a g' Hg'. by apply Hf. Qed.
Lemma upholds_for {A} (f : A -> ST Grouping unit) l : (forall a, upholds (f a)) -> upholds (forS f l).
Proof. intros Hf. induction l as [|a l IH]; simpl; [apply upholds_ret|]. apply upholds_bind; [apply Hf|by intros _]. Qed.
Lemma upholds_when b x : upholds x -> upholds (whenS b x).
Proof. destruct b; [done|]. intros _. apply upholds_ret. Qed.

Lemma upholds_frames (x : ST World unit) : frames x -> upholds (on_world x).
Proof.
  intros Hx olds g [Hc Hr]. apply wpg_world, wpo_frames; [done|]. intros [] w' Hw'.
  unfold applied, counted_from in *. cbn [g_world upd_g_world]. by rewrite Hw'.
Qed.
Lemma upholds_select size preferred copies blocklist prioritize existing :
  upholds (select_rses size preferred copies blocklist prioritize existing).
Proof.
  intros olds g Hg. unfold wpg, wp, select_rses. by destruct (select_rse _ _ _ _ _ _ _ _) as [[chosen sel]|e].
Qed.
Hint Resolve upholds_ret upholds_gets upholds_lift upholds_select upholds_when : upholds.


(** *** A portion: all that is made for it is added *)

Lemma flush_made_ok n m olds g : running n m olds (ru_id rule) g -> wpg flush_made (fun _ => applied olds (ru_id rule)) g.
Proof.
  intros Hg. unfold flush_made. apply wpg_bind, wp_gets. change (id g) with g.
  apply (wpg_add_objects (ru_id rule) g n m olds _ _ Hg). intros w Hw Hr. apply wpg_bind.
  assert (applied olds (ru_id rule) (upd_g_world (fun _ => w) g)) as Happ.
  { split; [done|]. destruct Hr as [r Hr]. exists (view r). by apply core_rule. }
  eapply wpg_mono; [apply upholds_frames; [frames|exact Happ]|]. intros [] g' Hg'. by apply wpg_bind, wp_gets.
Qed.

Lemma take_ok locks replicas olds g :
  dict_ok (g_world g) replicas -> applied olds (ru_id rule) g ->
  wpg (take_objects locks replicas) (fun _ => running (length (w_locks (g_world g))) (length (w_replicas (g_world g))) (w_rules (g_world g)) (ru_id rule)) g.
Proof.
  intros Hdict [[Hc Hfrom] [v Hv]]. apply wp_modify. apply rule_core in Hv as (r & Hr & _).
  apply (start_running (ru_id rule) (MkGrouping _ _ _ _ _ _ _ _ _)); done.
Qed.

(** Steps on the objects of a portion *)
Lemma wpg_stays {A B} n m olds (x : ST Grouping A) (k : A -> ST Grouping B) Q g :
  stays n m olds (ru_id rule) x -> running n m olds (ru_id rule) g ->
  (forall a g', running n m olds (ru_id rule) g' -> wpg (k a) Q g') -> wpg (bindS x k) Q g.
Proof. intros Hx Hg Hk. apply wpg_bind. eapply wpg_mono; [by apply Hx|]. intros a g' Hg'. by apply Hk. Qed.

Lemma flush_portion olds g g' :
  applied olds (ru_id rule) g -> applied (w_rules (g_world g)) (ru_id rule) g' -> applied olds (ru_id rule) g'.
Proof. intros [Hg _] [Hg' ?]. split; [|done]. eapply counted_from_trans; [by apply counted_from_rules|done]. Qed.

Ltac stays_step :=
  lazymatch goal with
  | |- stays _ _ _ _ (bindS _ _) => apply stays_bind; [|intros ?]
  | |- stays _ _ _ _ (forS _ _) => apply stays_for; intros ?
  | |- stays _ _ _ _ (if ?b then _ else _) => destruct b
  | |- stays _ _ _ _ _ => eauto using stays_ret, stays_gets, stays_lift, stays_select, stays_file_replicas, stays_full, stays_lock_on
  end.

Lemma stays_select_for_file n m olds file : stays n m olds (ru_id rule) (select_for_file file).
Proof. unfold select_for_file. repeat stays_step. Qed.

Lemma stays_in_dataset n m olds dataset sources tuples file :
  stays n m olds (ru_id rule) (apply_in_dataset rule source_rses dataset sources tuples file).
Proof. pose proof (stays_select_for_file n m olds). unfold apply_in_dataset. repeat stays_step. Qed.

Lemma one_dict_ok w did js : (forall j, j ∈ js -> exists r, w_replicas w !! j = Some r /\ rp_did r = did /\ persistent_replica r = true) ->
  dict_ok w {[ did := js ]}.
Proof. intros Hjs did' js' j [<- <-]%lookup_singleton_Some Hj. by apply Hjs. Qed.

Lemma upholds_file did : upholds (apply_to_file rule rses source_rses did).
Proof.
  intros olds g Hg. unfold apply_to_file. apply wpg_bind, wp_gets. apply wpg_bind.
  eapply wpg_mono; [apply (take_ok _ _ olds)|].
  { apply (file_replicas_ok (g_world g) rses [did]). }
  { done. }
  intros [] g1 H1. apply (wpg_stays _ _ _ _ _ _ _ (stays_lift _ _ _ _ _) H1). intros file g2 H2.
  apply (wpg_stays _ _ _ _ _ _ _ (stays_select_for_file _ _ _ _) H2). intros tuples g3 H3.
  eapply wpg_stays; [|exact H3|]; [repeat stays_step|]. intros [] g4 H4.
  eapply wpg_mono; [by eapply flush_made_ok|]. intros counts g5 H5. by eapply flush_portion.
Qed.

Lemma upholds_partition dataset tuples np p : upholds (apply_partition on_thread rule rses source_rses dataset tuples np p).
Proof.
  intros olds g Hg. unfold apply_partition. apply wpg_bind, wp_gets. apply wpg_bind.
  eapply wpg_mono; [apply (take_ok _ _ olds); [apply file_replicas_ok|done]|].
  intros [] g1 H1. eapply wpg_stays; [|exact H1|]; [apply stays_concat; intros; apply stays_in_dataset|]. intros used g2 H2.
  apply wpg_bind. eapply wpg_mono; [by eapply flush_made_ok|]. intros counts g3 H3. by eapply flush_portion.
Qed.

Lemma upholds_partitions dataset tuples np ps used counts :
  upholds (apply_partitions on_thread rule rses source_rses dataset tuples np ps used counts).
Proof.
  revert used counts. induction ps as [|p ps IH]; intros used counts; simpl; [apply upholds_ret|].
  apply upholds_bind; [apply upholds_partition|]. intros r. apply IH.
Qed.

Lemma upholds_group datasets nbytes : upholds (select_for_datasets datasets nbytes).
Proof. apply upholds_bind; [apply upholds_gets|]. intros w. apply upholds_select. Qed.

Lemma upholds_dataset tuples used counts dataset :
  upholds (apply_to_dataset max_partition_size on_thread rule rses source_rses tuples used counts dataset).
Proof.
  unfold apply_to_dataset. apply upholds_bind; [apply upholds_gets|]. intros w. apply upholds_bind; [apply upholds_lift|]. intros [bytes len].
  apply upholds_bind; [apply upholds_lift|]. intros is_open.
  apply upholds_bind; [destruct (ru_grouping rule); first [apply upholds_ret|apply upholds_group]|]. intros tuples'.
  apply upholds_bind; [apply upholds_partitions|]. intros [used' counts']. apply upholds_bind; [|intros _; apply upholds_ret].
  apply upholds_for. intros rse. apply upholds_bind; [apply upholds_when, upholds_frames; unfold save_dataset_lock; frames|]. intros _.
  apply upholds_frames. unfold add_collection_replica. apply frames_modify. intros w'. by destruct (w_collection_replicas w' !! _).
Qed.

Lemma upholds_did did t : upholds (apply_to_did max_partition_size on_thread rule rses source_rses did t).
Proof.
  unfold apply_to_did. destruct (bool_decide _); [apply upholds_file|]. apply upholds_bind; [apply upholds_gets|]. intros w.
  assert (forall datasets tuples used counts,
    upholds (apply_to_datasets max_partition_size on_thread rule rses source_rses tuples used counts datasets)) as Hall.
  { induction datasets as [|ds datasets IH]; intros; simpl; [apply upholds_ret|].
    apply upholds_bind; [apply upholds_dataset|]. intros [tuples' [used' counts']]. apply IH. }
  apply upholds_bind; [|intros; apply Hall].
  destruct (ru_grouping rule); first [apply upholds_ret|apply upholds_bind; [apply upholds_lift|intros; apply upholds_group]].
Qed.

Lemma apply_rule_ok did t sel draws w :
  counted (core w) -> is_Some (w_rules w !! ru_id rule) ->
  wpo (apply_rule max_partition_size on_thread rule rses source_rses did t sel draws)
    (fun _ w' => counted_from (w_rules w) (ru_id rule) w' /\ is_Some (k_rules (core w') !! ru_id rule)) w.
Proof.
  intros Hc [r Hr]. unfold wpo, apply_rule. set (g := MkGrouping w sel draws ∅ ∅ [] [] [] []).
  assert (applied (w_rules w) (ru_id rule) g) as Hg.
  { split; [split; [done|]|exists (view r); by apply core_rule]. intros id v (r0 & Hr0 & <-)%rule_core. by exists r0. }
  match goal with |- wp (fun w => let '(x, g) := ?m _ in _) _ _ _ => assert (upholds m) as Hm end.
  { apply upholds_bind; [apply upholds_did|]. intros [replicas locks].
    apply upholds_bind; [apply upholds_frames; frames|]. intros _. apply upholds_bind; [apply upholds_frames; frames|]. intros _. apply upholds_gets. }
  specialize (Hm _ _ Hg). unfold wp, wpg in *. unfold wp in Hm. destruct (bindS _ _ _) as [[x|e] g'] in Hm |- *; apply Hm || done.
Qed.
End applying.

(** ** The state of a new rule *)

Lemma conclude_creation_ok id release w :
  all_but id (core w) -> wpo (conclude_creation id release) (fun _ => engine_ok) w.
Proof.
  intros Hall. apply wpo_the_rule. intros r Hr. apply core_rule in Hr.
  pose proof (counted_nonneg _ id _ L_STUCK (proj1 Hall) Hr) as Hs. pose proof (counted_nonneg _ id _ L_REPLICATING (proj1 Hall) Hr) as Hrep.
  cbn [view v_cnt v_stuck v_replicating] in Hs, Hrep. apply wpo_bind.
  apply (wpo_mono _ (fun _ => engine_ok)); [|intros [] w' Hw'; apply wpo_frames; [frames|unfold engine_ok; intros _ w2 ->; exact Hw']].
  case_bool_decide as Hpos; [apply (wpo_conclude _ _ (view r)); [done|done|done|frames]|].
  case_bool_decide as Hzero; apply (wpo_conclude _ _ (view r)); try done; try frames; split; cbn; lia.
Qed.

Lemma counted_from_all_but id w0 w : (forall id' v, k_rules (core w0) !! id' = Some v -> id' <> id -> state_ok v) ->
  counted_from (w_rules w0) id w -> all_but id (core w).
Proof.
  intros Hst [Hc Hfrom]. split; [done|]. intros id' v Hv Hne. destruct (Hfrom id' v Hv) as (r0 & Hr0 & _ & ->); [|done].
  eapply Hst; [by apply core_rule|done].
Qed.

(** ** Rules that wait *)

(** A rule without locks: its counters are 0. *)
Definition no_locks_yet (v : View) : Prop := v_ok v = 0%Z /\ v_replicating v = 0%Z /\ v_stuck v = 0%Z.

Lemma core_insert_rule id r w :
  core (upd_w_rules (<[id := r]>) w) = MkCore (<[id := view r]> (k_rules (core w))) (k_locks (core w)) (k_replicas (core w)).
Proof. unfold core. simpl. by rewrite fmap_insert. Qed.

(** A new rule, in no state yet *)
Lemma new_rule_counted id r w :
  engine_ok w -> w_rules w !! id = None -> no_locks_yet (view r) -> all_but id (core (upd_w_rules (<[id := r]>) w)).
Proof.
  intros Hok Hnew (Ho & Hr & Hs). rewrite core_insert_rule. set (c := core w) in *.
  assert (k_rules c !! id = None) as Hnone by (unfold c, core; simpl; by rewrite lookup_fmap, Hnew).
  split; [split; red; cbn [k_rules k_locks k_replicas]; try apply Hok|]; cbn [k_rules].
  - intros id' v st [[<- <-]|[_ Hv]]%lookup_insert_Some; [|by eapply (core_counters _ Hok)].
    assert (v_cnt st (view r) = 0%Z) as -> by (by destruct st). symmetry. apply Z.le_antisymm; [|apply count_nonneg].
    apply count_zero. intros i l Hl. unfold lock_of. destruct (persistent_lock l) eqn:Hp; [|done]. simpl.
    rewrite bool_decide_false; [done|]. intros <-. destruct (core_rules _ Hok i l Hl Hp) as [v Hv].
    change (k_rules (core w)) with (k_rules c) in Hv. congruence.
  - intros i l Hl Hp. apply lookup_insert_is_Some. destruct (core_rules _ Hok i l Hl Hp) as [v Hv].
    destruct (decide (id = lk_rule_id l)); [by left|right]. split; [done|]. by exists v.
  - intros id' v [[<- <-]|[_ Hv]]%lookup_insert_Some Hne; [done|]. by eapply (core_states _ Hok).
Qed.

Lemma save_rule_ok r w :
  engine_ok w -> no_locks_yet (view r) ->
  wpo (save_rule r) (fun _ w' => w_rules w !! ru_id r = None /\ w' = upd_w_rules (<[ru_id r := r]>) w /\ all_but (ru_id r) (core w')) w.
Proof.
  intros Hok Hz. unfold save_rule. apply wpo_bind, wp_gets. unfold id.
  destruct (w_rules w !! ru_id r) as [r'|] eqn:Hr; [by rewrite bool_decide_true|].
  destruct (_ || _); [done|]. destruct (bool_decide _); [|done]. split_and!; [done|done|]. by apply new_rule_counted.
Qed.

(** A rule that only waits upholds the locks of others. *)
Lemma wait_ok {B} id st (k : unit -> ST World B) Q w r :
  all_but id (core w) -> w_rules w !! id = Some r -> no_locks_yet (view r) -> st = RS_INJECT \/ st = RS_WAITING_APPROVAL ->
  (forall w', core w' = MkCore (<[id := v_set_state st (view r)]> (k_rules (core w))) (k_locks (core w)) (k_replicas (core w)) ->
     engine_ok w' -> wpo (k tt) Q w') ->
  wpo (let! u := set_rule_state id st in k u) Q w.
Proof.
  intros Hall Hr Hz Hst Hk. pose proof (core_rule _ _ _ Hr) as Hv.
  apply (wpo_alter_rule _ (v_set_state st)); [done|]. intros w' Hw'. rewrite (k_rule_Some _ _ _ _ Hv) in Hw'.
  apply Hk; [done|]. unfold engine_ok. rewrite Hw'. apply all_but_set; [done..|]. destruct Hst as [->| ->]; exact Hz.
Qed.

Section creating.
Context `{RSEExpressions} `{Random}.
Variables (max_partition_size scratchdisk_lifetime : Z) (default_mail_from : option string) (on_thread : nat -> nat -> string -> bool)
  (generate_uuid : World -> string) (auto_approve : World -> Rule -> DIDRow -> result bool).
Notation add_rule := (add_rule max_partition_size scratchdisk_lifetime default_mail_from on_thread generate_uuid auto_approve).
Notation add_rules_for := (add_rules_for max_partition_size default_mail_from on_thread generate_uuid auto_approve).
Notation add_rule_for := (add_rule_for max_partition_size default_mail_from on_thread generate_uuid auto_approve).

(** *** Approval *)

Lemma frames_account_email a : frames (account_email a).
Proof. unfold account_email. frames. Qed.
Lemma frames_open_template : frames open_template.
Proof. unfold open_template. frames. Qed.
Hint Resolve frames_account_email frames_open_template : frames.
Lemma frames_mail_recipients rule m : frames (mail_recipients default_mail_from rule m).
Proof. unfold mail_recipients. frames. Qed.
Lemma frames_approval_email rule : frames (create_rule_approval_email default_mail_from rule).
Proof. unfold create_rule_approval_email. frames. Qed.
Hint Resolve frames_mail_recipients frames_approval_email : frames.

Lemma wpo_rule_not_found {A} (m : ST World A) Q w : wpo m Q w -> wpo (rule_not_found m) Q w.
Proof. intros Hm. apply wp_try. eapply wp_mono; [exact Hm|done|]. by intros []. Qed.

Lemma waiting_no_locks r w id :
  engine_ok w -> w_rules w !! id = Some r -> ru_state r = RS_WAITING_APPROVAL \/ ru_state r = RS_INJECT -> no_locks_yet (view r).
Proof.
  intros Hok Hr Hst. pose proof (core_states _ Hok _ _ (core_rule _ _ _ Hr)) as Hs. unfold state_ok in Hs. cbn [view v_state] in Hs.
  by destruct Hst as [Hst|Hst]; rewrite Hst in Hs.
Qed.

Lemma engine_all_but id w : engine_ok w -> all_but id (core w).
Proof. intros Hok. apply core_ok_counted in Hok as [? ?]. split; [done|]. intros id' v Hv _. eauto. Qed.

Lemma approve_rule_ok id approver notify w :
  engine_ok w -> wpo (approve_rule default_mail_from id approver notify) (fun _ => engine_ok) w.
Proof.
  intros Hok. apply wpo_rule_not_found, wpo_the_rule. intros r Hr. case_bool_decide as Hst; [|done].
  pose proof (waiting_no_locks r w id Hok Hr (or_introl Hst)) as Hz.
  apply wpo_modify. set (w1 := upd_w_rules _ w).
  assert (core w1 = core w) as H1.
  { unfold w1, core. cbn. f_equal. apply map_eq. intros k. rewrite !lookup_fmap.
    destruct (decide (k = id)) as [->|]; [rewrite lookup_alter_eq, Hr|rewrite lookup_alter_ne]; done. }
  assert (w_rules w1 !! id = Some (upd_ru_ignore_account_limit (fun _ => true) r)) as Hr1 by (unfold w1; cbn; by rewrite lookup_alter_eq, Hr).
  apply (wait_ok id RS_INJECT _ _ w1 _ (engine_all_but _ _ (eq_ind_r core_ok Hok H1)) Hr1 Hz); [by left|].
  intros w2 _ Hok2. apply wpo_frames; [frames|]. unfold engine_ok. by intros _ w3 ->.
Qed.

Lemma deny_rule_ok id approver w : engine_ok w -> wpo (deny_rule default_mail_from id approver) (fun _ => engine_ok) w.
Proof.
  intros Hok. apply wpo_rule_not_found, wpo_the_rule. intros r Hr. case_bool_decide as Hst; [|done].
  apply wpo_skip; [frames|]. intros _ w1 H1. apply wpo_skip; [frames|]. intros email w2 H2.
  apply wpo_skip; [frames|]. intros _ w3 H3. apply wpo_skip; [frames|]. intros _ w4 H4.
  apply wpo_bind. eapply wpo_mono; [apply delete_rule_ok|].
  { unfold engine_ok. by rewrite H4, H3, H2, H1. }
  intros [] w5 Hok5. apply wpo_frames; [frames|]. unfold engine_ok in *. by intros _ w6 ->.
Qed.

(** *** Adding *)

Lemma new_rule_zero o id p t did type : no_locks_yet (view (RuleCreation.new_rule o id p t did type)).
Proof. done. Qed.

Lemma add_rule_for_ok o p sel draws asynchronous elem w :
  engine_ok w -> wpo (add_rule_for o p sel draws asynchronous elem) (fun _ => engine_ok) w.
Proof.
  intros Hok. unfold add_rule_for. apply wpo_bind, wp_gets, wpo_bind. unfold id.
  apply wp_lift; [|done]. intros [did row] _. set (rule := RuleCreation.new_rule _ _ _ _ _ _). set (rid := generate_uuid w) in *.
  apply wpo_bind. eapply wpo_mono; [by apply save_rule_ok|]. intros [] w1 (Hnew & Hw1 & Hall).
  assert (w_rules w1 !! rid = Some rule) as Hrule by (rewrite Hw1; apply lookup_insert_eq).
  destruct (o_ask_approval o).
  { apply (wait_ok rid _ _ _ w1 rule); [done|done|done|by right|]. intros w2 _ Hok2.
    apply wpo_bind, wp_gets, wpo_bind. apply wp_lift; [|done]. intros approved _. apply wpo_bind.
    apply (wpo_mono _ (fun _ => engine_ok)); [|by intros [] w3 Hw3]. destruct approved; [by apply approve_rule_ok|].
    apply wpo_frames; [frames|]. unfold engine_ok. by intros _ w3 ->. }
  destruct (_ || bool_decide (is_Some _)).
  { apply (wait_ok rid _ _ _ w1 rule); [done|done|done|by left|]. intros w2 _ Hok2.
    apply wpo_frames; [frames|]. unfold engine_ok. by intros _ w3 ->. }
  destruct (_ && _).
  { apply (wait_ok rid _ _ _ w1 rule); [done|done|done|by left|]. by intros w2 _ Hok2. }
  apply wpo_bind, wp_try. eapply wp_mono; [apply apply_rule_ok; [apply Hall|by eexists]| |by intros []].
  intros selected w2 [Hfrom _]. apply wpo_bind. eapply wpo_mono; [apply conclude_creation_ok|by intros [] w3].
  eapply counted_from_all_but; [|exact Hfrom]. apply Hall.
Qed.

Lemma add_rule_ok dids o w : engine_ok w -> wpo (add_rule dids o) (fun _ => engine_ok) w.
Proof.
  intros Hok. unfold add_rule. destruct (bool_decide _); [done|]. apply wpo_bind, wp_gets, wpo_bind. apply wp_lift; [|done]. intros p _.
  generalize (p_selector p) as sel. generalize 0%nat as draws. generalize (o_asynchronous o) as asynchronous. unfold id.
  revert w Hok. induction dids as [|did dids IH]; intros w Hok asynchronous draws sel; [done|]. simpl.
  apply wpo_bind. eapply wpo_mono; [by apply add_rule_for_ok|]. intros [[rule_id selected] asynchronous'] w1 Hw1.
  apply wpo_bind. eapply wpo_mono; [by apply IH|]. by intros ids w2.
Qed.

(** *** Injection *)

(** Rules that are injected later make no locks. *)
Lemma add_later_ok o p sel draws dids w :
  o_ask_approval o = false -> engine_ok w ->
  wpo (add_rules_for o p sel draws true dids)
    (fun _ w' => engine_ok w' /\ k_locks (core w') = k_locks (core w) /\ k_rules (core w) ⊆ k_rules (core w')) w.
Proof.
  intros Hask. revert w sel draws. induction dids as [|did dids IH]; intros w sel draws Hok; [done|]. simpl. apply wpo_bind.
  eapply (wpo_mono _ (fun r w' => r.2 = true /\ engine_ok w' /\ k_locks (core w') = k_locks (core w) /\ k_rules (core w) ⊆ k_rules (core w'))).
  - unfold add_rule_for. apply wpo_bind, wp_gets, wpo_bind. unfold id. apply wp_lift; [|done]. intros [did' row] _.
    set (rule := RuleCreation.new_rule _ _ _ _ _ _). set (rid := generate_uuid w) in *.
    apply wpo_bind. eapply wpo_mono; [by apply save_rule_ok|]. intros [] w1 (Hnew & Hw1 & Hall).
    assert (w_rules w1 !! rid = Some rule) as Hrule by (rewrite Hw1; apply lookup_insert_eq). rewrite Hask. simpl.
    apply (wait_ok rid _ _ _ w1 rule); [done|done|done|by left|]. intros w2 H2 Hok2.
    apply wpo_skip; [frames|]. intros _ w3 H3. split; [done|]. rewrite Hw1, core_insert_rule in H2. split; [|split].
    + unfold engine_ok. by rewrite H3.
    + change (k_locks (core w3) = k_locks (core w)). by rewrite H3, H2.
    + change (k_rules (core w) ⊆ k_rules (core w3)). rewrite H3, H2. cbn [k_rules]. rewrite insert_insert_eq. apply insert_subseteq.
      change ((view <$> w_rules w) !! rid = None). rewrite lookup_fmap. change (w_rules w !! rid = None) in Hnew. by rewrite Hnew.
  - intros [[rule_id selected] asynchronous] w1 (Ha & Hok1 & Hl1 & Hr1). simpl in Ha. subst asynchronous. apply wpo_bind.
    eapply wpo_mono; [by apply IH|]. intros ids w2 (Hok2 & Hl2 & Hr2). exact (conj Hok2 (conj (eq_trans Hl2 Hl1) (transitivity Hr1 Hr2))).
Qed.

Lemma split_rule_ok rule w :
  engine_ok w -> w_rules w !! ru_id rule = Some rule -> ru_state rule = RS_INJECT ->
  wpo (split_rule max_partition_size scratchdisk_lifetime default_mail_from on_thread generate_uuid auto_approve rule) (fun _ => engine_ok) w.
Proof.
  intros Hok Hr Hst. pose proof (waiting_no_locks rule w _ Hok Hr (or_intror Hst)) as (Hz1 & Hz2 & Hz3).
  apply wpo_bind, wp_gets, wpo_bind. unfold id. apply wp_lift; [|done]. intros similar _. apply wpo_bind.
  eapply (wpo_mono _ (fun _ w' => engine_ok w' /\ k_locks (core w') = k_locks (core w) /\ k_rules (core w) ⊆ k_rules (core w'))).
  - unfold add_rule. destruct (bool_decide _); [done|]. apply wpo_bind, wp_gets, wpo_bind. unfold id. apply wp_lift; [|done]. intros p _.
    by apply add_later_ok.
  - intros ids w1 (Hok1 & Hl & Hrs). unfold wpo. apply wp_modify. unfold engine_ok. rewrite core_delete_rule.
    pose proof (lookup_weaken _ _ _ _ (core_rule _ _ _ Hr) Hrs) as Hv.
    apply (forget_core (ru_id rule) (view rule)).
    + unfold k_true. rewrite insert_id by done. unfold engine_ok in Hok1. by destruct (core w1).
    + intros k (l & Hk & Hp & Hid%bool_decide_eq_true). rewrite Hl in Hk.
      pose proof (core_counters _ Hok _ _ (lk_state l) (core_rule _ _ _ Hr)) as Hc.
      assert (v_cnt (lk_state l) (view rule) = 0%Z) as Hnone by (by destruct (lk_state l)). rewrite Hnone in Hc.
      pose proof (proj1 (count_zero _ _) (Z.eq_le_incl _ _ (eq_sym Hc)) k l Hk) as Hno. unfold lock_of in Hno.
      by rewrite Hp, !bool_decide_true in Hno.
Qed.

Lemma inject_rule_ok rule w :
  engine_ok w -> w_rules w !! ru_id rule = Some rule -> ru_state rule = RS_INJECT ->
  wpo (inject_rule max_partition_size scratchdisk_lifetime default_mail_from on_thread generate_uuid auto_approve (ru_id rule)) (fun _ => engine_ok) w.
Proof.
  intros Hok Hr Hst. unfold inject_rule, rule_row. apply wpo_bind, wp_gets, wpo_bind. rewrite Hr. apply wp_lift; [|done]. intros r [= <-].
  apply wpo_bind, wp_gets. unfold id. destruct (_ && _); [done|]. destruct (_ && _); [by apply split_rule_ok|].
  do 4 (apply wpo_bind, wp_lift; [|done]; intros ? _). apply wpo_bind, wp_try.
  eapply wp_mono; [apply apply_rule_ok; [by apply core_ok_counted in Hok as [? _]|by eexists]| |by intros []].
  intros selected w2 [Hfrom _]. apply conclude_creation_ok. eapply counted_from_all_but; [|exact Hfrom].
  intros id v Hv _. by eapply (core_states _ Hok).
Qed.
End creating.
