(* ===== verification/RuleChangesFacts.v ===== *)
(** * Changes of rules and the invariant of the engine

    Every option of [update_rule] keeps the invariant, but the states "stuck" and those that come with
    cancelled requests; so do [reduce_rule] and [move_rule]. *)

From S2P Require Import Prelude StateError Counting PyFloat Types Database RseSelector LockTables RuleGrouping RuleEngine RuleRepair RuleCreation RuleInvariant RuleEvents RuleLosses RuleCreationFacts DeletionFacts Requests Conveyor ConveyorFacts RuleChanges.

(** ** Locks that change in what the invariant does not see *)

Definition essence (l : Lock) : DID * string * string * LockState * Status := (lk_did l, lk_rule_id l, lk_rse_id l, lk_state l, lk_status l).

Lemma essence_sees l l' : essence l = essence l' ->
  persistent_lock l = persistent_lock l' /\ lock_key l = lock_key l' /\ (forall id st, lock_of id st l = lock_of id st l') /\
  forall key, lock_on_key key l = lock_on_key key l'.
Proof.
  unfold essence, persistent_lock, lock_key, lock_of, lock_on_key, on_file, persistent_lock. intros [= -> -> -> -> ->]. by split_and!.
Qed.

Lemma essence_core rules ls ls' reps :
  essence <$> ls' = essence <$> ls -> core_ok (MkCore rules ls reps) -> core_ok (MkCore rules ls' reps).
Proof.
  intros He Hok. assert (length ls' = length ls) as Hlen by (by rewrite <-(length_fmap essence ls'), He, length_fmap).
  assert (forall i l', ls' !! i = Some l' -> exists l, ls !! i = Some l /\ essence l' = essence l) as Hback.
  { intros i l' Hl'. assert ((essence <$> ls) !! i = Some (essence l')) as Hi by (by rewrite <-He, list_lookup_fmap, Hl').
    apply list_lookup_fmap_Some in Hi as (l & Heq & Hl). by exists l. }
  assert (forall P, (forall l l', essence l = essence l' -> P l = P l') -> count (fun _ => P) ls' = count (fun _ => P) ls) as Hcount.
  { intros P HP. apply count_ext; [done|]. intros i l' l Hl' Hl. destruct (Hback i l' Hl') as (l0 & Hl0 & Heq). rewrite Hl in Hl0. injection Hl0 as <-. by apply HP. }
  split; red; cbn [k_rules k_locks k_replicas].
  - intros id v st Hv. rewrite Hcount; [by apply (core_counters _ Hok)|]. intros l l' Hl. by apply essence_sees.
  - apply (core_states _ Hok).
  - intros i l' Hl' Hp. destruct (Hback i l' Hl') as (l & Hl & Heq). pose proof (essence_sees _ _ Heq) as (Hpers & Hkey & _).
    assert (lk_rule_id l' = lk_rule_id l) as -> by (unfold lock_key in Hkey; congruence). apply (core_rules _ Hok i l Hl). congruence.
  - intros i j l1 l2 H1 H2 Hp1 Hp2 Hk. destruct (Hback i l1 H1) as (k1 & Hk1 & He1), (Hback j l2 H2) as (k2 & Hk2 & He2).
    apply essence_sees in He1 as (E1 & F1 & _), He2 as (E2 & F2 & _). apply (core_lock_keys _ Hok i j k1 k2 Hk1 Hk2); congruence.
  - apply (core_replica_keys _ Hok).
  - intros j r Hr Hp. unfold replica_ok. rewrite Hcount; [by apply (core_replicas _ Hok j r)|]. intros l l' Hl. by apply essence_sees.
  - intros i l' Hl' Hp. destruct (Hback i l' Hl') as (l & Hl & Heq). pose proof Heq as (Hpers & _)%essence_sees. injection Heq as -> _ -> _ _.
    apply (core_homes _ Hok i l Hl). congruence.
Qed.

Lemma essence_alter f i (ls : list Lock) : (forall l, essence (f l) = essence l) -> essence <$> alter f i ls = essence <$> ls.
Proof.
  intros Hf. apply list_eq. intros j. rewrite !list_lookup_fmap. destruct (decide (i = j)) as [->|Hij].
  - rewrite list_lookup_alter_eq. destruct (ls !! j); simpl; [by rewrite Hf|done].
  - by rewrite list_lookup_alter_ne.
Qed.
Lemma lock_modify_safe f i : (forall l, essence (f l) = essence l) -> safe_op (modifyS (upd_w_locks (alter f i))).
Proof.
  intros Hf w Hok. change (core_ok (MkCore (k_rules (core w)) (alter f i (w_locks w)) (w_replicas w))).
  apply (essence_core _ (w_locks w)); [by apply essence_alter|exact Hok].
Qed.
Lemma alter_lock_safe f i : (forall l, essence (f l) = essence l) -> safe_op (alter_lock f i).
Proof.
  intros Hf w Hok. apply (lock_modify_safe (fun l => written (now (w_session w)) (f l)) i); [|done].
  intros l. rewrite <-(Hf l). unfold written. by destruct (persistent_lock _).
Qed.

Lemma suspend_safe id : safe_op (set_rule_state id RS_SUSPENDED).
Proof.
  intros w Hok. unfold wp, set_rule_state, alter_rule, modifyS.
  assert (core (upd_w_rules (alter (upd_ru_state (fun _ => RS_SUSPENDED)) id) w)
          = k_rule (v_set_state RS_SUSPENDED) id (core w)) as Hc by (by apply core_alter_rule).
  unfold engine_ok. rewrite Hc. unfold k_rule.
  assert (forall i v, alter (v_set_state RS_SUSPENDED) id (k_rules (core w)) !! i = Some v ->
            exists v', k_rules (core w) !! i = Some v' /\ (forall st, v_cnt st v = v_cnt st v') /\ (v = v' \/ v_state v = RS_SUSPENDED)) as Hv.
  { intros i v. destruct (decide (i = id)) as [->|Hi]; [rewrite lookup_alter_eq|rewrite lookup_alter_ne by done; by eauto].
    destruct (k_rules (core w) !! id) as [v'|]; intros [= <-]. exists v'. split_and!; [done|by intros []|by right]. }
  split; red; cbn [k_rules k_locks k_replicas]; try apply Hok.
  - intros i v st (v' & Hv' & -> & _)%Hv. by apply (core_counters _ Hok).
  - intros i v (v' & Hv' & _ & [->|Hs])%Hv; [by apply (core_states _ Hok i)|]. unfold state_ok. by rewrite Hs.
  - intros i l Hl Hp. pose proof (core_rules _ Hok i l Hl Hp) as [v Hr]. destruct (decide (id = lk_rule_id l)) as [->|Hne].
    + rewrite lookup_alter_eq, Hr. eauto.
    + rewrite lookup_alter_ne; eauto.
Qed.

(** ** Updates *)

Definition harmless (options : list RuleOption) : Prop :=
  forall s, SetState s ∈ options -> str_lower s <> "stuck"%string /\ cancels options = false.

Section changing.
Context `{RSEExpressions} `{Random}.
Variables (scratchdisk_lifetime : Z) (known_activity : string -> string -> bool) (refused : list (option string * option string) -> bool).

Lemma safe_when b m : safe_op m -> safe_op (whenS b m).
Proof. apply preserves_when. Qed.
Lemma give_locks_safe id a : safe_op (give_locks id a).
Proof.
  unfold give_locks. apply safe_bind; [apply safe_frames; frames|]. intros ls. apply safe_bind; [|intros _; apply safe_frames; frames].
  apply safe_for. intros i _. by apply alter_lock_safe.
Qed.
Lemma change_account_safe id a : safe_op (change_account id a).
Proof.
  unfold change_account. apply safe_bind; [apply safe_frames; frames|]. intros w. destruct (negb _); [apply safe_frames; frames|].
  apply safe_bind; [apply give_locks_safe|]. intros _. apply safe_frames. unfold move_usage, set_account. frames.
Qed.
Lemma change_state_safe id s : str_lower s <> "stuck"%string -> safe_op (change_state id s false).
Proof.
  intros Hs. unfold change_state. apply safe_bind; [apply safe_frames, frames_ret|]. intros _.
  destruct (bool_decide (str_lower s = "suspended"%string)); [apply suspend_safe|].
  rewrite bool_decide_false by done. apply safe_frames. frames.
Qed.
Lemma frames_change_child id c : frames (change_child id c).
Proof. unfold change_child. frames. Qed.
Lemma frames_priority id p : frames (change_priority refused id p).
Proof. unfold change_priority, update_requests_priority. frames. Qed.
Lemma frames_resubmit id i : frames (resubmit id i).
Proof. unfold resubmit, scalar_one. frames. Qed.
Hint Resolve frames_change_child frames_priority frames_resubmit : frames.

Lemma change_rule_safe id options o :
  harmless options -> o ∈ options -> safe_op (change_rule scratchdisk_lifetime known_activity refused id (cancels options) o).
Proof.
  intros Hh Ho. apply safe_bind; [|intros _; apply safe_frames; frames].
  destruct o as [| | |a|s| | | | | | | | | |]; try (apply safe_frames; unfold change_lifetime, change_activity; by frames).
  - apply change_account_safe.
  - destruct (Hh s Ho) as [Hs ->]. by apply change_state_safe.
Qed.

Lemma update_rule_safe id options : harmless options -> safe_op (update_rule scratchdisk_lifetime known_activity refused id options).
Proof.
  intros Hh. unfold update_rule. destruct (negb _); [apply safe_frames; frames|]. apply preserves_try.
  - apply safe_bind; [apply safe_frames; frames|]. intros _. apply safe_bind; [apply safe_for; intros o; by apply change_rule_safe|].
    intros _. apply safe_when. unfold boost_rule. apply safe_bind; [apply safe_frames; frames|]. intros ls.
    apply safe_bind; [|intros _; apply safe_frames; frames]. apply safe_for. intros i _. unfold boost_lock.
    apply safe_bind; [apply safe_frames; frames|]. intros l. apply safe_bind; [apply safe_frames; frames|]. intros t. by apply lock_modify_safe.
  - intros [] k [= <-]. apply safe_frames. frames.
Qed.

(** ** Replacements *)

Variables (max_partition_size : Z) (default_mail_from : option string) (on_thread : nat -> nat -> string -> bool)
  (generate_uuid : World -> string) (auto_approve : World -> Rule -> DIDRow -> result bool).

Lemma wpo_not_found {A} (m : ST World A) Q w : wpo m Q w -> wpo (or_rule_not_found m) Q w.
Proof. unfold wpo, wp, or_rule_not_found, tryS. destruct (m w) as [[a|e] w']; [done|]. by destruct e. Qed.

Lemma add_replacement_ok did o w : engine_ok w ->
  wpo (add_replacement scratchdisk_lifetime max_partition_size default_mail_from on_thread generate_uuid auto_approve did o) (fun _ => engine_ok) w.
Proof.
  intros Hok. apply wpo_bind. eapply wpo_mono; [by apply add_rule_ok|]. intros ids w1 Hok1. apply wpo_frames; [frames|].
  unfold engine_ok. by intros _ w2 ->.
Qed.

Lemma reduce_rule_ok id copies exclude w : engine_ok w ->
  wpo (reduce_rule scratchdisk_lifetime max_partition_size default_mail_from on_thread generate_uuid auto_approve id copies exclude) (fun _ => engine_ok) w.
Proof.
  intros Hok. apply wpo_not_found, wpo_the_rule. intros r _. destruct (bool_decide _); [done|]. destruct (negb _); [done|].
  apply wpo_bind, wp_gets, wpo_bind. eapply wpo_mono; [by apply add_replacement_ok|]. intros new w1 Hok1. apply wpo_the_rule. intros r' _.
  destruct (negb _); [done|]. apply wpo_bind. eapply wpo_mono; [by apply delete_rule_ok|]. by intros [] w2.
Qed.

Lemma move_rule_ok id e override w : engine_ok w ->
  wpo (move_rule scratchdisk_lifetime known_activity refused max_partition_size default_mail_from on_thread generate_uuid auto_approve id e override)
      (fun _ => engine_ok) w.
Proof.
  intros Hok. apply wpo_not_found, wpo_the_rule. intros r _. destruct (negb _); [done|]. apply wpo_bind, wp_gets, wpo_bind.
  apply wp_lift; [|done]. intros o _. apply wpo_bind. eapply wpo_mono; [by apply add_replacement_ok|]. intros new w1 Hok1.
  apply wpo_bind. eapply wpo_mono; [apply safe_sound; [|done]|by intros [] w2].
  apply update_rule_safe. intros s Hs. set_solver.
Qed.
End changing.
