(* ===== verification/AccountsFacts.v ===== *)
(** * What the counters of accounts promise

    Nothing that is added to a counter is lost or counted twice, however updates and the workers of the
    abacus interleave; when all workers have been there, the usage of an account is what was added up; and a
    rule that changes hands takes the usage of its locks with it. *)

From S2P Require Import Prelude StateError Counting Types Database Role RseSelector LockTables RuleGrouping RuleEngine RuleInvariant RuleEvents RuleDemo RuleRepair RuleCreation RuleChanges Accounts.

#[local] Open Scope list_scope.

(** ** What is stored, and what waits *)

Definition plus (x y : Z * Z) : Z * Z := (x.1 + y.1, x.2 + y.2)%Z.
Definition stored (w : World) (account : InternalType) (rse_id : string) : Z * Z :=
  default (0, 0)%Z (k ← local_key account rse_id; account_usage (w_quotas w) !! k).
Definition added (l : list (string * InternalType * Z * Z)) (account : InternalType) (rse_id : string) : Z * Z :=
  let mine := List.filter (is_update account rse_id) l in (files_of mine, bytes_of_updates mine).
Definition owned (w : World) (account : InternalType) (rse_id : string) : Z * Z :=
  plus (stored w account rse_id) (added (w_account_updates w) account rse_id).

Lemma plus_0_r x : plus x (0, 0)%Z = x.
Proof. destruct x as [a b]. unfold plus. simpl. f_equal; lia. Qed.
Lemma plus_0_l x : plus (0, 0)%Z x = x.
Proof. by destruct x. Qed.
Lemma plus_assoc x y z : plus x (plus y z) = plus (plus x y) z.
Proof. unfold plus. simpl. f_equal; lia. Qed.
Lemma plus_comm x y : plus x y = plus y x.
Proof. unfold plus. f_equal; lia. Qed.

Lemma added_app l l' a r : added (l ++ l') a r = plus (added l a r) (added l' a r).
Proof.
  unfold added, plus. simpl. induction l as [|u l IH]; simpl; [done|]. injection IH as IH1 IH2.
  destruct (is_update a r u); simpl; f_equal; lia.
Qed.
Lemma added_cons u l a r : added (u :: l) a r = plus (added [u] a r) (added l a r).
Proof. apply (added_app [u]). Qed.
Lemma added_none l a r : (forall u, u ∈ l -> is_update a r u = false) -> added l a r = (0, 0)%Z.
Proof.
  intros Hl. unfold added. assert (List.filter (is_update a r) l = []) as ->; [|done].
  induction l as [|u l IH]; simpl; [done|]. rewrite (Hl u) by (by left). apply IH. intros v Hv. apply Hl. by right.
Qed.

Lemma is_update_same a a' r r' u :
  is_update a r u = true -> is_update a' r' u = bool_decide (internal a = internal a' /\ r = r').
Proof.
  unfold is_update. rewrite !andb_true_iff, !bool_decide_eq_true. intros [[-> Hi] Hu]. rewrite Hu.
  case_bool_decide as H1; [subst|]; simpl; [|by rewrite bool_decide_false by intuition].
  destruct (decide (internal a = internal a')) as [He|He].
  - rewrite <-He. by rewrite !bool_decide_true by done.
  - rewrite (bool_decide_false (internal a = internal a')) by done. rewrite andb_false_r. by rewrite bool_decide_false by intuition.
Qed.

(** Taking the updates of a counter away takes them from that counter only. *)
Lemma added_taken l a r a' r' :
  added (List.filter (fun u => negb (is_update a r u)) l) a' r'
  = if bool_decide (internal a = internal a' /\ r = r') then (0, 0)%Z else added l a' r'.
Proof.
  case_bool_decide as Hk.
  - apply added_none. intros u [_ Hu]%elem_of_filter_bool. destruct Hk as [Ha ->]. apply negb_true_iff in Hu. revert Hu.
    unfold is_update. by rewrite Ha.
  - unfold added. assert (List.filter (is_update a' r') (List.filter (fun u => negb (is_update a r u)) l) = List.filter (is_update a' r') l) as ->; [|done].
    induction l as [|u l IH]; simpl; [done|]. destruct (is_update a r u) eqn:Hu; simpl; rewrite ?IH; [|done].
    rewrite (is_update_same _ _ _ _ _ Hu). by rewrite bool_decide_false.
Qed.

(** ** One counter is brought up to date *)

Lemma local_key_inj a r a' r' k :
  local_key a r = Some k -> local_key a' r' = Some k <-> internal a = internal a' /\ r = r'.
Proof. unfold local_key. destruct (internal a), (internal a'); simpl; intros [= <-]; naive_solver. Qed.

Lemma stored_inserted w k a r x a' r' :
  local_key a r = Some k ->
  default (0, 0)%Z (k' ← local_key a' r'; <[k := x]> (account_usage (w_quotas w)) !! k')
  = if bool_decide (internal a = internal a' /\ r = r') then x else stored w a' r'.
Proof.
  intros Hk. unfold stored. case_bool_decide as He.
  - apply (local_key_inj _ _ a' r' _ Hk) in He as ->. simpl. by rewrite lookup_insert_eq.
  - destruct (local_key a' r') as [k'|] eqn:Hk'; simpl; [|done]. rewrite lookup_insert_ne; [done|]. intros ->. apply He.
    by apply (local_key_inj _ _ _ _ _ Hk).
Qed.

Lemma update_account_counter_owned a r w w' :
  update_account_counter a r w = (Ok tt, w') ->
  (forall a' r', owned w' a' r' = owned w a' r') /\ added (w_account_updates w') a r = (0, 0)%Z /\
  (forall u, u ∈ w_account_updates w' <-> u ∈ w_account_updates w /\ is_update a r u = false).
Proof.
  intros Hrun. unfold update_account_counter, bindS, getsS, id in Hrun. cbv zeta in Hrun.
  set (mine := List.filter (is_update a r) (w_account_updates w)) in *.
  assert (exists k x, local_key a r = Some k /\ x = plus (stored w a r) (files_of mine, bytes_of_updates mine) /\
            w' = upd_w_account_updates (List.filter (fun u => negb (is_update a r u))) (upd_w_quotas (upd_account_usage (<[k := x]>)) w)) as (k & x & Hk & Hx & ->).
  { unfold stored. destruct (local_key a r) as [k|] eqn:Hk; simpl in Hrun.
    - destruct (account_usage (w_quotas w) !! k) as [[f b]|] eqn:Hu; simpl in Hrun.
      + injection Hrun as <-. exists k. eexists. split_and!; [done..|]. by simpl; rewrite Hu.
      + unfold save_usage, bindS, getsS, modifyS, raiseS in Hrun. unfold account_key, local_key in *.
        destruct (internal a) as [i|]; simplify_eq/=. destruct (decide _); simpl in Hrun; [|done]. rewrite Hu in Hrun.
        destruct (has_rse _ _); simpl in Hrun; [|done]. injection Hrun as <-. exists (i, r). eexists. split_and!; [done..|].
        simpl. rewrite Hu. simpl. by rewrite plus_0_l.
    - unfold save_usage, bindS, getsS, modifyS, raiseS in Hrun. unfold account_key, local_key in *. by destruct (internal a). }
  split_and!.
  - intros a' r'. unfold owned. cbn [w_account_updates upd_w_account_updates upd_w_quotas w_quotas]. rewrite added_taken.
    unfold stored at 1. cbn [w_quotas upd_w_account_updates upd_w_quotas account_usage upd_account_usage]. rewrite (stored_inserted w k a r x a' r' Hk).
    case_bool_decide as He; [|done]. rewrite plus_0_r, Hx. destruct He as [Ha ->]. unfold stored, added, local_key, mine, is_update. by rewrite Ha.
  - cbn [w_account_updates upd_w_account_updates]. rewrite added_taken. destruct (local_key a r); [|done]. by rewrite bool_decide_true.
  - intros u. cbn [w_account_updates upd_w_account_updates upd_w_quotas]. by rewrite elem_of_filter_bool, negb_true_iff.
Qed.

Lemma update_account_counter_known a r w w' : update_account_counter a r w = (Ok tt, w') -> is_Some (internal a).
Proof.
  unfold update_account_counter, bindS, getsS, id, local_key, save_usage, bindS, getsS, account_key, raiseS.
  destruct (internal a); [by eexists|by simpl].
Qed.

(** Several of them *)
Lemma update_counters_owned (ks : list (InternalType * string)) w w' :
  forS (fun k : InternalType * string => update_account_counter k.1 k.2) ks w = (Ok tt, w') ->
  (forall a r, owned w' a r = owned w a r) /\
  (forall u, u ∈ w_account_updates w' -> u ∈ w_account_updates w /\ forall k, k ∈ ks -> is_Some (internal k.1) /\ is_update k.1 k.2 u = false).
Proof.
  revert w. induction ks as [|k ks IH]; intros w; simpl.
  - intros [= ->]. split; [done|]. intros u Hu. split; [done|]. by intros k ?%elem_of_nil.
  - unfold bindS. destruct (update_account_counter k.1 k.2 w) as [[[]|e] w1] eqn:H1; [|done]. intros H2.
    destruct (IH w1 H2) as [Ho2 Hu2]. pose proof (update_account_counter_known _ _ _ _ H1) as Hint.
    destruct (update_account_counter_owned _ _ _ _ H1) as (Ho1 & _ & Hu1). split.
    + intros a r. by rewrite Ho2, Ho1.
    + intros u [Hu Hks]%Hu2. apply Hu1 in Hu as [Hu Hk]. split; [done|]. intros k' [->|Hk']%elem_of_cons; [done|]. by apply Hks.
Qed.

(** ** Workers *)

Section abacus.
Context (takes_account : nat -> InternalType -> string -> bool).

Lemma abacus_account_owned worker w w' :
  abacus_account takes_account worker w = (Ok tt, w') ->
  (forall a r, owned w' a r = owned w a r) /\
  (forall u, u ∈ w_account_updates w' -> u ∈ w_account_updates w /\ takes_account worker u.1.1.2 u.1.1.1 = false).
Proof.
  unfold abacus_account, bindS, getsS. intros Hrun. destruct (update_counters_owned _ _ _ Hrun) as [Ho Hu]. split; [done|].
  intros u [Hin Hks]%Hu. split; [done|]. destruct (takes_account worker u.1.1.2 u.1.1.1) eqn:Ht; [|done].
  destruct (Hks (u.1.1.2, u.1.1.1)) as [Hi Hno].
  - apply elem_of_filter_bool. split; [|done]. apply elem_of_remove_dups, list_elem_of_fmap. by exists u.
  - revert Hno. unfold is_update. simpl. by rewrite !bool_decide_true.
Qed.

(** What happens to counters: something is counted, a worker of the abacus brings one counter of its list up to
    date, which is a transaction, or a worker runs without others in between. *)
Inductive counter_event :=
  | Counted (account : InternalType) (rse_id : string) (files bytes : Z)
  | Updated (account : InternalType) (rse_id : string)
  | Worked (worker : nat).
Definition run_counter (e : counter_event) : ST World unit :=
  match e with
  | Counted account rse_id files bytes => account_increase rse_id account files bytes
  | Updated account rse_id => update_account_counter account rse_id
  | Worked worker => abacus_account takes_account worker
  end.
Definition counted (es : list counter_event) : list (string * InternalType * Z * Z) :=
  omap (fun e => match e with Counted account rse_id files bytes => Some (rse_id, account, files, bytes) | _ => None end) es.

Lemma events_owned es w w' :
  forS run_counter es w = (Ok tt, w') -> forall a r, owned w' a r = plus (owned w a r) (added (counted es) a r).
Proof.
  revert w. induction es as [|e es IH]; intros w; simpl.
  - intros [= ->] a r. symmetry. apply plus_0_r.
  - unfold bindS. destruct (run_counter e w) as [[[]|] w1] eqn:H1; [|done]. intros H2 a r. rewrite (IH w1 H2 a r). destruct e as [acc rse f b|acc rse|k]; simpl in *.
    + unfold account_increase, modifyS in H1. injection H1 as <-. change (omap _ es) with (counted es).
      unfold owned at 1. cbn [w_account_updates upd_w_account_updates]. rewrite added_app.
      change ((rse, acc, f, b) :: counted es) with ([(rse, acc, f, b)] ++ counted es). rewrite added_app. unfold owned, stored.
      cbn [w_quotas upd_w_account_updates]. by rewrite !plus_assoc.
    + by rewrite (proj1 (update_account_counter_owned _ _ _ _ H1)).
    + by rewrite (proj1 (abacus_account_owned _ _ _ H1)).
Qed.

Lemma workers_owned ks w w' :
  forS (abacus_account takes_account) ks w = (Ok tt, w') ->
  (forall a r, owned w' a r = owned w a r) /\
  (forall u, u ∈ w_account_updates w' -> forall k, k ∈ ks -> takes_account k u.1.1.2 u.1.1.1 = false).
Proof.
  enough (forall w, forS (abacus_account takes_account) ks w = (Ok tt, w') ->
    (forall a r, owned w' a r = owned w a r) /\
    (forall u, u ∈ w_account_updates w' -> u ∈ w_account_updates w /\ forall k, k ∈ ks -> takes_account k u.1.1.2 u.1.1.1 = false)) as Hgen.
  { intros Hrun. destruct (Hgen w Hrun) as [Ho Hu]. split; [done|]. intros u [_ Hk]%Hu. done. }
  clear w. induction ks as [|k ks IH]; intros w; simpl.
  - intros [= ->]. split; [done|]. intros u Hu. split; [done|]. by intros k ?%elem_of_nil.
  - unfold bindS. destruct (abacus_account takes_account k w) as [[[]|] w1] eqn:H1; [|done]. intros [Ho2 Hu2]%IH.
    destruct (abacus_account_owned _ _ _ H1) as [Ho1 Hu1]. split; [intros; by rewrite Ho2, Ho1|].
    intros u [Hu Hks]%Hu2. apply Hu1 in Hu as [Hu Hk]. split; [done|]. intros k' [->|Hk']%elem_of_cons; auto.
Qed.

(** The foreign keys of the table of updates *)
Definition known (s : Session) (u : string * InternalType * Z * Z) : Prop := is_Some (account_key s u.1.1.2) /\ has_rse s u.1.1.1 = true.
Definition updates_known (w : World) : Prop := forall u, u ∈ w_account_updates w -> known (w_session w) u.

Lemma update_counter_succeeds a r w :
  is_Some (account_key (w_session w) a) -> has_rse (w_session w) r = true ->
  exists w', update_account_counter a r w = (Ok tt, w') /\ w_session w' = w_session w.
Proof.
  intros [k Hk] Hr. unfold update_account_counter, bindS, getsS, id, modifyS. cbv zeta.
  destruct (k' ← local_key a r; u ← account_usage (w_quotas w) !! k'; Some (k', u)) as [[k' [f b]]|] eqn:Hu; [by eexists|].
  unfold save_usage, bindS, getsS, modifyS. rewrite Hk, Hr. unfold account_key, local_key in *. destruct (internal a) as [i|]; simplify_eq/=.
  destruct (decide _); simplify_eq/=. destruct (account_usage (w_quotas w) !! (k, r)); simplify_eq/=. by eexists.
Qed.

Lemma forS_succeeds {A} (f : A -> ST World unit) (I : World -> Prop) l w :
  (forall a w, a ∈ l -> I w -> exists w', f a w = (Ok tt, w') /\ I w') -> I w -> exists w', forS f l w = (Ok tt, w') /\ I w'.
Proof.
  revert w. induction l as [|a l IH]; intros w Hf Hw; simpl; [by exists w|].
  destruct (Hf a w) as (w1 & H1 & Hw1); [by left|done|]. unfold bindS. rewrite H1. apply IH; [|done]. intros b w2 Hb. apply Hf. by right.
Qed.

Definition sound_updates (s : Session) (w : World) : Prop := w_session w = s /\ updates_known w.
Lemma worker_succeeds s k w : sound_updates s w -> exists w', abacus_account takes_account k w = (Ok tt, w') /\ sound_updates s w'.
Proof.
  intros [Hs Hkn]. unfold abacus_account, bindS, getsS.
  destruct (forS_succeeds (fun k : InternalType * string => update_account_counter k.1 k.2) (fun w' => w_session w' = s)
              (get_updated_account_counters takes_account w k) w) as (w' & Hrun & Hs').
  - intros [a r] w0 Hin Hs0. apply elem_of_filter_bool in Hin as [(u & [= -> ->] & Hu)%elem_of_remove_dups%list_elem_of_fmap _]. destruct (Hkn u Hu).
    rewrite <-Hs0. apply update_counter_succeeds; by rewrite Hs0, <-Hs.
  - done.
  - exists w'. split; [done|]. split; [done|]. intros u [Hu _]%(update_counters_owned _ _ _ Hrun). rewrite Hs', <-Hs. by apply Hkn.
Qed.

(** C37: No usage is lost or counted twice: whatever is counted, for accounts and RSEs that are known, and
    whatever counters workers of the abacus update in between, in whole runs or one at a time, what is stored for an account on an RSE and what waits
    add up to what they were before and what was counted since; and when workers that take all counters
    have run once more, nothing waits, and the usage the selector and the limits see is that sum. *)
Theorem counters_lose_nothing es workers w account rse_id :
  updates_known w -> (forall u, u ∈ counted es -> known (w_session w) u) ->
  (forall a r, Updated a r ∈ es -> known (w_session w) (r, a, 0, 0)%Z) ->
  (forall a r, exists k, k ∈ workers /\ takes_account k a r = true) ->
  let total := plus (owned w account rse_id) (added (counted es) account rse_id) in
  exists w1 w2, forS run_counter es w = (Ok tt, w1) /\ owned w1 account rse_id = total /\
    forS (abacus_account takes_account) workers w1 = (Ok tt, w2) /\ w_account_updates w2 = [] /\
    stored w2 account rse_id = total /\ get_usage (w_quotas w2) rse_id account = total.2.
Proof.
  intros Hkn Hes Hup Hall total.
  destruct (forS_succeeds run_counter (sound_updates (w_session w)) es w) as (w1 & H1 & Hs1).
  { intros e w0 He [Hs0 Hk0]. destruct e as [a r f b|a r|k]; [| |by apply worker_succeeds].
    2: { destruct (Hup a r He) as [Ha Hr]. rewrite <-Hs0 in Ha, Hr. destruct (update_counter_succeeds a r w0 Ha Hr) as (w' & Hrun & Hs'). exists w'.
         split; [done|]. split; [congruence|]. intros u [Hu _]%(update_account_counter_owned _ _ _ _ Hrun). rewrite Hs'. by apply Hk0. }
    eexists. split; [done|]. split; [done|].
    intros u [Hu| ->%list_elem_of_singleton]%elem_of_app; [by apply Hk0|]. cbn [w_session upd_w_account_updates]. rewrite Hs0.
    apply Hes, list_elem_of_omap. eexists. split; [exact He|done]. }
  { by split. }
  destruct (forS_succeeds (abacus_account takes_account) (sound_updates (w_session w)) workers w1) as (w2 & H2 & _); [|done|].
  { intros k w0 _. apply worker_succeeds. }
  pose proof (events_owned es w w1 H1 account rse_id) as Ho1. destruct (workers_owned workers w1 w2 H2) as [Ho Hu].
  assert (w_account_updates w2 = []) as Hnone.
  { destruct (w_account_updates w2) as [|u l] eqn:Hl; [done|]. destruct (Hall u.1.1.2 u.1.1.1) as (k & Hk & Ht).
    rewrite (Hu u) in Ht; [done|by left|done]. }
  assert (stored w2 account rse_id = total) as Hst.
  { rewrite <-(plus_0_r (stored _ _ _)). change (0, 0)%Z with (added [] account rse_id). rewrite <-Hnone. change (owned w2 account rse_id = total). by rewrite Ho. }
  exists w1, w2. split_and!; [done..|]. rewrite <-Hst. unfold get_usage, stored, local_key. by destruct (internal account) as [a|]; simpl; [destruct (_ !! _)|].
Qed.
End abacus.

(** ** Rules that change hands *)

Definition minus (x : Z * Z) : Z * Z := (- x.1, - x.2)%Z.
(** Number and bytes *)
Definition size (bytes : list Z) : Z * Z := (Z.of_nat (length bytes), foldr Z.add 0%Z bytes).
Lemma size_snoc l b : size (l ++ [b]) = plus (size l) (1, b)%Z.
Proof.
  unfold size, plus. simpl. rewrite length_app, foldr_app. simpl. f_equal; [lia|]. rewrite Z.add_0_r. induction l; simpl; lia.
Qed.

Definition at_key (sizes : list (string * list Z)) (rse_id : string) : Z * Z :=
  foldr (fun s x => if bool_decide (s.1 = rse_id) then plus (size s.2) x else x) (0, 0)%Z sizes.
Lemma at_key_append k b sizes rse_id :
  at_key (od_append k b sizes) rse_id = if bool_decide (k = rse_id) then plus (at_key sizes rse_id) (1, b)%Z else at_key sizes rse_id.
Proof.
  unfold od_append. induction sizes as [|[k' l] sizes IH]; simpl.
  - case_bool_decide; [|done]. rewrite plus_0_r, plus_0_l. unfold size. simpl. by rewrite Z.add_0_r.
  - destruct (decide (k = k')) as [->|Hk].
    + rewrite (bool_decide_true (k' = k')) by done. simpl. case_bool_decide; [|done]. rewrite size_snoc. unfold plus. simpl. f_equal; lia.
    + rewrite (bool_decide_false (k = k')) by done. simpl. rewrite IH. clear IH.
      do 2 case_bool_decide; first [congruence|done|by rewrite plus_assoc].
Qed.
Definition locked_on (rse_id : string) (ls : list Lock) : list Z := lk_bytes <$> List.filter (fun l => bool_decide (lk_rse_id l = rse_id)) ls.
Lemma at_key_locks ls rse_id : at_key (lock_sizes ls) rse_id = size (locked_on rse_id ls).
Proof.
  unfold lock_sizes. induction ls as [|l ls IH] using rev_ind; [done|]. rewrite foldl_app. simpl. rewrite at_key_append, IH.
  unfold locked_on. rewrite List.filter_app, fmap_app. simpl. case_bool_decide; simpl; [by rewrite size_snoc|by rewrite app_nil_r].
Qed.

Fixpoint handed_over (from to : InternalType) (sizes : list (string * list Z)) : list (string * InternalType * Z * Z) :=
  match sizes with
  | [] => []
  | s :: sizes =>
      (s.1, from, - (size s.2).1, - (size s.2).2)%Z :: (s.1, to, (size s.2).1, (size s.2).2) :: handed_over from to sizes
  end.
Lemma move_usage_run from to sizes w :
  move_usage from to sizes w = (Ok tt, upd_w_account_updates (fun l => l ++ handed_over from to sizes) w).
Proof.
  unfold move_usage. revert w. induction sizes as [|s sizes IH]; intros w; simpl.
  - unfold skipS, retS. f_equal. destruct w. unfold upd_w_account_updates. simpl. by rewrite app_nil_r.
  - unfold bindS, account_decrease, account_increase, modifyS. rewrite IH. f_equal. unfold upd_w_account_updates. simpl. by rewrite <-!app_assoc.
Qed.
Lemma added_one rse a f b a' rse_id : is_Some (internal a') ->
  added [(rse, a, f, b)] a' rse_id = if bool_decide (rse = rse_id) && bool_decide (internal a = internal a') then (f, b) else (0, 0)%Z.
Proof.
  intros Hi. unfold added, is_update. simpl. rewrite (bool_decide_true (is_Some _)), andb_true_r by done.
  case_bool_decide; simpl; [|done]. case_bool_decide; simpl; [|done]. f_equal; lia.
Qed.
Lemma minus_plus x y : minus (plus x y) = plus (minus x) (minus y).
Proof. unfold minus, plus. simpl. f_equal; lia. Qed.
Lemma added_handed_over from to sizes a rse_id : is_Some (internal a) -> internal from <> internal to ->
  added (handed_over from to sizes) a rse_id
  = if bool_decide (internal from = internal a) then minus (at_key sizes rse_id)
    else if bool_decide (internal to = internal a) then at_key sizes rse_id else (0, 0)%Z.
Proof.
  intros Hi Hne. induction sizes as [|s sizes IH]; [by repeat case_bool_decide|]. cbn [handed_over].
  rewrite added_cons, (added_cons (s.1, to, _, _)), IH, !added_one by done. simpl. destruct (bool_decide (s.1 = rse_id)); simpl; [|by rewrite !plus_0_l].
  destruct (decide (internal from = internal a)) as [Hf|Hf].
  - rewrite (bool_decide_true (internal from = _)) by done. rewrite (bool_decide_false (internal to = _)) by congruence.
    rewrite plus_0_l, minus_plus. done.
  - rewrite (bool_decide_false (internal from = _)) by done. rewrite plus_0_l. destruct (bool_decide (internal to = internal a)); rewrite ?plus_0_l; done.
Qed.

(** The locks in the database that belong to a rule *)
Definition locks_of (w : World) (rule_id : string) : list Lock :=
  snd <$> objects (w_locks w) (locks_where w (fun l => bool_decide (lk_rule_id l = rule_id))).
Definition given (account : InternalType) (rule_id : string) (l : Lock) : Prop :=
  persistent_lock l = true -> lk_rule_id l = rule_id -> lk_account l = account.
Definition same_counters (w w' : World) : Prop :=
  w_rules w' = w_rules w /\ w_quotas w' = w_quotas w /\ w_account_updates w' = w_account_updates w /\ w_postgresql w' = w_postgresql w.

Lemma alter_locks_account account js w :
  exists w', forS (alter_lock (upd_lk_account (fun _ => account))) js w = (Ok tt, w') /\ same_counters w w' /\
    forall i l', w_locks w' !! i = Some l' -> exists l, w_locks w !! i = Some l /\ persistent_lock l = persistent_lock l' /\
      lk_rule_id l = lk_rule_id l' /\ (i ∈ js \/ lk_account l = account -> lk_account l' = account).
Proof.
  revert w. induction js as [|j js IH]; intros w; simpl.
  - exists w. split; [done|]. split; [done|]. intros i l Hl. exists l. split_and!; [done..|]. by intros [?%elem_of_nil|?].
  - unfold bindS at 1, alter_lock at 1, modifyS. edestruct IH as (w' & Hrun & Hsame & Hl). rewrite Hrun. exists w'. split; [done|].
    split; [done|]. intros i l' Hl'. destruct (Hl i l' Hl') as (l1 & Hl1 & Hp & Hr & Ha). cbn [w_locks upd_w_locks] in Hl1.
    destruct (decide (i = j)) as [->|Hij].
    + rewrite list_lookup_alter_eq in Hl1. destruct (w_locks w !! j) as [l|]; simplify_eq/=. exists l. split; [done|].
      rewrite <-Hp, <-Hr. unfold written in Ha |- *. split_and!; [by destruct (persistent_lock (upd_lk_account _ l))..|].
      intros _. apply Ha. right. by destruct (persistent_lock (upd_lk_account _ l)).
    + rewrite list_lookup_alter_ne in Hl1 by done. exists l1. split_and!; [done..|]. intros [[->|?]%elem_of_cons|?]; [done|..]; apply Ha; auto.
Qed.

Lemma give_locks_run rule_id account w :
  exists w', give_locks rule_id account w = (Ok tt, w') /\ same_counters w w' /\ Forall (given account rule_id) (w_locks w').
Proof.
  unfold give_locks, bindS, select_locks, getsS, modifyS.
  destruct (alter_locks_account account (select (fun l => persistent_lock l && bool_decide (lk_rule_id l = rule_id)) (w_locks w)) w)
    as (w' & -> & Hsame & Hl).
  eexists. split; [done|]. split; [done|]. apply Forall_forall. intros l' [i Hi]%list_elem_of_lookup Hp Hr.
  destruct (Hl i l' Hi) as (l & Hil & Hp' & Hr' & Ha). apply Ha. left. apply elem_of_select. exists l. split; [done|].
  rewrite Hp', Hp, Hr'. by apply bool_decide_eq_true.
Qed.

Section owner.
Context `{RSEExpressions} `{Random}.
Variables (scratchdisk_lifetime : Z) (known_activity : string -> string -> bool)
  (refused : list (option string * option string) -> bool).

(** No rule of the new owner is the same. *)
Definition no_other (w : World) (rule_id : string) (rule : Rule) : Prop :=
  forall id r, w_rules w !! id = Some r -> same_rule r rule = true -> id = rule_id.

Lemma the_rule_run w rule_id rule : w_rules w !! rule_id = Some rule -> the_rule rule_id w = (Ok rule, w).
Proof. intros Hr. unfold the_rule, rule_row, bindS, getsS, scalar_one, liftS. by rewrite Hr. Qed.
Lemma set_account_run rule_id account rule w :
  w_rules w !! rule_id = Some rule -> no_other w rule_id (upd_ru_account (fun _ => account) rule) ->
  set_account rule_id account w = (Ok tt, upd_w_rules (alter (upd_ru_account (fun _ => account)) rule_id) w).
Proof.
  intros Hr Hno. unfold set_account, bindS, alter_rule, modifyS, the_rule, rule_row, scalar_one, bindS, getsS, liftS, id.
  cbn [w_rules upd_w_rules]. rewrite lookup_alter_eq, Hr. simpl. destruct (existsb _ _) eqn:He; [|done]. exfalso.
  apply existsb_exists in He as ([id r] & Hin%list_elem_of_In & Hb%andb_true_iff). destruct Hb as [Hid Hs]. simpl in *.
  apply negb_true_iff, bool_decide_eq_false in Hid. apply elem_of_map_to_list in Hin. rewrite lookup_alter_ne in Hin by done.
  by apply Hid, (Hno id r).
Qed.

(** C38: A rule that is given to another account takes the usage of its locks with it: when the account is
    known and has no such rule yet, [update_rule] succeeds, the rule and all its locks belong to the
    account, and on every RSE exactly the number and the bytes of the locks of the rule are added to what
    the new owner uses and taken from what the old one does, and nobody else's usage changes. *)
Theorem owner_takes_usage w rule_id rule account :
  w_rules w !! rule_id = Some rule ->
  is_Some (a ← internal account; accounts (w_session w) !! a) -> internal (ru_account rule) <> internal account ->
  no_other w rule_id (upd_ru_account (fun _ => account) rule) ->
  exists w', update_rule scratchdisk_lifetime known_activity refused rule_id [SetAccount account] w = (Ok tt, w') /\
    ru_account <$> w_rules w' !! rule_id = Some account /\ Forall (given account rule_id) (w_locks w') /\
    forall a rse_id, is_Some (internal a) ->
      let locked := size (locked_on rse_id (locks_of w rule_id)) in
      owned w' a rse_id
      = plus (owned w a rse_id)
          (if bool_decide (internal (ru_account rule) = internal a) then minus locked
           else if bool_decide (internal account = internal a) then locked else (0, 0)%Z).
Proof.
  intros Hr Ha Hne Hno. destruct (give_locks_run rule_id account w) as (w1 & H1 & (Hr1 & Hq1 & Hu1 & _) & Hl1).
  pose proof (move_usage_run (ru_account rule) account (lock_sizes (locks_of w rule_id)) w1) as H2.
  set (w2 := upd_w_account_updates _ w1) in H2.
  pose proof (set_account_run rule_id account rule w2 ltac:(by cbn; rewrite Hr1) ltac:(by unfold no_other; cbn; rewrite Hr1)) as H3.
  set (w3 := upd_w_rules _ w2) in H3.
  assert (w_rules w3 !! rule_id = Some (upd_ru_account (fun _ => account) rule)) as Hr3 by (cbn; by rewrite lookup_alter_eq, Hr1, Hr).
  exists (upd_w_history_recent (fun l => l ++ [upd_ru_account (fun _ => account) rule]) w3). split_and!.
  - assert (change_account rule_id account w = (Ok tt, w3)) as Hc.
    { unfold change_account, bindS at 1, getsS, id. rewrite bool_decide_true by done. cbn [negb]. unfold bindS. rewrite H1.
      rewrite (the_rule_run w1 rule_id rule) by (by rewrite Hr1). fold (locks_of w rule_id). by rewrite H2. }
    unfold update_rule. cbn [forallb is_valid andb negb forS cancels boosts existsb orb]. unfold tryS, bindS. rewrite (the_rule_run _ _ _ Hr).
    unfold change_rule, insert_rule_history, bindS. rewrite Hc, (the_rule_run _ _ _ Hr3). done.
  - cbn [w_rules upd_w_history_recent]. by rewrite Hr3.
  - done.
  - intros a rse_id Hi locked. unfold owned. change (w_account_updates (upd_w_history_recent _ w3)) with (w_account_updates w2).
    unfold w2. cbn [w_account_updates upd_w_account_updates]. rewrite added_app, Hu1, added_handed_over by done.
    unfold stored at 1. change (w_quotas (upd_w_history_recent _ w3)) with (w_quotas w1). rewrite Hq1, at_key_locks.
    by rewrite plus_assoc.
Qed.
End owner.

(** ** Examples *)

Definition bob : InternalType := InternalAccount "bob" DEFAULT_VO.
Definition two_accounts : World := upd_w_session (set_accounts (<["bob"%string := true]>)) demo_world.

(** Two workers share the counters of two accounts: one takes those of [alice]. *)
Definition takes_half (worker : nat) (account : InternalType) (rse_id : string) : bool :=
  eqb (bool_decide (worker = 0%nat)) (bool_decide (account = alice)).
Definition demo_counted : list counter_event :=
  [Counted alice "A" 2 20; Counted bob "A" 1 7; Worked 0; Counted alice "A" (-1) (-10); Updated alice "A"; Worked 1; Counted bob "B" 1 3]%string.
Lemma counters_lose_nothing_witness :
  exists w1 w2, forS (run_counter takes_half) demo_counted two_accounts = (Ok tt, w1) /\ owned w1 alice "A" = (1, 10)%Z /\
    forS (abacus_account takes_half) [0; 1]%nat w1 = (Ok tt, w2) /\ w_account_updates w2 = [] /\
    stored w2 alice "A" = (1, 10)%Z /\ get_usage (w_quotas w2) "A" alice = 10%Z.
Proof.
  apply (counters_lose_nothing takes_half demo_counted [0; 1]%nat two_accounts alice "A").
  - intros u Hu. by apply elem_of_nil in Hu.
  - intros u Hu. cbn in Hu. unfold known. rewrite !elem_of_cons, elem_of_nil in Hu.
    destruct Hu as [->|[->|[->|[->|[]]]]]; (split; [by eexists|by vm_compute]).
  - intros a r He. unfold demo_counted in He. rewrite !elem_of_cons, elem_of_nil in He. destruct_or?; simplify_eq; (split; [by eexists|by vm_compute]).
  - intros a r. destruct (decide (a = alice)) as [Ha|Ha].
    + exists 0%nat. split; [by left|]. unfold takes_half. by rewrite !bool_decide_true.
    + exists 1%nat. split; [right; by left|]. unfold takes_half. by rewrite (bool_decide_false (a = alice)).
Defined.

(** [alice] has locks of two files on one RSE. *)
Lemma owner_takes_usage_witness :
  exists w', @update_rule name_expressions 14 (fun _ _ => true) (fun _ => false) "r1" [SetAccount bob] two_accounts = (Ok tt, w') /\
    owned w' bob "A" = (2, 20)%Z /\ owned w' alice "A" = (-2, -20)%Z.
Proof.
  destruct (@owner_takes_usage name_expressions 14 (fun _ _ => true) (fun _ => false) two_accounts "r1" demo_rule bob) as (w' & Hrun & _ & _ & Ho); [done|by eexists|done|..].
  - intros id r Hr _. cbn in Hr. by apply lookup_singleton_Some in Hr as [<- _].
  - exists w'. split; [exact Hrun|]. split; [rewrite (Ho bob "A")%string by (by eexists)|rewrite (Ho alice "A")%string by (by eexists)]; by vm_compute.
Defined.
