(* ===== verification/RuleSteps.v ===== *)
(** * The life of rules as a state machine

    The events of the rule engine, with the invariant in every state they lead to, and that a rule
    is satisfied once its transfers have ended. *)

From S2P Require Import Prelude StateError Counting Types Database Role RseExpression RseSelector RseSelectorFacts LockTables RuleGrouping RuleEngine RuleInvariant RuleEvents RuleLosses RuleRepair Deletion DeletionFacts Undertaker UndertakerInvariant Conveyor ConveyorFacts RuleCreation RuleApply RuleAttach RuleDetach RuleCreationFacts RuleChanges RuleChangesFacts RuleDemo.

(** ** The state machine *)

Inductive event :=
  | Successful (did : DID) (rse_id : string)
  | Failed (did : DID) (rse_id : string) (error_message broken_rule_id broken_message : option string)
  | Bad (did : DID) (rse_id : string)
  | Lost (did : DID) (rse_id : string)
  | DeleteRule (rule_id : string) (purge_replicas : option bool) (soft delete_parent ignore_rule_lock : bool)
  | Detached (did : DID)
  | AddRule (dids : list DID) (o : RuleOptions)
  | ApproveRule (rule_id : string) (approver : option string) (notify_approvers : bool)
  | DenyRule (rule_id : string) (approver : option string).

Section machine.
Context `{RSEExpressions} `{Random}.
Variables (exn_text : exn -> string) (force_epoch oracle : bool).
Variables (max_partition_size scratchdisk_lifetime : Z) (default_mail_from : option string) (on_thread : nat -> nat -> string -> bool)
  (generate_uuid : World -> string) (auto_approve : World -> Rule -> DIDRow -> result bool).

Definition run (e : event) : ST World unit :=
  match e with
  | Successful did rse_id => successful_transfer did rse_id
  | Failed did rse_id m b bm => failed_transfer did rse_id m b bm
  | Bad did rse_id => update_rules_for_bad_replica did rse_id
  | Lost did rse_id => update_rules_for_lost_replica did rse_id
  | DeleteRule id p soft parent ignore => delete_rule id p soft parent ignore
  | Detached did => re_evaluate_did exn_text force_epoch oracle did DETACH
  | AddRule dids o =>
      do! add_rule max_partition_size scratchdisk_lifetime default_mail_from on_thread generate_uuid auto_approve dids o in skipS
  | ApproveRule id approver notify => approve_rule default_mail_from id approver notify
  | DenyRule id approver => deny_rule default_mail_from id approver
  end.

Definition set_session (s : Session) : World -> World := upd_w_session (fun _ => s).

(** The steps are these: a transfer ends, well or not; a replica is bad or lost; a rule is added, approved,
    denied, injected or deleted; the rules of a data identifier are evaluated after files were detached; a rule is
    applied to new files without being cut short; the reaper marks replicas, and deletes replicas that are up for
    deletion; the undertaker deletes data identifiers with their rules; the conveyor moves requests on, settles
    locks and replicas when they end, and makes replicas on the way; a rule is updated, but not marked as stuck with
    locks that still replicate, reduced or moved; and between events, time passes and the configuration of
    accounts and RSEs changes.  What raises is rolled back.

    Three things the engine does are no steps, for they can break what is shown here: [repair_rule] (its
    counters may be wrong, and a lock that it failed to replace may stay on a replica that it has given a
    tombstone), the evaluation of new files that is cut short by limits ([cut_short_rule_miscounts]), and setting
    a rule to STUCK by hand while locks replicate. *)
Inductive step : World -> World -> Prop :=
  | Happens e w w' : run e w = (Ok tt, w') -> step w w'
  | Injects rule w w' :
      w_rules w !! ru_id rule = Some rule -> ru_state rule = RS_INJECT ->
      inject_rule max_partition_size scratchdisk_lifetime default_mail_from on_thread generate_uuid auto_approve (ru_id rule) w = (Ok tt, w') -> step w w'
  | NewFiles rule did children rses sources sel r preferred w w' :
      w_rules w !! ru_id rule = Some rule ->
      resolve_dids_to_locks_and_replicas w did children rses sources = Ok r ->
      apply_to_new_files rule sel r preferred sources w = (Ok tt, w') -> step w w'
  | Marks last_update limit space rse_id delay obsolete rows w w' :
      list_and_mark_unlocked_replicas last_update limit space rse_id delay obsolete w = (Ok rows, w') -> step w w'
  | Reaps remove_open_did rse_id files ignore w w' :
      marked rse_id files w -> delete_replicas remove_open_did rse_id files ignore w = (Ok tt, w') -> step w w'
  | Undertakes size purge_all archive unwanted expire w w' :
      delete_dids_and_rules size purge_all archive unwanted expire w = (Ok tt, w') -> step w w'
  | Conveys around o w w' : perform around o w = (Ok tt, w') -> step w w'
  | Updates known_activity refused rule_id options w w' :
      harmless options -> update_rule scratchdisk_lifetime known_activity refused rule_id options w = (Ok tt, w') -> step w w'
  | Reduces rule_id copies exclude_expression new_rule_id w w' :
      reduce_rule scratchdisk_lifetime max_partition_size default_mail_from on_thread generate_uuid auto_approve
        rule_id copies exclude_expression w = (Ok new_rule_id, w') -> step w w'
  | Moves known_activity refused rule_id rse_expression override new_rule_id w w' :
      move_rule scratchdisk_lifetime known_activity refused max_partition_size default_mail_from on_thread generate_uuid auto_approve
        rule_id rse_expression override w = (Ok new_rule_id, w') -> step w w'
  | Changes s w : step w (set_session s w).

Lemma re_evaluate_detach_ok did w :
  engine_ok w -> wpo (re_evaluate_did exn_text force_epoch oracle did DETACH) (fun _ => engine_ok) w.
Proof.
  intros Hok. apply wpo_skip; [frames|]. intros row w1 H1. apply wpo_skip; [frames|]. intros d w2 H2. apply wpo_bind.
  eapply wpo_mono; [apply evaluate_did_detach_ok; unfold engine_ok; by rewrite H2, H1|]. intros [] w3 H3.
  apply wpo_frames; [frames|]. unfold engine_ok. by intros _ w4 ->.
Qed.

Lemma run_ok e w : engine_ok w -> wpo (run e) (fun _ => engine_ok) w.
Proof.
  intros Hok. destruct e as [| | | | | |dids o| |]; simpl; cycle 6.
  { apply wpo_bind. eapply wpo_mono; [by apply add_rule_ok|]. by intros ids w'. }
  all: auto using approve_rule_ok, deny_rule_ok, successful_transfer_ok, failed_transfer_ok, update_rules_for_bad_replica_ok,
    update_rules_for_lost_replica_ok, delete_rule_ok, re_evaluate_detach_ok.
Qed.

Lemma wpo_run (m : ST World unit) w w' : wpo m (fun _ => engine_ok) w -> m w = (Ok tt, w') -> engine_ok w'.
Proof. unfold wpo, wp. intros Hw Hm. by rewrite Hm in Hw. Qed.

Lemma step_ok w w' : engine_ok w -> step w w' -> engine_ok w'.
Proof.
  intros Hok Hstep. destruct Hstep as [e w w' He|rule w w' Hrule Hst Hrun|rule did children rses sources sel r preferred w w' Hrule Hr Hrun
    |last_update limit space rse delay obsolete rows w w' Hrun|remove_open_did rse files ignore w w' Hm Hrun|size purge_all archive unwanted expire w w' Hrun|around o w w' Hrun|known refused id options w w' Hh Hrun|id copies exclude new w w' Hrun
    |known refused id e override new w w' Hrun|s w]; [..|done].
  - eapply wpo_run; [by apply run_ok|exact He].
  - eapply wpo_run; [by apply inject_rule_ok|exact Hrun].
  - eapply wpo_run; [|exact Hrun]. apply apply_to_new_files_ok; [done|done|]. by eapply resolve_dids_ok.
  - by eapply (wp_ok _ _ _ _ _ _ (marking_ok last_update limit space rse delay obsolete w Hok)).
  - eapply wpo_run; [|exact Hrun]. by apply delete_replicas_ok.
  - eapply wpo_run; [|exact Hrun]. by apply delete_dids_and_rules_ok.
  - eapply wpo_run; [|exact Hrun]. by apply safe_sound; [apply perform_safe|].
  - eapply wpo_run; [|exact Hrun]. by apply safe_sound; [apply update_rule_safe|].
  - eapply (wp_ok _ (fun _ => engine_ok)); [by apply reduce_rule_ok|exact Hrun].
  - eapply (wp_ok _ (fun _ => engine_ok)); [by apply move_rule_ok|exact Hrun].
Qed.

Lemma steps_ok w w' : engine_ok w -> rtc step w w' -> engine_ok w'.
Proof. intros Hok Hsteps. induction Hsteps; [done|]. eauto using step_ok. Qed.

Definition locks_in (w : World) (rule_id : string) (st : LockState) : Z := count (fun _ => lock_of rule_id st) (w_locks w).

(** C1: In every state that the events of [step] lead to from a sound one (transfers that end or fail, replicas
    that are lost, bad, marked and deleted, rules that are added, approved, denied, injected, changed and deleted, files attached
    and detached; but no repairs, no evaluation of new files that is cut short by limits, and no rule set to STUCK by
    hand), the three lock counters of a rule are the numbers of its
    locks in the three states, a rule is OK only when none of its locks replicates or is stuck, and
    a rule that is REPLICATING has a lock that replicates and none that is stuck. *)
Theorem rules_reflect_locks w w' rule_id r :
  engine_ok w -> rtc step w w' -> w_rules w' !! rule_id = Some r ->
  (forall st, cnt st r = locks_in w' rule_id st) /\
  (ru_state r = RS_OK -> locks_in w' rule_id L_REPLICATING = 0 /\ locks_in w' rule_id L_STUCK = 0)%Z /\
  (ru_state r = RS_REPLICATING -> 0 < locks_in w' rule_id L_REPLICATING /\ locks_in w' rule_id L_STUCK = 0)%Z.
Proof.
  intros Hok Hsteps Hr. pose proof (steps_ok w w' Hok Hsteps) as Hok'. apply core_rule in Hr.
  assert (forall st, cnt st r = locks_in w' rule_id st) as Hcnt.
  { intros st. rewrite <-view_cnt. by apply (core_counters _ Hok'). }
  pose proof (core_states _ Hok' _ _ Hr) as Hst. unfold state_ok in Hst. cbn [view v_state v_replicating v_stuck] in Hst.
  pose proof (Hcnt L_REPLICATING) as Hrep. pose proof (Hcnt L_STUCK) as Hstk. simpl in Hrep, Hstk. rewrite <-Hrep, <-Hstk.
  split_and!; [done|by intros Ho; rewrite Ho in Hst|by intros Ho; rewrite Ho in Hst].
Qed.

Definition locks_on (w : World) (key : DID * string) : Z := count (fun _ => lock_on_key key) (w_locks w).

(** C2: In every state that the events of [step] lead to from a sound one, which leave out repairs, evaluations
    that are cut short and rules set to STUCK by hand, no replica has more locks than its lock
    count says, and a replica that may be deleted (it has a tombstone) has none: the data a rule
    protects is not up for deletion. *)
Theorem tombstones_have_no_locks w w' (i : nat) r :
  engine_ok w -> rtc step w w' -> w_replicas w' !! i = Some r -> persistent_replica r = true ->
  (locks_on w' (replica_key r) <= rp_lock_cnt r)%Z /\
  (is_Some (rp_tombstone r) -> locks_on w' (replica_key r) = 0%Z /\
     forall j l, w_locks w' !! j = Some l -> persistent_lock l = true -> on_file (rp_did r) (rp_rse_id r) l = false).
Proof.
  intros Hok Hsteps Hr Hp. pose proof (steps_ok w w' Hok Hsteps) as Hok'.
  destruct (core_replicas _ Hok' i r Hr Hp) as [Hle Hz]. split; [done|]. intros Ht. specialize (Hz Ht). split; [done|].
  intros j l Hl Hpl.
  assert (lock_on_key (replica_key r) l = false) as Hon by (refine (proj1 (count_zero _ _) _ j l Hl); apply Z.eq_le_incl, Hz).
  unfold lock_on_key in Hon. by rewrite Hpl in Hon.
Qed.

(** C3: In every state that the events of [step] lead to from a sound one, which leave out repairs, evaluations
    that are cut short and rules set to STUCK by hand, though the reaper deletes what is up for
    deletion, the file of every lock has its replica where it is locked, that replica is not up for
    deletion, and it counts the lock: the data that rules protect is there. *)
Theorem locked_replicas_are_kept w w' (i : nat) l :
  engine_ok w -> rtc step w w' -> w_locks w' !! i = Some l -> persistent_lock l = true ->
  exists j r, w_replicas w' !! j = Some r /\ persistent_replica r = true /\ replica_key r = (lk_did l, lk_rse_id l) /\
    rp_tombstone r = None /\ (1 <= rp_lock_cnt r)%Z.
Proof.
  intros Hok Hsteps Hl Hp. pose proof (steps_ok w w' Hok Hsteps) as Hok'.
  destruct (core_homes _ Hok' i l Hl Hp) as (j & r & Hr & Hpr & Hk). exists j, r.
  destruct (core_replicas _ Hok' j r Hr Hpr) as [Hle Hz].
  assert (1 <= count (fun _ => lock_on_key (replica_key r)) (k_locks (core w')))%Z as Hpos.
  { apply count_pos with i l; [done|]. unfold lock_on_key. rewrite Hp, Hk. by apply on_file_key. }
  split_and!; [done..| |lia]. destruct (rp_tombstone r); [|done]. rewrite Hz in Hpos; [lia|by eexists].
Qed.

End machine.

(** ** Rules complete *)

(** What transfers do not change: the tables they read, the rules there are, the locks but for their states *)
Record Static := MkStatic { s_session : Session; s_rules : gset string; s_locks : list (string * string * bool) }.
Definition static (w : World) : Static :=
  MkStatic (w_session w) (dom (w_rules w)) ((fun l => (lk_rule_id l, lk_rse_id l, persistent_lock l)) <$> w_locks w).

(** No rule asks for notifications. *)
Definition quiet (w : World) : Prop := forall id r, w_rules w !! id = Some r -> ru_notification r = N_NO.
Definition calm (c : Static) (w : World) : Prop := static w = c /\ quiet w.

Definition rse_known (s : Session) (rse : string) : Prop :=
  is_Some (List.find (fun r => bool_decide (Database.rse_id r = rse)) (rses s)).
Definition sound (c : Static) : Prop :=
  forall k rse, In (k, rse, true) (s_locks c) -> k ∈ s_rules c /\ rse_known (s_session c) rse.

(** It ends without an exception, and is calm. *)
Definition ends (c : Static) {A} (m : ST World A) : Prop := forall w, calm c w -> wp m (fun _ => calm c) (fun _ _ => False) w.

Section ends.
Variable c : Static.

Lemma ends_ret {A} (a : A) : ends c (retS a).
Proof. by intros w. Qed.
Lemma ends_skip : ends c skipS.
Proof. apply ends_ret. Qed.
Lemma ends_gets {A} (f : World -> A) : ends c (getsS f).
Proof. by intros w. Qed.
Lemma ends_bind {A B} (m : ST World A) (f : A -> ST World B) : ends c m -> (forall a, ends c (f a)) -> ends c (bindS m f).
Proof. intros Hm Hf w Hw. apply wp_bind. eapply wp_mono; [by apply Hm|intros a w' Hw'; by apply Hf|done]. Qed.
Lemma ends_when b m : ends c m -> ends c (whenS b m).
Proof. destruct b; [done|]. intros _. apply ends_ret. Qed.
Lemma ends_for {A} (f : A -> ST World unit) l : (forall a, a ∈ l -> ends c (f a)) -> ends c (forS f l).
Proof.
  induction l as [|a l IH]; intros Hf; simpl; [apply ends_ret|]. apply ends_bind; [apply Hf; by left|].
  intros _. apply IH. intros b Hb. apply Hf. by right.
Qed.
Lemma ends_modify f : (forall w, static (f w) = static w) -> (forall w, quiet w -> quiet (f w)) -> ends c (modifyS f).
Proof. intros Hs Hq w [<- Hw]. apply wp_modify. split; [apply Hs|by apply Hq]. Qed.
Lemma ends_alter_rule f id : (forall r, ru_notification (f r) = ru_notification r) -> ends c (alter_rule f id).
Proof.
  intros Hf. apply ends_modify; intros w.
  - unfold static. simpl. by rewrite dom_alter_L.
  - intros Hq id' r. simpl. rewrite lookup_alter_Some. intros [(_ & r' & Hr' & ->)|[_ Hr']]; [rewrite Hf|]; by eapply Hq.
Qed.

(** Something of a rule that is there *)
Lemma ends_the_rule {B} id (f : Rule -> ST World B) :
  id ∈ s_rules c -> (forall r, ru_notification r = N_NO -> ends c (f r)) -> ends c (let! r := the_rule id in f r).
Proof.
  intros Hid Hf w Hw. destruct (Hw) as [Hs Hq]. rewrite <-Hs in Hid. cbn [static s_rules] in Hid. apply elem_of_dom in Hid as [r Hr].
  apply wp_bind. unfold wp, the_rule, rule_row, scalar_one, bindS, getsS, liftS. rewrite Hr. apply Hf; [by eapply Hq|done].
Qed.
Lemma ends_get_rse_name rse : rse_known (s_session c) rse -> ends c (get_rse_name rse).
Proof.
  intros [row Hrow] w Hw. destruct (Hw) as [Hs _]. rewrite <-Hs in Hrow.
  unfold wp, get_rse_name, bindS, getsS, liftS. simpl in *. by rewrite Hrow.
Qed.
End ends.

#[local] Hint Resolve ends_ret ends_skip ends_gets ends_when : core.

Lemma ends_history c id a b : id ∈ s_rules c -> ends c (insert_rule_history id a b).
Proof.
  intros Hid. apply ends_the_rule; [done|]. intros r _. apply ends_bind; [|intros _]; apply ends_when, ends_modify; done.
Qed.

Lemma ends_release c id : ends c (release_parent_rule id false).
Proof.
  intros w Hw. apply wp_bind, wp_gets. apply (ends_for c); [|done].
  intros id' ([id0 r0] & Hkv & Hin)%list_elem_of_omap. simpl in Hin. case_bool_decide; [|done]. injection Hin as <-.
  apply elem_of_map_to_list in Hkv. destruct (Hw) as [<- _].
  apply ends_bind; [apply ends_ret|]. intros _. apply ends_bind; [by apply ends_alter_rule|]. intros _.
  apply ends_history. simpl. by eapply elem_of_dom_2.
Qed.

Lemma ends_mark c r st : ends c (mark_dataset_locks r st).
Proof. apply ends_when, ends_modify; done. Qed.

Lemma ends_notifications c id n : id ∈ s_rules c -> ends c (generate_rule_notifications id n).
Proof.
  intros Hid. apply ends_the_rule; [done|]. intros r Hr. rewrite Hr. destruct (ru_state r); auto.
  apply ends_bind; [apply ends_ret|]. intros _. destruct (bool_decide (ru_grouping r = G_NONE)); [auto|].
  apply ends_bind; [apply ends_gets|]. intros ks. apply ends_ret.
Qed.

Lemma ends_lock_succeeds c rse i : sound c -> (exists k r, s_locks c !! i = Some (k, r, true)) -> ends c (lock_succeeds rse i).
Proof.
  intros Hc (k & rse' & Hi) w Hw. destruct (Hw) as [Hs _].
  destruct (Hc k rse') as [Hk Hrse]; [by eapply list_elem_of_In, list_elem_of_lookup_2|].
  rewrite <-Hs in Hi. simpl in Hi. rewrite list_lookup_fmap in Hi. destruct (w_locks w !! i) as [l|] eqn:Hl; [|done].
  simpl in Hi. injection Hi as <- <- _. apply wp_bind. unfold wp at 1, lock_at. rewrite Hl. revert w Hw Hs Hl.
  enough (ends c (if bool_decide (lk_state l = L_OK) then skipS else _)) as Hend by (intros w Hw _ _; by apply Hend).
  case_bool_decide; [auto|]. apply ends_bind; [by apply ends_get_rse_name|]. intros _.
  apply ends_the_rule; [done|]. intros _ _.
  apply ends_bind; [apply ends_alter_rule; by destruct (lk_state l)|]. intros _.
  apply ends_bind; [by apply ends_alter_rule|]. intros _. apply ends_bind.
  { apply ends_modify; [|done]. intros w. unfold static. simpl. f_equal. apply list_eq. intros j. rewrite !list_lookup_fmap.
    destruct (decide (j = i)) as [->|]; [rewrite list_lookup_alter_eq|by rewrite list_lookup_alter_ne].
    destruct (w_locks w !! i) as [l0|]; [|done]. simpl. unfold written. by destruct (persistent_lock (upd_lk_state _ l0)). }
  intros _. apply ends_the_rule; [done|]. intros r Hr. apply ends_bind.
  { destruct (ru_did_type r); auto; [by apply ends_modify|]. apply ends_bind; [auto|]. intros ds. apply ends_for.
    intros d _. by apply ends_modify. }
  intros _. apply ends_bind; [|intros _; by apply ends_history]. rewrite Hr.
  repeat (case_match; auto).
  - apply ends_bind; [by apply ends_alter_rule|]. intros _. apply ends_bind; [apply ends_mark|]. intros _.
    apply ends_bind; [by apply ends_notifications|]. intros _. apply ends_bind; [auto|]. intros _. apply ends_release.
  - by apply ends_notifications.
Qed.

Lemma ends_successful_transfer c did rse : sound c -> ends c (successful_transfer did rse).
Proof.
  intros Hc w Hw. apply wp_bind, wp_gets. apply (ends_for c); [|done]. intros i (l & Hl & [Hp _]%andb_true_iff)%elem_of_select.
  apply ends_lock_succeeds; [done|]. destruct Hw as [<- _]. exists (lk_rule_id l), (lk_rse_id l). simpl.
  by rewrite list_lookup_fmap, Hl, <-Hp.
Qed.

Definition deliver (deliveries : list (DID * string)) : ST World unit :=
  forS (fun d : DID * string => successful_transfer d.1 d.2) deliveries.

(** The rule is on its way: it replicates or is done, and its locks that replicate are on replicas in [todo]. *)
Definition on_its_way (id : string) (todo : list (DID * string)) (c : Core) : Prop :=
  (exists v, k_rules c !! id = Some v /\ (v_state v = RS_REPLICATING \/ v_state v = RS_OK)) /\
  forall i l, k_locks c !! i = Some l -> lock_of id L_REPLICATING l = true -> (lk_did l, lk_rse_id l) ∈ todo.

Lemma lock_of_true id st l : lock_of id st l = true <-> persistent_lock l = true /\ lk_rule_id l = id /\ lk_state l = st.
Proof. unfold lock_of. rewrite !andb_true_iff, !bool_decide_eq_true. tauto. Qed.

Lemma succeeded_on_its_way st v :
  v_state v = RS_REPLICATING \/ v_state v = RS_OK -> v_state (succeeded st v) = RS_REPLICATING \/ v_state (succeeded st v) = RS_OK.
Proof. intros Hv. unfold succeeded. repeat case_match; destruct v as [state o r s], st; cbn in *; auto. Qed.

(** A lock that succeeds does not replicate, and changes no other lock. *)
Lemma lock_step_on_its_way id todo i c c' :
  on_its_way id todo c -> lock_step succeeded L_OK i c c' ->
  on_its_way id todo c' /\
  forall j l, k_locks c' !! j = Some l -> lock_of id L_REPLICATING l = true -> j <> i /\ k_locks c !! j = Some l.
Proof.
  intros [(v0 & Hv0 & Hst0) Hls] (l & v & t & Hl & Hv & ->).
  assert (forall j l', alter (fun l => written t (upd_lk_state (fun _ => L_OK) l)) i (k_locks c) !! j = Some l' ->
            lock_of id L_REPLICATING l' = true -> j <> i /\ k_locks c !! j = Some l') as Hother.
  { intros j l' (l0 & Hl0 & ->)%lookup_alter_locks (_ & _ & Hst)%lock_of_true. destruct (decide (j = i)); [|done].
    exfalso. revert Hst. unfold written. by destruct (persistent_lock _). }
  split; [|exact Hother]. split; cbn [k_rules k_locks].
  - destruct (decide (lk_rule_id l = id)) as [<-|Hne].
    + rewrite lookup_insert_eq. eexists. split; [done|]. apply succeeded_on_its_way. rewrite Hv0 in Hv. by injection Hv as <-.
    + rewrite lookup_insert_ne by done. by exists v0.
  - intros j l' Hj Hof. destruct (Hother j l' Hj Hof) as [_ Hj']. by eapply Hls.
Qed.

(** What is left to do while the locks of a replica succeed *)
Lemma successful_transfer_progress id did rse todo w :
  engine_ok w -> on_its_way id ((did, rse) :: todo) (core w) ->
  wpo (successful_transfer did rse) (fun _ w' => engine_ok w' /\ on_its_way id todo (core w')) w.
Proof.
  intros Hok Hway. apply wpo_select_locks. intros ls Hnd Hls.
  set (J := fun (rest : list nat) (w' : World) => engine_ok w' /\ keeps (core w) (core w') /\ on_its_way id ((did, rse) :: todo) (core w') /\
              forall j l, k_locks (core w') !! j = Some l -> lock_of id L_REPLICATING l = true -> on_file did rse l = true -> j ∈ rest).
  eapply wpo_mono; [apply (wp_for (lock_succeeds rse) ls (fun _ => J) (fun _ _ => True))|].
  - intros d i r w1 -> (Hok1 & Hk1 & Hway1 & Hrest). destruct (proj1 (Hls i)) as (l & Hl & Hp & _); [set_solver|].
    destruct (Hk1 i l Hl Hp) as (l1 & Hl1 & Hp1 & _). eapply wpo_mono; [by eapply lock_succeeds_spec|].
    intros [] w2. case_bool_decide as Hst.
    + intros H2. unfold J, engine_ok. rewrite H2. split_and!; [done..|]. intros j l2 Hj Hof Hon.
      destruct (proj1 (elem_of_cons _ _ _) (Hrest j l2 Hj Hof Hon)) as [->|?]; [|done].
      apply lock_of_true in Hof as (_ & _ & Hof). rewrite Hl1 in Hj. injection Hj as ->. congruence.
    + intros Hstep. destruct (lock_step_on_its_way _ _ _ _ _ Hway1 Hstep) as [Hway2 Hother]. split_and!.
      * by eapply lock_step_ok; [apply succeeded_fair|..].
      * etrans; [done|]. by eapply lock_step_keeps.
      * done.
      * intros j l2 Hj Hof Hon. destruct (Hother j l2 Hj Hof) as [Hne Hj1].
        by destruct (proj1 (elem_of_cons _ _ _) (Hrest j l2 Hj1 Hof Hon)).
  - split_and!; [done|done|done|]. intros j l Hj Hof Hon. apply Hls. exists l. by apply lock_of_true in Hof as (? & _ & _).
  - intros [] w' (Hok' & _ & [Hv Htodo] & Hnone). split; [done|]. split; [done|]. intros j l Hj Hof.
    destruct (proj1 (elem_of_cons _ _ _) (Htodo j l Hj Hof)) as [Hkey|?]; [|done].
    apply on_file_key in Hkey. by apply (Hnone j l Hj Hof), elem_of_nil in Hkey.
Qed.

Lemma deliver_progress id deliveries w :
  engine_ok w -> on_its_way id deliveries (core w) ->
  wpo (deliver deliveries) (fun _ w' => engine_ok w' /\ on_its_way id [] (core w')) w.
Proof.
  revert w. induction deliveries as [|[did rse] todo IH]; intros w Hok Hway; [done|]. apply wpo_bind.
  eapply wpo_mono; [by eapply successful_transfer_progress|]. intros [] w' [Hok' Hway']. by apply IH.
Qed.

Lemma on_its_way_done id w :
  engine_ok w -> on_its_way id [] (core w) ->
  exists r, w_rules w !! id = Some r /\ ru_state r = RS_OK /\ ru_locks_replicating_cnt r = 0%Z /\ ru_locks_stuck_cnt r = 0%Z.
Proof.
  intros Hok [(v & Hv & Hst) Hnone]. destruct (rule_core _ _ _ Hv) as (r & Hr & <-). exists r.
  assert (ru_locks_replicating_cnt r = 0%Z) as Hz.
  { change (v_cnt L_REPLICATING (view r) = 0%Z). rewrite (core_counters _ Hok id _ _ Hv). apply Z.le_antisymm; [|apply count_nonneg].
    apply count_zero. intros i l Hl. destruct (lock_of id L_REPLICATING l) eqn:Hof; [|done]. by apply (Hnone i l Hl), elem_of_nil in Hof. }
  pose proof (core_states _ Hok id _ Hv) as Hs. unfold state_ok in Hs. destruct Hst as [Hst|Hst]; rewrite Hst in Hs; cbn in *.
  - lia.
  - by destruct Hs.
Qed.

Definition rses_known (w : World) : Prop :=
  forall i l, w_locks w !! i = Some l -> persistent_lock l = true -> rse_known (w_session w) (lk_rse_id l).

Lemma static_sound w : engine_ok w -> rses_known w -> sound (static w).
Proof.
  intros Hok Hrses k rse Hin. apply list_elem_of_In, list_elem_of_fmap in Hin as (l & [= -> -> Hp] & [i Hl]%list_elem_of_lookup_1).
  split; [|by eapply Hrses]. cbn [static s_rules]. destruct (core_rules _ Hok i l Hl) as [v Hv]; [done|].
  destruct (rule_core _ _ _ Hv) as (r0 & Hr0 & _). by eapply elem_of_dom_2.
Qed.

(** C23: A REPLICATING rule completes: in a sound state where no rule notifies anybody and the RSEs of the locks are
    known, when its transfers have ended in any order, among those of
    others, no exception is raised, the rule is OK, and none of its locks replicates or is stuck. *)
Theorem replicating_rule_completes w rule_id r deliveries :
  engine_ok w -> quiet w -> rses_known w -> w_rules w !! rule_id = Some r -> ru_state r = RS_REPLICATING ->
  (forall i l, w_locks w !! i = Some l -> lock_of rule_id L_REPLICATING l = true -> (lk_did l, lk_rse_id l) ∈ deliveries) ->
  exists w' r', deliver deliveries w = (Ok tt, w') /\ w_rules w' !! rule_id = Some r' /\
    ru_state r' = RS_OK /\ ru_locks_replicating_cnt r' = 0%Z /\ ru_locks_stuck_cnt r' = 0%Z.
Proof.
  intros Hok Hquiet Hrses Hr Hst Hls.
  assert (on_its_way rule_id deliveries (core w)) as Hway by (split; [exists (view r); split; [by apply core_rule|by left]|exact Hls]).
  pose proof (static_sound w Hok Hrses) as Hsound.
  assert (ends (static w) (deliver deliveries)) as Hends by (apply ends_for; intros d _; by apply ends_successful_transfer).
  pose proof (Hends w (conj eq_refl Hquiet)) as Hrun. pose proof (deliver_progress rule_id deliveries w Hok Hway) as Hprog.
  unfold wpo, wp in *. destruct (deliver deliveries w) as [[[]|e] w']; [|done]. destruct Hprog as [Hok' Hway'].
  destruct (on_its_way_done rule_id w' Hok' Hway') as (r' & ? & ? & ? & ?). by exists w', r'.
Qed.

(** ** Deleting a rule *)

(** It changes no lock outside [ls]. *)
Definition outside (ls : list nat) {A} (m : ST World A) : Prop :=
  forall w0, preserves (fun w => forall i, i ∉ ls -> w_locks w !! i = w_locks w0 !! i) m.

Lemma outside_frames ls {A} (m : ST World A) : frames m -> outside ls m.
Proof.
  intros Hm w0 w Hw. eapply wp_mono; [apply (Hm (core w) w eq_refl)|intros a w' H|intros e w' H];
    cbn beta in H; intros i Hi; rewrite <-Hw by done; change (k_locks (core w') !! i = k_locks (core w) !! i); by rewrite H.
Qed.

Lemma outside_bind ls {A B} (m : ST World A) (f : A -> ST World B) : outside ls m -> (forall a, outside ls (f a)) -> outside ls (bindS m f).
Proof. intros Hm Hf w0. apply preserves_bind; [apply Hm|]. intros a. apply Hf. Qed.

Lemma outside_delete_lock ls purge i : i ∈ ls -> outside ls (delete_rule_lock purge i).
Proof.
  intros Hi. apply outside_bind; [apply outside_frames; frames|]. intros l.
  apply outside_bind; [|intros a; apply outside_frames; frames].
  apply outside_bind; [apply outside_frames; frames|]. intros l0. apply outside_bind.
  { intros w0. apply preserves_modify. intros w Hw j Hj. cbn [upd_w_locks w_locks].
    rewrite list_lookup_alter_ne by congruence. by apply Hw. }
  intros _. apply outside_bind; [apply outside_frames; frames|]. intros [|j js]; [apply outside_frames; frames|].
  apply outside_bind; [|intros _; apply outside_frames; frames]. intros w0. by apply preserves_modify.
Qed.

(** Any computation before the rest *)
Lemma wpo_any {A B} (m : ST World A) (f : A -> ST World B) Q w : (forall a w', wpo (f a) Q w') -> wpo (bindS m f) Q w.
Proof. intros Hf. apply wpo_bind. eapply wpo_mono; [apply (preserves_True m); done|]. intros a w' _. apply Hf. Qed.

Lemma delete_rule_row id purge parent ignore w :
  wpo (delete_rule id purge false parent ignore) (fun _ w' => w_rules w' !! id = None) w.
Proof.
  do 2 (apply wpo_any; intros ? ?). destruct (_ && _); [done|]. destruct (_ && _); [done|].
  do 7 (apply wpo_any; intros ? ?). apply wpo_modify. apply wpo_frames; [frames|]. intros _ w2 H.
  destruct (w_rules w2 !! id) as [r|] eqn:Hr; [|done]. apply core_rule in Hr. rewrite H, core_delete_rule in Hr.
  cbn [k_rules] in Hr. by rewrite lookup_delete_eq in Hr.
Qed.

Lemma outside_delete_rule id purge parent ignore w (ls : list nat) :
  (forall i, in_database (core w) (fun l => bool_decide (lk_rule_id l = id)) i -> i ∈ ls) ->
  wpo (delete_rule id purge false parent ignore) (fun _ w' => forall i, i ∉ ls -> w_locks w' !! i = w_locks w !! i) w.
Proof.
  intros Hls. do 2 (apply wpo_skip; [unfold rule_row; frames|]; intros ? ? ?). destruct (_ && _); [done|]. destruct (_ && _); [done|].
  apply wpo_skip; [frames|]. intros _ w1 H1. apply wpo_select_locks. intros ls' _ Hls'.
  assert (core w1 = core w) as Hc by congruence. rewrite Hc in Hls'.
  assert (forall i, i ∈ ls' -> i ∈ ls) as Hsub by (intros i Hi%Hls'; by apply Hls).
  change (w_locks w) with (k_locks (core w)). rewrite <-Hc. cbn [core k_locks]. 
  match goal with |- wpo ?m _ _ => enough (outside ls m) as Hm end.
  { eapply wp_mono; [by apply (Hm w1)|done|done]. }
  apply outside_bind.
  { intros w0. apply preserves_concat. intros i Hi. apply outside_delete_lock. by apply Hsub. }
  intros gone. do 4 (apply outside_bind; [apply outside_frames; frames|intros _]).
  apply outside_bind; [|intros _; apply outside_frames; frames]. intros w0. by apply preserves_modify.
Qed.

(** C28: A rule that is deleted at once is gone, its locks are gone, and the locks of all other rules
    are as they were; the invariant holds without it. *)
Theorem delete_rule_releases rule_id purge parent ignore w w' :
  engine_ok w -> delete_rule rule_id purge false parent ignore w = (Ok tt, w') ->
  engine_ok w' /\ w_rules w' !! rule_id = None /\
  (forall i l, w_locks w' !! i = Some l -> persistent_lock l = true -> lk_rule_id l <> rule_id) /\
  (forall i l, w_locks w !! i = Some l -> persistent_lock l = true -> lk_rule_id l <> rule_id -> w_locks w' !! i = Some l).
Proof.
  intros Hok Hrun. pose proof (delete_rule_ok rule_id purge false parent ignore w Hok) as Hd.
  pose proof (delete_rule_row rule_id purge parent ignore w) as Hrow.
  pose proof (outside_delete_rule rule_id purge parent ignore w
    (select (fun l => persistent_lock l && bool_decide (lk_rule_id l = rule_id)) (w_locks w))) as Hout.
  unfold wpo, wp in *. rewrite Hrun in *. split_and!; [done|done| |].
  - intros i l Hl Hp <-. destruct (core_rules _ Hd i l Hl Hp) as [v Hv]. apply rule_core in Hv as (r & Hr & _). congruence.
  - intros i l Hl Hp Hne. rewrite Hout; [done| |].
    + intros j (l' & Hl' & Hp' & Hr'). apply elem_of_select. exists l'. by rewrite Hp', Hr'.
    + intros (l' & Hl' & [_ Hr']%andb_true_iff)%elem_of_select. apply bool_decide_eq_true in Hr'. congruence.
Qed.

(** ** An example *)

Definition no_text (e : exn) : string := "".
Definition next_id (w : World) : string := String.concat "" (replicate (S (size (w_rules w))) "r"%string).
Definition whole (npartitions p : nat) (name : string) : bool := true.

Definition demo_run : event -> ST World unit :=
  @run name_expressions low_draws no_text false false 100 14 None whole next_id (@default_auto_approve name_expressions).

Fixpoint runs (es : list event) (w : World) : result World :=
  match es with
  | [] => Ok w
  | e :: es => match demo_run e w with (Ok _, w') => runs es w' | (Err x, _) => Err x end
  end.

Notation demo_step := (@step name_expressions low_draws no_text false false 100 14 None whole next_id (@default_auto_approve name_expressions)).

Lemma runs_steps es w w' : runs es w = Ok w' -> rtc demo_step w w'.
Proof.
  revert w. induction es as [|e es IH]; intros w; simpl; [by intros [= ->]|].
  destruct (demo_run e w) as [[[]|x] w1] eqn:He; [|done]. intros Hes. eapply rtc_l; [by eapply Happens|by apply IH].
Qed.

Definition demo_after (es : list event) : World :=
  match runs es demo_world with Ok w => w | Err _ => demo_world end.
Lemma demo_steps es : (if runs es demo_world then true else false) = true -> rtc demo_step demo_world (demo_after es).
Proof. intros H. apply (runs_steps es). unfold demo_after. by destruct (runs es demo_world). Qed.

(** Another rule on the dataset, for one copy *)
Definition demo_options : RuleOptions :=
  MkOptions alice 1 "C" "NONE" None None false None None None None false false None false false true None None false None.

(** A rule is added, a transfer fails, another ends, a replica is lost, files leave the dataset. *)
Definition demo_events : list event :=
  [AddRule [("data", "ds")] demo_options; Failed ("data", "f1") "B" (Some "no route") None None; Successful ("data", "f2") "C"; Lost ("data", "f1") "A";
   Detached ("data", "ds")]%string.

Lemma rules_reflect_locks_witness :
  exists r, w_rules (demo_after demo_events) !! "r1"%string = Some r /\ ru_state r = RS_STUCK /\ ru_locks_ok_cnt r = 2%Z /\
    (forall st, cnt st r = locks_in (demo_after demo_events) "r1" st).
Proof.
  eexists. split; [by vm_compute|]. split; [done|]. split; [done|].
  apply (@rules_reflect_locks name_expressions low_draws no_text false false 100 14 None whole next_id (@default_auto_approve name_expressions) demo_world (demo_after demo_events) "r1");
    [apply demo_ok|apply demo_steps; by vm_compute|by vm_compute].
Defined.

(** The lost replica has a tombstone. *)
Lemma tombstones_have_no_locks_witness :
  exists r, w_replicas (demo_after demo_events) !! 0%nat = Some r /\ rp_tombstone r = Some OBSOLETE /\
    locks_on (demo_after demo_events) (replica_key r) = 0%Z.
Proof.
  eexists. split; [by vm_compute|]. split; [done|].
  apply (@tombstones_have_no_locks name_expressions low_draws no_text false false 100 14 None whole next_id (@default_auto_approve name_expressions) demo_world (demo_after demo_events) 0);
    [apply demo_ok|apply demo_steps; by vm_compute|by vm_compute|done|by eexists].
Defined.

Lemma replicating_rule_completes_witness :
  exists w' r', deliver [(("data", "f2"), "C"); (("data", "f1"), "B")]%string demo_world = (Ok tt, w') /\
    w_rules w' !! "r1"%string = Some r' /\ ru_state r' = RS_OK /\ ru_locks_replicating_cnt r' = 0%Z /\ ru_locks_stuck_cnt r' = 0%Z.
Proof.
  apply (replicating_rule_completes demo_world "r1" demo_rule); [apply demo_ok| | |done|done|].
  - intros id r Hr. simpl in Hr. by apply lookup_singleton_Some in Hr as [_ <-].
  - intros i l Hl _. each_of i; by eexists.
  - intros i l Hl Hof. each_of i; set_solver.
Defined.

Lemma delete_rule_releases_witness :
  exists w', delete_rule "r1" None false false false demo_world = (Ok tt, w') /\ engine_ok w' /\ w_rules w' !! "r1"%string = None.
Proof.
  eexists. split; [by vm_compute|].
  edestruct (delete_rule_releases "r1" None false false demo_world) as (H1 & H2 & _); [apply demo_ok|by vm_compute|split; [apply H1|apply H2]].
Defined.

(** The reaper marks the lost replica and deletes it. *)
Definition demo_marked : World := (list_and_mark_unlocked_replicas never_written 10 None "A" 600 true (demo_after demo_events)).2.
Definition demo_reaped : World := (delete_replicas false "A" [("data", "f1")%string] true demo_marked).2.

Lemma demo_reaped_steps : rtc demo_step demo_world demo_reaped.
Proof.
  etrans; [apply (demo_steps demo_events); by vm_compute|].
  apply rtc_l with demo_marked.
  - eapply Marks with (last_update := never_written) (limit := 10) (space := None) (rse_id := "A"%string) (delay := 600%Z)
      (obsolete := true) (rows := [0%nat]). by vm_compute.
  - apply rtc_once, Reaps with false "A"%string [("data", "f1")%string] true; [|by vm_compute].
    apply marked_check. by vm_compute.
Qed.

Lemma locked_replicas_are_kept_witness :
  exists l j r, w_locks demo_reaped !! 3%nat = Some l /\ persistent_lock l = true /\
    w_replicas demo_reaped !! j = Some r /\ replica_key r = (("data", "f2"), "C")%string /\ rp_tombstone r = None.
Proof.
  edestruct (@locked_replicas_are_kept name_expressions low_draws no_text false false 100 14 None whole next_id
    (@default_auto_approve name_expressions) demo_world demo_reaped 3) as (j & r & Hr & _ & Hk & Ht & _);
    [apply demo_ok|apply demo_reaped_steps|by vm_compute|by vm_compute|].
  eexists _, j, r. split_and!; [by vm_compute|by vm_compute|exact Hr|exact Hk|exact Ht].
Defined.
