(* ===== verification/RequestSteps.v ===== *)
(** * The tables of requests

    Whatever the conveyor does, sources and hops belong to requests, an attempt that is made again was
    archived, and is made again a bounded number of times. *)

From S2P Require Import Prelude StateError Counting Types Database Role RseSelector LockTables RuleGrouping RuleEngine Requests ReplicaWrites RuleDemo Deletion Conveyor.

#[local] Arguments Z.add : simpl never.
#[local] Arguments Z.sub : simpl never.

(** ** The invariant *)

Record Tables := MkTables {
  tb_requests : list Request;
  tb_sources : list Source;
  tb_hops : list (nat * nat * nat);
  tb_history : list (nat * Request);
}.
Definition tables (w : World) : Tables := MkTables (w_requests w) (w_sources w) (w_hops w) (w_request_history w).

Definition is_row (rs : list Request) (i : nat) : Prop := exists r, rs !! i = Some r /\ persistent_request r = true.
Definition retries (r : Request) : Z := default 0%Z (t_retry_count (rq_transfer r)).

(** [r] is the attempt after [rp]. *)
Definition follows (history : list (nat * Request)) (p : nat) (rp r : Request) : Prop :=
  rq_status rp = Deleted /\ (p, upd_rq_status (fun _ => Persistent) rp) ∈ history /\
  rq_transfer r = upd_t_retry_count (fun _ => next_retry rp) (rq_transfer rp) /\ exists b, should_retry_request rp b = true.

Record tables_ok (t : Tables) : Prop := {
  tb_chain : forall i r p, tb_requests t !! i = Some r -> rq_previous_attempt_id r = Some p ->
    (p < i)%nat /\ exists rp, tb_requests t !! p = Some rp /\ follows (tb_history t) p rp r;
  tb_unique : forall i j r r' p, tb_requests t !! i = Some r -> tb_requests t !! j = Some r' ->
    rq_previous_attempt_id r = Some p -> rq_previous_attempt_id r' = Some p -> i = j;
  tb_first : forall i r, tb_requests t !! i = Some r -> rq_previous_attempt_id r = None -> (0 <= retries r)%Z;
  tb_of_requests : forall so, so ∈ tb_sources t -> is_row (tb_requests t) (so_request_id so);
  tb_between : forall h, h ∈ tb_hops t -> is_row (tb_requests t) h.1.1 /\ is_row (tb_requests t) h.1.2 /\ is_row (tb_requests t) h.2;
}.
Definition requests_ok (w : World) : Prop := tables_ok (tables w).
Definition keeps_requests {A} (m : ST World A) : Prop := preserves requests_ok m.

Lemma kept_leaves {A} (m : ST World A) : leaves tables m -> keeps_requests m.
Proof.
  intros Hm w Hok. eapply wp_mono; [by apply (Hm (tables w))| |]; unfold requests_ok; [by intros a w' ->|by intros e w' ->].
Qed.

(** ** Rows that change *)

(** Rows change one by one; those that went stay as they are. *)
Record edited (f : nat -> Request -> Request) : Prop := {
  edited_transfer : forall i r, rq_transfer (f i r) = rq_transfer r;
  edited_previous : forall i r, rq_previous_attempt_id (f i r) = rq_previous_attempt_id r;
  edited_deleted : forall i r, rq_status r = Deleted -> f i r = r;
}.

Lemma edit_ok f t (sources : list Source) (hops : list (nat * nat * nat)) (more : list (nat * Request)) :
  tables_ok t -> edited f ->
  (forall so, so ∈ sources -> is_row (imap f (tb_requests t)) (so_request_id so)) ->
  (forall h, h ∈ hops -> is_row (imap f (tb_requests t)) h.1.1 /\ is_row (imap f (tb_requests t)) h.1.2 /\ is_row (imap f (tb_requests t)) h.2) ->
  tables_ok (MkTables (imap f (tb_requests t)) sources hops (tb_history t ++ more)).
Proof.
  intros Hok Hf Hs Hh.
  assert (forall i r', imap f (tb_requests t) !! i = Some r' -> exists r, tb_requests t !! i = Some r /\ r' = f i r) as Hback.
  { intros i r'. rewrite list_lookup_imap. intros (r & Hr & Hr')%fmap_Some. eauto. }
  split; cbn [tb_requests tb_sources tb_hops tb_history]; [| | |done|done].
  - intros i r' p (r & Hr & ->)%Hback Hp. rewrite (edited_previous f Hf) in Hp.
    destruct (tb_chain t Hok i r p Hr Hp) as (Hlt & rp & Hrp & (Hd & Hin & Htr & Hb)). split; [done|]. exists rp. split.
    + rewrite list_lookup_imap, Hrp. simpl. by rewrite (edited_deleted f Hf).
    + split_and!; [done|set_solver|by rewrite (edited_transfer f Hf)|done].
  - intros i j r1 r2 p (r1' & H1 & ->)%Hback (r2' & H2 & ->)%Hback. rewrite !(edited_previous f Hf). by apply (tb_unique t Hok).
  - intros i r' (r & Hr & ->)%Hback. rewrite (edited_previous f Hf). intros Hp. unfold retries. rewrite (edited_transfer f Hf). by apply (tb_first t Hok i).
Qed.

Lemma row_edited f rs i : (forall i r, rq_status (f i r) = rq_status r) -> is_row rs i -> is_row (imap f rs) i.
Proof.
  intros Hf (r & Hr & Hp). exists (f i r). rewrite list_lookup_imap, Hr. split; [done|]. unfold persistent_request in *. by rewrite Hf.
Qed.

(** Values of columns that are not about what a request is *)
Definition keeps_identity (f : Request -> Request) : Prop :=
  forall r, rq_transfer (f r) = rq_transfer r /\ rq_previous_attempt_id (f r) = rq_previous_attempt_id r /\ rq_status (f r) = rq_status r.

Lemma update_where_kept P f : keeps_identity f -> keeps_requests (update_where P f).
Proof.
  intros Hf w Hok. unfold wp, update_where. set (t := now (w_session w)). set (g := fun i r => if hit P i r then f (upd_rq_updated_at (fun _ => t) r) else r).
  assert (forall i r, rq_status (g i r) = rq_status r) as Hst.
  { intros i r. unfold g. destruct (hit P i r); [|done]. by destruct (Hf (upd_rq_updated_at (fun _ => t) r)) as (_ & _ & ->). }
  assert (edited g) as Hg.
  { split; intros i r; unfold g.
    - destruct (hit P i r); [|done]. by destruct (Hf (upd_rq_updated_at (fun _ => t) r)) as (-> & _).
    - destruct (hit P i r); [|done]. by destruct (Hf (upd_rq_updated_at (fun _ => t) r)) as (_ & -> & _).
    - intros Hd. unfold hit, persistent_request. by rewrite Hd. }
  pose proof (edit_ok g (tables w) (w_sources w) (w_hops w) [] Hok Hg) as Hedit. rewrite app_nil_r in Hedit. apply Hedit.
  - intros so Hso. by apply row_edited, (tb_of_requests _ Hok).
  - intros h Hh. destruct (tb_between _ Hok h Hh) as (? & ? & ?). split_and!; by apply row_edited.
Qed.

Lemma status_twice r s : upd_rq_status (fun _ => s) r = r <-> rq_status r = s.
Proof. destruct r; cbn. split; [by intros [= ->]|by intros ->]. Qed.

(** A row that goes, with its sources and hops *)
Lemma alter_imap {A} (f : A -> A) i (l : list A) : alter f i l = imap (fun j x => if bool_decide (j = i) then f x else x) l.
Proof.
  apply list_eq. intros j. rewrite list_lookup_imap. destruct (decide (j = i)) as [->|Hne].
  - rewrite list_lookup_alter_eq. by rewrite bool_decide_true.
  - rewrite list_lookup_alter_ne by done. rewrite bool_decide_false by done. by destruct (l !! j).
Qed.
Lemma deletion_edits i : edited (fun j r => if bool_decide (j = i) then upd_rq_status (fun _ => Deleted) r else r).
Proof. split; intros j r; case_bool_decide; try done. by intros ?%status_twice. Qed.
Lemma row_deleted i j rs : i <> j -> is_row rs j -> is_row (imap (fun j r => if bool_decide (j = i) then upd_rq_status (fun _ => Deleted) r else r) rs) j.
Proof. intros Hne (r & Hr & Hp). exists r. rewrite list_lookup_imap, Hr. simpl. by rewrite bool_decide_false. Qed.

Lemma deletion_ok i t sources hops more :
  tables_ok t -> sources ⊆ tb_sources t -> hops ⊆ tb_hops t ->
  (forall so, so ∈ sources -> so_request_id so <> i) -> (forall h, h ∈ hops -> h.1.1 <> i /\ h.1.2 <> i /\ h.2 <> i) ->
  tables_ok (MkTables (alter (upd_rq_status (fun _ => Deleted)) i (tb_requests t)) sources hops (tb_history t ++ more)).
Proof.
  intros Hok Hs Hh Hsi Hhi. rewrite alter_imap. apply edit_ok; [done|apply deletion_edits| |].
  - intros so Hso. apply row_deleted; [by apply not_eq_sym, Hsi|]. by apply (tb_of_requests t Hok), Hs.
  - intros h Hin. destruct (Hhi h Hin) as (? & ? & ?). destruct (tb_between t Hok h (Hh h Hin)) as (? & ? & ?).
    split_and!; apply row_deleted; auto.
Qed.

Lemma archive_kept id : keeps_requests (archive_request id).
Proof.
  intros w Hok. unfold archive_request. apply wp_modify. destruct (w_requests w !! id) as [r|] eqn:Hr; [|done].
  destruct (persistent_request r); [|done]. apply (deletion_ok id (tables w) _ _ [(id, r)] Hok).
  - intros so [Hso _]%elem_of_filter_bool. done.
  - intros h [Hh _]%elem_of_filter_bool. done.
  - intros so [_ Hn]%elem_of_filter_bool Heq. by rewrite bool_decide_true in Hn.
  - intros h [_ Hn]%elem_of_filter_bool. rewrite !negb_orb, !andb_true_iff, !negb_true_iff, !bool_decide_eq_false in Hn. naive_solver.
Qed.

Lemma delete_requests_kept did rse : keeps_requests (delete_requests did rse).
Proof.
  intros w Hok. unfold delete_requests. apply wp_bind, wp_gets, wp_bind, wp_gets. set (found := select _ _). cbv beta zeta.
  change (id w) with w. destruct (_ || _) eqn:Hb; [done|]. apply orb_false_iff in Hb as [Hs Hh].
  assert (forall so, so ∈ w_sources w -> so_request_id so ∉ found) as Hs'.
  { intros so Hso Hin. assert (existsb (fun so => bool_decide (so_request_id so ∈ found)) (w_sources w) = true) as Ht; [|by rewrite Ht in Hs].
    apply existsb_exists. exists so. split; [by apply list_elem_of_In|by apply bool_decide_eq_true]. }
  assert (forall h, h ∈ w_hops w -> h.1.1 ∉ found /\ h.1.2 ∉ found /\ h.2 ∉ found) as Hh'.
  { intros h Hin. assert ((bool_decide (h.1.1 ∈ found) || bool_decide (h.1.2 ∈ found) || bool_decide (h.2 ∈ found)) = false) as Hf.
    { destruct (_ || _) eqn:Ht; [|done]. rewrite <-Hh. symmetry. apply existsb_exists. exists h. split; [by apply list_elem_of_In|exact Ht]. }
    rewrite !orb_false_iff, !bool_decide_eq_false in Hf. tauto. }
  clearbody found. clear Hs Hh.
  eapply wp_mono; [apply (preserves_for (fun w' => requests_ok w' /\ w_sources w' = w_sources w /\ w_hops w' = w_hops w))| |].
  - intros i Hi w1 (Hok1 & Hs1 & Hh1). apply wp_modify. split; [|done].
    pose proof (deletion_ok i (tables w1) (w_sources w1) (w_hops w1) [] Hok1) as Hdel. rewrite app_nil_r in Hdel. apply Hdel; [done|done| |].
    + rewrite Hs1. intros so Hso Heq. apply (Hs' so Hso). by rewrite Heq.
    + rewrite Hh1. intros h Hin. destruct (Hh' h Hin) as (H1 & H2 & H3). split_and!; intros Heq; congruence.
  - done.
  - by intros _ w1 [? _].
  - by intros _ w1 [? _].
Qed.

(** ** Rows that are new *)

(** A row may be added that is the first attempt, or the one after an attempt that has none yet. *)
Definition fresh (t : Tables) (r : Request) : Prop :=
  match rq_previous_attempt_id r with
  | None => (0 <= retries r)%Z
  | Some p => (exists rp, tb_requests t !! p = Some rp /\ follows (tb_history t) p rp r) /\
              forall j r', tb_requests t !! j = Some r' -> rq_previous_attempt_id r' <> Some p
  end.

Lemma row_app rs rs' i : is_row rs i -> is_row (rs ++ rs') i.
Proof. intros (r & Hr & Hp). exists r. split; [by apply lookup_app_l_Some|done]. Qed.

Lemma append_ok t r sources :
  tables_ok t -> persistent_request r = true -> fresh t r -> (forall so, so ∈ sources -> so_request_id so = length (tb_requests t)) ->
  tables_ok (MkTables (tb_requests t ++ [r]) (tb_sources t ++ sources) (tb_hops t) (tb_history t)).
Proof.
  intros Hok Hp Hr Hs.
  assert (forall i r', (tb_requests t ++ [r]) !! i = Some r' -> tb_requests t !! i = Some r' \/ i = length (tb_requests t) /\ r' = r) as Hback.
  { intros i r' [Hi|[Hlen Hi]]%lookup_app_Some; [by left|right]. apply list_lookup_singleton_Some in Hi as [? <-]. split; [lia|done]. }
  split; cbn [tb_requests tb_sources tb_hops tb_history].
  - intros i r' p [Hi|[-> ->]]%Hback Hprev.
    + destruct (tb_chain t Hok i r' p Hi Hprev) as (Hlt & rp & Hrp & Hf). split; [done|]. exists rp. split; [by apply lookup_app_l_Some|done].
    + unfold fresh in Hr. rewrite Hprev in Hr. destruct Hr as ((rp & Hrp & Hf) & _). split; [by apply lookup_lt_Some in Hrp|].
      exists rp. split; [by apply lookup_app_l_Some|done].
  - intros i j r1 r2 p [H1|[-> ->]]%Hback [H2|[-> ->]]%Hback Hp1 Hp2; [by eapply (tb_unique t Hok)| | |done].
    + unfold fresh in Hr. rewrite Hp2 in Hr. destruct Hr as [_ Hno]. by destruct (Hno i r1).
    + unfold fresh in Hr. rewrite Hp1 in Hr. destruct Hr as [_ Hno]. by destruct (Hno j r2).
  - intros i r' [Hi|[-> ->]]%Hback Hprev; [by eapply (tb_first t Hok)|]. unfold fresh in Hr. by rewrite Hprev in Hr.
  - intros so [Hso|Hso]%elem_of_app; [by apply row_app, (tb_of_requests t Hok)|]. rewrite (Hs so Hso). exists r. split; [|done].
    by apply list_lookup_middle.
  - intros h Hh. destruct (tb_between t Hok h Hh) as (? & ? & ?). split_and!; by apply row_app.
Qed.

(** [queue_requests] adds rows, or raises before. *)
Definition with_new (state : RequestState) (t : Z) (new : list NewRequest) (tb : Tables) : Tables :=
  MkTables (tb_requests tb ++ (queued state t <$> new))
    (tb_sources tb ++ concat (imap (fun i => queued_sources (length (tb_requests tb) + i)) new)) (tb_hops tb) (tb_history tb).
Lemma filter_sub {A} (P : A -> bool) l : List.filter P l ⊆ l.
Proof. intros x [Hx _]%elem_of_filter_bool. done. Qed.
Lemma queue_all_spec l w :
  wp (queue_all l) (fun ids w' => exists new state t, new ⊆ l /\ (length new <= length l)%nat /\ tables w' = with_new state t new (tables w))
    (fun _ w' => tables w' = tables w) w.
Proof.
  unfold queue_all. apply wp_bind. eapply wp_mono.
  - assert (leaves tables (forS (fun r => do! get_rse_name (t_dest_rse_id (nq_transfer r)) in skipS) l)) as Hl by leaves. by apply (Hl (tables w)).
  - intros [] w1 H1. apply wp_bind, wp_gets, wp_bind, wp_gets. cbv beta zeta. set (new := List.filter _ _).
    apply wp_bind, wp_modify, wp_bind, wp_modify, wp_ret. exists new, (if w_use_preparer w1 then Q_PREPARING else Q_QUEUED), (now (w_session w1)).
    split_and!; [apply filter_sub|apply List.filter_length_le|]. rewrite <-H1. done.
  - done.
Qed.

Lemma with_new_cons state t x new tb : with_new state t (x :: new) tb = with_new state t new (with_new state t [x] tb).
Proof.
  unfold with_new. cbn [tb_requests tb_sources tb_hops tb_history fmap list_fmap imap concat app]. f_equal; [by rewrite <-app_assoc|].
  rewrite <-app_assoc, app_nil_r, Nat.add_0_r. f_equal. f_equal. f_equal. apply imap_ext. intros i y _. cbn. rewrite length_app. cbn. f_equal. lia.
Qed.
Lemma with_one_ok state t x tb : tables_ok tb -> fresh tb (queued state t x) -> tables_ok (with_new state t [x] tb).
Proof.
  intros Hok Hf. unfold with_new. cbn [fmap list_fmap imap concat]. apply append_ok; [done|done|done|].
  intros so. rewrite app_nil_r, Nat.add_0_r. by intros (? & -> & _)%list_elem_of_fmap.
Qed.

Definition first_attempt (x : NewRequest) : Prop := nq_previous_attempt_id x = None /\ (0 <= default 0 (t_retry_count (nq_transfer x)))%Z.
Lemma with_new_ok state t new tb : tables_ok tb -> (forall x, x ∈ new -> first_attempt x) -> tables_ok (with_new state t new tb).
Proof.
  revert tb. induction new as [|x new IH]; intros tb Hok Hnew.
  - unfold with_new. cbn. rewrite !app_nil_r. by destruct tb.
  - rewrite with_new_cons. apply IH; [|set_solver]. apply with_one_ok; [done|]. destruct (Hnew x) as [Hp Hr]; [set_solver|].
    unfold fresh. cbn. by rewrite Hp.
Qed.
Lemma queue_all_kept l : (forall x, x ∈ l -> first_attempt x) -> keeps_requests (queue_all l).
Proof.
  intros Hl w Hok. eapply wp_mono; [apply queue_all_spec| |]; unfold requests_ok.
  - intros ids w' (new & state & t & Hsub & _ & ->). apply with_new_ok; [done|]. intros x Hx. by apply Hl, Hsub.
  - by intros e w' ->.
Qed.

(** A new attempt *)
Lemma get_request_spec id w : request_row w id = None \/ exists r, request_row w id = Some r /\ w_requests w !! id = Some r /\ persistent_request r = true.
Proof.
  unfold request_row. destruct (w_requests w !! id) as [r|]; [|by left]. destruct (persistent_request r) eqn:Hp; [right|by left]. eauto.
Qed.

Lemma should_retry_status s r b : should_retry_request (upd_rq_status s r) b = should_retry_request r b.
Proof. done. Qed.

Lemma requeue_kept id up b : keeps_requests (requeue_and_archive id up b).
Proof.
  intros w Hok. unfold requeue_and_archive, get_request. apply wp_bind, wp_gets.
  destruct (get_request_spec id w) as [->|(r & -> & Hr & Hp)]; [done|]. apply wp_bind, wp_gets. set (sources := get_sources w id None).
  pose proof (archive_kept id w Hok) as Harch. apply wp_bind. revert Harch. unfold archive_request, wp at 1 2, modifyS. rewrite Hr, Hp.
  set (w1 := upd_w_request_history _ _). intros Hok1. destruct (should_retry_request r b) eqn:Hretry; [|done].
  apply wp_bind. eapply wp_mono; [apply queue_all_spec| |]; unfold requests_ok.
  - intros ids w2 (new & state & t & Hsub & Hlen & H2). apply wp_ret. rewrite H2. clear H2.
    destruct new as [|x [|y new]]; [| |simpl in Hlen; lia].
    + by apply with_new_ok; [|intros x ?%elem_of_nil].
    + apply with_one_ok; [done|]. assert (x = next_attempt id r sources up) as -> by (specialize (Hsub x); set_solver). unfold fresh. cbn. split.
      * exists (upd_rq_status (fun _ => Deleted) r). split; [by rewrite list_lookup_alter_eq, Hr|]. split; [done|]. split_and!.
        -- apply elem_of_app. right. apply list_elem_of_singleton. unfold persistent_request in Hp. apply bool_decide_eq_true in Hp.
           f_equal. destruct r; cbn in *. by subst.
        -- done.
        -- exists b. exact Hretry.
      * intros j r' Hj Hprev. assert (exists r0, w_requests w !! j = Some r0 /\ rq_previous_attempt_id r0 = Some id) as (r0 & Hr0 & Hp0).
        { destruct (decide (j = id)) as [->|Hne].
          - rewrite list_lookup_alter_eq, Hr in Hj. injection Hj as <-. by exists r.
          - rewrite list_lookup_alter_ne in Hj by done. eauto. }
        destruct (tb_chain _ Hok j r0 id Hr0 Hp0) as (_ & rp & Hrp & (Hd & _)). cbn in Hrp. rewrite Hr in Hrp. injection Hrp as <-.
        unfold persistent_request in Hp. by rewrite Hd in Hp.
  - by intros e w2 ->.
Qed.

(** ** Every operation *)

Lemma source_kept so : keeps_requests (ensure_source so).
Proof.
  intros w Hok. unfold ensure_source. apply wp_bind, wp_gets. change (id w) with w. destruct (existsb _ _).
  - apply wp_modify. destruct Hok as [H1 H2 H3 H4 H5]. split; try done. intros so' (so0 & -> & Hin)%list_elem_of_fmap.
    destruct (_ && _); exact (H4 so0 Hin).
  - destruct (_ && _) eqn:Hb; [|done]. apply andb_true_iff in Hb as [Hrow%bool_decide_eq_true _]. apply wp_modify.
    destruct Hok as [H1 H2 H3 H4 H5]. split; try done. intros so' [Hin| ->%list_elem_of_singleton]%elem_of_app; [by apply H4|].
    destruct (get_request_spec (so_request_id so) w) as [Hno|(r & _ & Hr & Hp)]; [rewrite Hno in Hrow; by destruct Hrow|by exists r].
Qed.
Lemma hop_kept h : keeps_requests (save_hop h).
Proof.
  intros w Hok. unfold save_hop. apply wp_bind, wp_gets. change (id w) with w. destruct (_ || _) eqn:Hb; [done|].
  apply orb_false_iff in Hb as [_ Hrows]. apply negb_false_iff in Hrows. cbn [forallb] in Hrows. rewrite !andb_true_iff, !bool_decide_eq_true in Hrows.
  assert (forall i, is_Some (request_row w i) -> is_row (w_requests w) i) as His.
  { intros i [x Hx]. destruct (get_request_spec i w) as [Hno|(r & _ & Hr & Hp)]; [congruence|by exists r]. }
  apply wp_modify. destruct Hok as [H1 H2 H3 H4 H5]. split; try done. intros h' [Hin| ->%list_elem_of_singleton]%elem_of_app; [by apply H5|].
  destruct Hrows as (? & ? & ? & _). split_and!; by apply His.
Qed.

Create HintDb kept.
Lemma update_request_kept id st src err prio b : keeps_requests (update_request id st src err prio b).
Proof.
  apply preserves_bind; [|intros n; by case_match; [apply preserves_raise|apply preserves_ret]].
  apply update_where_kept. intros r. unfold opt_set. by destruct st, src, err, prio.
Qed.
#[local] Hint Resolve archive_kept delete_requests_kept requeue_kept source_kept hop_kept update_request_kept : kept.

Lemma kept_transaction {A} (m : ST World A) : keeps_requests m -> keeps_requests (transaction m).
Proof. intros Hm w Hok. specialize (Hm w Hok). unfold wp, transaction in *. by destruct (m w) as [[a|e] w']. Qed.
Lemma kept_swallow m : keeps_requests m -> keeps_requests (swallow m).
Proof. intros Hm. apply preserves_try; [done|]. intros e k [= <-]. apply preserves_ret. Qed.

(** Prove [keeps_requests m] along the code of [m]. *)
Ltac kept_step :=
  lazymatch goal with
  | |- keeps_requests (bindS _ _) => apply preserves_bind; [|intros ?]
  | |- keeps_requests (whenS _ _) => apply preserves_when
  | |- keeps_requests (forS _ _) => apply preserves_for; intros ? _
  | |- keeps_requests (tryS _ _) => apply preserves_try; [|let e := fresh in intros e ? ?; destruct e; simplify_eq/=]
  | |- keeps_requests (transaction _) => apply kept_transaction
  | |- keeps_requests (swallow _) => apply kept_swallow
  | |- keeps_requests (let '_ := ?x in _) => destruct x
  | |- keeps_requests (if ?b then _ else _) => destruct b
  | |- keeps_requests (match ?x with _ => _ end) => destruct x
  | |- keeps_requests (update_where _ _) => apply update_where_kept; intros ?; done
  | |- keeps_requests ?m => first [solve [auto 2 with kept nocore] | apply kept_leaves; solve [leaves] | unfold_head m; cbv beta zeta]
  | |- preserves requests_ok ?m => change (keeps_requests m)
  end.
Ltac kept := cbv beta zeta; repeat (kept_step; cbv beta zeta).

Lemma transition_kept id st ext src err r : keeps_requests (transition_request_state id st ext src err r).
Proof. kept. Qed.
#[local] Hint Resolve transition_kept : kept.
Lemma failed_hop_kept id : keeps_requests (handle_failed_intermediate_hop id).
Proof. unfold handle_failed_intermediate_hop. kept. Qed.
#[local] Hint Resolve failed_hop_kept : kept.
Lemma monitor_kept id r st : keeps_requests (add_monitor_message id r st).
Proof. kept. Qed.
#[local] Hint Resolve monitor_kept : kept.
Lemma poll_kept id f : keeps_requests (update_transfer_state id f).
Proof. kept. Qed.

(** The rule engine settles locks without touching requests. *)
Lemma tables_notify rule keys : leaves tables (notify_closed_datasets rule keys).
Proof. induction keys as [|[did rse] keys IH]; cbn [notify_closed_datasets]; leaves; done. Qed.
#[local] Hint Resolve tables_notify : leaves.
Lemma tables_successful did rse : leaves tables (successful_transfer did rse).
Proof. leaves. Qed.
Lemma tables_failed did rse e b m : leaves tables (failed_transfer did rse e b m).
Proof. leaves. Qed.
#[local] Hint Resolve tables_successful tables_failed : leaves.
Lemma tables_replica_states l : leaves tables (update_replicas_states l).
Proof. leaves. Qed.
Lemma tables_insert rse t f : leaves tables (insert_replica rse t f).
Proof.
  unfold insert_replica. apply leaves_bind; [by intros c w <-|]. intros i. apply leaves_try; [|intros [] k Hk; simplify_eq/=; by apply leaves_pure].
  unfold add_replica, replica_at. leaves.
Qed.
#[local] Hint Resolve tables_replica_states tables_insert : leaves.
Lemma tables_add_replicas v d p rse files account b : leaves tables (add_replicas v d p rse files account b).
Proof. leaves. Qed.
#[local] Hint Resolve tables_add_replicas : leaves.


(** A hop that may get a request has not been tried a negative number of times. *)
Definition sane (t : Transfer) : Prop := (0 <= default 0 (t_retry_count t))%Z.

Section operations.
Variables (volatile deterministic : Session -> string -> bool) (pfn_error : Session -> string -> list (DID * string) -> option exn).

Lemma create_hop_kept delay initial next hop : sane (dt_request hop) -> keeps_requests (create_hop volatile deterministic pfn_error delay initial next hop).
Proof.
  intros Hs. unfold create_hop. apply preserves_bind; [kept|]. intros w. destruct (hop_tombstone _ _ _) as [t|e]; [|destruct e; kept].
  apply preserves_bind; [apply kept_swallow, kept_leaves; leaves|]. intros _. apply preserves_bind; [kept|]. intros src. apply preserves_bind.
  - apply queue_all_kept. by intros x ->%list_elem_of_singleton.
  - intros new. kept.
Qed.
Lemma create_hops_kept delay initial next hops done skip :
  (forall hop, hop ∈ hops -> sane (dt_request hop)) ->
  keeps_requests (create_hops volatile deterministic pfn_error delay initial next hops done skip).
Proof.
  revert next done skip. induction hops as [|hop hops IH]; intros next done skip Hs; cbn [create_hops]; [kept|].
  assert (forall h, h ∈ hops -> sane (dt_request h)) as Hs' by set_solver.
  destruct (dt_request_id hop) as [id|]; [by apply IH|]. apply preserves_bind; [apply create_hop_kept, Hs; by left|].
  intros [[id s]|]; [by apply IH|apply preserves_ret].
Qed.
Lemma first_path_kept delay l :
  (forall a hop, a ∈ l -> hop ∈ a.1 -> sane (dt_request hop)) -> keeps_requests (first_path volatile deterministic pfn_error delay l).
Proof.
  induction l as [|[path [|[tool hops] rest]] l IH]; intros Hs; cbn [first_path]; [kept|apply IH; set_solver|].
  apply preserves_bind.
  - unfold create_missing_replicas_and_requests. destruct (last path ≫= dt_request_id) as [initial|]; [|kept].
    apply create_hops_kept. intros hop Hhop. apply (Hs (path, (tool, hops) :: rest)); [by left|]. rewrite list_elem_of_In, <-in_rev in Hhop. by apply list_elem_of_In.
  - intros [[best created] skip]. destruct created; [kept|]. destruct skip; [kept|]. apply IH. set_solver.
Qed.
Lemma assign_path_kept delay builder tools paths :
  (forall path hop, path ∈ paths -> hop ∈ path -> sane (dt_request hop)) ->
  keeps_requests (assign_path volatile deterministic pfn_error delay builder tools paths).
Proof.
  intros Hs. unfold assign_path. apply preserves_bind.
  - apply first_path_kept. intros a hop Ha. rewrite stable_sort_Permutation in Ha. apply list_elem_of_fmap in Ha as (path & -> & Hpath). by apply Hs.
  - intros [[best n] skip]. kept.
Qed.

Lemma finish_kept url known b reqs bulk : keeps_requests (handle_requests volatile deterministic pfn_error url known b reqs bulk).
Proof.
  apply preserves_for. intros c _. apply kept_swallow. unfold finish_requests. apply preserves_bind.
  - apply preserves_concat. intros x _. destruct x as [i r]. unfold finish_request, retry_or_give_up. kept.
  - intros l. apply preserves_for. intros g _. unfold handle_group. apply preserves_try.
    + apply kept_transaction. unfold update_bulk_replicas. kept.
    + intros e k Hk. destruct e; simplify_eq/=; try apply preserves_ret; apply preserves_for; intros x _;
        apply kept_swallow, kept_transaction; unfold update_replica, register_dark_file; kept.
Qed.
End operations.

(** ** The machine *)

(** New requests have not been tried a negative number of times. *)
Definition proper (o : operation) : Prop :=
  match o with
  | Queue requests => forall t, t ∈ requests -> sane t
  | AssignPath _ paths => forall path hop, path ∈ paths -> hop ∈ path -> sane (dt_request hop)
  | _ => True
  end.

Lemma perform_kept s o : proper o -> keeps_requests (perform s o).
Proof.
  intros Ho. destruct o; cbn [perform]; unfold ignore.
  - unfold queue_requests. apply preserves_bind; [|intros _; apply preserves_ret]. apply queue_all_kept.
    intros x (t & -> & Ht)%list_elem_of_fmap. split; [done|]. by apply Ho.
  - kept.
  - kept.
  - apply preserves_bind; [|intros _; apply preserves_ret]. induction candidates as [|c cs IH]; cbn [prepare_transfers]; [kept|].
    apply preserves_bind; [unfold prepare_transfer; kept|]. intros one. apply preserves_bind; [exact (IH I)|]. intros others. apply preserves_ret.
  - apply preserves_bind; [by apply assign_path_kept|intros _; apply preserves_ret].
  - kept.
  - kept.
  - kept.
  - apply preserves_bind; [apply poll_kept|intros _; apply preserves_ret].
  - kept.
  - kept.
  - kept.
  - kept.
  - kept.
  - kept.
  - unfold release_waiting_requests_grouped_fifo, release_waiting_requests_per_deadline, release_waiting_requests_per_free_volume, release_datasets. kept.
  - apply finish_kept.
Qed.

(** The conveyor does something that succeeds, or something else happens that is not about requests. *)
Inductive conveyor_step : World -> World -> Prop :=
  | Performs around o w w' : proper o -> perform around o w = (Ok tt, w') -> conveyor_step w w'
  | Elsewhere w w' : tables w' = tables w -> conveyor_step w w'.

Lemma conveyor_steps_ok w w' : requests_ok w -> rtc conveyor_step w w' -> requests_ok w'.
Proof.
  intros Hok Hsteps. induction Hsteps as [|w w1 w2 Hstep _ IH]; [done|]. apply IH. clear IH.
  destruct Hstep as [around o w w1 Ho Hrun|w w1 Hsame].
  - by eapply (wp_ok _ _ _ _ _ _ (perform_kept around o Ho w Hok)).
  - unfold requests_ok. by rewrite Hsame.
Qed.

(** C10: In every state the conveyor reaches from a sound one, every source and every hop belongs to
    requests that are there: none is left of a request that was archived or deleted. *)
Theorem sources_and_hops_have_requests w w' :
  requests_ok w -> rtc conveyor_step w w' ->
  (forall so, so ∈ w_sources w' -> exists r, request_row w' (so_request_id so) = Some r) /\
  (forall from to initial, (from, to, initial) ∈ w_hops w' ->
     exists r1 r2 r3, request_row w' from = Some r1 /\ request_row w' to = Some r2 /\ request_row w' initial = Some r3).
Proof.
  intros Hok Hsteps. pose proof (conveyor_steps_ok w w' Hok Hsteps) as Hok'.
  assert (forall i, is_row (w_requests w') i -> exists r, request_row w' i = Some r) as Hrow.
  { intros i (r & Hr & Hp). exists r. unfold request_row. by rewrite Hr, Hp. }
  split.
  - intros so Hso. by apply Hrow, (tb_of_requests _ Hok').
  - intros from to initial Hh. destruct (tb_between _ Hok' _ Hh) as (H1 & H2 & H3). cbn in H1, H2, H3.
    apply Hrow in H1 as [r1 H1], H2 as [r2 H2], H3 as [r3 H3]. eauto 10.
Qed.

(** The attempts before one, the last first.  An attempt comes after the one it repeats, so that there
    are fewer than there are requests. *)
Fixpoint attempts (fuel : nat) (rs : list Request) (i : nat) : list (nat * Request) :=
  match fuel with
  | 0%nat => []
  | S fuel => match rs !! i ≫= rq_previous_attempt_id with
              | Some p => match rs !! p with Some rp => (p, rp) :: attempts fuel rs p | None => [] end
              | None => []
              end
  end.
Definition previous_attempts (w : World) (i : nat) : list (nat * Request) := attempts (length (w_requests w)) (w_requests w) i.
(** Those that got as far as being submitted, or could not be *)
Definition ended (x : nat * Request) : bool := negb (bool_decide (rq_state x.2 = Q_SUBMITTING)).

Section chains.
Context (t : Tables) (Hok : tables_ok t).

Lemma retries_nonneg i r : tb_requests t !! i = Some r -> (0 <= retries r)%Z.
Proof.
  revert r. induction (lt_wf i) as [i _ IH]. intros r Hr. destruct (rq_previous_attempt_id r) as [p|] eqn:Hp; [|by eapply (tb_first t Hok)].
  destruct (tb_chain t Hok i r p Hr Hp) as (Hlt & rp & Hrp & (_ & _ & Htr & _)). specialize (IH p Hlt rp Hrp).
  unfold retries in *. rewrite Htr. cbn. unfold next_retry. destruct (t_retry_count (rq_transfer rp)); cbn in *; [case_bool_decide; cbn|]; lia.
Qed.

Lemma attempts_bounded fuel i r :
  tb_requests t !! i = Some r ->
  let n := Z.of_nat (length (List.filter ended (attempts fuel (tb_requests t) i))) in (n <= retries r)%Z /\ (n <= 3)%Z.
Proof.
  revert i r. induction fuel as [|fuel IH]; intros i r Hr; cbn [attempts].
  { split; [by eapply retries_nonneg|done]. }
  rewrite Hr. cbn. destruct (rq_previous_attempt_id r) as [p|] eqn:Hp; [|split; [by eapply retries_nonneg|done]].
  destruct (tb_chain t Hok i r p Hr Hp) as (_ & rp & Hrp & (_ & _ & Htr & b & Hretry)). rewrite Hrp. cbn [List.filter].
  destruct (IH p rp Hrp) as [IH1 IH2]. pose proof (retries_nonneg p rp Hrp) as Hnn. unfold retries in *. rewrite Htr. cbn.
  assert (ended (p, rp) = negb (bool_decide (rq_state rp = Q_SUBMITTING))) as -> by done.
  unfold should_retry_request in Hretry. unfold next_retry. destruct (rq_intermediate_hop rp); [done|].
  destruct (t_retry_count (rq_transfer rp)) as [n|]; cbn in *; destruct (rq_state rp); cbn in *; try done;
    repeat (case_bool_decide; try done); cbn [negb length from_option]; unfold id; lia.
Qed.

(** All attempts are for the same file, at the same place, and for the same rule; all but the last were archived. *)
Definition same_purpose (r r' : Request) : Prop :=
  t_did (rq_transfer r') = t_did (rq_transfer r) /\ t_dest_rse_id (rq_transfer r') = t_dest_rse_id (rq_transfer r) /\
  t_rule_id (rq_transfer r') = t_rule_id (rq_transfer r).
Lemma attempts_archived fuel i r p rp :
  tb_requests t !! i = Some r -> (p, rp) ∈ attempts fuel (tb_requests t) i ->
  (p < i)%nat /\ rq_status rp = Deleted /\ (p, upd_rq_status (fun _ => Persistent) rp) ∈ tb_history t /\ same_purpose r rp.
Proof.
  revert i r. induction fuel as [|fuel IH]; intros i r Hr; cbn [attempts]; [by intros ?%elem_of_nil|].
  rewrite Hr. cbn. destruct (rq_previous_attempt_id r) as [q|] eqn:Hq; [|by intros ?%elem_of_nil].
  destruct (tb_chain t Hok i r q Hr Hq) as (Hlt & rq & Hrq & (Hd & Hin & Htr & _)). rewrite Hrq.
  assert (same_purpose r rq) as (H1 & H2 & H3) by (unfold same_purpose; by rewrite Htr).
  intros [[= -> ->]|Hp]%elem_of_cons; [done|]. destruct (IH q rq Hrq Hp) as (? & ? & ? & (H1' & H2' & H3')).
  split_and!; [lia|done|done|]. unfold same_purpose. by rewrite H1', H2', H3'.
Qed.
End chains.

(** C9: A transfer is attempted a bounded number of times: in every state the conveyor reaches from a
    sound one, at most three attempts before a request came to an end (those that are stuck in being
    submitted are not counted), each was archived and deleted, was for the same file, RSE and
    rule, and no two requests are the next attempt of the same one. *)
Theorem attempts_are_bounded w w' i r :
  requests_ok w -> rtc conveyor_step w w' -> w_requests w' !! i = Some r ->
  (length (List.filter ended (previous_attempts w' i)) <= 3)%nat /\
  (forall p rp, (p, rp) ∈ previous_attempts w' i ->
     rq_status rp = Deleted /\ (p, upd_rq_status (fun _ => Persistent) rp) ∈ w_request_history w' /\ same_purpose r rp) /\
  (forall j r' p, w_requests w' !! j = Some r' -> rq_previous_attempt_id r = Some p -> rq_previous_attempt_id r' = Some p -> i = j).
Proof.
  intros Hok Hsteps Hr. pose proof (conveyor_steps_ok w w' Hok Hsteps) as Hok'. split_and!.
  - destruct (attempts_bounded (tables w') Hok' (length (w_requests w')) i r Hr) as [_ Hn]. unfold previous_attempts. cbn in Hn. lia.
  - intros p rp Hp. by destruct (attempts_archived (tables w') Hok' _ i r p rp Hr Hp) as (_ & ? & ? & ?).
  - intros j r' p Hr' Hp Hp'. by apply (tb_unique _ Hok' i j r r' p).
Qed.

(** ** An example *)

#[local] Open Scope list_scope.

Definition demo_around : Surroundings :=
  MkSurroundings (fun _ _ => true) (fun _ => []) (fun _ => []) (fun _ hops => length hops) 7200 (fun _ _ => false) (fun _ _ => true)
    (fun _ _ _ => None) (fun _ => None) (fun _ _ => true) false.
Definition demo_transfer (dest : string) : Transfer :=
  MkTransfer dest ("data", "f1")%string "r1" TRANSFER (Some 0%Z) alice (Some 0%Z) "User" None None None 10 None None (Some 3%Z).
Fixpoint perform_all (os : list operation) (w : World) : World :=
  match os with [] => w | o :: os => perform_all os (perform demo_around o w).2 end.
Fixpoint all_succeed (os : list operation) (w : World) : bool :=
  match os with
  | [] => true
  | o :: os => match perform demo_around o w with (Ok _, w') => all_succeed os w' | _ => false end
  end.
Lemma perform_all_steps os w : Forall proper os -> all_succeed os w = true -> rtc conveyor_step w (perform_all os w).
Proof.
  revert w. induction os as [|o os IH]; intros w; cbn [all_succeed perform_all]; [done|]. intros [Ho Hos]%Forall_cons.
  destruct (perform demo_around o w) as [[[]|e] w1] eqn:Hrun; [|done]. intros Hs. cbn [snd].
  eapply rtc_l; [by eapply (Performs demo_around o)|by apply IH].
Qed.
Lemma demo_requests_ok : requests_ok demo_world.
Proof. split; cbn; try (by intros ? ? ?%elem_of_nil); try by intros ? ?%elem_of_nil. all: intros i; by rewrite ?lookup_nil. Qed.

(** A transfer from A to B by way of C: a request for the first hop is made. *)
Definition demo_path : list DirectTransfer :=
  [MkDirect None (demo_transfer "C") "A" [("A", None, "a/f1")]; MkDirect (Some 0%nat) (demo_transfer "B") "C" [("C", None, "c/f1")]]%string.
Definition demo_hops : list operation := [Queue [demo_transfer "B"]; AssignPath None [demo_path]].

Lemma sources_and_hops_have_requests_witness :
  w_hops (perform_all demo_hops demo_world) = [(1, 0, 0)]%nat /\ length (w_sources (perform_all demo_hops demo_world)) = 3%nat /\
  exists r1 r2 r3, request_row (perform_all demo_hops demo_world) 1 = Some r1 /\ request_row (perform_all demo_hops demo_world) 0 = Some r2 /\
    request_row (perform_all demo_hops demo_world) 0 = Some r3.
Proof.
  split; [by vm_compute|]. split; [by vm_compute|].
  apply (sources_and_hops_have_requests demo_world (perform_all demo_hops demo_world)); [apply demo_requests_ok| |].
  - apply perform_all_steps; [|by vm_compute]. apply Forall_cons. split; [by intros t ->%list_elem_of_singleton|]. apply Forall_singleton.
    intros path hop ->%list_elem_of_singleton [->|[->|[]%elem_of_nil]%elem_of_cons]%elem_of_cons; done.
  - assert (w_hops (perform_all demo_hops demo_world) = [(1, 0, 0)]%nat) as -> by (by vm_compute). by apply list_elem_of_singleton.
Defined.

(** A transfer that failed is attempted again. *)
Definition demo_failure : list operation :=
  [Queue [demo_transfer "B"]; MarkSubmitting 0 "fts"; SetState [(0%nat, "A")] Q_SUBMITTED "fts" "job";
   Poll 0 (Some (MkReport (Some Q_FAILED) (Some "job") (Some "A") (Some "no route")))]%string.
Definition demo_retry : list operation := demo_failure ++ [Finish (imap pair (w_requests (perform_all demo_failure demo_world))) 10].

Lemma attempts_are_bounded_witness :
  exists r, w_requests (perform_all demo_retry demo_world) !! 1%nat = Some r /\ rq_previous_attempt_id r = Some 0%nat /\
    length (List.filter ended (previous_attempts (perform_all demo_retry demo_world) 1)) = 1%nat /\
    (length (List.filter ended (previous_attempts (perform_all demo_retry demo_world) 1)) <= 3)%nat.
Proof.
  eexists. split; [by vm_compute|]. split; [done|]. split; [by vm_compute|].
  eapply (attempts_are_bounded demo_world (perform_all demo_retry demo_world) 1); [apply demo_requests_ok| |by vm_compute].
  apply perform_all_steps; [|by vm_compute]. repeat (apply Forall_cons; split; [try done; by intros t ->%list_elem_of_singleton|]). by apply Forall_nil.
Defined.
