(* ===== verification/FinisherFacts.v ===== *)
(** * Transfers that are done complete the rules

    The finisher, on the requests of transfers that were done, makes the replicas available, settles the
    locks on them, completes the rules, and archives the requests. *)

From S2P Require Import Prelude StateError Counting Types Database Role RseSelector LockTables RuleGrouping RuleEngine Requests ReplicaWrites RuleInvariant RuleEvents RuleLosses RuleDemo Deletion Conveyor DeletionFacts ConveyorFacts RuleSteps.

#[local] Arguments Z.add : simpl never.
#[local] Arguments Z.sub : simpl never.

(** ** One replica *)

(** The replicas there are, and whether a request is there *)
Definition keys_of (w : World) : list (DID * string * bool) := (fun r => (replica_key r, persistent_replica r)) <$> w_replicas w.
Definition has_key (k : list (DID * string * bool)) (d : DID * string) : Prop := (d, true) ∈ k.

Lemma has_key_select w did rse : has_key (keys_of w) (did, rse) -> exists i js, select (fun r => persistent_replica r && on_replica did rse r) (w_replicas w) = i :: js.
Proof.
  intros (r & [= -> -> Hp] & [i Hi]%list_elem_of_lookup_1)%list_elem_of_fmap.
  destruct (select _ (w_replicas w)) as [|j js] eqn:Hs; [|eauto]. exfalso. apply (not_elem_of_nil i). rewrite <-Hs. apply elem_of_select.
  exists r. unfold on_replica. by rewrite <-Hp, !bool_decide_true.
Qed.

(** What the finisher may rely on, with what is left to do *)
Definition under_way (c : Static) (k : list (DID * string * bool)) (id : string) (todo : list (DID * string)) (w : World) : Prop :=
  engine_ok w /\ calm c w /\ keys_of w = k /\ on_its_way id todo (core w).

Lemma replicas_notify rule keys : leaves w_replicas (notify_closed_datasets rule keys).
Proof. induction keys as [|[did rse] keys IH]; cbn [notify_closed_datasets]; leaves; done. Qed.
#[local] Hint Resolve replicas_notify : leaves.
Lemma replicas_successful did rse : leaves w_replicas (successful_transfer did rse).
Proof. leaves. Qed.

Section available.
Context (c : Static) (k : list (DID * string * bool)) (id : string).
Hypothesis Hsound : sound c.

Lemma update_available u did rse todo w :
  ru_replica u = (did, rse) -> ru_new_state u = R_AVAILABLE -> has_key k (did, rse) -> under_way c k id ((did, rse) :: todo) w ->
  wp (update_replica_state u) (fun _ => under_way c k id todo) (fun _ _ => False) w.
Proof.
  intros Hu Hs Hkey (Hok & Hcalm & Hk & Hway). unfold update_replica_state. rewrite Hu, Hs. subst k.
  destruct (has_key_select w did rse Hkey) as (i & js & Hsel). apply wp_bind, wp_gets. rewrite Hsel.
  apply wp_bind, wp_bind. pose proof (ends_successful_transfer c did rse Hsound w Hcalm) as H1.
  pose proof (successful_transfer_progress id did rse todo w Hok Hway) as H2.
  pose proof (replicas_successful did rse (w_replicas w) w eq_refl) as H3.
  eapply wp_mono; [exact (wp_and _ _ _ _ _ _ H1 (wp_and _ _ _ _ _ _ H2 H3))| |by intros ? ? [[] _]].
  intros [] w1 ([Hs1 Hq1] & (Hok1 & Hway1) & Hr1). apply wp_modify. apply wp_modify. split_and!.
  - unfold engine_ok. rewrite core_alter_replica. apply replica_touch; [done|]. intros r. done.
  - split; [exact Hs1|exact Hq1].
  - unfold keys_of. cbn [w_replicas upd_w_replicas upd_w_bad_replicas]. rewrite Hr1. apply list_eq. intros j. rewrite !list_lookup_fmap.
    destruct (decide (j = i)) as [->|Hne]; [rewrite list_lookup_alter_eq|by rewrite list_lookup_alter_ne]. by destruct (w_replicas w !! i).
  - exact Hway1.
Qed.

Definition target (x : Terminated) : DID * string := (t_did (rq_transfer (tm_request x)), t_dest_rse_id (rq_transfer (tm_request x))).

Lemma archive_under_way i todo w : under_way c k id todo w -> wp (archive_request i) (fun _ => under_way c k id todo) (fun _ _ => False) w.
Proof.
  intros (Hok & [Hs Hq] & Hk & Hway). unfold archive_request. apply wp_modify.
  destruct (w_requests w !! i) as [r|]; [|done]. destruct (persistent_request r); done.
Qed.

Lemma update_bulk_available l todo w :
  (forall x, x ∈ l -> tm_state x = R_AVAILABLE /\ has_key k (target x)) -> under_way c k id ((target <$> l) ++ todo) w ->
  wp (update_bulk_replicas l) (fun _ => under_way c k id todo) (fun _ _ => False) w.
Proof.
  intros Hl Hw. apply wp_bind. eapply wp_mono with (Q := fun _ => under_way c k id todo) (E := fun _ _ => False); [| |done].
  - unfold update_replicas_states. revert w Hw. induction l as [|x l IH]; intros w Hw; [exact Hw|]. cbn [fmap list_fmap forS].
    destruct (Hl x) as [Hs Hk]; [by left|]. apply wp_bind.
    eapply wp_mono; [eapply (update_available (tm_update x)); [reflexivity|exact Hs|exact Hk|exact Hw]| |done].
    intros [] w1 Hw1. apply IH; [|done]. intros y Hy. apply Hl. by right.
  - intros [] w1 H1. clear Hl Hw. revert w1 H1. induction l as [|x l IH]; intros w1 H1; [exact H1|]. cbn [forS]. apply wp_bind.
    eapply wp_mono; [by apply archive_under_way| |done]. intros [] w2 H2. by apply IH.
Qed.
End available.

(** ** Requests that went *)

Definition gone (i : nat) (w : World) : Prop := request_row w i = None.

Lemma gone_leaves {A} i (m : ST World A) : leaves w_requests m -> preserves (gone i) m.
Proof.
  intros Hm w Hw. unfold gone, request_row in *.
  eapply wp_mono; [by apply (Hm (w_requests w))| |]; [by intros a w' ->|by intros e w' ->].
Qed.
Lemma gone_archive i j : preserves (gone i) (archive_request j).
Proof.
  intros w Hw. unfold archive_request. apply wp_modify. destruct (w_requests w !! j) as [r|] eqn:Hr; [|done].
  destruct (persistent_request r); [|done]. unfold gone, request_row in *. cbn. destruct (decide (i = j)) as [->|Hne].
  - by rewrite list_lookup_alter_eq, Hr.
  - by rewrite list_lookup_alter_ne.
Qed.
Lemma archive_gone i w : wpo (archive_request i) (fun _ => gone i) w.
Proof.
  unfold archive_request. apply wp_modify. unfold gone, request_row. destruct (w_requests w !! i) as [r|] eqn:Hr; [|by rewrite Hr].
  destruct (persistent_request r) eqn:Hp; [cbn; by rewrite list_lookup_alter_eq, Hr|by rewrite Hr, Hp].
Qed.

Lemma requests_notify rule keys : leaves w_requests (notify_closed_datasets rule keys).
Proof. induction keys as [|[did rse] keys IH]; cbn [notify_closed_datasets]; leaves; done. Qed.
#[local] Hint Resolve requests_notify : leaves.
Lemma requests_states l : leaves w_requests (update_replicas_states l).
Proof. leaves. Qed.

Lemma gone_bulk i l : preserves (gone i) (update_bulk_replicas l).
Proof.
  apply preserves_bind; [apply gone_leaves, requests_states|]. intros _. apply preserves_for. intros x _. apply gone_archive.
Qed.
Lemma wpo_and {A} (m : ST World A) Q Q' w : wpo m Q w -> wpo m Q' w -> wpo m (fun a w' => Q a w' /\ Q' a w') w.
Proof. unfold wpo, wp. destruct (m w) as [[a|e] w']; auto. Qed.
Lemma wpo_also {A} (m : ST World A) Q Q' E w : wp m Q E w -> wpo m Q' w -> wp m (fun a w' => Q a w' /\ Q' a w') E w.
Proof. unfold wpo, wp. destruct (m w) as [[a|e] w']; auto. Qed.
Lemma all_gone_archive (d : list Terminated) i w :
  (forall y, y ∈ d -> gone (tm_request_id y) w) -> wpo (archive_request i) (fun _ w' => forall y, y ∈ d -> gone (tm_request_id y) w') w.
Proof. intros Hd. apply wp_modify. intros y Hy. exact (gone_archive (tm_request_id y) i w (Hd y Hy)). Qed.
Lemma bulk_gone l w : wpo (update_bulk_replicas l) (fun _ w' => forall x, x ∈ l -> gone (tm_request_id x) w') w.
Proof.
  apply wpo_bind. eapply wp_mono with (Q := fun _ _ => True) (E := fun _ _ => True); [by apply preserves_True| |done]. intros _ w1 _.
  eapply wp_mono; [apply (wp_for (fun x => archive_request (tm_request_id x)) l (fun d _ w => forall x, x ∈ d -> gone (tm_request_id x) w) (fun _ _ => True))|auto..].
  - intros d x r w2 _ Hd.
    eapply wpo_mono; [exact (wpo_and _ _ _ _ (archive_gone (tm_request_id x) w2) (all_gone_archive d (tm_request_id x) w2 Hd))|].
    intros a w' [H1 H2] y [Hy|Hy%list_elem_of_singleton]%elem_of_app; [by apply H2|by subst].
  - by intros x ?%elem_of_nil.
Qed.

(** ** The finisher *)

Section finishing.
Variables (volatile deterministic : Session -> string -> bool) (pfn_error : Session -> string -> list (DID * string) -> option exn).
Variables (dest_url : nat -> option string) (path_known : nat -> Request -> bool) (retry_protocol_mismatches : bool).
Notation handle_group := (handle_group volatile deterministic pfn_error dest_url).
Notation finish_requests := (finish_requests volatile deterministic pfn_error dest_url path_known retry_protocol_mismatches).

Lemma handle_group_ok l Q w :
  wp (update_bulk_replicas l) (fun _ => Q) (fun _ _ => False) w -> wp (handle_group l) (fun _ => Q) (fun _ _ => False) w.
Proof. unfold wp, Conveyor.handle_group, tryS, transaction. by destruct (update_bulk_replicas l w) as [[[]|e] w']. Qed.

(** The requests that are done, and what becomes of them *)
Definition as_done (x : nat * Request) : Terminated := MkTerminated x.1 x.2 R_AVAILABLE None.
Lemma all_done reqs w :
  (forall x, x ∈ reqs -> rq_state x.2 = Q_DONE /\ path_known x.1 x.2 = true) ->
  concatS (finish_request path_known retry_protocol_mismatches) reqs w = (Ok (as_done <$> reqs), w).
Proof.
  induction reqs as [|[i r] reqs IH]; intros Hd; [done|]. destruct (Hd (i, r)) as [Hs Hp]; [by left|]. cbn in Hs, Hp.
  cbn [concatS]. unfold bindS. cbn [finish_request]. rewrite Hs, Hp. unfold retS. rewrite IH; [done|]. intros x Hx. apply Hd. by right.
Qed.

Lemma firsts_elem {A} `{EqDecision A} (l : list A) x : x ∈ firsts l <-> x ∈ l.
Proof. unfold firsts. rewrite !list_elem_of_In, <-in_rev, <-list_elem_of_In, elem_of_remove_dups, list_elem_of_In, <-in_rev. done. Qed.
Lemma by_type_and_rule_covers reqs l x : x ∈ l -> tm_request x ∈ reqs -> exists g, g ∈ by_type_and_rule reqs l /\ x ∈ g.
Proof.
  intros Hx Hr. exists (List.filter (fun y => bool_decide (type_of (tm_request y) = type_of (tm_request x)) && bool_decide (rule_of (tm_request y) = rule_of (tm_request x))) l).
  split.
  - unfold by_type_and_rule. apply elem_of_concat_map. exists (type_of (tm_request x)). split; [apply firsts_elem, list_elem_of_fmap; eauto|].
    apply list_elem_of_fmap. exists (rule_of (tm_request x)). split; [done|]. apply firsts_elem, list_elem_of_fmap. exists (tm_request x).
    split; [done|]. apply elem_of_filter_bool. split; [done|]. by apply bool_decide_eq_true.
  - apply elem_of_filter_bool. split; [done|]. by rewrite !bool_decide_true.
Qed.

Lemma groups_under_way c k id gs w :
  sound c -> (forall g x, g ∈ gs -> x ∈ g -> tm_state x = R_AVAILABLE /\ has_key k (target x)) ->
  under_way c k id (target <$> concat gs) w ->
  wp (forS handle_group gs) (fun _ w' => under_way c k id [] w' /\ forall g x, g ∈ gs -> x ∈ g -> gone (tm_request_id x) w') (fun _ _ => False) w.
Proof.
  intros Hc Hgs Hw. set (J := fun (d r : list (list Terminated)) w' => under_way c k id (target <$> concat r) w' /\ forall g x, g ∈ d -> x ∈ g -> gone (tm_request_id x) w').
  eapply wp_mono; [apply (wp_for handle_group gs J (fun _ _ => False))|by intros a w' Hj|done].
  - intros d g r w1 -> [Hw1 Hd]. cbn [concat] in Hw1. rewrite fmap_app in Hw1.
    assert (wpo (update_bulk_replicas g) (fun _ w' => forall g x, g ∈ d -> x ∈ g -> gone (tm_request_id x) w') w1) as Hkept.
    { unfold wpo, wp. pose proof (fun i => gone_bulk i g w1) as Hg. unfold wp in Hg. destruct (update_bulk_replicas g w1) as [[[]|e] w2]; [|done].
      intros g' x Hg' Hx. apply Hg. by eapply Hd. }
    assert (forall x, x ∈ g -> tm_state x = R_AVAILABLE /\ has_key k (target x)) as Hg by (intros x Hx; apply (Hgs g); set_solver).
    pose proof (update_bulk_available c k id Hc g (target <$> concat r) w1 Hg Hw1) as Hrun.
    apply handle_group_ok. eapply wp_mono; [exact (wpo_also _ _ _ _ _ Hrun (wpo_and _ _ _ _ (bulk_gone g w1) Hkept))| |done].
    + intros [] w2 (Hw2 & Hnew & Hold). split; [done|]. intros g' x [Hg'| ->%list_elem_of_singleton]%elem_of_app Hx; [by eapply Hold|by apply Hnew].
  - split; [done|]. by intros g x ?%elem_of_nil.
Qed.

End finishing.

(** ** An example: the two transfers of the example end. *)

#[local] Open Scope list_scope.

Definition demo_ended (file rse : string) : Request :=
  MkRequest (MkTransfer rse ("data", file)%string "r1" TRANSFER (Some 0%Z) alice (Some 0%Z) "User" None None None 10 None None (Some 3%Z))
    Q_DONE (Some "A"%string) (Some "job"%string) None None None false None None None 0 0 Persistent.
Definition demo_reqs : list (nat * Request) := [(0, demo_ended "f1" "B"); (1, demo_ended "f2" "C")].
Definition demo_transferred : World := upd_w_requests (fun _ => demo_reqs.*2) demo_world.

