(* ===== verification/RuleErrors.v ===== *)
(** * The errors rules keep

    The column for the error of a rule has 255 characters.  Exceptions, the messages of transfer
    tools and lists of RSEs go there, each cut or joined to what is there already; none that is
    stored is longer than 248 characters, whatever calls come in any order and even when they raise. *)

From S2P Require Import Prelude StateError Counting Types Database Role RseExpression RseSelector RseSelectorFacts LockTables RuleGrouping RuleEngine RuleRepair RuleCreation RuleChanges RuleSteps RuleDemo.

#[local] Open Scope list_scope.

Definition error_fits (error : option string) : Prop :=
  match error with Some e => (String.length e <= 248)%nat | None => True end.
Definition errors_fit_in (w : World) : Prop := forall id r, w_rules w !! id = Some r -> error_fits (ru_error r).

(** ** Walking through the calls *)

Notation fit := (preserves errors_fit_in).
Notation fitg := (preserves (fun g => errors_fit_in (g_world g))).

Lemma substring_short n s : (String.length (String.substring 0 n s) <= n)%nat.
Proof. revert s. induction n as [|n IH]; intros [|a s]; simpl; [lia..|]. specialize (IH s). lia. Qed.

Lemma append_length s t : String.length (s +:+ t) = (String.length s + String.length t)%nat.
Proof. induction s as [|a s IH]; simpl; [done|]. by rewrite IH. Qed.

Lemma shorten_fits message : error_fits (Some (shorten message)).
Proof.
  unfold shorten. simpl. case_bool_decide; [|lia]. rewrite append_length. pose proof (substring_short 245 message). simpl in *. lia.
Qed.

Lemma shorten_option_fits o : error_fits (shorten <$> o).
Proof. destruct o; [apply shorten_fits|done]. Qed.

Lemma fit_world f : (forall w, w_rules (f w) = w_rules w) -> fit (modifyS f).
Proof. intros Hf. apply preserves_modify. unfold errors_fit_in. intros w Hw. by rewrite Hf. Qed.

Lemma fit_alter_rule f id : (forall r, error_fits (ru_error r) -> error_fits (ru_error (f r))) -> fit (alter_rule f id).
Proof.
  intros Hf. apply preserves_modify. intros w Hw id' r. simpl. rewrite lookup_alter_Some.
  intros [(_ & r' & Hr' & ->)|[_ Hr']]; [apply Hf|]; by eapply Hw.
Qed.

Lemma fit_insert r : error_fits (ru_error r) -> fit (modifyS (upd_w_rules (<[ru_id r := r]>))).
Proof.
  intros Hr. apply preserves_modify. intros w Hw id r'. simpl. rewrite lookup_insert_Some. intros [[_ <-]|[_ Hr']]; [done|by eapply Hw].
Qed.

Lemma fit_delete id : fit (modifyS (upd_w_rules (delete id))).
Proof. apply preserves_modify. intros w Hw id' r. simpl. rewrite lookup_delete_Some. intros [_ Hr]. by eapply Hw. Qed.

Lemma fit_pure {A} (f : World -> result A) : fit (fun w => (f w, w)).
Proof. intros w Hw. unfold wp. by destruct (f w). Qed.

Lemma fitg_pure {A} (f : Grouping -> result A) : fitg (fun g => (f g, g)).
Proof. intros g Hg. unfold wp. by destruct (f g). Qed.

Lemma fitg_world {A} (m : ST World A) : fit m -> fitg (on_world m).
Proof. intros Hm g Hg. by apply wp_zoom, Hm. Qed.

Lemma fitg_modify f : (forall g, g_world (f g) = g_world g) -> fitg (modifyS f).
Proof. intros Hf. apply preserves_modify. intros g Hg. by rewrite Hf. Qed.

Create HintDb fits.
#[export] Hint Resolve shorten_fits shorten_option_fits fit_delete fit_pure fitg_pure : fits.

Ltac fits_step :=
  lazymatch goal with
  | |- preserves _ (bindS _ _) => apply preserves_bind; [|intros ?]
  | |- preserves _ (retS _) => apply preserves_ret
  | |- preserves _ skipS => apply preserves_ret
  | |- preserves _ (raiseS _) => apply preserves_raise
  | |- preserves _ (getsS _) => apply preserves_gets
  | |- preserves _ (liftS _) => apply preserves_lift
  | |- preserves _ (whenS _ _) => apply preserves_when
  | |- preserves _ (forS _ _) => apply preserves_for; intros ? _
  | |- preserves _ (concatS _ _) => apply preserves_concat; intros ? _
  | |- preserves _ (tryS _ _) => apply preserves_try; [|let e := fresh in intros e ? ?; destruct e; simplify_eq/=]
  | |- preserves _ (on_world _) => apply fitg_world
  | |- fit (alter_rule _ _) => apply fit_alter_rule; intros ? ?; solve [cbn [upd_ru_error ru_error]; auto with fits|unfold upd_cnt; by case_match|simpl; lia]
  | |- fit (modifyS (upd_w_rules _)) => solve [auto with fits]
  | |- fit (modifyS _) => apply fit_world; intros ?; solve [reflexivity|by repeat case_match]
  | |- fitg (modifyS _) => apply fitg_modify; intros ?; reflexivity
  | |- preserves _ (let '_ := ?x in _) => destruct x
  | |- preserves _ (if ?b then _ else _) => destruct b
  | |- preserves _ (match ?x with _ => _ end) => destruct x
  | |- preserves _ (fun _ => _) => first [solve [auto with fits] | let w := fresh in let Hw := fresh in intros w Hw; unfold wp; solve [repeat case_match; by simplify_eq]]
  | |- preserves _ ?m => first [solve [auto 2 with fits nocore] | unfold_head m; cbv beta zeta]
  end.
Ltac fits := cbv beta zeta; repeat (fits_step; cbv beta zeta).

(** ** Transfers and losses *)

Lemma fit_make_lock l : fit (make_lock l).
Proof. by intros w Hw. Qed.
Lemma fit_make_replica r : fit (make_replica r).
Proof. by intros w Hw. Qed.
#[export] Hint Resolve fit_make_lock fit_make_replica : fits.

Lemma fit_notify rule keys : fit (notify_closed_datasets rule keys).
Proof. induction keys as [|[did rse] keys IH]; simpl; fits; done. Qed.
#[export] Hint Resolve fit_notify : fits.

Lemma fit_successful did rse : fit (successful_transfer did rse).
Proof. fits. Qed.

Lemma fit_failed did rse message rule_id broken : fit (failed_transfer did rse message rule_id broken).
Proof. fits. Qed.

Lemma fit_lost did rse : fit (update_rules_for_lost_replica did rse).
Proof. fits. Qed.

Lemma fit_bad did rse : fit (update_rules_for_bad_replica did rse).
Proof. fits. Qed.

Lemma fit_delete_rule id purge soft parent ignore : fit (delete_rule id purge soft parent ignore).
Proof. fits. Qed.
#[export] Hint Resolve fit_delete_rule : fits.

(** ** Approval *)

Section creating.
Context `{RSEExpressions} `{Random}.
Variables (exn_text : exn -> string) (force_epoch oracle : bool).
Variables (max_partition_size scratchdisk_lifetime : Z) (default_mail_from : option string) (on_thread : nat -> nat -> string -> bool)
  (generate_uuid : World -> string) (auto_approve : World -> Rule -> DIDRow -> result bool).
Variables (known_activity : string -> string -> bool) (refused : list (option string * option string) -> bool).

Lemma fit_not_found {A} (m : ST World A) : fit m -> fit (rule_not_found m).
Proof. intros Hm. apply preserves_try; [done|]. intros [] k [= <-]; apply preserves_raise. Qed.

Lemma fit_approve id approver notify : fit (approve_rule default_mail_from id approver notify).
Proof. apply fit_not_found. fits. Qed.

Lemma fit_deny id approver : fit (deny_rule default_mail_from id approver).
Proof. apply fit_not_found. fits. Qed.

(** ** Locks and replicas *)

Lemma fitg_select size preferred copies blocklist prioritize existing :
  fitg (select_rses size preferred copies blocklist prioritize existing).
Proof. unfold select_rses. intros g Hg. unfold wp. by repeat case_match; simplify_eq. Qed.
Lemma fitg_file_locks did : fitg (file_locks did).
Proof. apply fitg_pure. Qed.
Lemma fitg_file_replicas did : fitg (file_replicas did).
Proof. apply fitg_pure. Qed.
Lemma fitg_record_lock rse did i : fitg (record_lock rse did i).
Proof. intros g Hg. unfold wp, record_lock. cbv zeta. by repeat case_match; simplify_eq. Qed.
Lemma fitg_record_replica rse did i : fitg (record_replica rse did i).
Proof. intros g Hg. unfold wp, record_replica. cbv zeta. by repeat case_match; simplify_eq. Qed.
#[local] Hint Resolve fitg_select fitg_file_locks fitg_file_replicas fitg_record_lock fitg_record_replica : fits.

Lemma fitg_lock_on rule sources d dataset file rse : fitg (lock_on rule sources d dataset file rse).
Proof. fits. Qed.
#[local] Hint Resolve fitg_lock_on : fits.

Lemma fitg_apply rule sources d preferred datasets : fitg (apply_rule_grouping rule sources d preferred datasets).
Proof. fits. Qed.
#[local] Hint Resolve fitg_apply : fits.

Lemma fitg_flush rule : fitg (flush_objects rule).
Proof. fits. Qed.
#[local] Hint Resolve fitg_flush : fits.

(** Parts on the objects of files *)
Lemma fit_part {A B} (m : ST Grouping A) (start : World -> Grouping) (f : result A -> result B) :
  (forall w, g_world (start w) = w) -> fitg m -> fit (fun w => let '(x, g) := m (start w) in (f x, g_world g)).
Proof.
  intros Hs Hm w Hw. specialize (Hm (start w)). cbn beta in Hm. rewrite Hs in Hm. specialize (Hm Hw). unfold wp in *.
  destruct (m (start w)) as [[a|e] g]; by destruct (f _).
Qed.

Lemma fit_with_objects {A} sel r (m : ST Grouping A) : fitg m -> fit (with_objects sel r m).
Proof. by apply (fit_part m _ id). Qed.

(** ** Repairs and new files *)

Lemma fit_repair id : fit (repair_rule exn_text id).
Proof.
  assert (forall rule d sources todo done, fitg (find_missing_locks_and_create_them rule d sources done todo)) as Hmissing.
  { intros rule d sources todo. induction todo as [|ds todo IH]; intros l; simpl; fits; auto. }
  fits; apply fit_with_objects; fits.
Qed.

Lemma fit_re_evaluate did action : fit (re_evaluate_did exn_text force_epoch oracle did action).
Proof. fits; apply fit_with_objects; fits. Qed.

(** ** New rules *)

Lemma fit_apply_rule rule rses sources did t sel draws :
  fit (apply_rule max_partition_size on_thread rule rses sources did t sel draws).
Proof.
  unfold apply_rule. apply (fit_part _ (fun w => MkGrouping w sel draws ∅ ∅ [] [] [] []) id); [done|].
  assert (forall ps dataset tuples n used counts, fitg (apply_partitions on_thread rule rses sources dataset tuples n ps used counts)) as Hps.
  { intros ps. induction ps as [|p ps IH]; intros; simpl; fits; auto. }
  assert (forall dss tuples used counts,
    fitg (apply_to_datasets max_partition_size on_thread rule rses sources tuples used counts dss)) as Hds.
  { intros dss. induction dss as [|ds dss IH]; intros; simpl; fits; auto. }
  fits.
Qed.

Lemma fit_add_rules o p sel draws asynchronous dids :
  fit (add_rules_for max_partition_size default_mail_from on_thread generate_uuid auto_approve o p sel draws asynchronous dids).
Proof.
  assert (forall o id p t did type, fit (save_rule (new_rule o id p t did type))) as Hsave.
  { intros. unfold save_rule. apply preserves_bind; [fits|]. intros w. repeat apply preserves_if; [fits|by apply fit_insert|fits]. }
  pose proof fit_apply_rule. pose proof fit_approve.
  revert sel draws asynchronous. induction dids as [|did dids IH]; intros; simpl; fits; auto.
Qed.

Lemma fit_inject id :
  fit (inject_rule max_partition_size scratchdisk_lifetime default_mail_from on_thread generate_uuid auto_approve id).
Proof. pose proof fit_apply_rule. pose proof fit_add_rules. fits; auto. Qed.

(** ** All calls *)

Inductive call :=
  | Happens (e : event)
  | Inject (rule_id : string)
  | Repair (rule_id : string)
  | ReEvaluate (did : DID) (action : DIDReEvaluation)
  | Update (rule_id : string) (options : list RuleOption)
  | Reduce (rule_id : string) (copies : Z) (exclude_expression : option string)
  | Move (rule_id rse_expression : string) (override : Overrides).

Definition perform (c : call) : ST World unit :=
  match c with
  | Happens e =>
      run exn_text force_epoch oracle max_partition_size scratchdisk_lifetime default_mail_from on_thread generate_uuid auto_approve e
  | Inject id => inject_rule max_partition_size scratchdisk_lifetime default_mail_from on_thread generate_uuid auto_approve id
  | Repair id => repair_rule exn_text id
  | ReEvaluate did action => re_evaluate_did exn_text force_epoch oracle did action
  | Update id options => update_rule scratchdisk_lifetime known_activity refused id options
  | Reduce id copies exclude =>
      do! reduce_rule scratchdisk_lifetime max_partition_size default_mail_from on_thread generate_uuid auto_approve id copies exclude in skipS
  | Move id e override =>
      do! move_rule scratchdisk_lifetime known_activity refused max_partition_size default_mail_from on_thread generate_uuid auto_approve
            id e override in skipS
  end.

(** The state after calls, with what those that raised had changed *)
Fixpoint after (cs : list call) (w : World) : World :=
  match cs with
  | [] => w
  | c :: cs => after cs (perform c w).2
  end.

Lemma fit_update id options : fit (update_rule scratchdisk_lifetime known_activity refused id options).
Proof. fits. Qed.
Lemma fit_add_replacement did o :
  fit (add_replacement scratchdisk_lifetime max_partition_size default_mail_from on_thread generate_uuid auto_approve did o).
Proof. pose proof fit_add_rules. unfold add_replacement, add_rule. fits; auto. Qed.

Lemma fit_perform c : fit (perform c).
Proof.
  pose proof fit_add_rules. pose proof fit_successful. pose proof fit_failed. pose proof fit_lost. pose proof fit_bad.
  pose proof fit_approve. pose proof fit_deny. pose proof fit_update. pose proof fit_add_replacement.
  destruct c as [[]|id|id|did action|id options|id copies exclude|id e override]; simpl; auto using fit_re_evaluate, fit_inject, fit_repair with fits.
  - unfold add_rule. fits; auto.
  - fits; auto.
  - fits; auto.
Qed.

(** C39: No error the engine stores in a rule is longer than 248 characters, the column being of 255: not
    the message of a transfer tool or of an exception, however long, not the list of RSEs a rule
    holds against its expression, and not what is added to an error that is there. *)
Theorem errors_fit cs w id r :
  errors_fit_in w -> w_rules (after cs w) !! id = Some r -> error_fits (ru_error r).
Proof.
  intros Hw. enough (errors_fit_in (after cs w)) as Hall by apply Hall. revert w Hw.
  induction cs as [|c cs IH]; intros w Hw; [done|]. simpl. apply IH. pose proof (fit_perform c w Hw) as Hc.
  unfold wp in Hc. by destruct (perform c w) as [[] ?].
Qed.
End creating.

(** ** An example *)

(** A transfer fails with a long message, and the rule is repaired. *)
Definition long_message : string := String.concat "" (replicate 30 "no route to host"%string).
Definition demo_calls : list call :=
  [Happens (Failed ("data", "f1") "B" (Some long_message) None None)]%string.
Definition demo_errors : World :=
  @after name_expressions low_draws no_text false false 100 14 None whole next_id (@default_auto_approve name_expressions) (fun _ _ => true) (fun _ => false) demo_calls demo_world.

Lemma errors_fit_witness :
  exists r, w_rules demo_errors !! "r1"%string = Some r /\ ru_state r = RS_STUCK /\ (String.length <$> ru_error r) = Some 248%nat /\
    error_fits (ru_error r).
Proof.
  eexists. split; [by vm_compute|]. split; [done|]. split; [done|].
  apply (@errors_fit name_expressions low_draws no_text false false 100 14 None whole next_id
           (@default_auto_approve name_expressions) (fun _ _ => true) (fun _ => false) demo_calls demo_world "r1"); [|by vm_compute].
  intros id r Hr. simpl in Hr. by apply lookup_singleton_Some in Hr as [_ <-].
Defined.
