(* ===== verification/RuleCopies.v ===== *)
(** * As many copies as a rule asks for

    How the groupings put the locks of a rule on files: what is left of the state is the RSEs on
    which each file is locked for the rule, and the RSEs of the selector. *)

From S2P Require Import Prelude StateError PyFloat Types Database RseSelector RseSelectorFacts LockTables RuleGrouping RuleEvents RuleApply RuleDemo.

#[local] Open Scope list_scope.

(** ** The locks of files *)

(** The rule and the RSE of every lock object, the locks known for each file, and the RSEs of the
    selector with their weights *)
Record Books := MkBooks {
  b_tags : list (string * string);
  b_locks : gmap DID (list nat);
  b_rses : list (string * float);
  b_copies : Z;
}.
Definition tag (l : Lock) : string * string := (lk_rule_id l, lk_rse_id l).
Definition books (g : Grouping) : Books :=
  MkBooks (tag <$> w_locks (g_world g)) (g_locks g) ((fun c => (c_rse_id c, c_weight c)) <$> sel_rses (g_selector g))
    (sel_copies (g_selector g)).

(** The RSEs where the file is locked for the rule *)
Definition rses_of (rule_id : string) (tags : list (string * string)) (addrs : list nat) : list string :=
  omap (fun i => t ← tags !! i; if bool_decide (t.1 = rule_id) then Some t.2 else None) addrs.
Definition held (rule_id : string) (b : Books) (did : DID) : list string :=
  rses_of rule_id (b_tags b) (default [] (b_locks b !! did)).

(** The locks known are objects. *)
Definition addresses_ok (b : Books) : Prop :=
  forall did js i, b_locks b !! did = Some js -> i ∈ js -> (i < length (b_tags b))%nat.

Definition add_tag (did : DID) (t : string * string) (b : Books) : Books :=
  MkBooks (b_tags b ++ [t]) (alter (fun js : list nat => js ++ [length (b_tags b)]) did (b_locks b)) (b_rses b) (b_copies b).

Lemma add_tag_addresses did t b : addresses_ok b -> addresses_ok (add_tag did t b).
Proof.
  intros Hok did' js i Hjs Hi. cbn [add_tag b_tags b_locks] in *. rewrite length_app, Nat.add_1_r.
  apply lookup_alter_Some in Hjs as [(-> & js' & Hjs & ->)|[_ Hjs]].
  - apply elem_of_app in Hi as [Hi|Hi%list_elem_of_singleton]; [|lia]. specialize (Hok _ _ _ Hjs Hi). lia.
  - specialize (Hok _ _ _ Hjs Hi). lia.
Qed.

Lemma rses_of_app (rule_id : string) (tags tags' : list (string * string)) (addrs : list nat) :
  (forall i, i ∈ addrs -> (i < length tags)%nat) -> rses_of rule_id (tags ++ tags') addrs = rses_of rule_id tags addrs.
Proof.
  induction addrs as [|i addrs IH]; [done|]. intros Hin. unfold rses_of in *. simpl.
  rewrite lookup_app_l by (apply Hin; left). destruct (tags !! i ≫= _); [f_equal|]; apply IH; intros j Hj; apply Hin; by right.
Qed.

Lemma rses_of_snoc (rule_id : string) tags (addrs : list nat) i :
  rses_of rule_id tags (addrs ++ [i]) = rses_of rule_id tags addrs ++ rses_of rule_id tags [i].
Proof.
  unfold rses_of. induction addrs as [|j addrs IH]; [done|]. cbn [app omap list_omap]. rewrite IH. by destruct (tags !! j ≫= _).
Qed.

Lemma held_add_tag rule_id did t b did' :
  addresses_ok b -> is_Some (b_locks b !! did) ->
  held rule_id (add_tag did t b) did' =
    held rule_id b did' ++ (if bool_decide (did' = did /\ t.1 = rule_id) then [t.2] else []).
Proof.
  intros Hok [js Hjs]. unfold held. cbn [add_tag b_tags b_locks].
  destruct (decide (did' = did)) as [->|Hne].
  - rewrite lookup_alter_eq, Hjs. simpl. rewrite rses_of_snoc, rses_of_app by (by intros i Hi; eapply Hok).
    f_equal. unfold rses_of. simpl. rewrite lookup_app_r, Nat.sub_diag by done. simpl. repeat case_bool_decide; naive_solver.
  - rewrite lookup_alter_ne by done. rewrite bool_decide_false by naive_solver. rewrite app_nil_r.
    apply rses_of_app. intros i Hi. destruct (b_locks b !! did') as [js'|] eqn:Hjs'; [by eapply Hok|by apply not_elem_of_nil in Hi].
Qed.

(** ** Computations that leave the books as they are *)

Definition quiet {A} (m : ST Grouping A) : Prop := forall b, preserves (fun g => books g = b) m.

Lemma quiet_ret {A} (a : A) : quiet (retS a).
Proof. intros b. apply preserves_ret. Qed.
Lemma quiet_gets {A} (f : Grouping -> A) : quiet (getsS f).
Proof. intros b. apply preserves_gets. Qed.
Lemma quiet_lift {A} (r : result A) : quiet (liftS r).
Proof. intros b. apply preserves_lift. Qed.
Lemma quiet_bind {A B} (m : ST Grouping A) (f : A -> ST Grouping B) : quiet m -> (forall a, quiet (f a)) -> quiet (bindS m f).
Proof. intros Hm Hf b. apply preserves_bind; [apply Hm|]. intros a. apply Hf. Qed.
Lemma quiet_when c m : quiet m -> quiet (whenS c m).
Proof. destruct c; [done|]. intros _. apply quiet_ret. Qed.
Lemma quiet_modify f : (forall g, books (f g) = books g) -> quiet (modifyS f).
Proof. intros Hf b. apply preserves_modify. intros g <-. apply Hf. Qed.
Lemma quiet_for {A} (f : A -> ST Grouping unit) l : (forall a, quiet (f a)) -> quiet (forS f l).
Proof. intros Hf b. apply preserves_for. intros a _. apply Hf. Qed.
Lemma quiet_concat {A B} (f : A -> ST Grouping (list B)) l : (forall a, quiet (f a)) -> quiet (concatS f l).
Proof. intros Hf b. apply preserves_concat. intros a _. apply Hf. Qed.
(** A computation on the database that leaves the locks what they are *)
Lemma quiet_world {A} (m : ST World A) : (forall tags, preserves (fun w => tag <$> w_locks w = tags) m) -> quiet (on_world m).
Proof.
  intros Hm b g Hg. apply wp_zoom. eapply wp_mono; [apply (Hm (tag <$> w_locks (g_world g))); done| |];
    intros x w Hw; rewrite <-Hg; unfold books; cbn [g_world g_locks g_selector upd_g_world]; by rewrite Hw.
Qed.
Lemma quiet_update f : (forall w, w_locks (f w) = w_locks w) -> quiet (on_world (modifyS f)).
Proof. intros Hf. apply quiet_world. intros tags. apply preserves_modify. intros w <-. by rewrite Hf. Qed.
Lemma quiet_look {A} (m : ST World A) : (forall w, (m w).2 = w) -> quiet (on_world m).
Proof.
  intros Hm. apply quiet_world. intros tags w Hw. unfold wp. specialize (Hm w). destruct (m w) as [r w']. simpl in Hm. subst w'.
  by destruct r.
Qed.

Create HintDb books.
#[export] Hint Resolve quiet_ret quiet_gets quiet_lift quiet_bind quiet_when quiet_for quiet_concat : books.

Lemma quiet_transfer t : quiet (add_transfer t).
Proof. by apply quiet_modify. Qed.
Lemma quiet_rse_name rse_id : quiet (on_world (get_rse_name rse_id)).
Proof. apply quiet_look. intros w. unfold get_rse_name, bindS, getsS, liftS. done. Qed.
Lemma quiet_file_replicas did : quiet (file_replicas did).
Proof. intros b g Hg. unfold wp, file_replicas. by destruct (mapR _ _). Qed.
Lemma quiet_file_locks did : quiet (file_locks did).
Proof. intros b g Hg. unfold wp, file_locks. by destruct (mapR _ _). Qed.
Lemma quiet_rule_locks rule did : quiet (rule_locks rule did).
Proof. apply quiet_bind; [apply quiet_file_locks|]. intros ls. apply quiet_ret. Qed.
Lemma quiet_create_replica rse_id file state : quiet (on_world (create_replica rse_id file state)).
Proof. apply quiet_world. intros tags w Hw. exact Hw. Qed.
Lemma quiet_record_replica rse_id did i : quiet (record_replica rse_id did i).
Proof. intros b g Hg. unfold wp, record_replica. cbn [g_replicas upd_g_replicas_to_create]. by destruct (g_replicas g !! did). Qed.
Lemma quiet_lock_at i : quiet (on_world (lock_at i)).
Proof. apply quiet_look. intros w. unfold lock_at. by destruct (w_locks w !! i). Qed.
Lemma quiet_alter_rule f id : quiet (on_world (alter_rule f id)).
Proof. by apply quiet_update. Qed.
Lemma quiet_alter_replica f j : quiet (on_world (alter_replica f j)).
Proof. by apply quiet_update. Qed.
Lemma quiet_dataset_lock rule dataset n rse_id : quiet (on_world (add_dataset_lock rule dataset n rse_id)).
Proof.
  destruct dataset as [did|]; [|by apply quiet_look]. apply quiet_update. intros w. destruct (w_dataset_locks w !! _); [done|].
  by destruct (w_dids w !! did).
Qed.
Lemma quiet_collection_replica dataset rse_id : quiet (on_world (add_collection_replica dataset rse_id)).
Proof.
  destruct dataset as [did|]; [|by apply quiet_look]. apply quiet_update. intros w. by destruct (w_collection_replicas w !! _).
Qed.
#[export] Hint Resolve quiet_transfer quiet_rse_name quiet_file_replicas quiet_rule_locks quiet_create_replica quiet_record_replica
  quiet_lock_at quiet_alter_rule quiet_alter_replica quiet_dataset_lock quiet_collection_replica : books.

Lemma wpg_quiet {A B} (m : ST Grouping A) (f : A -> ST Grouping B) Q g :
  quiet m -> (forall a g', books g' = books g -> wpg (f a) Q g') -> wpg (bindS m f) Q g.
Proof. intros Hm Hf. apply wpg_bind. eapply wp_mono; [by apply (Hm (books g))|exact Hf|done]. Qed.
Lemma wpg_done {A} (m : ST Grouping A) (P : Books -> Prop) g : quiet m -> P (books g) -> wpg m (fun _ g' => P (books g')) g.
Proof. intros Hm HP. eapply wp_mono; [by apply (Hm (books g))| |done]. by intros a g' ->. Qed.

(** ** A lock and its replica *)

(** One lock of the rule is made for a file. *)
Definition one_lock (did : DID) (t : string * string) {A} (m : ST Grouping A) : Prop :=
  forall g, wpg m (fun _ g' => is_Some (b_locks (books g) !! did) /\ books g' = add_tag did t (books g)) g.

Lemma one_lock_after {A B} did t (m : ST Grouping A) (f : A -> ST Grouping B) :
  quiet m -> (forall a, one_lock did t (f a)) -> one_lock did t (bindS m f).
Proof. intros Hm Hf g. apply wpg_quiet; [done|]. intros a g' Hg'. rewrite <-Hg'. apply Hf. Qed.
Lemma one_lock_before {A B} did t (m : ST Grouping A) (f : A -> ST Grouping B) :
  one_lock did t m -> (forall a, quiet (f a)) -> one_lock did t (bindS m f).
Proof.
  intros Hm Hf g. apply wpg_bind. eapply wpg_mono; [apply Hm|]. intros a g' [Hin Hg']. cbn beta in *.
  apply (wpg_done _ (fun b => is_Some (b_locks (books g) !! did) /\ b = _)); [apply Hf|by split].
Qed.

Lemma new_lock_one rule rse_id did bytes state j :
  one_lock did (ru_id rule, rse_id)
    (let! i := on_world (create_lock rule rse_id did bytes state j) in
     do! record_lock rse_id did i in on_world (lock_at i)).
Proof.
  intros g. apply wpg_bind, wpg_world, wp_bind. unfold wp at 1, make_lock.
  apply wp_bind. eapply (wp_mono _ (fun _ w => tag <$> w_locks w = (tag <$> w_locks (g_world g)) ++ [(ru_id rule, rse_id)])
                            _ (fun _ _ => True)); [|intros [] w Hw; apply wp_ret|done].
  { destruct state; cbn [fst snd]; apply wp_bind; unfold alter_replica, alter_rule; rewrite wp_modify; apply wp_modify; simpl; by rewrite fmap_app. }
  cbn [fst snd]. apply wpg_bind. unfold wpg at 1, wp, record_lock. cbn [g_locks g_world upd_g_world upd_g_locks_to_create].
  destruct (g_locks g !! did) as [js|] eqn:Hjs; [|done].
  apply (wpg_done _ (fun b => is_Some (b_locks (books g) !! did) /\ b = _)); [auto with books|]. split; [by eexists|].
  unfold books, add_tag. cbn [g_world g_locks g_selector upd_g_world upd_g_locks upd_g_locks_to_create b_tags b_locks b_rses b_copies].
  rewrite Hw, length_fmap. f_equal. apply map_eq. intros did'. destruct (decide (did' = did)) as [->|Hne].
  - by rewrite lookup_insert_eq, lookup_alter_eq, Hjs.
  - by rewrite lookup_insert_ne, lookup_alter_ne.
Qed.

Lemma create_one rule source_rses source_replicas dataset file rse :
  one_lock (f_did file) (ru_id rule, rse.1.1) (create_lock_and_replica rule source_rses source_replicas dataset file rse).
Proof.
  destruct rse as [[rse_id staging_area] availability_write]. unfold create_lock_and_replica. cbn [fst].
  apply one_lock_after; [auto with books|]. intros t. apply one_lock_after; [auto with books|]. intros _.
  apply one_lock_after; [apply quiet_gets|]. intros attr. apply one_lock_after; [apply quiet_gets|]. intros pin0.
  apply one_lock_after; [destruct (attribute_true attr); auto 8 with books|]. intros pin.
  apply one_lock_after; [auto with books|]. intros all. cbn zeta.
  destruct (List.filter _ all) as [|[j r] ?].
  - apply one_lock_after; [auto with books|]. intros replica. apply one_lock_after; [auto with books|]. intros _.
    apply one_lock_before; [apply new_lock_one|]. intros l. destruct (_ || _); auto with books.
  - destruct (rp_state r); (apply one_lock_before; [apply new_lock_one|]); intros made;
      try destruct (attribute_true attr); try destruct (_ && _); auto with books.
Qed.

(** ** What the groupings look at *)

Lemma rule_locks_held (rule : Rule) heap (addrs : list nat) :
  (fun l : nat * Lock => lk_rse_id l.2) <$> List.filter (of_rule rule) (objects heap addrs) = rses_of (ru_id rule) (tag <$> heap) addrs.
Proof.
  induction addrs as [|i addrs IH]; [done|]. unfold objects, rses_of in *. cbn [omap list_omap]. rewrite list_lookup_fmap.
  destruct (heap !! i) as [l|]; [|done]. cbn [fmap option_fmap option_map List.filter]. unfold of_rule at 1. cbn [snd].
  destruct (bool_decide (lk_rule_id l = ru_id rule)) eqn:Hr; rewrite ?fmap_cons, IH; simpl; by rewrite Hr.
Qed.

Lemma wpg_rule_locks rule did g :
  wpg (rule_locks rule did) (fun ls g' => books g' = books g /\ (fun l : nat * Lock => lk_rse_id l.2) <$> ls = held (ru_id rule) (books g) did) g.
Proof.
  unfold wpg, wp, rule_locks, bindS, file_locks. destruct (g_locks g !! did) as [js|] eqn:Hjs; [|done]. simpl. split; [done|].
  unfold held, books. cbn [b_locks b_tags]. rewrite Hjs. apply rule_locks_held.
Qed.

Lemma count_once {A} (h : A -> string) r (ls : list A) :
  NoDup (h <$> ls) -> bool_decide (length (List.filter (fun l => bool_decide (h l = r)) ls) = 1%nat) = bool_decide (r ∈ h <$> ls).
Proof.
  induction ls as [|l ls IH]; [by intros _; rewrite (bool_decide_false (_ ∈ _)) by apply not_elem_of_nil|].
  rewrite fmap_cons. intros [Hl Hls]%NoDup_cons. cbn [List.filter]. destruct (decide (h l = r)) as [Hr|Hr].
  - subst r. rewrite (bool_decide_true (h l = h l)), (bool_decide_true (_ ∈ _)) by (done || left). cbn [length]. rewrite bool_decide_true; [done|]. f_equal.
    enough (List.filter (fun l' => bool_decide (h l' = h l)) ls = []) as -> by done.
    clear IH Hls. induction ls as [|x ls IH]; [done|]. simpl. rewrite bool_decide_false.
    + apply IH. intros Hin. apply Hl. by right.
    + intros Hx. apply Hl. rewrite fmap_cons, Hx. left.
  - rewrite (bool_decide_false (h l = r)), IH by done. apply bool_decide_ext. rewrite elem_of_cons. naive_solver.
Qed.

(** A list of RSEs is extended by one that is not there. *)
Definition add_rse (s : list string) (r : string) : list string := if bool_decide (r ∈ s) then s else s ++ [r].

Lemma add_rse_NoDup s r : NoDup s -> NoDup (add_rse s r).
Proof.
  intros Hs. unfold add_rse. case_bool_decide as Hr; [done|]. apply NoDup_app. split_and!; [done| |apply NoDup_singleton].
  by intros x Hx ->%list_elem_of_singleton.
Qed.
Lemma add_rse_elem s r x : x ∈ add_rse s r <-> x ∈ s \/ x = r.
Proof. unfold add_rse. case_bool_decide; [naive_solver|]. by rewrite elem_of_app, list_elem_of_singleton. Qed.
Lemma add_rse_prefix s r : s `prefix_of` add_rse s r.
Proof. unfold add_rse. case_bool_decide; [done|by apply prefix_app_r]. Qed.

Lemma add_rse_again s r : add_rse (add_rse s r) r = add_rse s r.
Proof. unfold add_rse at 1. rewrite bool_decide_true; [done|]. apply add_rse_elem. by right. Qed.

Section copies.
Context `{Random}.
Variables (rule : Rule) (source_rses : list string) (source_replicas : gmap DID (list string)) (preferred_rse_ids : list string).
Variables (did : DID) (rs : list (string * float)).
Notation copies := (ru_copies rule).
Implicit Types (s : list string) (r : string).

(** The RSEs and the copies of the selector are those given, and the file is locked on [s]. *)
Definition locked_on s (g : Grouping) : Prop :=
  addresses_ok (books g) /\ b_rses (books g) = rs /\ b_copies (books g) = copies /\ held (ru_id rule) (books g) did = s.

Lemma locked_on_same s g g' : books g' = books g -> locked_on s g -> locked_on s g'.
Proof. unfold locked_on. by intros ->. Qed.

Lemma wpg_quiet_on {A B} (m : ST Grouping A) (f : A -> ST Grouping B) Q s g :
  quiet m -> locked_on s g -> (forall a g', locked_on s g' -> wpg (f a) Q g') -> wpg (bindS m f) Q g.
Proof. intros Hm Hg Hf. apply wpg_quiet; [done|]. intros a g' Hb. apply Hf. by eapply locked_on_same. Qed.
Lemma wpg_end_on {A} (m : ST Grouping A) s g : quiet m -> locked_on s g -> wpg m (fun _ => locked_on s) g.
Proof. intros Hm Hg. eapply wp_mono; [by apply (Hm (books g))| |done]. intros a g' Hb. exact (locked_on_same s g g' Hb Hg). Qed.

Lemma wpg_full_on s g d :
  locked_on s g -> wpg (has_all_copies rule d) (fun b g' => locked_on s g' /\ (d = did -> b = bool_decide (Z.of_nat (length s) = copies))) g.
Proof.
  intros Hg. apply wpg_bind. eapply wpg_mono; [apply wpg_rule_locks|]. intros ls g' [Hb Hls]. apply wp_ret.
  split; [by eapply locked_on_same|]. intros ->. destruct Hg as (_ & _ & _ & <-). by rewrite <-Hls, length_fmap.
Qed.

(** A lock of another file, or a lock of this one *)
Lemma create_on s g dataset file rse :
  locked_on s g ->
  wpg (create_lock_and_replica rule source_rses source_replicas dataset file rse)
    (fun _ => locked_on (if bool_decide (f_did file = did) then s ++ [rse.1.1] else s)) g.
Proof.
  intros (Hok & Hrs & Hn & Hs). eapply wpg_mono; [apply create_one|]. intros _ g' [Hin Hb]. unfold locked_on. rewrite Hb.
  split_and!; [by apply add_tag_addresses|done|done|]. rewrite held_add_tag, Hs by done. cbn [fst snd].
  rewrite (bool_decide_ext (did = f_did file /\ ru_id rule = ru_id rule) (f_did file = did)) by naive_solver.
  destruct (bool_decide _); [done|by rewrite app_nil_r].
Qed.

(** The lock of the rule on an RSE, unless there is one: [k] and [k'] are what is done then. *)
Lemma lock_unless_on {A} s g dataset file (rse : Chosen) (k : A) (k' : bool -> A) :
  NoDup s -> locked_on s g ->
  wpg (let! ls := rule_locks rule (f_did file) in
       if bool_decide (length (List.filter (fun l => bool_decide (lk_rse_id l.2 = rse.1.1)) ls) = 1%nat) then retS k
       else let! b := create_lock_and_replica rule source_rses source_replicas dataset file rse in retS (k' b))
    (fun _ => locked_on (if bool_decide (f_did file = did) then add_rse s rse.1.1 else s)) g.
Proof.
  intros Hnd Hg. apply wpg_bind. eapply wpg_mono; [apply wpg_rule_locks|]. intros ls g' [Hb Hls].
  assert (locked_on s g') as Hg' by by eapply locked_on_same. destruct Hg as (_ & _ & _ & Hs).
  destruct (bool_decide (f_did file = did)) eqn:Hd.
  - apply bool_decide_eq_true in Hd as Hd'. rewrite Hd', Hs in Hls.
    rewrite (count_once (fun l : nat * Lock => lk_rse_id l.2) rse.1.1 ls), Hls by by rewrite Hls. unfold add_rse. destruct (bool_decide (_ ∈ s)); [done|].
    apply wpg_bind. eapply wpg_mono; [by apply create_on|]. intros b g''. rewrite Hd. by intros Hg''.
  - destruct (bool_decide (length _ = 1%nat)); [done|]. apply wpg_bind. eapply wpg_mono; [by apply create_on|]. intros b g''. rewrite Hd. by intros Hg''.
Qed.

(** *** The files of a dataset on an RSE *)

Definition fill s r : list string := if bool_decide (Z.of_nat (length s) = copies) then s else add_rse s r.

Lemma fill_NoDup s r : NoDup s -> NoDup (fill s r).
Proof. unfold fill. case_bool_decide; [done|apply add_rse_NoDup]. Qed.
Lemma fill_fill s r : fill (fill s r) r = fill s r.
Proof.
  unfold fill. destruct (bool_decide (Z.of_nat (length s) = copies)) eqn:Hs; [by rewrite Hs|].
  destruct (bool_decide (Z.of_nat (length (add_rse s r)) = copies)); [done|]. apply add_rse_again.
Qed.

(** A loop over things that may contain the file *)
Lemma for_fill {A} (f : A -> ST Grouping unit) (has : A -> bool) r l s g :
  (forall a s g, NoDup s -> locked_on s g -> wpg (f a) (fun _ => locked_on (if has a then fill s r else s)) g) ->
  NoDup s -> locked_on s g -> wpg (forS f l) (fun _ => locked_on (if existsb has l then fill s r else s)) g.
Proof.
  intros Hf. revert s g. induction l as [|a l IH]; intros s g Hnd Hg; [done|]. apply wpg_bind.
  eapply wpg_mono; [by apply Hf|]. intros [] g' Hg'. cbn [existsb]. destruct (has a); [|by apply IH].
  eapply wpg_mono; [apply (IH (fill s r)); [by apply fill_NoDup|done]|]. intros [] g''. cbn [orb]. by destruct (existsb has l); rewrite ?fill_fill.
Qed.

Definition in_dataset (ds : DatasetFiles) : bool := existsb (fun file => bool_decide (f_did file = did)) (ds_files ds).

Lemma lock_files_on s g rse ds :
  NoDup s -> locked_on s g ->
  wpg (lock_files rule source_rses source_replicas rse ds) (fun _ => locked_on (if in_dataset ds then fill s rse.1.1 else s)) g.
Proof.
  apply for_fill. clear s g. intros file s g Hnd Hg. apply wpg_bind. eapply wpg_mono; [by apply wpg_full_on|].
  intros full g' [Hg' Hfull]. cbn beta in *. unfold fill. destruct (bool_decide (f_did file = did)) eqn:Hd.
  - rewrite <-Hfull by by apply bool_decide_eq_true in Hd. destruct full; [done|].
    eapply wpg_mono; [apply (lock_unless_on s g' (ds_did ds) file rse tt (fun _ => tt)); done|]. intros [] g''. by rewrite Hd.
  - destruct full; [done|].
    eapply wpg_mono; [apply (lock_unless_on s g' (ds_did ds) file rse tt (fun _ => tt)); done|]. intros [] g''. by rewrite Hd.
Qed.

(** *** A selection *)

Definition rses_fit : Prop := NoDup rs.*1 /\ Forall (fun c => nonneg c.2 = true) rs.
Definition chosen_well (l : list string) : Prop := length l = Z.to_nat copies /\ NoDup l /\ l ⊆ rs.*1.

Lemma charged_books size picks (l : list Candidate) :
  (fun c => (c_rse_id c, c_weight c)) <$> charge_chosen size picks l = (fun c => (c_rse_id c, c_weight c)) <$> l.
Proof.
  unfold charge_chosen. rewrite <-list_fmap_compose. apply list_fmap_ext. intros i c _. simpl. by destruct (bool_decide _).
Qed.

Lemma select_on s g size prefer blocklist prio existing :
  rses_fit -> locked_on s g ->
  wpg (select_rses size prefer 0 blocklist prio existing) (fun chosen g' => locked_on s g' /\ chosen_well chosen.*1.*1) g.
Proof.
  intros [Hnd Hw] Hg. assert (Hg0 := Hg). destruct Hg0 as (Hok & Hrs & Hn & Hs). unfold wpg, wp, select_rses.
  pose proof (select_rse_spec (g_selector g) (g_draws g) size prefer 0 blocklist prio (list_to_map existing)) as Hspec.
  assert (rs.*1 = c_rse_id <$> sel_rses (g_selector g)) as Hids by (by rewrite <-Hrs; unfold books; cbn; rewrite <-list_fmap_compose).
  destruct (select_rse _ _ _ _ _ _ _ _) as [[chosen sel']|e] eqn:Hsel; [|done].
  destruct Hspec as (Hlen & Hndc & _ & Hin & _ & ->).
  - by rewrite <-Hids.
  - unfold weights_ok. rewrite <-Hrs in Hw. unfold books in Hw. cbn [b_rses] in Hw. by rewrite Forall_fmap in Hw.
  - split.
    + unfold locked_on, books in *. cbn [g_world g_locks g_selector upd_g_selector upd_g_draws b_rses b_copies b_tags b_locks sel_rses sel_copies] in *.
      by rewrite charged_books.
    + unfold chosen_well. split_and!; [|done|].
      { rewrite !length_fmap. etrans; [exact Hlen|]. rewrite bool_decide_true by done. rewrite <-Hn. done. }
      intros x (y & -> & (c & -> & Hc)%list_elem_of_fmap)%list_elem_of_fmap. destruct (Hin c Hc) as (cand & Hcand & ->). simpl.
      rewrite Hids. apply list_elem_of_fmap_2. by do 4 apply elem_of_filter_bool in Hcand as [Hcand _].
Qed.

(** *** Enough copies *)

(** The file was locked on distinct RSEs, not too many. *)
Definition ready s : Prop := NoDup s /\ (Z.of_nat (length s) <= copies)%Z.
(** Without grouping, a file that had some of its locks gets as many as if it had none. *)
Definition exact s0 : Prop := ru_grouping rule <> G_NONE \/ s0 = [] \/ Z.of_nat (length s0) = copies.
Definition copied s0 s : Prop :=
  NoDup s /\ s0 `prefix_of` s /\ (copies <= Z.of_nat (length s))%Z /\ (exact s0 -> Z.of_nat (length s) = copies) /\
  forall x, x ∈ s -> x ∈ s0 \/ x ∈ rs.*1.

Lemma NoDup_subset_length (l k : list string) : NoDup l -> l ⊆ k -> (length l <= length k)%nat.
Proof. intros Hl Hk. by apply submseteq_length, NoDup_submseteq. Qed.

Lemma foldl_add_spec s l :
  NoDup s -> let s' := foldl add_rse s l in NoDup s' /\ s `prefix_of` s' /\ forall x, x ∈ s' <-> x ∈ s \/ x ∈ l.
Proof.
  revert s. induction l as [|r l IH]; intros s Hs; simpl.
  - split_and!; [done|done|]. intros x. rewrite elem_of_nil. naive_solver.
  - destruct (IH (add_rse s r)) as (H1 & H2 & H3); [by apply add_rse_NoDup|]. split_and!; [done| |].
    + etrans; [apply add_rse_prefix|done].
    + intros x. rewrite H3, add_rse_elem, elem_of_cons. naive_solver.
Qed.

Lemma foldl_fill_spec s l :
  ready s -> let s' := foldl fill s l in
  ready s' /\ s `prefix_of` s' /\ (forall x, x ∈ s' -> x ∈ s \/ x ∈ l) /\ (Z.of_nat (length s') = copies \/ l ⊆ s').
Proof.
  revert s. induction l as [|r l IH]; intros s [Hnd Hle]; simpl.
  - split_and!; [done|done|by left|right; apply list_subseteq_nil].
  - assert (ready (fill s r)) as Hf.
    { split; [by apply fill_NoDup|]. unfold fill. case_bool_decide; [done|]. unfold add_rse. case_bool_decide; [done|].
      rewrite length_app. simpl. lia. }
    destruct (IH (fill s r) Hf) as (H1 & H2 & H3 & H4).
    assert (s `prefix_of` fill s r) as Hp by (unfold fill; case_bool_decide; [done|apply add_rse_prefix]).
    split_and!; [done|by etrans| |].
    + intros x [Hx|Hx]%H3; [|right; by right]. unfold fill in Hx. case_bool_decide; [by left|].
      apply add_rse_elem in Hx as [Hx| ->]; [by left|right; left].
    + destruct H4 as [H4|H4]; [by left|]. destruct (decide (Z.of_nat (length s) = copies)) as [Hs|Hs].
      * left. apply prefix_length in H2, Hp. destruct H1 as [_ H1]. lia.
      * right. intros x [->|Hx]%elem_of_cons; [|by apply H4].
        apply (elem_of_prefix (fill s r)); [|done]. unfold fill. rewrite bool_decide_false by done. apply add_rse_elem. by right.
Qed.

Lemma fill_copied s0 s l : ru_grouping rule <> G_NONE -> ready s0 -> chosen_well l ->
  s = s0 \/ copied s0 s -> copied s0 (foldl fill s l).
Proof.
  intros Hg Hr (Hlen & Hnd & Hrs) [->|Hc].
  - destruct (foldl_fill_spec s0 l Hr) as ([H1 H2] & H3 & H4 & H5). assert (0 <= copies)%Z by (destruct Hr; lia).
    assert (Z.of_nat (length (foldl fill s0 l)) = copies) as Hall.
    { destruct H5 as [H5|H5]; [done|]. pose proof (NoDup_subset_length _ _ Hnd H5). lia. }
    split_and!; [done|done|lia|done|]. intros x [Hx|Hx]%H4; [by left|right]. by apply Hrs.
  - assert (Z.of_nat (length s) = copies) as Hs by (apply Hc; by left).
    enough (foldl fill s l = s) as -> by done. clear Hlen Hnd Hrs. induction l as [|r l IH]; [done|]. simpl.
    unfold fill at 2. by rewrite bool_decide_true.
Qed.

Lemma add_copied s0 s l : ru_grouping rule = G_NONE -> ready s0 -> chosen_well l -> s = s0 \/ copied s0 s ->
  Z.of_nat (length s) <> copies -> copied s0 (foldl add_rse s l).
Proof.
  intros Hg [Hnd0 Hr] (Hlen & Hnd & Hrs) Hs Hne. assert (0 <= copies)%Z by lia.
  assert (NoDup s) as Hnds by (destruct Hs as [->|Hc]; [done|apply Hc]).
  destruct (foldl_add_spec s l Hnds) as (H1 & H2 & H3).
  assert (length l <= length (foldl add_rse s l))%nat as Hle.
  { apply NoDup_subset_length; [done|]. intros x Hx. apply H3. by right. }
  assert (s0 `prefix_of` s) as Hp by (destruct Hs as [->|Hc]; [done|apply Hc]).
  split_and!; [done|by etrans|lia| |].
  - intros [Hg'|[->|Hfull]]; [done| |].
    + destruct Hs as [->|Hc]; [|exfalso; apply Hne, Hc; right; by left].
      assert (length (foldl add_rse [] l) <= length l)%nat; [|lia]. apply NoDup_subset_length; [done|].
      intros x [Hx|Hx]%H3; [by apply not_elem_of_nil in Hx|done].
    + exfalso. apply Hne. destruct Hs as [->|Hc]; [done|]. apply Hc. right. by right.
  - intros x [Hx|Hx]%H3; [|right; by apply Hrs]. destruct Hs as [->|Hc]; [by left|by apply Hc].
Qed.

(** *** The groupings *)

Definition in_datasets (datasetfiles : list DatasetFiles) : bool := existsb in_dataset datasetfiles.

(** The file has been looked at, or not yet. *)
Definition reached s0 (seen : bool) (g : Grouping) : Prop :=
  exists s, locked_on s g /\ NoDup s /\ if seen then copied s0 s else s = s0.

Lemma group_rses s0 b g files :
  rses_fit -> reached s0 b g ->
  wpg (select_for_group files preferred_rse_ids) (fun chosen g' => reached s0 b g' /\ chosen_well chosen.*1.*1) g.
Proof.
  intros Hfit (s & Hs & Hnd & Hb). unfold select_for_group. eapply wpg_quiet_on; [|exact Hs|].
  { apply quiet_concat. intros file. unfold with_replicas. auto with books. }
  intros frs g' Hg'. cbn zeta.
  destruct preferred_rse_ids; (eapply wpg_mono; [by apply (select_on s)|]); intros chosen g'' [Hg'' Hc]; (split; [by exists s|done]).
Qed.

Lemma fill_all_on s0 b (has : bool) (f : Chosen -> ST Grouping unit) chosen g :
  ru_grouping rule <> G_NONE -> ready s0 -> chosen_well chosen.*1.*1 -> reached s0 b g ->
  (forall rse s g, NoDup s -> locked_on s g -> wpg (f rse) (fun _ => locked_on (if has then fill s rse.1.1 else s)) g) ->
  wpg (forS f chosen) (fun _ => reached s0 (b || has)) g.
Proof.
  intros Hgr Hr Hc (s & Hs & Hnd & Hb) Hf.
  assert (forall (l : list Chosen) s g, NoDup s -> locked_on s g ->
    wpg (forS f l) (fun _ => locked_on (if has then foldl fill s l.*1.*1 else s)) g) as Hloop.
  { clear s g Hs Hnd Hb Hc. induction l as [|rse l IH]; intros s g Hnd Hg; [by destruct has|]. apply wpg_bind.
    eapply wpg_mono; [by apply Hf|]. intros a g' Hg'. destruct has; apply IH; auto using fill_NoDup. }
  eapply wpg_mono; [by apply Hloop|]. intros [] g' Hg'. cbn beta in *. destruct has.
  - rewrite orb_true_r. exists (foldl fill s chosen.*1.*1).
    assert (copied s0 (foldl fill s chosen.*1.*1)) as Hcop by (apply fill_copied; [done|done|done|destruct b; auto]).
    split_and!; [done|apply Hcop|done].
  - rewrite orb_false_r. by exists s.
Qed.

Lemma all_grouping_on s0 g datasetfiles :
  ru_grouping rule <> G_NONE -> rses_fit -> ready s0 -> reached s0 false g ->
  wpg (apply_rule_to_files_all_grouping rule source_rses source_replicas preferred_rse_ids datasetfiles)
    (fun _ => reached s0 (in_datasets datasetfiles)) g.
Proof.
  intros Hgr Hfit Hr Hg. apply wpg_bind. eapply wpg_mono; [by apply group_rses|]. intros chosen g' [Hg' Hc].
  apply (fill_all_on s0 false); [done..|]. clear g g' Hg Hg'. intros rse s g Hnd Hg.
  apply (for_fill _ in_dataset); [|done|done]. clear s g Hnd Hg. intros ds s g Hnd Hg.
  apply wpg_bind. eapply wpg_mono; [by apply lock_files_on|]. intros [] g' Hg'. apply wpg_end_on; [auto with books|done].
Qed.

Lemma dataset_grouping_on s0 g datasetfiles :
  ru_grouping rule <> G_NONE -> rses_fit -> ready s0 -> reached s0 false g ->
  wpg (apply_rule_to_files_dataset_grouping rule source_rses source_replicas preferred_rse_ids datasetfiles)
    (fun _ => reached s0 (in_datasets datasetfiles)) g.
Proof.
  intros Hgr Hfit Hr. change (in_datasets datasetfiles) with (false || in_datasets datasetfiles). generalize false.
  revert g. induction datasetfiles as [|ds l IH]; intros g b Hg; [by rewrite orb_false_r|]. apply wpg_bind.
  eapply (wpg_mono _ (fun _ => reached s0 (b || in_dataset ds))).
  - apply wpg_bind. eapply wpg_mono; [by apply group_rses|]. intros chosen g' [Hg' Hc].
    apply fill_all_on; [done..|]. clear g g' Hg Hg'. intros rse s g Hnd Hg. apply wpg_bind.
    eapply wpg_mono; [by apply lock_files_on|]. intros [] g' Hg'. apply wpg_end_on; [auto with books|done].
  - intros [] g' Hg'. cbn [in_datasets existsb]. rewrite orb_assoc. by apply IH.
Qed.

(** Without grouping, every file has RSEs of its own. *)
Lemma file_none_on s0 b g dataset file :
  ru_grouping rule = G_NONE -> rses_fit -> ready s0 -> reached s0 b g ->
  wpg (apply_to_file_none rule source_rses source_replicas preferred_rse_ids dataset file)
    (fun _ => reached s0 (b || bool_decide (f_did file = did))) g.
Proof.
  intros Hgr Hfit Hr (s & Hs & Hnd & Hb). apply wpg_bind. eapply wpg_mono; [by apply wpg_full_on|].
  intros full g1 [Hg1 Hfull]. cbn beta in *. destruct full.
  { apply wp_ret. exists s. split_and!; [done|done|]. destruct (decide (f_did file = did)) as [Hd|Hd];
      [rewrite (bool_decide_true (_ = did)) by done|by rewrite (bool_decide_false (_ = did)), orb_false_r].
    rewrite orb_true_r. symmetry in Hfull. specialize (Hfull Hd) as Hl%bool_decide_eq_true. destruct b; [done|]. subst s.
    split_and!; [done|done|lia|done|by left]. }
  apply (wpg_quiet_on _ _ _ s); [auto with books|done|]. intros rs' g2 Hg2. cbn zeta. apply wpg_bind.
  eapply wpg_mono; [by apply (select_on s)|]. intros chosen g3 [Hg3 Hc].
  assert (forall (l : list Chosen) s g, NoDup s -> locked_on s g ->
    wpg (concatS (fun rse : Chosen =>
      let! ls := rule_locks rule (f_did file) in
      if bool_decide (length (List.filter (fun l => bool_decide (lk_rse_id l.2 = rse.1.1)) ls) = 1%nat) then retS []
      else do! create_lock_and_replica rule source_rses source_replicas dataset file rse in retS [rse.1.1]) l)
      (fun _ => locked_on (if bool_decide (f_did file = did) then foldl add_rse s l.*1.*1 else s)) g) as Hloop.
  { clear. induction l as [|rse l IH]; intros s g Hnd Hg; [by destruct (bool_decide _)|]. apply wpg_bind.
    eapply wpg_mono; [apply (lock_unless_on s g dataset file rse [] (fun _ => [rse.1.1])); done|].
    intros a g' Hg'. apply wpg_bind. eapply wpg_mono; [apply IH; [|exact Hg']|].
    - destruct (bool_decide _); [by apply add_rse_NoDup|done].
    - intros a' g''. cbn beta. intros Hg''. apply wp_ret. by destruct (bool_decide _). }
  eapply wpg_mono; [by apply Hloop|]. intros a g' Hg'. cbn beta in *. destruct (decide (f_did file = did)) as [Hd|Hd];
    [rewrite (bool_decide_true (_ = did)) in * by done|rewrite (bool_decide_false (_ = did)) in * by done].
  - rewrite orb_true_r. specialize (Hfull Hd). symmetry in Hfull. apply bool_decide_eq_false in Hfull.
    assert (copied s0 (foldl add_rse s chosen.*1.*1)) as Hcop by (apply add_copied; [done|done|done|destruct b; auto|done]).
    exists (foldl add_rse s chosen.*1.*1). split_and!; [done|apply Hcop|done].
  - rewrite orb_false_r. by exists s.
Qed.

Lemma none_grouping_on s0 g datasetfiles :
  ru_grouping rule = G_NONE -> rses_fit -> ready s0 -> reached s0 false g ->
  wpg (apply_rule_to_files_none_grouping rule source_rses source_replicas preferred_rse_ids datasetfiles)
    (fun _ => reached s0 (in_datasets datasetfiles)) g.
Proof.
  intros Hgr Hfit Hr. change (in_datasets datasetfiles) with (false || in_datasets datasetfiles). generalize false.
  revert g. induction datasetfiles as [|ds l IH]; intros g b Hg; [by rewrite orb_false_r|]. apply wpg_bind.
  eapply (wpg_mono _ (fun _ => reached s0 (b || in_dataset ds))); [|intros [] g' Hg'; cbn [in_datasets existsb]; rewrite orb_assoc; by apply IH].
  apply wpg_bind. eapply (wpg_mono _ (fun _ => reached s0 (b || in_dataset ds))).
  - unfold in_dataset. clear IH. revert b g Hg. induction (ds_files ds) as [|file files IH]; intros b g Hg; [by rewrite orb_false_r|].
    apply wpg_bind. eapply wpg_mono; [by apply file_none_on|]. intros x g' Hg'. cbn beta in Hg'. apply wpg_bind.
    eapply wpg_mono; [apply (IH _ _ Hg')|]. intros y g''. cbn [existsb]. rewrite orb_assoc. by intros Hg''; apply wp_ret.
  - intros selected g' (s & Hs & Hnd & Hb). eapply wpg_mono; [apply (wpg_end_on _ s); [auto with books|done]|].
    intros [] g'' Hs'. by exists s.
Qed.

Lemma grouping_on s0 g datasetfiles :
  rses_fit -> ready s0 -> locked_on s0 g ->
  wpg (apply_rule_grouping rule source_rses source_replicas preferred_rse_ids datasetfiles)
    (fun _ => reached s0 (in_datasets datasetfiles)) g.
Proof.
  intros Hfit Hr Hg. apply (wpg_quiet_on _ _ _ s0); [by apply quiet_modify|done|]. intros [] g' Hg'.
  assert (reached s0 false g') by (exists s0; split_and!; [done|apply Hr|done]).
  destruct (ru_grouping rule) eqn:Hgr.
  - apply all_grouping_on; [by rewrite Hgr|done..].
  - apply dataset_grouping_on; [by rewrite Hgr|done..].
  - by apply none_grouping_on.
Qed.
End copies.

Lemma in_datasets_elem did datasetfiles : did ∈ f_did <$> concat (ds_files <$> datasetfiles) <-> in_datasets did datasetfiles = true.
Proof.
  unfold in_datasets, in_dataset. induction datasetfiles as [|ds l IH]; simpl; [by rewrite elem_of_nil|].
  rewrite fmap_app, elem_of_app, orb_true_iff, IH. f_equiv. rewrite existsb_exists, list_elem_of_fmap.
  split; intros (f & Hf); exists f; rewrite ?bool_decide_eq_true, ?list_elem_of_In in *; naive_solver.
Qed.

(** The RSEs where a file is locked for a rule *)
Definition locked_rses (rule : Rule) (g : Grouping) (did : DID) : list string := held (ru_id rule) (books g) did.

Definition selector_for (rule : Rule) (sel : RSESelector) : Prop :=
  NoDup (c_rse_id <$> sel_rses sel) /\ weights_ok (sel_rses sel) /\ sel_copies sel = ru_copies rule.

(** C27: When a rule is applied, whatever its grouping and the random draws, every file is locked on as
    many distinct RSEs as the rule asks for copies: the RSEs where it was locked, and RSEs of the
    selector.  (Without grouping, a file that had some of its locks may get more than that.)  The
    locks of other files do not change. *)
Theorem rule_gets_its_copies `{Random} rule source_rses source_replicas preferred_rse_ids datasetfiles g g' did :
  selector_for rule (g_selector g) -> addresses_ok (books g) ->
  NoDup (locked_rses rule g did) -> (Z.of_nat (length (locked_rses rule g did)) <= ru_copies rule)%Z ->
  apply_rule_grouping rule source_rses source_replicas preferred_rse_ids datasetfiles g = (Ok tt, g') ->
  if bool_decide (did ∈ f_did <$> concat (ds_files <$> datasetfiles)) then
    NoDup (locked_rses rule g' did) /\ locked_rses rule g did `prefix_of` locked_rses rule g' did /\
    (ru_copies rule <= Z.of_nat (length (locked_rses rule g' did)))%Z /\
    (ru_grouping rule <> G_NONE \/ locked_rses rule g did = [] \/ Z.of_nat (length (locked_rses rule g did)) = ru_copies rule ->
     Z.of_nat (length (locked_rses rule g' did)) = ru_copies rule) /\
    (forall rse, rse ∈ locked_rses rule g' did -> rse ∈ locked_rses rule g did \/ rse ∈ c_rse_id <$> sel_rses (g_selector g))
  else locked_rses rule g' did = locked_rses rule g did.
Proof.
  intros (Hnds & Hw & Hcopies) Haddr Hnd Hle Hrun.
  assert ((b_rses (books g)).*1 = c_rse_id <$> sel_rses (g_selector g)) as Hids by (unfold books; cbn; by rewrite <-list_fmap_compose).
  pose proof (grouping_on rule source_rses source_replicas preferred_rse_ids did (b_rses (books g)) (locked_rses rule g did) g datasetfiles) as Hon.
  unfold wpg, wp in Hon. rewrite Hrun in Hon. destruct Hon as (s & (_ & _ & _ & Hs) & _ & Hin).
  - split; [by rewrite Hids|]. unfold books. cbn [b_rses]. by rewrite Forall_fmap.
  - by split.
  - by split_and!.
  - change (locked_rses rule g' did = s) in Hs. rewrite Hs. rewrite (bool_decide_ext _ _ (in_datasets_elem did datasetfiles)).
    destruct (in_datasets did datasetfiles); [|done]. destruct Hin as (H1 & H2 & H3 & H4 & H5). split_and!; [done..|].
    by rewrite <-Hids.
Qed.

(** ** An example *)

Definition copies_rule (g : RuleGrouping) : Rule :=
  MkRule "r1" None (ru_account demo_rule) (ru_did demo_rule) (ru_did_type demo_rule) (ru_state demo_rule) None "*" 2 None None false 2 2 0
    None None g N_NO None false false false (Some 3%Z) None None None false None 0 0.
Definition candidate (name : string) : Candidate := MkCandidate name (of_Z 1) false true false Inf Inf ∅.
Definition copies_selector : RSESelector := MkSelector (candidate <$> ["A"; "B"; "C"]%string) 2.
Definition file_named (name : string) : FileInfo := MkFile ("data", name)%string 10 None None.
(** Of the first file only the lock on B is left; the second one has its locks, the third is new. *)
Definition copies_grouping : Grouping :=
  MkGrouping demo_world copies_selector 0
    (list_to_map [(("data", "f1"), [1]); (("data", "f2"), [2; 3]); (("data", "f3"), [])]%string)
    (list_to_map [(("data", "f1"), [0; 1]); (("data", "f2"), [2; 3]); (("data", "f3"), [])]%string) [] [] [] [].
Definition copies_made (g : RuleGrouping) (preferred : list string) : result unit * Grouping :=
  @apply_rule_grouping low_draws (copies_rule g) [] ∅ preferred
    [MkDatasetFiles (Some ("data", "ds")%string) (file_named <$> ["f1"; "f2"; "f3"]%string)] copies_grouping.

Lemma copies_selector_for g : selector_for (copies_rule g) copies_selector.
Proof. split_and!; [by apply (bool_decide_unpack _); vm_compute|by repeat constructor|done]. Qed.
Lemma copies_addresses : addresses_ok (books copies_grouping).
Proof.
  intros did js i Hjs Hi. apply elem_of_list_to_map_2 in Hjs. change (i < 4)%nat.
  repeat (apply elem_of_cons in Hjs as [Heq|Hjs]; [injection Heq as -> ->; rewrite ?elem_of_cons, ?elem_of_nil in Hi; naive_solver lia|]).
  by apply not_elem_of_nil in Hjs.
Qed.

Lemma rule_gets_its_copies_witness :
  (copies_made G_ALL []).1 = Ok tt /\
  Z.of_nat (length (locked_rses (copies_rule G_ALL) (copies_made G_ALL []).2 ("data", "f3")%string)) = 2%Z /\
  Z.of_nat (length (locked_rses (copies_rule G_ALL) (copies_made G_ALL []).2 ("data", "f1")%string)) = 2%Z.
Proof.
  split; [by vm_compute|]. split.
  - pose proof (@rule_gets_its_copies low_draws (copies_rule G_ALL) [] ∅ [] [MkDatasetFiles (Some ("data", "ds")%string) (file_named <$> ["f1"; "f2"; "f3"]%string)]
      copies_grouping (copies_made G_ALL []).2 ("data", "f3")%string (copies_selector_for G_ALL) copies_addresses) as Hc.
    rewrite bool_decide_true in Hc by (apply (bool_decide_unpack _); by vm_compute).
    apply Hc; [constructor|done|by vm_compute|by left].
  - by vm_compute.
Defined.

(** Without grouping, a file that has some of its locks gets all the RSEs chosen: more copies than
    the rule asks for, when these are preferred for the other files. *)
Lemma none_grouping_exceeds :
  (copies_made G_NONE ["C"; "A"]%string).1 = Ok tt /\
  locked_rses (copies_rule G_NONE) (copies_made G_NONE ["C"; "A"]%string).2 ("data", "f1")%string ≡ₚ ["A"; "B"; "C"]%string.
Proof. split; [by vm_compute|]. apply (bool_decide_unpack _). by vm_compute. Qed.
