(* ===== verification/HierarchyFacts.v ===== *)
(** * The hierarchy of data identifiers is a forest of bounded depth

    What datasets and containers hold is well typed and has no cycle, and adding, attaching and
    detaching keep it so; hence the walks over the hierarchy end, and find what they look for. *)

From stdpp Require Import relations.
From S2P Require Import Prelude StateError PyString Types Database RseSelector LockTables RuleGrouping RuleEngine RuleRepair Hierarchy RuleDemo.

#[local] Open Scope list_scope.

(** ** Trees of contents *)

Definition edge (l : list Content) (p c : DID) : Prop := exists k, k ∈ l /\ c_parent k = p /\ c_child k = c.
Definition content_key (c : Content) : DID * DID := (c_parent c, c_child c).

(** Datasets hold files and containers hold what is no file. *)
Definition row_ok (types : gmap DID DIDType) (c : Content) : Prop :=
  types !! c_parent c = Some (c_parent_type c) /\ types !! c_child c = Some (c_child_type c) /\
  match c_parent_type c with
  | DATASET => c_child_type c = FILE
  | CONTAINER => c_child_type c <> FILE
  | _ => False
  end.

Record tree_ok (types : gmap DID DIDType) (l : list Content) : Prop := {
  tree_rows c : c ∈ l -> row_ok types c;
  tree_unique : NoDup (content_key <$> l);
  tree_acyclic d : ~ tc (edge l) d d;
}.

Definition types (w : World) : gmap DID DIDType := d_type <$> w_dids w.
Definition hierarchy_ok (w : World) : Prop := tree_ok (types w) (w_contents w).

Lemma edge_mono l l' p c : l ⊆ l' -> edge l p c -> edge l' p c.
Proof. intros Hl (k & Hk & Hkp). exists k. split; [by apply Hl|done]. Qed.

Lemma tree_weaken m m' l l' : m ⊆ m' -> l' `sublist_of` l -> tree_ok m l -> tree_ok m' l'.
Proof.
  intros Hm Hl [Hrows Huniq Hacyc]. assert (l' ⊆ l) as Hsub by (by apply sublist_subseteq).
  split.
  - intros c Hc%Hsub%Hrows. destruct Hc as (Hp & Hc & Ht). split_and!; [by eapply lookup_weaken..|done].
  - eapply sublist_NoDup; [exact Huniq|by apply fmap_sublist].
  - intros d Hd. apply (Hacyc d). eapply (tc_congruence id _ d d); [|exact Hd]. intros x y. by apply edge_mono.
Qed.

(** A path in a tree that grows below [p] either is an old one or passes [p]. *)
Lemma path_grows l rows p x y :
  (forall c, c ∈ rows -> c_parent c = p) -> tc (edge (l ++ rows)) x y ->
  tc (edge l) x y \/ exists c, c ∈ rows /\ rtc (edge l) x p /\ rtc (edge l) (c_child c) y.
Proof.
  intros Hrows Hxy. induction Hxy as [x y (k & Hk & Hkp & Hkc)|x y z (k & Hk & Hkp & Hkc) _ IH]; apply elem_of_app in Hk as [Hk|Hk].
  - left. apply tc_once. by exists k.
  - right. exists k. split; [done|]. by rewrite <-(Hrows k Hk), Hkp, Hkc.
  - assert (edge l x y) as He by (by exists k). destruct IH as [IH|(c & Hc & Hyp & Hcz)].
    + left. by eapply tc_l.
    + right. exists c. split_and!; [done|by eapply rtc_l|done].
  - assert (x = p) as -> by (by rewrite <-(Hrows k Hk)). right. destruct IH as [IH|(c & Hc & _ & Hcz)].
    + exists k. split_and!; [done|done|]. rewrite Hkc. by apply tc_rtc.
    + exists c. by split_and!.
Qed.

(** New children of [p] keep the tree when none of them is [p] or above it. *)
Lemma tree_grows m l rows p :
  tree_ok m l -> (forall c, c ∈ rows -> c_parent c = p /\ row_ok m c /\ ~ rtc (edge l) (c_child c) p) ->
  NoDup (c_child <$> rows) -> (forall c c', c ∈ l -> c' ∈ rows -> content_key c <> content_key c') -> tree_ok m (l ++ rows).
Proof.
  intros [Hl Huniq Hacyc] Hrows Hdup Hnew. split.
  - intros c [Hc|Hc]%elem_of_app; [by apply Hl|by apply Hrows].
  - rewrite fmap_app. apply NoDup_app. split_and!; [done| |].
    + intros k (c & -> & Hc)%list_elem_of_fmap (c' & Hk & Hc')%list_elem_of_fmap. by apply (Hnew c c').
    + apply (NoDup_fmap_1 snd). by rewrite <-list_fmap_compose.
  - intros d Hd. apply (path_grows l rows p) in Hd as [Hd|(c & Hc & Hdp & Hcd)]; [by apply (Hacyc d)| |by intros c Hc; apply Hrows].
    destruct (Hrows c Hc) as (_ & _ & Hno). apply Hno. by etrans.
Qed.

(** ** Paths are no longer than the table *)

Lemma path_rows l n x y :
  (forall d, ~ tc (edge l) d d) -> nsteps (edge l) n x y ->
  exists rows, length rows = n /\ rows ⊆ l /\ NoDup (c_child <$> rows) /\ forall c, c ∈ rows -> tc (edge l) x (c_child c).
Proof.
  intros Hacyc. induction 1 as [x|n x y z Hxy _ IH].
  - exists []. split_and!; [done|apply list_subseteq_nil|constructor|]. by intros c ?%elem_of_nil.
  - destruct IH as (rows & Hlen & Hsub & Hdup & Htc). destruct Hxy as (k & Hk & Hkp & Hkc).
    assert (edge l x y) as He by (by exists k). exists (k :: rows). split_and!.
    + simpl. by rewrite Hlen.
    + intros c [->|Hc]%elem_of_cons; [done|by apply Hsub].
    + simpl. constructor; [|done]. intros (c & Hck & Hc)%list_elem_of_fmap. apply (Hacyc y).
      rewrite <-Hkc at 2. rewrite Hck. by apply Htc.
    + intros c [->|Hc]%elem_of_cons; [rewrite Hkc; by apply tc_once|]. eapply tc_l; [done|by apply Htc].
Qed.

Lemma path_short l n x y : (forall d, ~ tc (edge l) d d) -> nsteps (edge l) n x y -> n <= length l.
Proof.
  intros Hacyc (rows & <- & Hsub & Hdup & _)%path_rows; [|done].
  apply submseteq_length, NoDup_submseteq; [by eapply NoDup_fmap_1|]. intros c. apply Hsub.
Qed.

(** ** The walks end *)

Section walks.
Context (w : World).
Notation rows := (w_contents w).

Lemma elem_of_contents_of c d : c ∈ contents_of w d <-> c ∈ rows /\ c_parent c = d.
Proof. unfold contents_of. by rewrite elem_of_filter_bool, bool_decide_eq_true. Qed.

Lemma edge_of c d : c ∈ contents_of w d -> edge rows d (c_child c).
Proof. intros [Hc Hp]%elem_of_contents_of. by exists c. Qed.

(** No path of [n] rows goes down from [d], or up. *)
Definition no_deeper (n : nat) (d : DID) : Prop := forall y, ~ nsteps (edge rows) n d y.
Definition no_higher (n : nat) (d : DID) : Prop := forall y, ~ nsteps (edge rows) n y d.

Lemma no_deeper_child n c d : no_deeper (S n) d -> c ∈ contents_of w d -> no_deeper n (c_child c).
Proof. intros Hd Hc y Hy. apply (Hd y). eapply nsteps_l; [by apply edge_of|done]. Qed.

Lemma no_higher_parent n c d : no_higher (S n) d -> c ∈ rows -> c_child c = d -> no_higher n (c_parent c).
Proof. intros Hd Hc <- y Hy. apply (Hd y). eapply nsteps_r; [done|]. by exists c. Qed.

Lemma files_under_enough f f' d t : no_deeper f d -> f <= f' -> files_under f' w d t = files_under f w d t.
Proof.
  revert f' d t. induction f as [|f IH]; intros f' d t Hd Hle; [destruct (Hd d); constructor|].
  destruct f' as [|f']; [lia|]. simpl.
  enough ((fun c => files_under f' w (c_child c) (c_child_type c)) <$> reverse (contents_of w d)
    = (fun c => files_under f w (c_child c) (c_child_type c)) <$> reverse (contents_of w d)) as -> by done.
  apply list_fmap_ext. intros i c Hc%list_elem_of_lookup_2. apply (proj1 (elem_of_reverse _ _)) in Hc. apply IH; [by eapply no_deeper_child|lia].
Qed.

Lemma parents_above_enough f f' d : no_higher f d -> f <= f' -> parents_above f' w d = parents_above f w d.
Proof.
  revert f' d. induction f as [|f IH]; intros f' d Hd Hle; [destruct (Hd d); constructor|].
  destruct f' as [|f']; [lia|]. simpl. f_equal. apply list_fmap_ext.
  intros i c [Hc Hcd%bool_decide_eq_true]%list_elem_of_lookup_2%elem_of_filter_bool. f_equal.
  apply IH; [by eapply no_higher_parent|lia].
Qed.

Lemma container_contents_enough f f' parents :
  (forall d, d ∈ parents -> no_deeper f d) -> f <= f' -> container_contents f' w parents = container_contents f w parents.
Proof.
  revert f' parents. induction f as [|f IH]; intros f' parents Hd Hle.
  - destruct parents as [|d parents]; [|by destruct (Hd d (list_elem_of_here _ _) d); constructor].
    destruct f' as [|f']; [done|]. simpl. by replace (List.filter _ rows) with (@nil Content) by (symmetry; by induction rows).
  - destruct f' as [|f']; [lia|]. simpl. destruct (List.filter _ rows) as [|c l] eqn:Hl; [done|].
    apply (f_equal (app (c :: l))). apply IH; [|lia].
    intros x Hx. change (x ∈ c_child <$> (c :: l)) in Hx. rewrite <-Hl in Hx.
    apply list_elem_of_fmap in Hx as (k & -> & Hk). apply elem_of_filter_bool in Hk as [Hk Hb].
    apply andb_true_iff in Hb as [Hb%bool_decide_eq_true _]. by eapply no_deeper_child; [apply Hd|apply elem_of_contents_of].
Qed.

(** The first of the files found under the children *)
Fixpoint first_file (f : Content -> option DID) (l : list Content) : option DID :=
  match l with
  | [] => None
  | c :: l =>
      match c_child_type c with
      | FILE => Some (c_child c)
      | DATASET | CONTAINER => match f c with Some out => Some out | None => first_file f l end
      | _ => first_file f l
      end
  end.
Lemma oldest_file_under_S f d :
  oldest_file_under (S f) w d = first_file (fun c => oldest_file_under f w (c_child c)) (contents_of w d).
Proof. simpl. induction (contents_of w d) as [|c l IH]; [done|]. simpl. by rewrite IH. Qed.

Lemma oldest_file_under_enough f f' d : no_deeper f d -> f <= f' -> oldest_file_under f' w d = oldest_file_under f w d.
Proof.
  revert f' d. induction f as [|f IH]; intros f' d Hd Hle; [destruct (Hd d); constructor|].
  destruct f' as [|f']; [lia|]. rewrite !oldest_file_under_S.
  assert (forall c, c ∈ contents_of w d -> oldest_file_under f' w (c_child c) = oldest_file_under f w (c_child c)) as Hc.
  { intros c Hc. apply IH; [by eapply no_deeper_child|lia]. }
  induction (contents_of w d) as [|c l IHl]; [done|]. simpl. rewrite (Hc c) by (by left). rewrite IHl; [done|].
  intros c' Hc'. apply Hc. by right.
Qed.

(** ** The walks find what they look for *)

Lemma elem_of_parents_above f d x : x ∈ parents_above f w d <-> exists n, n < f /\ nsteps (edge rows) (S n) x d.
Proof.
  revert d. induction f as [|f IH]; intros d; cbn [parents_above].
  { rewrite elem_of_nil. split; [done|]. intros (n & ? & _). lia. }
  rewrite elem_of_concat_map. split.
  - intros (c & [Hc Hcd%bool_decide_eq_true]%elem_of_filter_bool & Hx).
    assert (edge rows (c_parent c) d) as He by (by exists c). apply elem_of_cons in Hx as [->|(n & Hn & Hx)%IH].
    + exists 0. split; [lia|]. by apply nsteps_once.
    + exists (S n). split; [lia|]. by eapply nsteps_r.
  - intros (n & Hn & Hx). apply nsteps_inv_r in Hx as (p & Hxp & c & Hc & Hp & Hcd).
    exists c. split; [apply elem_of_filter_bool; by rewrite bool_decide_eq_true|].
    destruct n as [|n]; [inv Hxp; by left|]. right. apply IH. exists n. rewrite Hp. split; [lia|done].
Qed.

Context (Hok : hierarchy_ok w).

Lemma ok_edge p c : edge rows p c -> exists k, k ∈ rows /\ c_parent k = p /\ c_child k = c /\
  types w !! p = Some (c_parent_type k) /\ types w !! c = Some (c_child_type k) /\
  (c_parent_type k = DATASET /\ c_child_type k = FILE \/ c_parent_type k = CONTAINER /\ c_child_type k <> FILE).
Proof.
  intros (k & Hk & <- & <-). exists k. destruct (tree_rows _ _ Hok k Hk) as (Hp & Hc & Ht). split_and!; [done..|].
  destruct (c_parent_type k); auto; done.
Qed.

(** Only datasets and containers have children. *)
Lemma leaf_contents d t : types w !! d = Some t -> t <> DATASET -> t <> CONTAINER -> contents_of w d = [].
Proof.
  intros Ht Hd Hc. destruct (contents_of w d) as [|c l] eqn:Hl; [done|].
  assert (c ∈ contents_of w d) as (k & _ & _ & _ & Hk & _ & Hcases)%edge_of%ok_edge by (rewrite Hl; by left).
  destruct Hcases as [[? _]|[? _]]; congruence.
Qed.

Lemma child_type c d : c ∈ contents_of w d -> types w !! c_child c = Some (c_child_type c).
Proof. intros [Hc _]%elem_of_contents_of. by apply (tree_rows _ _ Hok). Qed.

Lemma elem_of_files_under f d t x :
  no_deeper f d -> types w !! d = Some t -> t <> FILE ->
  x ∈ files_under f w d t <-> types w !! x = Some FILE /\ tc (edge rows) d x.
Proof.
  revert d t. induction f as [|f IH]; intros d t Hd Ht Hfile; [destruct (Hd d); constructor|]. split.
  - intros Hx. assert (exists c, c ∈ contents_of w d /\ (x = c_child c /\ t = DATASET \/ t <> DATASET /\ x ∈ files_under f w (c_child c) (c_child_type c))) as (c & Hc & Hcx).
    { destruct (decide (t = DATASET)) as [->|Hnot].
      - apply list_elem_of_fmap in Hx as (c & -> & Hc). eauto.
      - assert (x ∈ concat ((fun c => files_under f w (c_child c) (c_child_type c)) <$> reverse (contents_of w d))) as Hx' by (by destruct t).
        apply elem_of_concat_map in Hx' as (c & Hc & Hx'). apply (proj1 (elem_of_reverse _ _)) in Hc. eauto. }
    pose proof (edge_of _ _ Hc) as (k & _ & _ & _ & Hp & Hk & Hcases)%ok_edge. rewrite Ht in Hp. injection Hp as Hp.
    pose proof (edge_of _ _ Hc) as He. destruct Hcx as [[-> ->]|[Hnot Hx']].
    + destruct Hcases as [[_ Hcf]|[? _]]; [|congruence]. split; [by rewrite Hk, Hcf|by apply tc_once].
    + destruct Hcases as [[? _]|[_ Hcf]]; [congruence|]. rewrite (child_type c d Hc) in Hk. injection Hk as Hk.
      apply IH in Hx' as [Hxf Htc]; [|by eapply no_deeper_child|by eapply child_type|congruence]. split; [done|by eapply tc_l].
  - intros [Hxf Htc]. assert (exists z, edge rows d z /\ (z = x \/ tc (edge rows) z x)) as (z & Hdz & Hzx).
    { inv Htc; eauto. }
    pose proof Hdz as (k & Hk & Hkp & Hkc & Hp & Hz & Hcases)%ok_edge. rewrite Ht in Hp. injection Hp as ->.
    assert (k ∈ contents_of w d) as Hkd by (by apply elem_of_contents_of). destruct Hcases as [[Hpt Hct]|[Hpt Hct]].
    + destruct Hzx as [->|Htc'].
      * rewrite Hpt. simpl. apply list_elem_of_fmap. by exists k.
      * assert (exists y, edge rows z y) as [y (k' & _ & _ & _ & Hz' & _ & Hcases)%ok_edge] by (inv Htc'; eauto).
        rewrite Hz, Hct in Hz'. destruct Hcases as [[? _]|[? _]]; congruence.
    + rewrite Hpt. simpl. apply elem_of_concat_map. exists k. split; [by apply elem_of_reverse|].
      apply IH; [by eapply no_deeper_child|by eapply child_type|done|]. split; [done|].
      rewrite Hkc. destruct Hzx as [->|]; [|done]. congruence.
Qed.

Lemma elem_of_container_contents f parents k :
  k ∈ container_contents f w parents <->
  k ∈ rows /\ c_parent_type k = CONTAINER /\ exists d n, d ∈ parents /\ n < f /\ nsteps (edge rows) n d (c_parent k).
Proof.
  assert (forall (parents : list DID) k, k ∈ List.filter (fun c => bool_decide (c_parent c ∈ parents) && bool_decide (c_parent_type c = CONTAINER)) rows
    <-> k ∈ rows /\ c_parent_type k = CONTAINER /\ c_parent k ∈ parents) as Hfilter.
  { intros. rewrite elem_of_filter_bool, andb_true_iff, !bool_decide_eq_true. tauto. }
  revert parents. induction f as [|f IH]; intros parents.
  { cbn [container_contents]. rewrite elem_of_nil. split; [done|]. intros (_ & _ & d & n & _ & ? & _). lia. }
  transitivity (k ∈ rows /\ c_parent_type k = CONTAINER /\ (c_parent k ∈ parents \/
    exists k', k' ∈ rows /\ c_parent_type k' = CONTAINER /\ c_parent k' ∈ parents /\
      exists n, n < f /\ nsteps (edge rows) n (c_child k') (c_parent k))).
  - cbn [container_contents]. specialize (Hfilter parents). destruct (List.filter _ rows) as [|k0 l].
    + rewrite elem_of_nil. split; [done|]. intros (Hk & Ht & [Hp|(k' & Hk' & Ht' & Hp' & _)]).
      * eapply elem_of_nil, Hfilter. eauto.
      * eapply elem_of_nil, (Hfilter k'). eauto.
    + rewrite elem_of_app, IH, Hfilter. split.
      * intros [?|(Hk & Ht & d & n & (k' & -> & Hk')%list_elem_of_fmap & Hn & Hs)]; [tauto|].
        apply Hfilter in Hk' as (? & ? & ?). eauto 12.
      * intros (Hk & Ht & [Hp|(k' & Hk' & Ht' & Hp' & n & Hn & Hs)]); [tauto|]. right. split_and!; [done..|].
        exists (c_child k'), n. split_and!; [|done..]. apply list_elem_of_fmap. exists k'. split; [done|]. by apply Hfilter.
  - split; intros (Hk & Ht & Hrest); (split_and!; [done..|]).
    + destruct Hrest as [Hp|(k' & Hk' & Ht' & Hp' & n & Hn & Hs)].
      * exists (c_parent k), 0. split_and!; [done|lia|constructor].
      * exists (c_parent k'), (S n). split_and!; [done|lia|]. eapply nsteps_l; [by exists k'|done].
    + destruct Hrest as (d & n & Hd & Hn & Hs). inv Hs as [|n' x y z Hdy Hs']; [by left|right].
      destruct Hdy as (k' & Hk' & <- & <-). exists k'.
      assert (edge rows (c_parent k') (c_child k')) as (k1 & _ & _ & _ & Hp1 & Hc1 & Hcases)%ok_edge by (by exists k').
      destruct (tree_rows _ _ Hok k' Hk') as (Hp2 & Hc2 & _). destruct (tree_rows _ _ Hok k Hk) as (Hp3 & _ & _).
      split_and!; [done| |done|exists n'; split; [lia|done]].
      assert (c_child_type k1 <> FILE) as Hnot.
      { intros Hf. inv Hs' as [|n2 a b ? Hab]; [congruence|]. apply ok_edge in Hab as (k4 & _ & _ & _ & Hp4 & _ & [[? _]|[? _]]); congruence. }
      destruct Hcases as [[_ ?]|[? _]]; congruence.
Qed.

Lemma depth_enough d : no_deeper (content_depth w) d /\ no_higher (content_depth w) d.
Proof. split; intros y Hy; apply path_short in Hy; try apply (tree_acyclic _ _ Hok); unfold content_depth in Hy; lia. Qed.

Lemma elem_of_list_child_datasets d x :
  x ∈ list_child_datasets w d <-> types w !! x = Some DATASET /\ tc (edge rows) d x.
Proof.
  unfold list_child_datasets. rewrite elem_of_remove_dups, list_elem_of_fmap. split.
  - intros (k & -> & [Hk Ht%bool_decide_eq_true]%elem_of_filter_bool).
    apply elem_of_container_contents in Hk as (Hk & _ & d' & n & ->%list_elem_of_singleton & _ & Hs).
    destruct (tree_rows _ _ Hok k Hk) as (_ & Hc & _). split; [by rewrite Hc, Ht|].
    eapply tc_rtc_l; [apply rtc_nsteps; by eexists|]. apply tc_once. by exists k.
  - intros [Hx (n & Hn & Hs)%tc_nsteps]. destruct n as [|n]; [lia|]. pose proof (path_short _ _ _ _ (tree_acyclic _ _ Hok) Hs) as Hlen.
    apply nsteps_inv_r in Hs as (p & Hs & (k & Hk & <- & Hc & _ & Hct & Hcases)%ok_edge). subst x. rewrite Hx in Hct. injection Hct as Hct.
    exists k. split; [done|]. apply elem_of_filter_bool. rewrite bool_decide_eq_true. split; [|done].
    apply elem_of_container_contents. split_and!; [done|destruct Hcases as [[_ ?]|[? _]]; congruence|].
    exists d, n. split_and!; [by left|lia|done].
Qed.

Lemma elem_of_list_all_parent_dids d x : x ∈ list_all_parent_dids w d <-> tc (edge rows) x d.
Proof.
  unfold list_all_parent_dids. rewrite elem_of_parents_above, tc_nsteps. split.
  - intros (n & _ & Hs). exists (S n). split; [lia|done].
  - intros (n & Hn & Hs). destruct n as [|n]; [lia|]. exists n. split; [|done].
    apply path_short in Hs; [|apply (tree_acyclic _ _ Hok)]. unfold content_depth. lia.
Qed.

Lemma head_app {A} (l1 l2 : list A) : head (l1 ++ l2) = match head l1 with Some x => Some x | None => head l2 end.
Proof. by destruct l1. Qed.

(** The files in the order in which the data identifiers that hold them were attached *)
Fixpoint files_in_order (fuel : nat) (w : World) (did : DID) (t : DIDType) : list DID :=
  match fuel with
  | O => []
  | S fuel =>
      match t with
      | DATASET => c_child <$> contents_of w did
      | _ => concat ((fun c => files_in_order fuel w (c_child c) (c_child_type c)) <$> contents_of w did)
      end
  end.
Lemma concat_reversed {A B} (f g : A -> list B) l : (forall a, f a ≡ₚ g a) -> concat (f <$> l) ≡ₚ concat (g <$> reverse l).
Proof.
  intros Hfg. induction l as [|a l IH]; [done|]. rewrite reverse_cons, fmap_app, concat_app. simpl. rewrite app_nil_r, IH, Hfg. apply Permutation_app_comm.
Qed.
Lemma files_in_order_perm f d t : files_in_order f w d t ≡ₚ files_under f w d t.
Proof. revert d t. induction f as [|f IH]; intros d t; [done|]. destruct t; simpl; try done; apply concat_reversed; intros c; apply IH. Qed.

Lemma oldest_is_head f d t :
  types w !! d = Some t -> t <> FILE -> oldest_file_under f w d = head (files_in_order f w d t).
Proof.
  revert d t. induction f as [|f IH]; intros d t Ht Hfile; [done|]. rewrite oldest_file_under_S.
  destruct (decide (t = DATASET)) as [->|Hset].
  - cbn [files_in_order]. destruct (contents_of w d) as [|c l] eqn:Hl; [done|]. simpl.
    assert (c ∈ contents_of w d) as Hc by (rewrite Hl; by left). pose proof (child_type _ _ Hc) as Hct.
    apply edge_of, ok_edge in Hc as (k & _ & _ & _ & Hp & Hk & Hcases). rewrite Ht in Hp. rewrite Hct in Hk.
    destruct Hcases as [[? Hf]|[? _]]; [|congruence]. injection Hk as ->. by rewrite Hf.
  - transitivity (head (concat ((fun c => files_in_order f w (c_child c) (c_child_type c)) <$> contents_of w d))); [|by destruct t].
    assert (forall c, c ∈ contents_of w d -> types w !! c_child c = Some (c_child_type c) /\ c_child_type c <> FILE) as Hcs.
    { intros c Hc. pose proof (child_type _ _ Hc) as Hct. split; [done|]. apply edge_of, ok_edge in Hc as (k & _ & _ & _ & Hp & Hk & Hcases).
      destruct Hcases as [[? _]|[_ ?]]; congruence. }
    induction (contents_of w d) as [|c l IHl]; [done|]. cbn [first_file fmap list_fmap concat]. rewrite head_app.
    destruct (Hcs c (list_elem_of_here _ _)) as [Hc Hcf].
    assert (first_file (fun c => oldest_file_under f w (c_child c)) l
      = head (concat ((fun c => files_in_order f w (c_child c) (c_child_type c)) <$> l))) as Hrest.
    { apply IHl. intros c' Hc'. apply Hcs. by right. }
    rewrite <-(IH _ _ Hc Hcf), Hrest.
    assert (forall t', c_child_type c = t' -> t' <> DATASET -> t' <> CONTAINER -> oldest_file_under f w (c_child c) = None) as Hnone.
    { intros t' Ht' ? ?. destruct f as [|f']; [done|]. rewrite oldest_file_under_S. by rewrite (leaf_contents (c_child c) t') by congruence. }
    destruct (c_child_type c) eqn:Hty; try done; by rewrite (Hnone _ eq_refl).
Qed.
End walks.
