(* ===== verification/HierarchyKept.v ===== *)
(** * What happens to data identifiers keeps the hierarchy

    Every operation on data identifiers keeps the invariant of [HierarchyFacts.v]: datasets hold
    files, containers hold what is no file, each child once, and nothing holds itself. *)

From stdpp Require Import relations.
From S2P Require Import Prelude StateError PyString Types Database Role RseSelector LockTables RuleGrouping RuleEngine RuleRepair RuleEvents RuleDemo Hierarchy Deletion DeletionFacts HierarchyFacts.

#[local] Open Scope list_scope.

(** ** What the hierarchy depends on *)

Definition tview (w : World) : gmap DID DIDType * list Content := (types w, w_contents w).
Definition still (v : gmap DID DIDType * list Content) (w : World) : Prop := tview w = v.

Lemma still_ok v w w' : still v w -> still v w' -> hierarchy_ok w -> hierarchy_ok w'.
Proof. unfold still, tview, hierarchy_ok. intros <- Hw. injection Hw as -> ->. done. Qed.

Lemma types_alter f did w : (forall d, d_type (f d) = d_type d) -> types (upd_w_dids (alter f did) w) = types w.
Proof.
  intros Hf. unfold types. apply map_eq. intros k. cbn [w_dids upd_w_dids]. rewrite !lookup_fmap.
  destruct (decide (k = did)) as [->|]; [rewrite lookup_alter_eq|by rewrite lookup_alter_ne]. destruct (w_dids w !! did); simpl; by rewrite ?Hf.
Qed.

Lemma types_imap f w : (forall k d, exists d', f k d = Some d' /\ d_type d' = d_type d) -> types (upd_w_dids (map_imap f) w) = types w.
Proof.
  intros Hf. unfold types. apply map_eq. intros k. cbn [w_dids upd_w_dids]. rewrite !lookup_fmap, map_lookup_imap.
  destruct (w_dids w !! k) as [d|]; [|done]. simpl. destruct (Hf k d) as (d' & -> & Hd). by rewrite <-Hd.
Qed.

Lemma types_lookup w did d : w_dids w !! did = Some d -> types w !! did = Some (d_type d).
Proof. intros Hd. unfold types. by rewrite lookup_fmap, Hd. Qed.

Lemma still_modify v f : (forall w, types (f w) = types w) -> (forall w, w_contents (f w) = w_contents w) -> preserves (still v) (modifyS f).
Proof. intros Ht Hc. apply preserves_modify. intros w <-. unfold still, tview. by rewrite Ht, Hc. Qed.

Lemma still_message v m : preserves (still v) (add_message m).
Proof. by apply still_modify. Qed.

Lemma still_alter v f did : (forall d, d_type (f d) = d_type d) -> preserves (still v) (modifyS (upd_w_dids (alter f did))).
Proof. intros Hf. apply still_modify; [|done]. intros w. by apply types_alter. Qed.

#[local] Hint Resolve still_message still_alter preserves_ret preserves_raise preserves_gets preserves_lift preserves_when : hierarchy.

(** What keeps the view keeps the invariant. *)
Lemma still_preserves {A} (m : ST World A) : (forall v, preserves (still v) m) -> preserves hierarchy_ok m.
Proof.
  intros Hm w Hok. eapply wp_mono; [by apply (Hm (tview w))|intros a w' Hw'|intros e w' Hw']; by apply (still_ok (tview w) w).
Qed.

Lemma wpo_result (m : ST World unit) (I : World -> Prop) w w' : wpo m (fun _ => I) w -> m w = (Ok tt, w') -> I w'.
Proof. unfold wpo, wp. intros Hw Hm. by rewrite Hm in Hw. Qed.

Lemma preserves_wpo {A} (I : World -> Prop) (m : ST World A) w : preserves I m -> I w -> wpo m (fun _ => I) w.
Proof. intros Hm Hw. eapply wp_mono; [by apply Hm|done|done]. Qed.

(** ** Adding and detaching *)

Lemma add_did_hierarchy did t account lifetime : preserves hierarchy_ok (add_did did t account lifetime).
Proof.
  unfold add_did. apply preserves_if; [apply preserves_raise|]. apply preserves_bind; [apply preserves_gets|]. intros t0.
  intros w Hok. unfold wp at 1, bindS at 1, getsS at 1. cbn beta iota.
  destruct (w_dids w !! did) as [d|] eqn:Hd; [done|]. unfold bindS at 1, getsS at 1. cbn beta iota.
  destruct (scopes (w_session w) !! did.1); [|done]. unfold bindS at 1, modifyS at 1. cbn beta iota.
  set (w' := upd_w_dids _ w). assert (hierarchy_ok w') as Hok'.
  { unfold hierarchy_ok. eapply tree_weaken; [|reflexivity|exact Hok]. unfold w', types. cbn [w_dids upd_w_dids].
    rewrite fmap_insert. apply insert_subseteq. by rewrite lookup_fmap, Hd. }
  destruct t; try done; by apply (still_preserves _ (fun v => still_message v _)).
Qed.

Lemma detach_did_hierarchy parent child : preserves hierarchy_ok (detach_did parent child).
Proof.
  unfold detach_did. apply preserves_bind; [apply preserves_gets|]. intros [d|]; [|apply preserves_raise].
  apply preserves_if; [|apply preserves_raise]. apply preserves_bind; [by apply preserves_modify|]. intros [].
  apply preserves_if; [apply preserves_raise|]. apply preserves_bind; [apply preserves_gets|]. intros [c|]; [|apply preserves_raise].
  apply preserves_bind; [apply still_preserves; intros v; by apply still_alter|]. intros [].
  apply preserves_bind; [apply preserves_modify|intros []].
  - intros w Hok. unfold hierarchy_ok. eapply tree_weaken; [reflexivity| |exact Hok]. cbn [w_contents upd_w_contents].
    induction (w_contents w) as [|k l IH]; simpl; [constructor|]. destruct (negb _); by constructor.
  - apply still_preserves. intros v. apply preserves_bind; [by apply still_modify|intros []]. apply preserves_bind; auto with hierarchy.
Qed.

(** ** Attaching *)

Lemma children_of_NoDup dids : NoDup (a_did <$> children_of dids).
Proof.
  unfold children_of. set (keys := rev (remove_dups (rev (a_did <$> dids)))).
  assert (NoDup keys) as Hkeys by (unfold keys; rewrite <-Permutation_rev; apply NoDup_remove_dups).
  eapply sublist_NoDup; [exact Hkeys|]. clear Hkeys. induction keys as [|k keys IH]; simpl; [constructor|].
  destruct (last (List.filter (fun a => bool_decide (a_did a = k)) dids)) as [a|] eqn:Ha; simpl; [|by constructor].
  apply last_Some_elem_of, elem_of_filter_bool in Ha as [_ <-%bool_decide_eq_true]. by constructor.
Qed.

(** The rows of a dataset's new files *)
Definition file_row (v : gmap DID DIDType * list Content) (parent : DID) (c : Content) : Prop :=
  c_parent c = parent /\ c_parent_type c = DATASET /\ c_child_type c = FILE /\ v.1 !! c_child c = Some FILE.

Lemma file_to_add_rows v parent ignore a w :
  still v w -> wpo (file_to_add parent ignore a)
    (fun rows w' => still v w' /\ (rows = [] \/ exists c, rows = [c] /\ c_child c = a_did a /\ file_row v parent c)) w.
Proof.
  intros Hv. unfold file_to_add. apply wpo_bind. unfold wpo at 1. apply wp_gets.
  destruct (w_dids w !! a_did a) as [d|] eqn:Hd; [|done]. apply wpo_bind. unfold wpo at 1, wp, liftS. simpl.
  destruct (d_lost d); [done|]. destruct (decide (d_type d = FILE)) as [Hf|]; [|by rewrite bool_decide_false].
  rewrite bool_decide_true by done. simpl. destruct (mismatch a d); [done|]. apply wpo_bind. unfold wpo at 1. apply wp_gets.
  destruct (ignore && _); [split; [done|by left]|]. apply wpo_bind.
  eapply wpo_mono; [apply (preserves_wpo (still v)); [auto with hierarchy|done]|]. intros [] w' Hw'. split; [done|right].
  eexists. split_and!; [done..|]. unfold file_row. simpl. split_and!; [done..|]. rewrite <-Hv. simpl.
  rewrite (types_lookup w _ d Hd). by rewrite Hf.
Qed.

Lemma files_to_add_rows v parent ignore files w :
  still v w -> wpo (concatS (file_to_add parent ignore) files)
    (fun rows w' => still v w' /\ c_child <$> rows `sublist_of` a_did <$> files /\ forall c, c ∈ rows -> file_row v parent c) w.
Proof.
  revert w. induction files as [|a files IH]; intros w Hv; simpl.
  { split_and!; [done|constructor|]. by intros c ?%elem_of_nil. }
  apply wpo_bind. eapply wpo_mono; [by apply file_to_add_rows|]. intros rows w1 [H1 Hrows]. cbn beta. apply wpo_bind.
  eapply wpo_mono; [by apply IH|]. intros rest w2 (H2 & Hsub & Hrest). split; [done|].
  destruct Hrows as [->|(c & -> & Hc & Hrow)]; simpl.
  - split; [by apply sublist_cons|done].
  - rewrite Hc. split; [by apply sublist_skip|]. intros c' [->|Hc']%elem_of_cons; auto.
Qed.

Lemma insert_contents_hierarchy e rows p w :
  hierarchy_ok w -> NoDup (c_child <$> rows) ->
  (forall c, c ∈ rows -> c_parent c = p /\ row_ok (types w) c /\ ~ rtc (edge (w_contents w)) (c_child c) p) ->
  wpo (insert_contents e rows) (fun _ => hierarchy_ok) w.
Proof.
  intros Hok Hdup Hrows. unfold insert_contents. apply wpo_bind. unfold wpo at 1. apply wp_gets.
  destruct (existsb _ rows) eqn:Hnew; [done|]. unfold wpo. apply wp_modify. unfold hierarchy_ok, id. cbn [w_contents upd_w_contents].
  apply (tree_grows _ _ _ p); [done|done|done|].
  intros c c' Hc Hc' Hk. unfold content_key in Hk. injection Hk as Hp Hch.
  apply not_true_iff_false in Hnew. apply Hnew, existsb_exists. exists c'. split; [by apply list_elem_of_In|].
  unfold attached_to. apply existsb_exists. exists c. split; [by apply list_elem_of_In|].
  unfold is_content. by rewrite !bool_decide_true.
Qed.

(** Nothing is below a file, and only containers are above containers. *)
Lemma file_below_nothing w f d : hierarchy_ok w -> types w !! f = Some FILE -> ~ tc (edge (w_contents w)) f d.
Proof.
  intros Hok Hf Htc. assert (exists z, edge (w_contents w) f z) as [z Hz] by (inv Htc; eauto).
  apply (ok_edge w Hok) in Hz as (k & _ & _ & _ & Hp & _ & [[? _]|[? _]]); congruence.
Qed.

Lemma above_container w c d :
  hierarchy_ok w -> tc (edge (w_contents w)) c d -> types w !! d = Some CONTAINER -> types w !! c = Some CONTAINER.
Proof.
  intros Hok. induction 1 as [c d Hcd|c z d Hcz _ IH]; intros Hd.
  - apply (ok_edge w Hok) in Hcd as (k & _ & _ & _ & Hp & Hc & [[? ?]|[Hcont ?]]); [congruence|]. by rewrite Hp, Hcont.
  - specialize (IH Hd). apply (ok_edge w Hok) in Hcz as (k & _ & _ & _ & Hp & Hc & [[? ?]|[Hcont ?]]); [congruence|]. by rewrite Hp, Hcont.
Qed.

Lemma add_files_to_dataset_hierarchy parent files ignore w :
  hierarchy_ok w -> types w !! parent = Some DATASET -> NoDup (a_did <$> files) ->
  wpo (add_files_to_dataset parent files ignore) (fun _ => hierarchy_ok) w.
Proof.
  intros Hok Hp Hdup. unfold add_files_to_dataset. apply wpo_bind.
  eapply wpo_mono; [by apply (files_to_add_rows (tview w))|]. intros rows w' (Hw' & Hsub & Hrows). cbn beta. apply wpo_bind.
  assert (hierarchy_ok w') as Hok' by (by apply (still_ok (tview w) w)).
  assert (types w' = types w /\ w_contents w' = w_contents w) as [Ht Hc] by (unfold still, tview in Hw'; by injection Hw').
  eapply wpo_mono; [apply (insert_contents_hierarchy _ _ parent)|]; [done|by eapply sublist_NoDup|..].
  - intros c (Hcp & Hcpt & Hcct & Hcc)%Hrows. simpl in Hcc. split; [done|]. rewrite Ht. split.
    + unfold row_ok. rewrite Hcp, Hcpt, Hcct. by split_and!.
    + intros [Heq|Htc]%rtc_tc; [congruence|]. apply (file_below_nothing w' _ _ Hok') in Htc; [done|by rewrite Ht].
  - intros [] w2 Hw2. exact Hw2.
Qed.

(** The checks of collections: one type, and none above the container *)
Lemma check_collections_some w parent ct collections t :
  check_collections w parent ct collections = Ok (Some t) ->
  (forall t', ct = Some t' -> t' = t) /\
  forall d, d ∈ collections -> types w !! d = Some t /\ t <> FILE /\ (t = CONTAINER -> d ∉ list_all_parent_dids w parent).
Proof.
  revert ct. induction collections as [|d ds IH]; intros ct; simpl.
  { intros [= ->]. split; [by intros ? [= ->]|]. by intros d ?%elem_of_nil. }
  destruct (w_dids w !! d) as [row|] eqn:Hd; [|done]. simpl. destruct (decide (d_type row = FILE)); [by rewrite bool_decide_true|].
  rewrite (bool_decide_false (d_type row = FILE)) by done.
  destruct (decide (default (d_type row) ct = d_type row)) as [Ht|]; [|by rewrite bool_decide_false]. rewrite Ht, bool_decide_true by done. simpl.
  destruct (bool_decide (d_type row = CONTAINER) && bool_decide (d ∈ list_all_parent_dids w parent)) eqn:Hcirc; [done|].
  intros [Hct Hds]%IH. specialize (Hct _ eq_refl). split; [by intros t' ->; simpl in Ht; congruence|].
  intros d' [->|Hd']%elem_of_cons; [|by apply Hds]. rewrite (types_lookup w d row Hd), Hct. split_and!; [done|congruence|].
  intros Hcont Hin. by rewrite !bool_decide_true in Hcirc by congruence.
Qed.

Lemma children_of_rows (mk : DID -> Content) (l : list DID) : (forall d, c_child (mk d) = d) -> c_child <$> (mk <$> l) = l.
Proof. intros Hmk. induction l as [|d l IH]; simpl; [done|]. rewrite Hmk. by f_equal. Qed.

Lemma add_collections_hierarchy parent collections ignore w :
  hierarchy_ok w -> types w !! parent = Some CONTAINER -> NoDup collections ->
  wpo (add_collections_to_container parent collections ignore) (fun _ => hierarchy_ok) w.
Proof.
  intros Hok Hp Hdup. unfold add_collections_to_container. destruct (decide (parent ∈ collections)) as [|Hself]; [by rewrite bool_decide_true|].
  rewrite bool_decide_false by done. apply wpo_bind. unfold wpo at 1. apply wp_gets. apply wpo_bind. unfold wpo at 1, id.
  apply wp_lift; [|done]. intros [t|] Hcheck; [|done]. apply check_collections_some in Hcheck as [_ Hds].
  set (new := List.filter _ collections).
  assert (new `sublist_of` collections) as Hnew by apply filter_sublist_of. apply wpo_bind.
  eapply wpo_mono; [apply (insert_contents_hierarchy _ _ parent w Hok)|].
  - rewrite children_of_rows by done. by eapply sublist_NoDup.
  - intros c (d & -> & Hd)%list_elem_of_fmap. assert (d ∈ collections) as Hin by (by eapply sublist_subseteq).
    destruct (Hds d Hin) as (Hdt & Hfile & Hcirc). split; [done|]. split; [by split_and!|]. simpl.
    intros [->|Htc]%rtc_tc; [done|]. pose proof (above_container w d parent Hok Htc Hp) as Hcont.
    assert (t = CONTAINER) as Ht by congruence. by apply (Hcirc Ht), (elem_of_list_all_parent_dids w Hok).
  - intros [] w' Hok'. apply (preserves_wpo hierarchy_ok); [|done]. apply preserves_for.
    intros d _. apply still_preserves. auto with hierarchy.
Qed.

(** New constituents are files that were not there. *)
Definition constituent_row (w : World) (r : DID * option DIDRow) : Prop :=
  forall d, r.2 = Some d -> d_type d = FILE /\ w_dids w !! r.1 = None.

Lemma constituent_to_add_rows archive account ignore a w :
  wpo (constituent_to_add archive account ignore a) (fun rows w' => w' = w /\ forall r, r ∈ rows -> constituent_row w r) w.
Proof.
  unfold constituent_to_add. apply wpo_bind. unfold wpo at 1. apply wp_gets.
  destruct (ignore && _); [split; [done|]; by intros r ?%elem_of_nil|].
  apply wpo_bind. unfold wpo at 1. apply wp_gets. destruct (w_dids w !! a_did a) as [d|] eqn:Hd.
  - destruct (negb _); [done|]. split; [done|]. by intros r ->%list_elem_of_singleton d'.
  - apply wpo_bind. unfold wpo at 1. apply wp_lift; [|done]. intros b _. split; [done|].
    intros r ->%list_elem_of_singleton d' [= <-]. by split.
Qed.

Lemma constituents_to_add_rows archive account ignore files w :
  wpo (concatS (constituent_to_add archive account ignore) files) (fun rows w' => w' = w /\ forall r, r ∈ rows -> constituent_row w r) w.
Proof.
  induction files as [|a files IH]; simpl; [split; [done|]; by intros r ?%elem_of_nil|].
  apply wpo_bind. eapply wpo_mono; [apply constituent_to_add_rows|]. intros rows w1 [-> Hrows]. cbn beta.
  apply wpo_bind. eapply wpo_mono; [apply IH|]. intros rest w2 [-> Hrest]. split; [done|].
  intros r [Hr|Hr]%elem_of_app; auto.
Qed.

Lemma add_files_to_archive_hierarchy archive files account ignore w :
  hierarchy_ok w -> wpo (add_files_to_archive archive files account ignore) (fun _ => hierarchy_ok) w.
Proof.
  intros Hok. unfold add_files_to_archive. apply wpo_bind. eapply wpo_mono; [apply constituents_to_add_rows|].
  intros rows w1 [-> Hrows]. cbn beta. apply wpo_bind. unfold wpo at 1. apply wp_gets. unfold id. destruct (existsb _ rows); [done|].
  apply wpo_bind. unfold wpo at 1. apply wp_modify. set (w1 := upd_w_dids _ w).
  assert (hierarchy_ok w1) as Hok1.
  { unfold hierarchy_ok. eapply tree_weaken; [|reflexivity|exact Hok]. unfold w1, types. cbn [w_dids upd_w_dids].
    clear w1. induction rows as [|[k [d|]] rows IH]; simpl; [done| |].
    - rewrite fmap_insert. apply insert_subseteq_r; [|apply IH; intros r Hr; apply Hrows; by right].
      destruct (Hrows _ (list_elem_of_here _ _) d eq_refl) as [_ Hk]. simpl in Hk. by rewrite lookup_fmap, Hk.
    - apply IH. intros r Hr. apply Hrows. by right. }
  apply (preserves_wpo hierarchy_ok); [|done]. apply still_preserves. intros v.
  assert (forall g, (forall k d, exists d', g k d = Some d' /\ d_type d' = d_type d) -> preserves (still v) (modifyS (upd_w_dids (map_imap g)))) as Himap.
  { intros g Hg. apply still_modify; [|done]. intros w2. by apply types_imap. }
  apply preserves_bind; [by apply still_modify|]. intros []. apply preserves_bind.
  - apply preserves_when, Himap. intros k d. eexists. split; [done|]. by destruct (bool_decide _).
  - intros []. apply preserves_when, still_modify; [|done]. intros w2. apply types_imap.
    intros k d. eexists. split; [done|]. by destruct (_ || _).
Qed.

Lemma attach_one_hierarchy parent dids account ignore w :
  hierarchy_ok w -> wpo (attach_one parent dids account ignore) (fun _ => hierarchy_ok) w.
Proof.
  intros Hok. unfold attach_one. apply wpo_bind. unfold wpo at 1. apply wp_gets.
  destruct (w_dids w !! parent) as [d|] eqn:Hd; [|done]. apply wpo_bind. unfold wpo at 1, wp, liftS. simpl.
  pose proof (types_lookup w parent d Hd) as Ht. pose proof (children_of_NoDup dids) as Hdup. destruct (bool_decide (d_type d = FILE)).
  { destruct (is_archive _); [|done]. apply wpo_bind. eapply wpo_mono; [by apply add_files_to_archive_hierarchy|]. by intros [] w' Hw'. }
  destruct (negb _); [done|]. destruct (d_type d); try done; apply wpo_bind.
  - eapply wpo_mono; [by apply add_files_to_dataset_hierarchy|]. by intros cont w' Hw'.
  - eapply wpo_mono; [by apply add_collections_hierarchy|]. by intros [] w' Hw'.
Qed.

Lemma attach_all_hierarchy attachments account ignore parents w :
  hierarchy_ok w -> wpo (attach_all attachments account ignore parents) (fun _ => hierarchy_ok) w.
Proof.
  revert parents w. induction attachments as [|[parent dids] attachments IH]; intros parents w Hok; [done|].
  simpl. apply wpo_bind. eapply wpo_mono; [by apply attach_one_hierarchy|]. intros [more|] w' Hw'; [by apply IH|done].
Qed.

(** ** Statuses *)

Ltac still_step :=
  lazymatch goal with
  | |- preserves _ (bindS _ _) => apply preserves_bind; [|intros ?]
  | |- preserves _ skipS => apply preserves_ret
  | |- preserves _ (whenS _ _) => apply preserves_when
  | |- preserves _ (forS _ _) => apply preserves_for; intros ? _
  | |- preserves _ (if ?b then _ else _) => destruct b
  | |- preserves _ (match ?x with _ => _ end) => destruct x
  | |- preserves _ _ => solve [auto with hierarchy]
  end.
Ltac stills := intros; repeat still_step.

Lemma still_pure v {A} (f : World -> result A) : preserves (still v) (fun w => (f w, w)).
Proof. intros w Hw. unfold wp. by destruct (f w). Qed.
Lemma still_the_rule v id : preserves (still v) (the_rule id).
Proof. unfold the_rule, rule_row, scalar_one. stills. Qed.
Lemma still_rse_name v rse : preserves (still v) (get_rse_name rse).
Proof. unfold get_rse_name. stills. Qed.
#[local] Hint Resolve still_pure still_the_rule still_rse_name : hierarchy.
Lemma still_when_closed v did m : preserves (still v) m -> preserves (still v) (when_closed did m).
Proof. intros Hm. unfold when_closed, if_found. apply preserves_try; [stills|]. intros [] k [= <-]. stills. Qed.
#[local] Hint Resolve still_when_closed : hierarchy.
Lemma still_notify v rule keys : preserves (still v) (notify_closed_datasets rule keys).
Proof.
  induction keys as [|[did rse] keys IH]; simpl; [stills|]. apply preserves_bind; [stills|]. intros w.
  destruct (did_open w did) as [[]|[]]; stills.
Qed.
Lemma still_notifications v id n : preserves (still v) (generate_rule_notifications id n).
Proof.
  unfold generate_rule_notifications. apply preserves_bind; [stills|]. intros rule.
  destruct (ru_state rule), (ru_notification rule); stills; try apply still_notify; apply still_when_closed; stills.
Qed.
#[local] Hint Resolve still_notifications : hierarchy.

Lemma set_new_did_hierarchy did flag : preserves hierarchy_ok (set_new_did did flag).
Proof.
  apply still_preserves. intros v. unfold set_new_did. apply preserves_bind; [apply preserves_gets|]. intros [d|]; [by apply still_alter|apply preserves_raise].
Qed.

Lemma set_status_hierarchy reevaluate did is_open : preserves hierarchy_ok (set_status reevaluate did is_open).
Proof.
  apply still_preserves. intros v. unfold set_status. apply preserves_bind; [stills|]. intros w.
  assert (forall flag, preserves (still v) (set_new_did did flag)) by (unfold set_new_did; stills).
  assert (forall g, preserves (still v) (modifyS (upd_w_dataset_locks g))) by (intros; by apply still_modify). stills.
Qed.

(** ** Deleting *)

(** Attachments may go, and data identifiers that nothing attached refers to. *)
Lemma tree_restrict m m' l l' :
  l' `sublist_of` l -> (forall c, c ∈ l' -> m' !! c_parent c = m !! c_parent c /\ m' !! c_child c = m !! c_child c) ->
  tree_ok m l -> tree_ok m' l'.
Proof.
  intros Hl Hm Hok. destruct (tree_weaken m m l l' (reflexivity m) Hl Hok) as [Hrows Huniq Hacyc]. split; [|done|done].
  intros c Hc. destruct (Hrows c Hc) as (Hp & Hch & Ht). destruct (Hm c Hc) as [Hpm Hcm]. split_and!; [by rewrite Hpm|by rewrite Hcm|done].
Qed.

Lemma hierarchy_filter f w : hierarchy_ok w -> hierarchy_ok (upd_w_contents (List.filter f) w).
Proof. apply tree_restrict; [apply filter_sublist_of|done]. Qed.

Lemma detach_upwards_hierarchy fuel children acc : preserves hierarchy_ok (detach_upwards fuel children acc).
Proof.
  revert children acc. induction fuel as [|fuel IH]; intros [|child children] acc; simpl;
    [apply preserves_ret|apply preserves_raise|apply preserves_ret|].
  apply preserves_bind; [apply preserves_gets|]. intros w. destruct (foldl _ _ _) as [messages incomplete].
  apply preserves_bind; [by apply preserves_modify|]. intros _. apply preserves_bind; [|intros _; apply IH].
  apply preserves_modify. intros w'. apply hierarchy_filter.
Qed.

Lemma delete_dids_hierarchy gone : preserves hierarchy_ok (delete_dids gone).
Proof.
  intros w Hok. apply wp_bind, wp_gets. change (id w) with w. destruct (existsb (referenced w) gone) eqn:Href; [done|].
  apply wp_bind, wp_modify, wp_bind, wp_modify, wp_modify. eapply tree_restrict; [| |exact Hok]; [apply filter_sublist_of|].
  intros c (Hc & Hchild)%elem_of_filter_bool. cbn in Hc. apply negb_true_iff, bool_decide_eq_false in Hchild.
  assert (c_parent c ∉ gone) as Hparent.
  { intros Hin. apply not_true_iff_false in Href. apply Href, existsb_elem. exists (c_parent c). split; [done|].
    unfold referenced. rewrite !orb_true_iff. do 6 left. apply existsb_elem. exists c. by rewrite bool_decide_true. }
  assert (forall did, did ∉ gone -> types (upd_w_dids (filter (fun kv => kv.1 ∉ gone)) w) !! did = types w !! did) as Hsame.
  { intros did Hdid. unfold types. cbn. rewrite !lookup_fmap. f_equal. destruct (w_dids w !! did) as [d|] eqn:Hd.
    - by apply map_lookup_filter_Some_2.
    - apply map_lookup_filter_None. by left. }
  split; by apply Hsame.
Qed.

Lemma still_set_dids v g : (forall did d, d_type (g did d) = d_type d) -> preserves (still v) (modifyS (upd_w_dids (map_imap (fun did d => Some (g did d))))).
Proof. intros Hg. apply still_modify; [|done]. intros w. apply types_imap. intros k d. eauto. Qed.
Lemma set_incomplete_hierarchy l : preserves hierarchy_ok (set_incomplete l).
Proof. apply still_preserves. intros v. apply still_set_dids. intros did d. by case_match. Qed.
Lemma set_not_archive_hierarchy l : preserves hierarchy_ok (set_not_archive l).
Proof.
  apply still_preserves. intros v. apply still_modify; [|done]. intros w. apply types_imap. intros k d. eexists. split; [done|]. by case_match.
Qed.

Lemma delete_found_hierarchy gone messages : preserves hierarchy_ok (delete_found gone messages).
Proof.
  destruct gone as [|g gone]; [apply preserves_ret|]. apply preserves_bind.
  { apply preserves_bind; [apply preserves_gets|]. intros w. cbv zeta. destruct (_ || _ || _); [apply preserves_raise|by apply preserves_modify]. }
  intros _. apply preserves_bind; [by apply preserves_modify|]. intros _. apply delete_dids_hierarchy.
Qed.

Lemma cleanup_hierarchy remove_open_did fuel rse files : preserves hierarchy_ok (cleanup_after_replica_deletion remove_open_did fuel rse files).
Proof.
  revert files. induction fuel as [|fuel IH]; intros files; [apply preserves_raise|]. cbn [cleanup_after_replica_deletion].
  apply preserves_bind; [by apply preserves_bind; [apply preserves_gets|]; intros w; apply preserves_modify|]. intros _.
  apply preserves_bind; [apply preserves_gets|]. intros w. apply preserves_bind; [apply detach_upwards_hierarchy|]. intros d.
  apply preserves_bind; [by apply preserves_modify|]. intros _. apply preserves_bind; [apply set_incomplete_hierarchy|]. intros _.
  apply preserves_bind; [apply preserves_gets|]. intros w'. apply preserves_bind.
  { apply preserves_bind; [apply preserves_gets|]. intros w''. apply preserves_bind; [by apply preserves_modify|]. intros _.
    apply preserves_bind; [by apply preserves_modify|]. intros _. apply preserves_ret. }
  intros removed. apply preserves_bind; [by apply preserves_for|]. intros _. apply preserves_bind; [apply delete_found_hierarchy|].
  intros _. apply preserves_for. intros l _. apply set_not_archive_hierarchy.
Qed.

Lemma delete_replicas_hierarchy remove_open_did rse files ignore : preserves hierarchy_ok (delete_replicas remove_open_did rse files ignore).
Proof.
  destruct files as [|f files]; [apply preserves_ret|]. unfold delete_replicas. apply preserves_bind.
  { apply preserves_bind; [apply preserves_gets|]. intros o. apply preserves_lift. }
  intros row. destruct (_ && _); [apply preserves_raise|]. destruct (negb _); [apply preserves_raise|].
  apply preserves_bind; [by apply preserves_modify|]. intros _. apply preserves_bind; [apply preserves_gets|]. intros found.
  apply preserves_bind; [apply preserves_gets|]. intros w. apply preserves_bind.
  { apply preserves_for. intros j _. by apply preserves_modify. }
  intros _. destruct (negb _); [apply preserves_raise|]. apply preserves_bind; [by apply preserves_modify|]. intros _.
  apply preserves_bind; [apply cleanup_hierarchy|]. intros _. by apply preserves_modify.
Qed.

(** ** The hierarchy over time *)

Inductive did_event :=
  | Add (did : DID) (t : DIDType) (account : InternalType) (lifetime : option Z)
  | Attach (attachments : list (DID * list Attached)) (account : InternalType) (ignore_duplicate : bool)
  | Detach (parent child : DID)
  | SetNew (did : DID) (flag : bool)
  | SetOpen (reevaluate : bool) (did : DID) (is_open : bool)
  | DeleteReplicas (remove_open_did : bool) (rse_id : string) (files : list DID) (ignore_availability : bool).

Definition run_did (e : did_event) : ST World unit :=
  match e with
  | Add did t account lifetime => add_did did t account lifetime
  | Attach attachments account ignore => attach_dids_to_dids attachments account ignore
  | Detach parent child => detach_did parent child
  | SetNew did flag => set_new_did did flag
  | SetOpen reevaluate did is_open => set_status reevaluate did is_open
  | DeleteReplicas remove_open_did rse_id files ignore => delete_replicas remove_open_did rse_id files ignore
  end.

(** An operation that raises is rolled back.  New files are registered with their replicas, and what
    does not concern data identifiers happens in between. *)
Inductive did_step : World -> World -> Prop :=
  | Runs e w w' : run_did e w = (Ok tt, w') -> did_step w w'
  | NewFile did d w : w_dids w !! did = None -> d_type d = FILE -> did_step w (upd_w_dids <[did := d]> w)
  | Elsewhere w w' : w_dids w' = w_dids w -> w_contents w' = w_contents w -> did_step w w'.

Lemma run_did_hierarchy e w : hierarchy_ok w -> wpo (run_did e) (fun _ => hierarchy_ok) w.
Proof.
  intros Hok. destruct e; simpl; [|by apply attach_all_hierarchy|..]; (apply (preserves_wpo hierarchy_ok); [|done]).
  - apply add_did_hierarchy.
  - apply detach_did_hierarchy.
  - apply set_new_did_hierarchy.
  - apply set_status_hierarchy.
  - apply delete_replicas_hierarchy.
Qed.

Lemma did_step_hierarchy w w' : hierarchy_ok w -> did_step w w' -> hierarchy_ok w'.
Proof.
  intros Hok Hstep. destruct Hstep as [e w w' He|did d w Hnew Hd|w w' Hd Hc].
  - eapply (wpo_result (run_did e)); [by apply run_did_hierarchy|exact He].
  - eapply tree_weaken; [|reflexivity|exact Hok]. unfold types. cbn [w_dids upd_w_dids]. rewrite fmap_insert.
    apply insert_subseteq. by rewrite lookup_fmap, Hnew.
  - unfold hierarchy_ok, types. by rewrite Hd, Hc.
Qed.

(** C24: Whatever data identifiers are added, attached, detached, opened and closed, whatever replicas are
    deleted with what becomes empty then, and whatever happens elsewhere, a sound hierarchy stays sound: what is attached are data identifiers of the
    recorded types, datasets hold files, containers hold no files, no child is held twice by the
    same parent, and no container is, on any level, in itself. *)
Theorem hierarchy_kept w w' :
  hierarchy_ok w -> rtc did_step w w' ->
  (forall c, c ∈ w_contents w' ->
     types w' !! c_parent c = Some (c_parent_type c) /\ types w' !! c_child c = Some (c_child_type c) /\
     (c_parent_type c = DATASET /\ c_child_type c = FILE \/ c_parent_type c = CONTAINER /\ c_child_type c <> FILE)) /\
  NoDup (content_key <$> w_contents w') /\ (forall d, ~ tc (edge (w_contents w')) d d).
Proof.
  intros Hok Hsteps. assert (hierarchy_ok w') as [Hrows Huniq Hacyc].
  { induction Hsteps; [done|]. eauto using did_step_hierarchy. }
  split_and!; [|done|done]. intros c Hc. destruct (Hrows c Hc) as (Hp & Hch & Ht).
  split_and!; [done..|]. destruct (c_parent_type c); auto; done.
Qed.

(** C26: In a sound hierarchy the walks end: going deeper than the number of attachments finds
    nothing more, neither for the files of a data identifier, nor for its oldest file, its parents or the
    contents of containers. *)
Theorem hierarchy_walks_end w fuel d t parents :
  hierarchy_ok w -> content_depth w <= fuel ->
  files_under fuel w d t = files_under (content_depth w) w d t /\
  oldest_file_under fuel w d = oldest_file_under (content_depth w) w d /\
  parents_above fuel w d = list_all_parent_dids w d /\
  container_contents fuel w parents = container_contents (content_depth w) w parents.
Proof.
  intros Hok Hle. pose proof (depth_enough w Hok) as Hd. split_and!.
  - by apply files_under_enough; [apply Hd|].
  - by apply oldest_file_under_enough; [apply Hd|].
  - by apply parents_above_enough; [apply Hd|].
  - apply container_contents_enough; [|done]. intros d' _. apply Hd.
Qed.

(** C25: In a sound hierarchy, the parents of a data identifier on all levels are what holds it, on
    any level; its files are the files it holds on any level (a file is its own); its child datasets
    are the datasets it holds on any level, each once; and the oldest file is the first of its files in the
    order in which things were attached, of those of the first child that has any, and so on; the listing gives the
    same files from a stack, those of the last child first. *)
Theorem hierarchy_walks_exact w d row :
  hierarchy_ok w -> w_dids w !! d = Some row ->
  (forall p, p ∈ list_all_parent_dids w d <-> tc (edge (w_contents w)) p d) /\
  (exists files, list_files w d = Ok files /\
  (forall f, f ∈ files <-> types w !! f = Some FILE /\ rtc (edge (w_contents w)) d f) /\
  (d_type row <> FILE -> files_in_order (content_depth w) w d (d_type row) ≡ₚ files /\
     oldest_file_under (content_depth w) w d = head (files_in_order (content_depth w) w d (d_type row)))) /\
  NoDup (list_child_datasets w d) /\
  (forall ds, ds ∈ list_child_datasets w d <-> types w !! ds = Some DATASET /\ tc (edge (w_contents w)) d ds).
Proof.
  intros Hok Hd. pose proof (types_lookup w d row Hd) as Ht.
  split_and!; [intros; by apply elem_of_list_all_parent_dids| |apply NoDup_remove_dups|intros; by apply elem_of_list_child_datasets].
  destruct (depth_enough w Hok d) as [Hdeep _]. unfold list_files. set (n := content_depth w) in *. clearbody n.
  rewrite Hd. simpl. eexists. split; [done|]. destruct (decide (d_type row = FILE)) as [Hf|Hf].
  - rewrite bool_decide_true by done. split; [|done]. intros f. rewrite list_elem_of_singleton. split.
    + intros ->. split; [congruence|done].
    + intros [_ [Heq|Htc]%rtc_tc]; [done|]. exfalso. eapply file_below_nothing; [done| |exact Htc]. congruence.
  - rewrite bool_decide_false by done. split; [|by intros _; split; [apply files_in_order_perm|apply oldest_is_head]].
    intros f. rewrite (elem_of_files_under w Hok) by done. split.
    + intros [? ?]. split; [done|]. by apply tc_rtc.
    + intros [Hfile [Heq|?]%rtc_tc]; [congruence|done].
Qed.

(** ** An example *)

#[local] Open Scope string_scope.
#[local] Open Scope list_scope.

(** Where every child ranks below its parent there is no cycle. *)
Lemma ranked_acyclic (rank : DID -> nat) l :
  (forall c, c ∈ l -> rank (c_child c) < rank (c_parent c)) -> forall d, ~ tc (edge l) d d.
Proof.
  intros Hrank. enough (forall x y, tc (edge l) x y -> rank y < rank x) as Htc by (intros d Hd%Htc; lia).
  induction 1 as [x y (k & Hk & <- & <-)|x y z (k & Hk & <- & <-) _ IH]; [by apply Hrank|]. pose proof (Hrank k Hk). lia.
Qed.

(** The dataset of [RuleDemo.v], with two containers that hold nothing yet *)
Definition demo_tree : World :=
  upd_w_dids (fun m => <[("data", "cont") := demo_did CONTAINER]> (<[("data", "top") := demo_did CONTAINER]> m)) demo_world.
Definition attached (did : DID) : Attached := MkAttached did None None None.
Definition put (parent child : DID) : did_event := Attach [(parent, [attached child])] alice false.
Definition demo_tree1 : World := (run_did (put ("data", "cont") ("data", "ds")) demo_tree).2.
Definition demo_tree2 : World := (run_did (put ("data", "top") ("data", "cont")) demo_tree1).2.

Lemma demo_tree_ok : hierarchy_ok demo_tree.
Proof.
  split.
  - intros c Hc. unfold demo_tree in Hc. cbn in Hc. apply elem_of_cons in Hc as [->|Hc]; [by vm_compute|].
    apply elem_of_cons in Hc as [->|Hc%elem_of_nil]; [by vm_compute|done].
  - by apply (bool_decide_unpack _); vm_compute.
  - apply (ranked_acyclic (fun d => if bool_decide (d = ("data", "ds")) then 1 else 0)).
    intros c Hc. unfold demo_tree in Hc. cbn in Hc. apply elem_of_cons in Hc as [->|Hc]; [by vm_compute; lia|].
    apply elem_of_cons in Hc as [->|Hc%elem_of_nil]; [by vm_compute; lia|done].
Qed.

Lemma demo_tree1_step : did_step demo_tree demo_tree1.
Proof. apply (Runs (put ("data", "cont") ("data", "ds"))). by vm_compute. Qed.
Lemma demo_tree2_step : did_step demo_tree1 demo_tree2.
Proof. apply (Runs (put ("data", "top") ("data", "cont"))). by vm_compute. Qed.
Lemma demo_tree2_ok : hierarchy_ok demo_tree2.
Proof. eauto using did_step_hierarchy, demo_tree_ok, demo_tree1_step, demo_tree2_step. Qed.

(** No cycle can be made: the container that holds the other is not attached to it. *)
Example circular : (run_did (put ("data", "cont") ("data", "top")) demo_tree2).1 = Err UnsupportedOperation.
Proof. by vm_compute. Qed.

Lemma hierarchy_kept_witness :
  hierarchy_ok demo_tree /\ rtc did_step demo_tree demo_tree2 /\ length (w_contents demo_tree2) = 4 /\
  ~ tc (edge (w_contents demo_tree2)) ("data", "top") ("data", "top").
Proof.
  assert (rtc did_step demo_tree demo_tree2) as Hsteps.
  { eapply rtc_l; [apply demo_tree1_step|]. apply rtc_once, demo_tree2_step. }
  split_and!; [apply demo_tree_ok|done|by vm_compute|].
  destruct (hierarchy_kept demo_tree demo_tree2 demo_tree_ok Hsteps) as (_ & _ & Hacyc). apply Hacyc.
Defined.

Lemma hierarchy_walks_end_witness :
  hierarchy_ok demo_tree2 /\ content_depth demo_tree2 <= 9 /\
  files_under 9 demo_tree2 ("data", "top") CONTAINER = [("data", "f1"); ("data", "f2")] /\
  files_under 9 demo_tree2 ("data", "top") CONTAINER = files_under (content_depth demo_tree2) demo_tree2 ("data", "top") CONTAINER.
Proof.
  assert (content_depth demo_tree2 <= 9) as Hle by (vm_compute; lia).
  split_and!; [apply demo_tree2_ok|done|by vm_compute|].
  apply (hierarchy_walks_end demo_tree2 9 ("data", "top") CONTAINER [] demo_tree2_ok Hle).
Defined.

Lemma hierarchy_walks_exact_witness :
  hierarchy_ok demo_tree2 /\ is_Some (w_dids demo_tree2 !! ("data", "top")) /\
  list_all_parent_dids demo_tree2 ("data", "ds") = [("data", "cont"); ("data", "top")] /\
  list_child_datasets demo_tree2 ("data", "top") = [("data", "ds")] /\
  tc (edge (w_contents demo_tree2)) ("data", "top") ("data", "ds").
Proof.
  assert (exists row, w_dids demo_tree2 !! ("data", "top") = Some row) as [row Hrow] by (vm_compute; eauto).
  split_and!; [apply demo_tree2_ok|by eexists|by vm_compute|by vm_compute|].
  destruct (hierarchy_walks_exact demo_tree2 _ row demo_tree2_ok Hrow) as (_ & _ & _ & Hds).
  apply Hds. by vm_compute; left.
Defined.

(** An attachment to an archive ends the whole call: the rules of the data identifiers attached to
    before it are not evaluated, and nothing is attached to those after it. *)
Example archive_ends_attachments :
  let w := upd_w_dids (fun m => <[("data", "new") := demo_did DATASET]> (<[("data", "f.zip") := demo_did FILE]> m)) demo_tree in
  let m := attach_dids_to_dids [(("data", "new"), [attached ("data", "f1")]); (("data", "f.zip"), [attached ("data", "f2")]);
                                (("data", "cont"), [attached ("data", "ds")])] alice false in
  (m w).1 = Ok tt /\ contents_of (m w).2 ("data", "new") <> [] /\ w_archive_contents (m w).2 = [(("data", "f.zip"), ("data", "f2"))] /\
  w_updated_dids (m w).2 = [] /\ contents_of (m w).2 ("data", "cont") = [].
Proof. by vm_compute. Qed.
(** The dots of [tar.gz] and [tar.Z] are any character. *)
Example archives : is_archive <$> ["f.zip"; "f.TAR.GZ.1"; "f.targz"; "zip"; "f.root"] = [true; true; true; false; false].
Proof. by vm_compute. Qed.
