(* ===== verification/UndertakerFacts.v ===== *)
(** * What is left of expired data identifiers

    Deleting data identifiers keeps the invariants of rules and of the hierarchy, and removes exactly
    their rules, their attachments and the rows of collections. *)

From S2P Require Import Prelude StateError Counting Types Database Role RseSelector LockTables RuleGrouping RuleEngine RuleInvariant RuleEvents RuleLosses RuleRepair RuleDemo Deletion DeletionFacts Undertaker UndertakerInvariant FinisherFacts HierarchyFacts HierarchyKept.

(** ** What deleting a rule leaves alone *)

(** The data identifiers of the rules *)
Definition rule_dids (w : World) : gmap string DID := ru_did <$> w_rules w.
Definition did_tables (w : World) : gmap DID DIDRow * list Content * gmap (DID * string) DIDType := (w_dids w, w_contents w, w_collection_replicas w).

Lemma delete_rule_tables id purge soft parent ignore : leaves did_tables (delete_rule id purge soft parent ignore).
Proof. leaves. Qed.

Lemma rule_dids_alter f id : (forall r, ru_did (f r) = ru_did r) -> leaves rule_dids (alter_rule f id).
Proof.
  intros Hf. apply leaves_modify. intros w. unfold rule_dids. cbn [w_rules upd_w_rules]. apply map_eq. intros k. rewrite !lookup_fmap.
  destruct (decide (k = id)) as [->|]; [rewrite lookup_alter_eq|by rewrite lookup_alter_ne]. destruct (w_rules w !! id); simpl; by rewrite ?Hf.
Qed.
#[local] Hint Extern 1 (leaves rule_dids (alter_rule _ _)) => apply rule_dids_alter; reflexivity : leaves.
Lemma rule_dids_lock purge i : leaves rule_dids (delete_rule_lock purge i).
Proof. leaves. Qed.

(** A step that leaves a part of the world alone, before the rest *)
Lemma wpo_leaves {T A B} (g : World -> T) (m : ST World A) (f : A -> ST World B) Q w :
  leaves g m -> (forall a w', g w' = g w -> wpo (f a) Q w') -> wpo (bindS m f) Q w.
Proof. intros Hm Hf. apply wpo_bind. eapply wpo_mono; [by eapply wp_mono; [apply (Hm (g w))| |]|]. intros a w'. apply Hf. Qed.
Lemma wpo_same {T A} (g : World -> T) (m : ST World A) w : leaves g m -> wpo m (fun _ w' => g w' = g w) w.
Proof. intros Hm. by eapply wp_mono; [apply (Hm (g w))| |]. Qed.

Lemma delete_rule_dids id purge parent ignore w :
  wpo (delete_rule id purge false parent ignore) (fun _ w' => rule_dids w' = delete id (rule_dids w)) w.
Proof.
  apply (wpo_leaves rule_dids); [leaves|]. intros row w1 <-. apply (wpo_leaves rule_dids); [leaves; done|]. intros r w2 <-.
  destruct (_ && _); [done|]. destruct (_ && _); [done|].
  apply (wpo_leaves rule_dids); [leaves|]. intros _ w3 <-. apply (wpo_leaves rule_dids); [leaves; done|]. intros locks w4 <-.
  apply (wpo_leaves rule_dids); [apply leaves_concat; intros i; apply rule_dids_lock|]. intros gone w5 <-.
  do 4 (apply (wpo_leaves rule_dids); [leaves|]; intros _ ?w <-). apply wpo_modify.
  eapply wpo_mono; [apply (wpo_same rule_dids); leaves|]. intros _ w9 ->. unfold rule_dids. cbn [w_rules upd_w_rules]. by rewrite fmap_delete.
Qed.

Lemma expire_rule_dids id purge parent ignore : leaves rule_dids (delete_rule id purge true parent ignore).
Proof. unfold delete_rule. leaves. Qed.

(** ** The loop over the rules *)

Definition keyed_rules (w : World) : Prop := forall id r, w_rules w !! id = Some r -> ru_id r = id.
Definition small (size : Z) (expire : bool) (rules : list Rule) : list string := ru_id <$> List.filter (fun r => negb (too_large size expire r)) rules.

(** The hierarchy and the replicas of collections *)
Definition collections_view (w : World) : gmap DID DIDType * list Content * gmap (DID * string) DIDType := (types w, w_contents w, w_collection_replicas w).
Lemma set_lifetime_leaves did s : leaves (fun w => (rule_dids w, collections_view w)) (set_lifetime did s).
Proof.
  unfold set_lifetime. apply leaves_bind; [by apply leaves_pure|]. intros w. destruct (bool_decide _); [|by apply leaves_pure].
  apply leaves_modify. intros w'. unfold collections_view. by rewrite types_alter.
Qed.
Lemma tables_collections {A} (m : ST World A) : leaves did_tables m -> leaves collections_view m.
Proof. intros Hm. eapply leaves_via; [exact Hm|]. intros w w' [= Hd Hc Hr]. unfold collections_view, types. by rewrite Hd, Hc, Hr. Qed.

(** What is left when rules are removed, and whether there were large ones *)
Lemma remove_rules_spec size expire keep rules w :
  wpo (remove_rules size expire keep rules) (fun b w' =>
    b = existsb (too_large size expire) rules /\
    rule_dids w' = foldl (fun m id => delete id m) (rule_dids w) (small size expire rules) /\ collections_view w' = collections_view w /\
    (b = false -> w_dids w' = w_dids w)) w.
Proof.
  revert w. induction rules as [|r rules IH]; intros w; [done|]. simpl. unfold small. cbn [List.filter].
  destruct (too_large size expire r) eqn:Hr; cbn [negb orb fmap list_fmap foldl].
  - apply (wpo_leaves (fun w => (rule_dids w, collections_view w))).
    { apply leaves_bind; [|intros _; apply set_lifetime_leaves]. apply leaves_pair; [apply expire_rule_dids|apply tables_collections, delete_rule_tables]. }
    intros _ w1 [= Hd Ht Hc Hr1]. apply wpo_bind. eapply wpo_mono; [apply IH|]. intros b w2 (_ & Hd2 & Hc2 & _). apply wp_ret.
    rewrite Hd2, Hc2, Hd. unfold collections_view. by rewrite Ht, Hc, Hr1.
  - apply wpo_bind. eapply wpo_mono.
    { apply wpo_and; [apply delete_rule_dids|apply (wpo_same did_tables), delete_rule_tables]. }
    cbn beta. intros _ w1 [Hd Ht]. apply wpo_bind. eapply wpo_mono; [apply IH|]. intros b w2 (-> & Hd2 & Hc2 & Hs2). apply wp_ret.
    injection Ht as H1 H2 H3. rewrite Hd2, Hc2, Hd. unfold collections_view, types. rewrite H1, H2, H3. split_and!; [done..|].
    intros Hb. by rewrite Hs2.
Qed.

(** ** Large rules expire *)

(** A rule is there, expires within an hour of [t] and has no child rule any more; a data identifier
    expires a day after [t]. *)
Definition rule_expires (t : Z) (rule_id : string) (w : World) : Prop :=
  exists r e, w_rules w !! rule_id = Some r /\ ru_child_rule_id r = None /\ ru_expires_at r = Some e /\ (e <= t + 3600)%Z.
Definition did_expires (t : Z) (did : DID) (w : World) : Prop :=
  exists d, w_dids w !! did = Some d /\ d_expired_at d = Some (t + 3600 * 24)%Z.

Definition expiry (rule_id : string) (w : World) : option (option Z * option string) :=
  (fun r => (ru_expires_at r, ru_child_rule_id r)) <$> w_rules w !! rule_id.
Lemma expires_leaves {A} t id (m : ST World A) : leaves (expiry id) m -> preserves (rule_expires t id) m.
Proof.
  intros Hm w (r & e & Hr & Hc & He & Hle).
  assert (forall w', expiry id w' = expiry id w -> rule_expires t id w') as Hsame.
  { unfold expiry. intros w' H. rewrite Hr in H. simpl in H. destruct (w_rules w' !! id) as [r'|] eqn:Hr'; simplify_eq/=. exists r', e. by split_and!; congruence. }
  eapply wp_mono; [by apply (Hm (expiry id w))|intros ? w'|intros ? w']; apply Hsame.
Qed.
Lemma expiry_alter_other f id id' : id <> id' -> leaves (expiry id) (alter_rule f id').
Proof. intros Hne. apply leaves_modify. intros w. unfold expiry. cbn [w_rules upd_w_rules]. by rewrite lookup_alter_ne. Qed.
#[local] Hint Extern 1 (leaves (expiry _) (alter_rule _ _)) => by apply expiry_alter_other : leaves.
Lemma expiry_lock id purge i : leaves (expiry id) (delete_rule_lock purge i).
Proof. leaves. Qed.

Lemma release_keeps_expiry t id id' b : preserves (rule_expires t id) (release_parent_rule id' b).
Proof.
  unfold release_parent_rule. intros w Hw. apply wp_bind, wp_gets. apply (preserves_for (rule_expires t id)); [|exact Hw].
  intros k ([k' r] & Hin%elem_of_map_to_list & Hk)%list_elem_of_omap. destruct Hw as (r' & e & Hr & Hc & _). simpl in Hk.
  apply expires_leaves. assert (id <> k) by (case_bool_decide; simplify_eq/=; intros ->; congruence). leaves.
Qed.

(** Deleting another rule *)
Lemma delete_rule_keeps_expiry t id id' purge soft parent ignore :
  id <> id' -> preserves (rule_expires t id) (delete_rule id' purge soft parent ignore).
Proof.
  intros Hne. unfold delete_rule. do 2 (apply preserves_bind; [apply expires_leaves; leaves|intros ?]).
  destruct (_ && _); [apply preserves_raise|]. destruct (_ && _); [apply preserves_raise|].
  apply preserves_bind; [apply expires_leaves; leaves|intros _]. destruct soft; [apply expires_leaves; leaves|].
  do 2 (apply preserves_bind; [apply expires_leaves; first [leaves|apply leaves_concat; intros; apply expiry_lock]|intros ?]).
  do 2 (apply preserves_bind; [apply expires_leaves; leaves|intros ?]). apply preserves_bind; [apply release_keeps_expiry|intros _].
  apply expires_leaves. apply leaves_bind; [leaves|intros _]. apply leaves_bind; [|intros _; leaves].
  apply leaves_modify. intros w. unfold expiry. cbn [w_rules upd_w_rules]. by rewrite lookup_delete_ne.
Qed.

Lemma expire_rule_expires t id purge ignore w :
  now (w_session w) = t -> wpo (delete_rule id purge true true ignore) (fun _ => rule_expires t id) w.
Proof.
  intros Ht. unfold delete_rule. apply wpo_bind, wp_gets, wpo_bind, wp_lift; [|done]. intros r Hr.
  destruct (w_rules w !! id) as [r'|] eqn:Hrow; simplify_eq/=. destruct (ru_locked r && _); [done|]. rewrite andb_false_r.
  set (u := match purge with Some b => alter_rule (upd_ru_purge_replicas (fun _ => b)) id | None => skipS end).
  assert (wpo u (fun _ w1 => now (w_session w1) = now (w_session w) /\ expiry id w1 = expiry id w) w) as Hu.
  { subst u. unfold expiry. destruct purge; apply wp_modify || apply wp_ret; cbn [w_rules w_session upd_w_rules]; [|done]. rewrite lookup_alter_eq, Hrow. done. }
  apply wpo_bind. eapply wpo_mono; [exact Hu|]. cbn beta. intros _ w1 [Hn1 He1]. unfold expiry in He1. rewrite Hrow in He1.
  destruct (w_rules w1 !! id) as [r1|] eqn:Hr1; [|done]. injection He1 as He1 Hc1. apply wpo_bind, wp_gets, wpo_modify. rewrite Hn1.
  set (w2 := upd_w_rules _ w1). assert (w_rules w2 !! id = Some (upd_ru_expires_at (fun e => Some (match e with Some e => Z.min (now (w_session w) + 3600) e | None => now (w_session w) + 3600 end)%Z) r1)) as Hr2.
  { subst w2. cbn [w_rules upd_w_rules]. by rewrite lookup_alter_eq, Hr1. }
  assert (forall e, exists e', match e with Some e => Z.min (now (w_session w) + 3600) e | None => (now (w_session w) + 3600)%Z end = e' /\ (e' <= now (w_session w) + 3600)%Z) as Hle.
  { intros [e|]; eexists; (split; [done|lia]). }
  destruct (Hle (ru_expires_at r1)) as (e' & He' & Hle').
  apply wpo_bind. rewrite andb_true_r. destruct (bool_decide_reflect (is_Some (ru_child_rule_id r))) as [Hchild|Hchild].
  - apply wp_modify. apply (preserves_wpo (rule_expires (now (w_session w)) id)); [apply expires_leaves; leaves|].
    eexists _, e'. cbn [w_rules upd_w_rules]. rewrite lookup_alter_eq, Hr2. split; [reflexivity|]. cbn. by rewrite He'.
  - apply wp_ret. apply (preserves_wpo (rule_expires (now (w_session w)) id)); [apply expires_leaves; leaves|].
    eexists _, e'. split; [exact Hr2|]. cbn. rewrite He', Hc1. split_and!; [by apply eq_None_not_Some|done|done].
Qed.

Lemma remove_rules_keep_expiry t id size expire keep rules :
  id ∉ ru_id <$> rules -> preserves (rule_expires t id) (remove_rules size expire keep rules).
Proof.
  induction rules as [|r rules IH]; [intros _; apply preserves_ret|]. intros [Hne Hid]%not_elem_of_cons. simpl.
  apply preserves_bind; [|intros _; apply preserves_bind; [by apply IH|intros b; apply preserves_ret]].
  destruct (too_large size expire r); [|by apply delete_rule_keeps_expiry].
  apply preserves_bind; [by apply delete_rule_keeps_expiry|intros _; apply expires_leaves; leaves].
Qed.

Lemma set_lifetime_expires did did' w :
  did_expires (now (w_session w)) did w -> wpo (set_lifetime did' (3600 * 24)) (fun _ w' => did_expires (now (w_session w)) did w' /\ w_session w' = w_session w) w.
Proof.
  intros (d & Hd & He). apply wpo_bind, wp_gets. unfold id. destruct (bool_decide _); [|done]. apply wp_modify. split; [|done].
  unfold did_expires. cbn [w_dids upd_w_dids]. destruct (decide (did = did')) as [->|]; [|rewrite lookup_alter_ne by done; eauto].
  rewrite lookup_alter_eq, Hd. eexists. split; [done|]. done.
Qed.
Definition session_and_dids (w : World) : Session * gmap DID DIDRow := (w_session w, w_dids w).
Lemma delete_rule_session id purge soft parent ignore : leaves session_and_dids (delete_rule id purge soft parent ignore).
Proof. leaves. Qed.

Lemma remove_rules_keep_lifetime size expire keep rules did w :
  did_expires (now (w_session w)) did w -> wpo (remove_rules size expire keep rules) (fun _ => did_expires (now (w_session w)) did) w.
Proof.
  revert w. induction rules as [|r rules IH]; intros w Hd; [done|]. simpl. apply wpo_bind.
  assert (wpo (if too_large size expire r then do! delete_rule (ru_id r) (Some (negb (bool_decide (ru_did r ∈ keep)))) true true false in set_lifetime (ru_did r) (3600 * 24)
               else delete_rule (ru_id r) (Some (negb (bool_decide (ru_did r ∈ keep)))) false true false)
            (fun _ w' => did_expires (now (w_session w)) did w' /\ w_session w' = w_session w) w) as Hstep.
  { destruct (too_large size expire r).
    - apply (wpo_leaves session_and_dids); [apply delete_rule_session|]. intros _ w1 [= Hs Hds]. unfold did_expires in Hd. rewrite <-Hs, <-Hds in *.
      eapply wpo_mono; [by apply set_lifetime_expires|]. cbn. intros _ w2 [? ->]. done.
    - eapply wpo_mono; [apply (wpo_same session_and_dids), delete_rule_session|]. cbn. intros _ w1 [= Hs Hds]. unfold did_expires in *. by rewrite Hs, Hds. }
  eapply wpo_mono; [exact Hstep|]. cbn. intros _ w1 [Hd1 Hs1]. apply wpo_bind. rewrite <-Hs1 in *. eapply wpo_mono; [by apply IH|]. done.
Qed.

(** After the loop every large rule expires, with its data identifier. *)
Lemma large_rules_expire size expire keep rules w :
  NoDup (ru_id <$> rules) ->
  wpo (remove_rules size expire keep rules) (fun _ w' => forall r, r ∈ rules -> too_large size expire r = true ->
    rule_expires (now (w_session w)) (ru_id r) w' /\ did_expires (now (w_session w)) (ru_did r) w') w.
Proof.
  revert w. induction rules as [|r rules IH]; intros w Hnd; [by intros r ?%elem_of_nil|]. apply NoDup_cons in Hnd as [Hid Hnd]. simpl.
  destruct (too_large size expire r) eqn:Hr.
  - apply wpo_bind, wpo_bind. eapply wpo_mono.
    { apply wpo_and; [by apply (expire_rule_expires (now (w_session w)))|apply (wpo_same session_and_dids), delete_rule_session]. }
    cbn beta. intros _ w1 [He1 [= Hs1 Hd1]]. apply wpo_bind, wp_gets. unfold id at 1. case_bool_decide as Hknown; [|done]. apply wp_modify.
    set (w2 := upd_w_dids _ w1). assert (rule_expires (now (w_session w)) (ru_id r) w2) as He2 by exact He1.
    assert (w_session w2 = w_session w) as Hs2 by exact Hs1.
    assert (did_expires (now (w_session w2)) (ru_did r) w2) as Hd2.
    { unfold did_expires, w2. cbn [w_dids w_session upd_w_dids]. destruct Hknown as [d Hd]. unfold id in Hd. rewrite lookup_alter_eq, Hd. eexists. split; [done|]. done. }
    apply wpo_bind. rewrite <-Hs2 in *. eapply wpo_mono.
    { apply wpo_and; [by apply IH|]. apply wpo_and; [apply (preserves_wpo _ _ _ (remove_rules_keep_expiry _ _ size expire keep rules Hid) He2)|by apply remove_rules_keep_lifetime]. }
    cbn beta. intros b w3 (Hrest & Hr3 & Hd3). apply wp_ret. intros r' [->|Hin]%elem_of_cons Hl; [done|]. by apply Hrest.
  - apply wpo_bind. eapply wpo_mono; [apply (wpo_same session_and_dids), delete_rule_session|]. cbn beta. intros _ w1 [= Hs1 _].
    apply wpo_bind. rewrite <-Hs1. eapply wpo_mono; [by apply IH|]. cbn beta. intros b w2 Hrest. apply wp_ret.
    intros r' [->|Hin]%elem_of_cons Hl; [congruence|]. by apply Hrest.
Qed.

(** ** Detaching and emptying *)

#[local] Hint Extern 1 (leaves types (modifyS (upd_w_dids (alter _ _)))) => apply leaves_modify; intros ?; by apply types_alter : leaves.
Lemma detach_did_leaves parent child : leaves (fun w => (w_rules w, types w, w_collection_replicas w)) (detach_did parent child).
Proof. apply leaves_pair; [apply leaves_pair|]; [leaves| |leaves]. unfold detach_did. leaves. Qed.

Lemma detach_did_contents parent child w :
  wpo (detach_did parent child) (fun _ w' => w_contents w' = List.filter (fun c => negb (is_content parent child c)) (w_contents w)) w.
Proof.
  unfold detach_did. apply wpo_bind, wp_gets. destruct (w_dids w !! parent) as [d|]; [|done]. destruct (_ || _); [|done].
  apply wpo_modify. destruct (bool_decide _); [done|]. apply wpo_bind, wp_gets. destruct (List.find _ _) as [c|]; [|done].
  do 3 apply wpo_modify. eapply wpo_mono; [apply (wpo_same w_contents); leaves|]. intros _ w' ->. done.
Qed.

Lemma filter_filter {A} (f g : A -> bool) l : List.filter f (List.filter g l) = List.filter (fun x => g x && f x) l.
Proof. induction l as [|x l IH]; simpl; [done|]. destruct (g x); simpl; by rewrite IH. Qed.

Lemma filter_true {A} (l : list A) : List.filter (fun _ => true) l = l.
Proof. induction l as [|x l IH]; simpl; [done|by rewrite IH]. Qed.

Lemma detach_loop l w :
  wpo (forS (fun c => detach_did (c_parent c) (c_child c)) l) (fun _ w' =>
    w_contents w' = List.filter (fun c => negb (existsb (fun a => is_content (c_parent a) (c_child a) c) l)) (w_contents w) /\
    (w_rules w', types w', w_collection_replicas w') = (w_rules w, types w, w_collection_replicas w)) w.
Proof.
  apply wpo_and; [|apply (wpo_same (fun w => (w_rules w, types w, w_collection_replicas w))), leaves_for; intros; apply detach_did_leaves].
  revert w. induction l as [|a l IH]; intros w; simpl.
  { apply wp_ret. symmetry. apply filter_true. }
  apply wpo_bind. eapply wpo_mono; [apply detach_did_contents|]. cbn beta. intros _ w1 Hw1. eapply wpo_mono; [apply IH|].
  cbn beta. intros _ w2 ->. rewrite Hw1, filter_filter. apply filter_ext. intros c. by rewrite negb_orb.
Qed.

Lemma detach_loop_empty l w : wpo (forS (fun c => detach_did (c_parent c) (c_child c)) l) (fun _ w' => l = [] -> w' = w) w.
Proof. destruct l; [done|]. by eapply wp_mono; [apply (preserves_True _ w)| |]. Qed.

Lemma attached_children dids w c : c ∈ w_contents w ->
  existsb (fun a => is_content (c_parent a) (c_child a) c) (attachments dids w) = bool_decide (c_child c ∈ dids).
Proof.
  intros Hc. apply eq_true_iff_eq. rewrite existsb_elem, bool_decide_eq_true. split.
  - intros (a & (_ & Ha%bool_decide_eq_true)%elem_of_filter_bool & [_ ->%bool_decide_eq_true]%andb_true_iff). done.
  - intros Hin. exists c. split; [|unfold is_content; by rewrite !bool_decide_true].
    apply elem_of_filter_bool. by rewrite bool_decide_true.
Qed.

Lemma filter_ext_elem {A} (f g : A -> bool) l : (forall x, x ∈ l -> f x = g x) -> List.filter f l = List.filter g l.
Proof. intros Hfg. apply filter_ext_in. intros x Hx. apply Hfg. by apply list_elem_of_In. Qed.

Lemma empty_collections_spec purge_all collections w :
  exists w', empty_collections purge_all collections w = (Ok tt, w') /\ w_rules w' = w_rules w /\ w_dids w' = w_dids w /\
    w_contents w' = List.filter (fun c => negb (bool_decide (c_parent c ∈ collections))) (w_contents w) /\
    w_collection_replicas w' = filter (fun x : (DID * string) * DIDType => x.1.1 ∉ collections) (w_collection_replicas w).
Proof. unfold empty_collections, whenS. destruct purge_all; eexists; (split; [reflexivity|done]). Qed.

(** ** The rows *)

Definition unexpired (d : DIDRow) : DIDRow := upd_d_expired_at (fun _ => None) d.
Definition final_row (files collections : list DID) (did : DID) (d : DIDRow) : option DIDRow :=
  if bool_decide (d_type d = FILE) then Some (if bool_decide (did ∈ files) then unexpired d else d)
  else if bool_decide (did ∈ collections) && is_collection (d_type d) then None else Some d.

Lemma elem_of_collection_rows collections w did d :
  w_dids w !! did = Some d -> did ∈ collection_rows collections w <-> did ∈ collections /\ is_collection (d_type d) = true.
Proof.
  intros Hd. unfold collection_rows. by rewrite elem_of_filter_bool, Hd.
Qed.

Lemma delete_rows_spec files collections w :
  (forall c, c ∈ w_contents w -> c_child c ∉ collections) ->
  wpo (delete_rows files collections) (fun _ w' =>
    w_rules w' = w_rules w /\ w_contents w' = w_contents w /\ w_collection_replicas w' = w_collection_replicas w /\
    forall did, w_dids w' !! did = w_dids w !! did ≫= final_row files collections did) w.
Proof.
  intros Hno. apply wpo_bind, wp_gets, wpo_bind, wp_bind, wp_gets. change (id w) with w. destruct (existsb _ _); [done|].
  apply wp_bind, wp_modify, wp_bind, wp_modify, wp_modify, wp_modify.
  cbn [w_rules w_contents w_dids w_collection_replicas upd_w_dids upd_w_archive_contents upd_w_contents]. split_and!; [done| |done|].
  - rewrite (filter_ext_elem _ (fun _ => true)); [apply filter_true|].
    intros c Hc. apply negb_true_iff, bool_decide_eq_false. intros [Hin _]%elem_of_filter_bool. by apply (Hno c).
  - intros did. rewrite map_lookup_imap. destruct (w_dids w !! did) as [d|] eqn:Hd.
    + pose proof (elem_of_collection_rows collections w did d Hd) as Hrow. unfold final_row. cbn [mbind option_bind].
      assert (did ∈ collection_rows collections w <-> bool_decide (did ∈ collections) && is_collection (d_type d) = true) as Hgone
        by (by rewrite Hrow, andb_true_iff, bool_decide_eq_true).
      clear Hrow. destruct (bool_decide_reflect (d_type d = FILE)) as [Hf|Hf].
      { rewrite (map_lookup_filter_Some_2 _ _ _ d Hd); [|cbn; rewrite Hgone, Hf; by intros [_ ?]%andb_true_iff].
        cbn. rewrite (bool_decide_true (_ = _)) by done. by rewrite andb_true_r. }
      destruct (bool_decide (did ∈ collections) && is_collection (d_type d)).
      * rewrite (proj2 (map_lookup_filter_None _ _ _)); [done|]. right. intros d' _ Hn. by apply Hn, Hgone.
      * rewrite (map_lookup_filter_Some_2 _ _ _ d Hd); [|cbn; by rewrite Hgone]. cbn. by rewrite (bool_decide_false (_ = _)), andb_false_r.
    + rewrite (proj2 (map_lookup_filter_None _ _ _)); [done|]. by left.
Qed.

(** ** What is deleted *)

Lemma lookup_foldl_delete {A} (ids : list string) (m : gmap string A) k :
  foldl (fun m id => delete id m) m ids !! k = if decide (k ∈ ids) then None else m !! k.
Proof.
  revert m. induction ids as [|i ids IH]; intros m; cbn [foldl]; [by rewrite decide_False by (intros ?%elem_of_nil; done)|].
  rewrite IH. destruct (decide (k ∈ ids)) as [Hk|Hk]; [by rewrite decide_True by (by right)|].
  destruct (decide (k = i)) as [->|Hne]; [rewrite decide_True by (by left); apply lookup_delete_eq|].
  rewrite decide_False by (rewrite elem_of_cons; naive_solver). by apply lookup_delete_ne.
Qed.

Section deleted.
Variables (size : Z) (expire : bool) (dids : list DID).

(** The rules that go at once *)
Definition doomed (r : Rule) : bool := bool_decide (ru_did r ∈ dids) && negb (too_large size expire r).
Definition undoomed (w : World) : gmap string DID := ru_did <$> filter (fun x : string * Rule => doomed x.2 = false) (w_rules w).

Lemma elem_of_rules_on w r : keyed_rules w -> r ∈ rules_on dids w <-> w_rules w !! ru_id r = Some r /\ ru_did r ∈ dids.
Proof.
  intros Hkey. unfold rules_on. rewrite elem_of_filter_bool, bool_decide_eq_true, list_elem_of_fmap. split.
  - intros [([id r'] & -> & Hr%elem_of_map_to_list) Hd]. cbn in *. by rewrite (Hkey id r' Hr).
  - intros [Hr Hd]. split; [|done]. exists (ru_id r, r). split; [done|]. by apply elem_of_map_to_list.
Qed.

Lemma rules_on_NoDup w : keyed_rules w -> NoDup (ru_id <$> rules_on dids w).
Proof.
  intros Hkey. unfold rules_on.
  assert (forall l : list (string * Rule), NoDup l.*1 -> (forall x, x ∈ l -> ru_id x.2 = x.1) ->
    NoDup (ru_id <$> List.filter (fun r => bool_decide (ru_did r ∈ dids)) l.*2)) as Hgen.
  { induction l as [|[k r] l IH]; intros Hnd Hl; simpl; [constructor|]. apply NoDup_cons in Hnd as [Hk Hnd].
    assert (NoDup (ru_id <$> List.filter (fun r => bool_decide (ru_did r ∈ dids)) l.*2)) as Hrest by (apply IH; [done|]; intros x Hx; apply Hl; by right).
    destruct (bool_decide _); [|done]. simpl. constructor; [|done]. intros (r' & Hr' & [Hin _]%elem_of_filter_bool)%list_elem_of_fmap.
    apply list_elem_of_fmap in Hin as ([k' r''] & -> & Hin). apply Hk, list_elem_of_fmap. exists (k', r''). split; [|done].
    pose proof (Hl (k, r) (list_elem_of_here _ _)) as E1. pose proof (Hl (k', r'') (list_elem_of_further _ _ _ Hin)) as E2. cbn in *. congruence. }
  apply Hgen; [apply NoDup_fst_map_to_list|]. intros [k r] Hin%elem_of_map_to_list. by apply Hkey.
Qed.

Lemma small_undoomed w : keyed_rules w ->
  foldl (fun m id => delete id m) (rule_dids w) (small size expire (rules_on dids w)) = undoomed w.
Proof.
  intros Hkey. apply map_eq. intros k. rewrite lookup_foldl_delete. unfold undoomed, rule_dids. rewrite !lookup_fmap.
  assert (k ∈ small size expire (rules_on dids w) <-> exists r, w_rules w !! k = Some r /\ doomed r = true) as Hsmall.
  { unfold small, doomed. rewrite list_elem_of_fmap. split.
    - intros (r & -> & (Hr & Hs)%elem_of_filter_bool). apply elem_of_rules_on in Hr as [Hr Hd]; [|done]. exists r. by rewrite bool_decide_true.
    - intros (r & Hr & [Hd%bool_decide_eq_true Hs]%andb_true_iff). exists r. rewrite (Hkey k r Hr). split; [done|].
      apply elem_of_filter_bool. split; [|done]. apply elem_of_rules_on; [done|]. by rewrite (Hkey k r Hr). }
  destruct (decide _) as [Hk|Hk].
  - apply Hsmall in Hk as (r & Hr & Hd). rewrite (proj2 (map_lookup_filter_None _ _ _)); [done|]. right. intros r' Hr' Hn. cbn in Hn. congruence.
  - destruct (w_rules w !! k) as [r|] eqn:Hr; [|by rewrite (proj2 (map_lookup_filter_None _ _ _)) by (by left)].
    rewrite (map_lookup_filter_Some_2 _ _ _ r Hr); [done|]. cbn. apply not_true_iff_false. intros Hd. apply Hk, Hsmall. eauto.
Qed.

(** The tables that deleting is about *)
Definition tables (w : World) : gmap string Rule * gmap DID DIDRow * list Content * gmap (DID * string) DIDType :=
  (w_rules w, w_dids w, w_contents w, w_collection_replicas w).
Lemma rules_on_tables w w' : tables w' = tables w -> rules_on dids w' = rules_on dids w.
Proof. unfold rules_on. by intros [= -> _ _ _]. Qed.
Lemma attachments_collections w w' : collections_view w' = collections_view w -> attachments dids w' = attachments dids w.
Proof. unfold attachments. by intros [= _ -> _]. Qed.
End deleted.

(** What is left when no rule stays *)
Lemma empty_and_delete purge_all unwanted w :
  let dids := un_did <$> unwanted in
  let files := files_of_unwanted unwanted in
  let collections := collections_of_unwanted unwanted in
  wpo (let! attached := getsS (attachments dids) in
       do! forS (fun c => detach_did (c_parent c) (c_child c)) attached in
       do! forget_bad files in
       do! empty_collections purge_all collections in
       if bool_decide (attached = []) then delete_rows files collections else skipS) (fun _ w' =>
    rule_dids w' = rule_dids w /\
    w_contents w' = List.filter (fun c => negb (bool_decide (c_child c ∈ dids)) && negb (bool_decide (c_parent c ∈ collections))) (w_contents w) /\
    w_collection_replicas w' = filter (fun x : (DID * string) * DIDType => x.1.1 ∉ collections) (w_collection_replicas w) /\
    if bool_decide (attachments dids w = []) then forall did, w_dids w' !! did = w_dids w !! did ≫= final_row files collections did
    else types w' = types w) w.
Proof.
  cbv zeta. set (dids := un_did <$> unwanted). set (files := files_of_unwanted unwanted). set (collections := collections_of_unwanted unwanted).
  apply wpo_bind, wp_gets, wpo_bind. eapply wpo_mono; [apply wpo_and; [apply detach_loop|apply detach_loop_empty]|].
  cbn beta. intros _ w1 ((Hc1 & [= Hr1 Ht1 Hp1]) & H1). apply wpo_bind, wp_modify.
  rewrite (filter_ext_elem _ (fun c => negb (bool_decide (c_child c ∈ dids)))) in Hc1.
  2: { intros c Hc. by rewrite attached_children. }
  set (w2 := upd_w_bad_replicas _ w1).
  destruct (empty_collections_spec purge_all collections w2) as (w3 & Hrun & Hr3 & Hd3 & Hc3 & Hp3).
  apply wpo_bind. unfold wpo at 1, wp. rewrite Hrun. change (w_contents w2) with (w_contents w1) in Hc3. rewrite Hc1, filter_filter in Hc3.
  change (w_collection_replicas w2) with (w_collection_replicas w1) in Hp3. rewrite Hp1 in Hp3.
  assert (rule_dids w3 = rule_dids w) as Hrd by (unfold rule_dids; rewrite Hr3; cbn; by rewrite Hr1).
  destruct (bool_decide_reflect (attachments dids w = [])) as [Ha|Ha].
  - eapply wpo_mono; [apply delete_rows_spec|].
    { intros c. rewrite Hc3. intros (_ & [Hn%negb_true_iff _]%andb_true_iff)%elem_of_filter_bool Hin. apply bool_decide_eq_false in Hn. apply Hn.
      apply list_elem_of_fmap in Hin as (u & -> & [Hu _]%elem_of_filter_bool). apply list_elem_of_fmap. eauto. }
    cbn beta. intros _ w4 (Hr4 & Hc4 & Hp4 & Hd4). unfold rule_dids. rewrite Hr4, Hc4, Hp4. split_and!; [exact Hrd|done..|].
    intros did. rewrite Hd4, Hd3. subst w2. cbn [w_dids upd_w_bad_replicas]. by rewrite (H1 Ha).
  - apply wp_ret. split_and!; [done..|]. unfold types in *. by rewrite Hd3.
Qed.

(** C7: Deleting data identifiers deletes exactly their rules, but for those that are too large to be
    deleted at once by the undertaker.  With one of these, every large rule stays but expires within an hour, without its
    child rule, and its data identifier expires a day later; the small rules are deleted, and data
    identifiers, their attachments and the replicas of collections stay.  Without one, nothing is attached to, or below, what is deleted, collections have no
    collection replicas, and
    all else stays. When something was attached, rows stay until the next time; otherwise
    the rows of the collections are gone, files stay and do not expire, and all other rows are as they were.
    Rules are stored under their ids. *)
Theorem delete_dids_exact size purge_all archive unwanted expire w w' :
  keyed_rules w -> delete_dids_and_rules size purge_all archive unwanted expire w = (Ok tt, w') ->
  let dids := un_did <$> unwanted in
  let files := files_of_unwanted unwanted in
  let collections := collections_of_unwanted unwanted in
  ru_did <$> w_rules w' = undoomed size expire dids w /\
  if existsb (too_large size expire) (rules_on dids w) then
    collections_view w' = collections_view w /\
    forall r, r ∈ rules_on dids w -> too_large size expire r = true ->
      rule_expires (now (w_session w)) (ru_id r) w' /\ did_expires (now (w_session w)) (ru_did r) w'
  else
    w_contents w' = List.filter (fun c => negb (bool_decide (c_child c ∈ dids)) && negb (bool_decide (c_parent c ∈ collections))) (w_contents w) /\
    w_collection_replicas w' = filter (fun x : (DID * string) * DIDType => x.1.1 ∉ collections) (w_collection_replicas w) /\
    if bool_decide (attachments dids w = []) then forall did, w_dids w' !! did = w_dids w !! did ≫= final_row files collections did
    else types w' = types w.
Proof.
  intros Hkey Hrun. cbv zeta. pattern w'. refine (wp_ok _ (fun _ : unit => _) (fun _ _ => True) w tt w' _ Hrun). clear Hrun. match goal with |- wp ?m ?Q _ w => change (wpo m Q w) end.
  unfold delete_dids_and_rules. cbv zeta. set (dids := un_did <$> unwanted). apply (wpo_leaves (fun w => (tables w, w_session w))); [unfold erase_message; leaves|].
  intros _ w1 [= Hr1 Hd1 Hc1 Hp1 Hs1]. assert (rules_on dids w1 = rules_on dids w) as H1 by (unfold rules_on; by rewrite Hr1).
  apply wpo_bind, wp_gets, wpo_bind. rewrite H1. eapply wpo_mono; [apply wpo_and; [apply remove_rules_spec|by apply large_rules_expire, rules_on_NoDup]|].
  cbn beta. intros b w2 [(-> & Hr2 & Hc2 & Hd2) Hlarge]. rewrite Hs1 in Hlarge.
  assert (rule_dids w2 = undoomed size expire dids w) as Hu by (rewrite Hr2; unfold rule_dids at 1; rewrite Hr1; by apply small_undoomed).
  assert (collections_view w2 = collections_view w) as Hv by (rewrite Hc2; unfold collections_view, types; by rewrite Hd1, Hc1, Hp1).
  destruct (existsb _ _); [by apply wp_ret|]. eapply wpo_mono; [apply empty_and_delete|]. cbv zeta beta. intros _ w3. subst dids.
  rewrite (attachments_collections _ w w2 Hv), (Hd2 eq_refl), Hd1. injection Hv as -> -> ->. unfold rule_dids in Hu. unfold rule_dids. by rewrite Hu.
Qed.

(** ** The invariants of rules and of the hierarchy *)

Section kept.
Variables (size : Z) (purge_all archive : bool).

Lemma collections_hierarchy w w' : collections_view w' = collections_view w -> hierarchy_ok w -> hierarchy_ok w'.
Proof. unfold hierarchy_ok. by intros [= -> -> _]. Qed.

Lemma delete_rows_hierarchy files collections : preserves hierarchy_ok (delete_rows files collections).
Proof.
  apply preserves_bind; [apply preserves_gets|]. intros rows. apply preserves_bind; [apply delete_dids_hierarchy|]. intros _.
  apply still_preserves. intros v. apply still_set_dids. intros did d. by case_match.
Qed.

Lemma delete_dids_and_rules_hierarchy unwanted expire w :
  hierarchy_ok w -> wpo (delete_dids_and_rules size purge_all archive unwanted expire) (fun _ => hierarchy_ok) w.
Proof.
  intros Hok. apply (wpo_leaves tables); [unfold erase_message; leaves|]. intros _ w1 H1.
  assert (hierarchy_ok w1) as Hok1 by (unfold hierarchy_ok, types; injection H1 as _ -> -> _; exact Hok).
  apply wpo_bind, wp_gets, wpo_bind. eapply wpo_mono; [apply remove_rules_spec|]. cbn beta. intros b w2 (_ & _ & Hv & _).
  apply (collections_hierarchy _ _ Hv) in Hok1. clear -Hok1. destruct b; [done|]. apply wpo_bind, wp_gets.
  apply preserves_wpo; [|done]. apply preserves_bind; [apply preserves_for; intros c _; apply detach_did_hierarchy|]. intros _.
  apply preserves_bind; [by apply preserves_modify|]. intros _. apply preserves_bind.
  { intros w Hw. destruct (empty_collections_spec purge_all (collections_of_unwanted unwanted) w) as (w' & Hrun & _ & Hd & Hc & _).
    unfold wp. rewrite Hrun. eapply tree_restrict; [rewrite Hc; apply filter_sublist_of| |exact Hw]. intros c _. unfold types. by rewrite Hd. }
  intros _. apply preserves_if; [apply delete_rows_hierarchy|apply preserves_ret].
Qed.

Lemma bury_ok chunk : preserves (fun w => engine_ok w /\ hierarchy_ok w) (bury size purge_all archive chunk).
Proof.
  intros w [He Hh]. pose proof (delete_dids_and_rules_ok size purge_all archive chunk true w He) as H1.
  pose proof (delete_dids_and_rules_hierarchy chunk true w Hh) as H2. unfold wpo, wp, bury in *.
  destruct (delete_dids_and_rules _ _ _ _ _ w) as [[[]|e] w']; [done|by destruct e].
Qed.

Lemma list_expired_dids_same (I : World -> Prop) purge_column bucket worker_number total_workers limit :
  preserves I (list_expired_dids purge_column bucket worker_number total_workers limit).
Proof. intros w Hw. unfold list_expired_dids, wp, bindS, getsS. by repeat destruct (_ && _) || destruct (bool_decide _). Qed.

(** C8: The undertaker always comes to an end, whatever fails on its way, and keeps the invariant of
    the rule engine and the hierarchy of data identifiers. *)
Theorem undertaker_keeps_invariants purge_column bucket worker_number total_workers chunk_size w :
  engine_ok w -> hierarchy_ok w ->
  exists w', run_once size purge_all archive purge_column bucket worker_number total_workers chunk_size w = (Ok tt, w') /\ engine_ok w' /\ hierarchy_ok w'.
Proof.
  intros He Hh. unfold run_once, tryS. set (work := bindS _ _).
  assert (preserves (fun w => engine_ok w /\ hierarchy_ok w) work) as Hwork.
  { apply preserves_bind; [apply list_expired_dids_same|]. intros l. by apply preserves_for; intros chunk _; apply bury_ok. }
  pose proof (Hwork w (conj He Hh)) as Hw. unfold wp in Hw. destruct (work w) as [[[]|e] w']; by exists w'.
Qed.
End kept.

(** ** Examples *)

#[local] Open Scope string_scope.

(** The dataset expired, below a container *)
Definition demo_expired : World := upd_w_dids (alter (upd_d_expired_at (fun _ => Some 10%Z)) ("data", "ds")) demo_tree1.
Definition demo_unwanted : list Unwanted := [MkUnwanted ("data", "ds") DATASET (Some true)].
Definition after_one : World := (delete_dids_and_rules 10000 false false demo_unwanted true demo_expired).2.
Definition after_two : World := (delete_dids_and_rules 10000 false false demo_unwanted true after_one).2.

Lemma undertaker_keeps_invariants_witness :
  engine_ok demo_expired /\ hierarchy_ok demo_expired /\
  exists w', run_once 10000 true false (fun _ => true) None 0 1 10 demo_expired = (Ok tt, w') /\ w_rules w' = ∅ /\ engine_ok w'.
Proof.
  assert (engine_ok demo_expired) as He by exact demo_ok. assert (hierarchy_ok demo_expired) as Hh.
  { pose proof (did_step_hierarchy _ _ demo_tree_ok demo_tree1_step). unfold hierarchy_ok, demo_expired. by rewrite types_alter. }
  split_and!; [done|done|].
  destruct (undertaker_keeps_invariants 10000 true false (fun _ => true) None 0 1 10 demo_expired He Hh) as (w' & Hrun & He' & _).
  exists w'. split_and!; [done| |done]. apply (f_equal (fun x => w_rules x.2)) in Hrun. cbn [snd] in Hrun. rewrite <-Hrun. by vm_compute.
Defined.

(** The first time the rule goes and the container loses the dataset, the second time the row goes. *)
Lemma delete_dids_exact_witness :
  keyed_rules demo_expired /\ keyed_rules after_one /\ w_rules after_one = ∅ /\ is_Some (w_dids after_one !! ("data", "ds")) /\
  w_dids after_two !! ("data", "ds") = None /\ is_Some (w_dids after_two !! ("data", "f1")).
Proof.
  assert (w_rules demo_expired = {[ "r1" := demo_rule ]}) as Hr1 by by vm_compute.
  assert (keyed_rules demo_expired) as H1 by (intros id r; rewrite Hr1; by intros [<- <-]%lookup_singleton_Some).
  assert (w_rules after_one = ∅) as Hr by by vm_compute.
  assert (keyed_rules after_one) as H2 by (intros id r; by rewrite Hr, lookup_empty).
  split_and!; [done..|by vm_compute; eexists| |by vm_compute; eexists].
  destruct (delete_dids_exact 10000 false false demo_unwanted true after_one after_two H2) as [_ Hd]; [by vm_compute|].
  destruct Hd as (_ & _ & Hd). rewrite Hd. by vm_compute.
Defined.
